(** * GDPA warp-specialized kernels
    (tritonbench/operators/gdpa/gdpa_blackwell_tlx.py)

    A shallow embedding of the scheduling arithmetic, the activation math,
    the partition programs and the host wrapper of the TLX GDPA kernels,
    followed by the properties proved about them.

    Conventions.
    - Kernel integers are modelled by [Z].  Inside [@triton.jit] code the
      operators [//] and [%] are the C ones (truncation towards zero), so
      they are [Z.quot] and [Z.rem]; in host Python code they are the
      flooring ones, [Z.div] and [Z.modulo], and so they are in
      expressions over [tl.constexpr] values only, which Python evaluates
      ([BLOCK_M // 2], [HEAD_DIM // 2]).
    - [tl.cdiv(x, d)] is [(x + d - 1) // d].
    - Tensor elements are modelled by real numbers: an f32 operation is the
      exact real one, [tanh.approx.f32] is [tanh], and a conversion between
      element types ([.to(dtype)]) is the identity.  Rounding is therefore
      outside the model.
    - A tile is a function from (row, column) inside the block to its
      element; the storage of a tensor is a function from the offset
      (in elements) from its data pointer to the element there. *)

From Stdlib Require Import String.
From Stdlib Require Import ZArith List Bool Lia FinFun Reals Lra.
Import ListNotations.
Local Open Scope Z_scope.

(* ================================================================== *)
(** ** Definitions *)
(* ================================================================== *)

(** *** Integer helpers of the kernels *)

(** [tl.cdiv] *)
Definition cdiv (x d : Z) : Z := Z.quot (x + d - 1) d.

(** [_get_bufidx_phase(accum_cnt, NUM_BUFFERS)]:
    [bufIdx = accum_cnt % NUM_BUFFERS],
    [phase = (accum_cnt // NUM_BUFFERS) & 1]. *)
Definition _get_bufidx_phase (accum_cnt NUM_BUFFERS : Z) : Z * Z :=
  let bufIdx := Z.rem accum_cnt NUM_BUFFERS in
  let phase := Z.land (Z.quot accum_cnt NUM_BUFFERS) 1 in
  (bufIdx, phase).

(** *** Tile scheduler (head of [gdpa_kernel_tma_ws_blackwell]) *)

(** [n_tile_num = tl.cdiv(N_CTX, BLOCK_M)] *)
Definition n_tile_num (N_CTX BLOCK_M : Z) : Z := cdiv N_CTX BLOCK_M.

(** [total_tiles = n_tile_num * Z * H] *)
Definition total_tiles (N_CTX BLOCK_M Zb H : Z) : Z :=
  n_tile_num N_CTX BLOCK_M * Zb * H.

(** [tiles_per_sm = total_tiles // num_progs;
     if prog_id < total_tiles % num_progs: tiles_per_sm += 1] *)
Definition tiles_per_sm (total num_progs prog_id : Z) : Z :=
  let t := Z.quot total num_progs in
  if prog_id <? Z.rem total num_progs then t + 1 else t.

(** The persistent loop of every partition:
    [tile_idx = prog_id; for idx in range(0, tiles_per_sm): body(tile_idx);
     tile_idx += num_progs].  The result lists the tile ids handed to the
     body, in order. *)
Fixpoint persistent_loop (iters : nat) (tile_idx num_progs : Z) : list Z :=
  match iters with
  | O => []
  | S k => tile_idx :: persistent_loop k (tile_idx + num_progs) num_progs
  end.

(** [range(0, n)] runs [n] times for [n >= 0] and not at all otherwise. *)
Definition range_len (n : Z) : nat := Z.to_nat n.

Definition unit_tiles (total num_progs prog_id : Z) : list Z :=
  persistent_loop (range_len (tiles_per_sm total num_progs prog_id))
                  prog_id num_progs.

(** *** Elementwise arithmetic helpers *)

(** [_mul_f32x2], [_add_f32x2], [_fma_f32x2]: packed f32 multiply, add and
    fused multiply-add. *)
Definition _mul_f32x2 (a b : R) : R := (a * b)%R.
Definition _add_f32x2 (a b : R) : R := (a + b)%R.
Definition _fma_f32x2 (a b c : R) : R := (a * b + c)%R.

(** [tanh_approx_fp32] *)
Definition tanh_approx_fp32 (x : R) : R := tanh x.

(** [.to(dtype)] *)
Definition to_dtype (x : R) : R := x.

(** [fast_gelu(x)] *)
Definition fast_gelu (x : R) : R :=
  let c1 := 0.0356774081%R in
  let c0 := 0.7978845608%R in
  let square := _mul_f32x2 x x in
  let inner := _fma_f32x2 c1 square c0 in
  let inner := _mul_f32x2 inner x in
  let out := _fma_f32x2 x (tanh_approx_fp32 inner) x in
  out.

Definition tile : Type := Z -> Z -> R.

(** [tlx.subslice(view, start, size)] along the columns. *)
Definition subslice (view : tile) (start : Z) : tile :=
  fun r c => view r (start + c).

(** *** Forward activation partitions

    Body of the inner loop of the two activation partitions of
    [gdpa_kernel_tma_ws_blackwell] (lines 445-482 and 590-629): the score
    view is read as two column halves, both go through the same chain of
    operations, and the results are stored to the two halves of the [p]
    view, which reuses the memory of the score view.  The kernel argument
    [activation_enum_int] is in scope but is not read. *)
Definition fwd_activation_half (qk : R) : R :=
  let c1 := 0.0356774081%R in
  let c0 := 0.7978845608%R in
  let square := _mul_f32x2 qk qk in
  let inner := _fma_f32x2 c1 square c0 in
  let inner0 := _mul_f32x2 inner qk in
  let p0 := _fma_f32x2 qk (tanh_approx_fp32 inner0) qk in
  to_dtype p0.

Definition fwd_activation_store
    (activation_enum_int HEAD_DIM : Z) (qk_view : tile) : tile :=
  let half := HEAD_DIM / 2 in
  let qk0 := subslice qk_view 0 in
  let qk1 := subslice qk_view half in
  fun r c =>
    if c <? half then fwd_activation_half (qk0 r c)
    else fwd_activation_half (qk1 r (c - half)).

(** *** Backward activation ([_gdpa_bwd_tlx_compute_activation])

    [gelu] and [gelu_grad] come from the module [.math], which is not among
    the sources; they are parameters of the definitions that call them. *)

(** [mask = offs_m[None, :] >= offs_n[:, None]; pT = tl.where(mask, pT, 0.0)] *)
Definition causal_where (offs_m offs_n : Z) (pT : R) : R :=
  if offs_m >=? offs_n then pT else 0%R.

(** [window_mask = tl.abs(offs_m[None, :] - offs_n[:, None]) <= WINDOW_SIZE;
     pT = tl.where(window_mask, pT, 0.0)] *)
Definition window_where (WINDOW_SIZE offs_m offs_n : Z) (pT : R) : R :=
  if Z.abs (offs_m - offs_n) <=? WINDOW_SIZE then pT else 0%R.

(** The two masking statements, as they appear before the activation
    (lines 1612-1619) and again before the product with [dpT]
    (lines 1653-1660). *)
Definition bwd_masks (MASK : bool) (WINDOW_SIZE : option Z)
    (offs_m offs_n : Z) (pT : R) : R :=
  let pT := if MASK then causal_where offs_m offs_n pT else pT in
  match WINDOW_SIZE with
  | Some w => window_where w offs_m offs_n pT
  | None => pT
  end.

Definition bwd_tanh_out (pT : R) : R :=
  tanh_approx_fp32 (0.7978845608 * pT * (1 + 0.044715 * pT * pT))%R.

(** Lines 1621-1632: the value stored to [ppT_tile]. *)
Definition bwd_ppT (gelu : R -> R) (activation_enum_int : Z) (pT : R) : R :=
  let ppT :=
    if activation_enum_int =? 0 then pT
    else if activation_enum_int =? 1 then gelu pT
    else if activation_enum_int =? 2 then
      (0.5 * pT * (1 + bwd_tanh_out pT))%R
    else pT in
  to_dtype ppT.

(** Lines 1637-1650: the derivative of the activation. *)
Definition bwd_grad (gelu_grad : R -> R) (activation_enum_int : Z) (pT : R)
    : R :=
  if activation_enum_int =? 0 then 1%R
  else if activation_enum_int =? 1 then gelu_grad pT
  else if activation_enum_int =? 2 then
    let tanh_out := bwd_tanh_out pT in
    (0.5 * pT * (1 - tanh_out * tanh_out)
       * (0.7978845608 + 0.1070322243 * pT * pT)
     + 0.5 * (1 + tanh_out))%R
  else 1%R.

Record bwd_elem : Type := {
  masked_score : R;   (* pT after the first masking, fed to the activation *)
  ppT_store : R;      (* stored to ppT_tile, the left operand of dV += ppT.dO *)
  masked_grad : R;    (* pT after the second masking, multiplied by dpT *)
  dsT_store : R       (* stored to dsT_tile *)
}.

(** One element of one iteration of the loop, at a position whose column
    carries [offs_m] and whose row carries [offs_n]. *)
Definition bwd_activation_elem (gelu gelu_grad : R -> R)
    (MASK : bool) (WINDOW_SIZE : option Z) (activation_enum_int : Z)
    (offs_m offs_n : Z) (qk dpT : R) : bwd_elem :=
  let pT := bwd_masks MASK WINDOW_SIZE offs_m offs_n qk in
  let ppT := bwd_ppT gelu activation_enum_int pT in
  let g := bwd_grad gelu_grad activation_enum_int pT in
  let g := bwd_masks MASK WINDOW_SIZE offs_m offs_n g in
  let dsT := to_dtype (g * dpT)%R in
  {| masked_score := pT; ppT_store := ppT; masked_grad := g;
     dsT_store := dsT |}.

(** Iteration [i] of the loop over [num_steps].  [offs_m = start_m +
    tl.arange(0, BLOCK_M1)] and [offs_n = start_n + tl.arange(0, BLOCK_N1)]
    are computed once, before the loop (lines 1588-1589); the tile is
    indexed by key row [r] and query column [c].  [qk_tiles i] and
    [dpT_tiles i] are the tiles the iteration loads. *)
Definition _gdpa_bwd_tlx_compute_activation (gelu gelu_grad : R -> R)
    (MASK : bool) (WINDOW_SIZE : option Z) (activation_enum_int : Z)
    (start_m start_n : Z) (qk_tiles dpT_tiles : nat -> tile)
    (i : nat) (r c : Z) : bwd_elem :=
  let offs_m := start_m + c in
  let offs_n := start_n + r in
  bwd_activation_elem gelu gelu_grad MASK WINDOW_SIZE activation_enum_int
    offs_m offs_n (qk_tiles i r c) (dpT_tiles i r c).

(** The activation named by the selector, as the specification words it:
    identity (0), exact GELU (1), and the fast tanh-based GELU
    [x * tanh(c1 * x^3 + c0 * x) + x] (3, "3/fast_gelu" in the source). *)
Definition spec_selected_activation (gelu : R -> R)
    (activation_enum_int : Z) (x : R) : R :=
  if activation_enum_int =? 0 then x
  else if activation_enum_int =? 1 then gelu x
  else (x * tanh (0.0356774081 * (x * x * x) + 0.7978845608 * x) + x)%R.
(** *** The forward kernel as partition programs

    Each [tlx.async_task] of [gdpa_kernel_tma_ws_blackwell] is embedded as
    the list of TLX operations it issues, in program order.  The operands
    of an operation are the barrier or buffer views and the values the
    source passes.  Profiling scopes ([ENABLE_PROTON]) issue no operation
    and are left out. *)

(** The barrier arrays allocated with [tlx.alloc_barriers]. *)
Inductive bar_array : Type :=
| consumer_q0 | consumer_q1 | consumer_release_q0 | consumer_release_q1
| consumer_kv | consumer_release_kv
| producer_qk0 | producer_commit_qk0 | producer_qk1 | producer_commit_qk1
| producer_o0 | producer_commit_o0 | producer_o1 | producer_commit_o1
| producer_pp | producer_commit_pp.

(** The buffers allocated with [tlx.local_alloc]. *)
Inductive buf_array : Type :=
| q0_buf | q1_buf | kv_buf | o0_smem | o1_smem
| qk0_buf | qk1_buf | p0_buf | p1_buf | o0_buf | o1_buf.

(** [tlx.local_view(array, index)] *)
Definition barrier : Type := bar_array * Z.
Definition view : Type := buf_array * Z.

Inductive tensor : Type := tQ | tK | tV | tOut.

Inductive op : Type :=
| barrier_wait (b : barrier) (phase : Z) (pred : bool)
| barrier_arrive (b : barrier)
| barrier_expect_bytes (b : barrier) (bytes : Z)
| async_descriptor_load (t : tensor) (dst : view) (row col : Z) (b : barrier)
| async_dot (a b dst : view) (use_acc : bool) (mBarriers : list barrier)
| tcgen05_commit (b : barrier)
| local_load (src : view)
| local_store (dst : view)
| async_descriptor_store (src : view) (row col : Z)
| desc_store (row col : Z)
| named_barrier_wait (id n : Z)
| named_barrier_arrive (id n : Z).

(** The arguments of one launch of the kernel, with the grid size
    [num_progs].  The single-letter arguments [Z], [H] and [G] carry a
    trailing underscore. *)
Record kernel_args : Type := {
  Q_offsets : list Z;
  K_offsets : list Z;
  seq_index : list Z;
  stride_qh : Z;
  stride_kh : Z;
  stride_oh : Z;
  Z_ : Z;
  H_ : Z;
  G_ : Z;
  N_CTX : Z;
  N_CTX_KV : Z;
  qk_scale : R;
  SORT_BY_SEQ_LENGTH : bool;
  HEAD_DIM : Z;
  BLOCK_M : Z;
  BLOCK_N : Z;
  BLOCK_D : Z;
  WINDOW_SIZE : option Z;
  activation_enum_int : Z;
  USE_ON_DEVICE_TMA : bool;
  NUM_BUFFERS_Q : Z;
  NUM_BUFFERS_KV : Z;
  NUM_BUFFERS_QK : Z;
  NUM_BUFFERS_O : Z;
  PINGPONG : bool;
  NAME_BARRIER : bool;
  MERGE_EPI : bool;
  num_progs : Z
}.

(** [tl.load(ptr + i)] on an int64 offsets array. *)
Definition tl_load (ptr : list Z) (i : Z) : Z := nth (Z.to_nat i) ptr 0.

(** [x.to(tl.int32)] *)
Definition to_int32 (x : Z) : Z := (x + 2 ^ 31) mod 2 ^ 32 - 2 ^ 31.

(** Number of iterations of [range(lo, hi, step)] for [step > 0]. *)
Definition range_count (lo hi step : Z) : nat :=
  Z.to_nat ((hi - lo + step - 1) / step).

Record qlen_info : Type := {
  begin_q : Z; end_q : Z; begin_k : Z; qlen : Z; klen : Z
}.

(** [_compute_qlen] *)
Definition _compute_qlen (a : kernel_args) (tile_idx : Z) : qlen_info :=
  let off_hz := Z.quot tile_idx (n_tile_num (N_CTX a) (BLOCK_M a)) in
  let off_z := Z.quot off_hz (H_ a) in
  let off_z :=
    if SORT_BY_SEQ_LENGTH a then tl_load (seq_index a) off_z else off_z in
  let off_q_z := off_z in
  let begin_q := tl_load (Q_offsets a) off_q_z in
  let end_q := tl_load (Q_offsets a) (off_q_z + 1) in
  let qlen := end_q - begin_q in
  let qlen := Z.min qlen (N_CTX a) in
  let begin_k := tl_load (K_offsets a) off_z in
  let end_k := tl_load (K_offsets a) (off_z + 1) in
  let klen := end_k - begin_k in
  {| begin_q := begin_q; end_q := end_q; begin_k := begin_k;
     qlen := qlen; klen := klen |}.

(** [pid = tile_idx % n_tile_num; start_m = pid] *)
Definition start_m_of (a : kernel_args) (tile_idx : Z) : Z :=
  Z.rem tile_idx (n_tile_num (N_CTX a) (BLOCK_M a)).

(** [off_h = (tile_idx // n_tile_num) % H] *)
Definition off_h_of (a : kernel_args) (tile_idx : Z) : Z :=
  Z.rem (Z.quot tile_idx (n_tile_num (N_CTX a) (BLOCK_M a))) (H_ a).

(** The guard [if start_m * BLOCK_M < qlen] of every partition. *)
Definition tile_active (a : kernel_args) (tile_idx : Z) : bool :=
  start_m_of a tile_idx * BLOCK_M a <? qlen (_compute_qlen a tile_idx).

(** The tiles a program visits. *)
Definition kernel_total_tiles (a : kernel_args) : Z :=
  total_tiles (N_CTX a) (BLOCK_M a) (Z_ a) (H_ a).

Definition prog_tiles (a : kernel_args) (prog_id : Z) : list Z :=
  unit_tiles (kernel_total_tiles a) (num_progs a) prog_id.

(** **** The gemm partition (lines 694-1059) *)

Record mma_state : Type := {
  accum_cnt_q : Z;
  accum_cnt_kv : Z;
  accum_cnt_o : Z;
  accum_cnt_qk : Z;
  accum_cnt_outer : Z
}.

(** The variables the inner loop carries from one iteration to the next. *)
Record mma_loop_state : Type := {
  first : bool;
  l_accum_cnt_kv : Z;
  l_accum_cnt_qk : Z;
  l_accum_cnt_qk1 : Z;
  l_accum_cnt_o : Z;
  l_accum_cnt_o1 : Z;
  v_view : view
}.

(** Values fixed by the prologue and read inside the loop. *)
Record mma_tile_env : Type := {
  q0_view : view;
  q1_view : view;
  producer_o1_view : barrier;
  phase_o_outer : Z
}.

(** One iteration of [for it in range(BLOCK_N, hi, BLOCK_N)]
    (lines 845-998). *)
Definition mma_loop_body (a : kernel_args) (e : mma_tile_env)
    (s : mma_loop_state) : list op * mma_loop_state :=
  let '(bufIdx_k, phase_k) :=
    _get_bufidx_phase (l_accum_cnt_kv s) (NUM_BUFFERS_KV a) in
  let '(bufIdx_qk, phase_qk) :=
    _get_bufidx_phase (l_accum_cnt_qk s) (NUM_BUFFERS_QK a) in
  let k_view := (kv_buf, bufIdx_k) in
  let qk0_view := (qk0_buf, bufIdx_qk) in
  let producer_commit_qk0_view := (producer_commit_qk0, bufIdx_qk) in
  let '(bufIdx_qk1, phase_qk1) :=
    _get_bufidx_phase (l_accum_cnt_qk1 s) (NUM_BUFFERS_QK a) in
  let consumer_p1_view := (producer_qk1, bufIdx_qk1) in
  let '(bufIdx_o1, _) :=
    _get_bufidx_phase (l_accum_cnt_o1 s) (NUM_BUFFERS_O a) in
  let o1_view := (o1_buf, bufIdx_o1) in
  let producer_commit_o1_view := (producer_commit_o1, bufIdx_o1) in
  let '(bufIdx_v_prev, _) :=
    _get_bufidx_phase (l_accum_cnt_kv s - 1) (NUM_BUFFERS_KV a) in
  let consumer_release_v_view := (consumer_release_kv, bufIdx_v_prev) in
  let p1_view := (p1_buf, bufIdx_qk1) in
  let '(bufIdx_qk1_next, _) :=
    _get_bufidx_phase (l_accum_cnt_qk1 s + 1) (NUM_BUFFERS_QK a) in
  let qk1_view := (qk1_buf, bufIdx_qk1_next) in
  let consumer_release_k_view := (consumer_release_kv, bufIdx_k) in
  let producer_commit_qk1_view := (producer_commit_qk1, bufIdx_qk1_next) in
  let '(bufIdx_v, phase_v) :=
    _get_bufidx_phase (l_accum_cnt_kv s + 1) (NUM_BUFFERS_KV a) in
  let consumer_p0_view := (producer_qk0, bufIdx_qk) in
  let v_view' := (kv_buf, bufIdx_v) in
  let '(bufIdx_o, _) :=
    _get_bufidx_phase (l_accum_cnt_o s) (NUM_BUFFERS_O a) in
  let producer_commit_o0_view := (producer_commit_o0, bufIdx_o) in
  let o0_view := (o0_buf, bufIdx_o) in
  ([ barrier_wait (consumer_kv, bufIdx_k) phase_k true;
     async_dot (q0_view e) k_view qk0_view false [producer_commit_qk0_view];
     barrier_wait (producer_o1_view e) (Z.lxor (phase_o_outer e) 1) (first s);
     barrier_wait consumer_p1_view phase_qk1 true;
     async_dot p1_view (v_view s) o1_view (negb (first s))
       [producer_commit_o1_view; consumer_release_v_view];
     async_dot (q1_view e) k_view qk1_view false
       [consumer_release_k_view; producer_commit_qk1_view];
     barrier_wait (consumer_kv, bufIdx_v) phase_v true;
     barrier_wait consumer_p0_view phase_qk true;
     async_dot (p0_buf, bufIdx_qk) v_view' o0_view true
       [producer_commit_o0_view] ],
   {| first := false;
      l_accum_cnt_kv := l_accum_cnt_kv s + 2;
      l_accum_cnt_qk := l_accum_cnt_qk s + 1;
      l_accum_cnt_qk1 := l_accum_cnt_qk1 s + 1;
      l_accum_cnt_o := l_accum_cnt_o s + 1;
      l_accum_cnt_o1 := l_accum_cnt_o1 s + 1;
      v_view := v_view' |}).

Fixpoint mma_loop (a : kernel_args) (e : mma_tile_env) (iters : nat)
    (s : mma_loop_state) : list op * mma_loop_state :=
  match iters with
  | O => ([], s)
  | S k =>
      let '(ops, s') := mma_loop_body a e s in
      let '(rest, s'') := mma_loop a e k s' in
      (ops ++ rest, s'')
  end.

(** The operations before the inner loop (lines 716-842), with the
    environment and the loop state they set up. *)
Definition mma_prologue (a : kernel_args) (st : mma_state)
    : list op * mma_tile_env * mma_loop_state :=
  let '(bufIdx_q, phase_q) :=
    _get_bufidx_phase (accum_cnt_q st) (NUM_BUFFERS_Q a) in
  let '(bufIdx_k, phase_k) :=
    _get_bufidx_phase (accum_cnt_kv st) (NUM_BUFFERS_KV a) in
  let '(bufIdx_qk, phase_qk) :=
    _get_bufidx_phase (accum_cnt_qk st) (NUM_BUFFERS_QK a) in
  let accum_cnt_qk1 := accum_cnt_qk st in
  let consumer_q0_view := (consumer_q0, bufIdx_q) in
  let q0_view := (q0_buf, bufIdx_q) in
  let k_view := (kv_buf, bufIdx_k) in
  let qk0_view := (qk0_buf, bufIdx_qk) in
  let producer_commit_qk0_view := (producer_commit_qk0, bufIdx_qk) in
  let consumer_q1_view := (consumer_q1, bufIdx_q) in
  let q1_view := (q1_buf, bufIdx_q) in
  let qk1_view := (qk1_buf, bufIdx_qk) in
  let consumer_release_k_view := (consumer_release_kv, bufIdx_k) in
  let producer_commit_qk1_view := (producer_commit_qk1, bufIdx_qk) in
  let '(bufIdx_v, phase_v) :=
    _get_bufidx_phase (accum_cnt_kv st + 1) (NUM_BUFFERS_KV a) in
  let '(bufIdx_o_outer, phase_o_outer) :=
    _get_bufidx_phase (accum_cnt_outer st) (NUM_BUFFERS_O a) in
  let producer_o0_view := (producer_o0, bufIdx_o_outer) in
  let producer_o1_view := (producer_o1, bufIdx_o_outer) in
  let '(bufIdx_p, phase_p) :=
    _get_bufidx_phase (accum_cnt_qk st) (NUM_BUFFERS_QK a) in
  let consumer_p0_view := (producer_qk0, bufIdx_p) in
  let p0_view := (p0_buf, bufIdx_p) in
  let '(bufIdx_o, _) :=
    _get_bufidx_phase (accum_cnt_o st) (NUM_BUFFERS_O a) in
  let producer_commit_o0_view := (producer_commit_o0, bufIdx_o) in
  let o0_view := (o0_buf, bufIdx_o) in
  let v_view := (kv_buf, bufIdx_v) in
  let accum_cnt_o1 := accum_cnt_o st in
  ([ barrier_wait consumer_q0_view phase_q true;
     barrier_wait (consumer_kv, bufIdx_k) phase_k true;
     async_dot q0_view k_view qk0_view false [producer_commit_qk0_view];
     barrier_wait consumer_q1_view phase_q true;
     async_dot q1_view k_view qk1_view false
       [consumer_release_k_view; producer_commit_qk1_view];
     barrier_wait (consumer_kv, bufIdx_v) phase_v true;
     barrier_wait producer_o0_view (Z.lxor phase_o_outer 1) true;
     barrier_wait consumer_p0_view phase_p true;
     async_dot p0_view v_view o0_view false [producer_commit_o0_view] ],
   {| q0_view := q0_view; q1_view := q1_view;
      producer_o1_view := producer_o1_view;
      phase_o_outer := phase_o_outer |},
   {| first := true;
      l_accum_cnt_kv := accum_cnt_kv st + 2;
      l_accum_cnt_qk := accum_cnt_qk st + 1;
      l_accum_cnt_qk1 := accum_cnt_qk1;
      l_accum_cnt_o := accum_cnt_o st + 1;
      l_accum_cnt_o1 := accum_cnt_o1;
      v_view := v_view |}).

(** The operations after the inner loop (lines 1000-1054). *)
Definition mma_epilogue (a : kernel_args) (st : mma_state)
    (e : mma_tile_env) (s : mma_loop_state) : list op * mma_state :=
  let '(bufIdx_q, _) :=
    _get_bufidx_phase (accum_cnt_q st) (NUM_BUFFERS_Q a) in
  let release_q0_view := (consumer_release_q0, bufIdx_q) in
  let release_q1_view := (consumer_release_q1, bufIdx_q) in
  let '(bufIdx_qk1, phase_qk1) :=
    _get_bufidx_phase (l_accum_cnt_qk1 s) (NUM_BUFFERS_QK a) in
  let consumer_p1_view := (producer_qk1, bufIdx_qk1) in
  let '(bufIdx_o, _) :=
    _get_bufidx_phase (l_accum_cnt_o1 s) (NUM_BUFFERS_O a) in
  let producer_commit_o1_view := (producer_commit_o1, bufIdx_o) in
  let '(bufIdx_v, _) :=
    _get_bufidx_phase (l_accum_cnt_kv s - 1) (NUM_BUFFERS_KV a) in
  let consumer_release_v_view := (consumer_release_kv, bufIdx_v) in
  let o1_view := (o1_buf, bufIdx_o) in
  ([ tcgen05_commit release_q0_view;
     tcgen05_commit release_q1_view;
     barrier_wait (producer_o1_view e) (Z.lxor (phase_o_outer e) 1) (first s);
     barrier_wait consumer_p1_view phase_qk1 true;
     async_dot (p1_buf, bufIdx_qk1) (v_view s) o1_view (negb (first s))
       [producer_commit_o1_view; consumer_release_v_view] ],
   {| accum_cnt_q := accum_cnt_q st + 1;
      accum_cnt_kv := l_accum_cnt_kv s;
      accum_cnt_o := l_accum_cnt_o s;
      accum_cnt_qk := l_accum_cnt_qk s;
      accum_cnt_outer := accum_cnt_outer st + 1 |}).

(** The body of the guard [if start_m * BLOCK_M < qlen], for a tile whose
    key length is [klen]. *)
Definition mma_tile_body (a : kernel_args) (klen : Z) (st : mma_state)
    : list op * mma_state :=
  let '(pro, e, s0) := mma_prologue a st in
  let '(body, s1) :=
    mma_loop a e (range_count (BLOCK_N a) klen (BLOCK_N a)) s0 in
  let '(epi, st') := mma_epilogue a st e s1 in
  (pro ++ body ++ epi, st').

(** One iteration of the persistent loop. *)
Definition mma_tile (a : kernel_args) (tile_idx : Z) (st : mma_state)
    : list op * mma_state :=
  if tile_active a tile_idx
  then mma_tile_body a (klen (_compute_qlen a tile_idx)) st
  else ([], st).

(** A persistent loop that threads a state through its tiles. *)
Fixpoint run_tiles {S : Type} (body : Z -> S -> list op * S)
    (tiles : list Z) (st : S) : list op * S :=
  match tiles with
  | [] => ([], st)
  | t :: ts =>
      let '(ops, st') := body t st in
      let '(rest, st'') := run_tiles body ts st' in
      (ops ++ rest, st'')
  end.

Definition mma_init : mma_state :=
  {| accum_cnt_q := 0; accum_cnt_kv := 0; accum_cnt_o := 0;
     accum_cnt_qk := 0; accum_cnt_outer := 0 |}.

Definition mma_partition (a : kernel_args) (prog_id : Z) : list op :=
  fst (run_tiles (mma_tile a) (prog_tiles a prog_id) mma_init).

Definition buf_array_eq_dec (x y : buf_array) : {x = y} + {x <> y}.
Proof. decide equality. Defined.

Definition bar_array_eq_dec (x y : bar_array) : {x = y} + {x <> y}.
Proof. decide equality. Defined.

(** The [use_acc] flags of the matmuls issued into buffer [acc], in issue
    order. *)
Definition dot_flags_into (acc : buf_array) (o : op) : list bool :=
  match o with
  | async_dot _ _ (arr, _) use_acc _ =>
      if buf_array_eq_dec arr acc then [use_acc] else []
  | _ => []
  end.

Definition dots_into (acc : buf_array) (ops : list op) : list bool :=
  flat_map (dot_flags_into acc) ops.

(** **** The load partition (lines 1061-1260) *)

Record load_state : Type := {
  accum_count_q : Z;
  ld_accum_cnt_kv : Z
}.

(** Acquire slot [bufIdx] of the K/V ring, announce the bytes and issue the
    bulk load of the block of [t] that starts at key row [start_n]. *)
Definition load_kv (a : kernel_args) (t : tensor) (cnt : Z)
    (row kv_offset : Z) : list op :=
  let '(bufIdx, phase) := _get_bufidx_phase cnt (NUM_BUFFERS_KV a) in
  let empty_view := (consumer_release_kv, bufIdx) in
  let full_view := (consumer_kv, bufIdx) in
  [ barrier_wait empty_view phase true;
    barrier_expect_bytes full_view (BLOCK_N a * BLOCK_D a * 2);
    async_descriptor_load t (kv_buf, bufIdx)
      (to_int32 row) (to_int32 kv_offset) full_view ].

(** One iteration of [for start_n in range(BLOCK_N, hi, BLOCK_N)]
    (lines 1196-1257). *)
Definition load_loop_body (a : kernel_args) (begin_k kv_offset : Z)
    (start_n cnt : Z) : list op :=
  load_kv a tK cnt (begin_k + start_n) kv_offset
  ++ load_kv a tV (cnt + 1) (begin_k + start_n) kv_offset.

Fixpoint load_loop (a : kernel_args) (begin_k kv_offset : Z) (iters : nat)
    (start_n cnt : Z) : list op * Z :=
  match iters with
  | O => ([], cnt)
  | S k =>
      let ops := load_loop_body a begin_k kv_offset start_n cnt in
      let '(rest, cnt') :=
        load_loop a begin_k kv_offset k (start_n + BLOCK_N a) (cnt + 2) in
      (ops ++ rest, cnt')
  end.

Definition load_q (a : kernel_args) (release full : bar_array)
    (buf : buf_array) (q_bufIdx q_phase row q_offset : Z) : list op :=
  let empty_view := (release, q_bufIdx) in
  let full_view := (full, q_bufIdx) in
  [ barrier_wait empty_view (Z.lxor q_phase 1) true;
    barrier_expect_bytes full_view (BLOCK_M a / 2 * BLOCK_D a * 2);
    async_descriptor_load tQ (buf, q_bufIdx)
      (to_int32 row) (to_int32 q_offset) full_view ].

Definition load_tile_body (a : kernel_args) (tile_idx : Z) (st : load_state)
    : list op * load_state :=
  let off_h := off_h_of a tile_idx in
  let off_h_kv := Z.quot off_h (G_ a) in
  let start_m := start_m_of a tile_idx in
  let q_offset := off_h * stride_qh a in
  let kv_offset := off_h_kv * stride_kh a in
  let info := _compute_qlen a tile_idx in
  let q_bufIdx := Z.rem (accum_count_q st) (NUM_BUFFERS_Q a) in
  let q_phase := Z.land (Z.quot (accum_count_q st) (NUM_BUFFERS_Q a)) 1 in
  let row0 := begin_q info + start_m * BLOCK_M a in
  let start_n := 0 in
  let '(loop, cnt') :=
    load_loop a (begin_k info) kv_offset
      (range_count (BLOCK_N a) (klen info) (BLOCK_N a))
      (BLOCK_N a) (ld_accum_cnt_kv st + 2) in
  (load_q a consumer_release_q0 consumer_q0 q0_buf q_bufIdx q_phase
     row0 q_offset
   ++ load_kv a tK (ld_accum_cnt_kv st) (begin_k info + start_n) kv_offset
   ++ load_q a consumer_release_q1 consumer_q1 q1_buf q_bufIdx q_phase
        (row0 + BLOCK_M a / 2) q_offset
   ++ load_kv a tV (ld_accum_cnt_kv st + 1) (begin_k info + start_n) kv_offset
   ++ loop,
   {| accum_count_q := accum_count_q st + 1; ld_accum_cnt_kv := cnt' |}).

Definition load_tile (a : kernel_args) (tile_idx : Z) (st : load_state)
    : list op * load_state :=
  if tile_active a tile_idx then load_tile_body a tile_idx st else ([], st).

Definition load_init : load_state :=
  {| accum_count_q := 0; ld_accum_cnt_kv := 0 |}.

Definition load_partition (a : kernel_args) (prog_id : Z) : list op :=
  fst (run_tiles (load_tile a) (prog_tiles a prog_id) load_init).

(** **** The two activation partitions (lines 403-546 and 548-692)

    They differ in the buffers and barriers they name, in the side of the
    ping-pong hand-off they take and in the row offset of their output
    half; [second] selects the partition. *)

Record act_state : Type := {
  accum_cnt : Z;
  act_accum_cnt_outer : Z
}.

Definition act_loop_body (a : kernel_args) (second : bool) (cnt : Z)
    : list op :=
  let bufIdx := Z.rem cnt (NUM_BUFFERS_QK a) in
  let phase := Z.land (Z.quot cnt (NUM_BUFFERS_QK a)) 1 in
  let qk_buf := if second then qk1_buf else qk0_buf in
  let p_buf := if second then p1_buf else p0_buf in
  let commit := if second then producer_commit_qk1 else producer_commit_qk0 in
  let release := if second then producer_qk1 else producer_qk0 in
  [ barrier_wait (commit, bufIdx) phase true;
    local_load (qk_buf, bufIdx);
    local_load (qk_buf, bufIdx) ]
  ++ (if PINGPONG a then
        if NAME_BARRIER a
        then [ named_barrier_wait (if second then 10 else 9) 128 ]
        else if second
             then [ barrier_wait (producer_commit_pp, 0) phase true ]
             else [ barrier_wait (producer_pp, 0) (Z.lxor phase 1) true ]
      else [])
  ++ [ local_store (p_buf, bufIdx);
       local_store (p_buf, bufIdx);
       barrier_arrive (release, bufIdx) ]
  ++ (if PINGPONG a then
        if NAME_BARRIER a
        then [ named_barrier_arrive (if second then 9 else 10) 128 ]
        else if second
             then [ barrier_arrive (producer_pp, 0) ]
             else [ barrier_arrive (producer_commit_pp, 0) ]
      else []).

Fixpoint act_loop (a : kernel_args) (second : bool) (iters : nat) (cnt : Z)
    : list op * Z :=
  match iters with
  | O => ([], cnt)
  | S k =>
      let ops := act_loop_body a second cnt in
      let '(rest, cnt') := act_loop a second k (cnt + 1) in
      (ops ++ rest, cnt')
  end.

Definition act_epilogue (a : kernel_args) (second : bool) (tile_idx : Z)
    (cnt_outer : Z) : list op :=
  let info := _compute_qlen a tile_idx in
  let out_offset := off_h_of a tile_idx * stride_oh a in
  let '(bufIdx_o_outer, _) :=
    _get_bufidx_phase cnt_outer (NUM_BUFFERS_O a) in
  let o_buf := if second then o1_buf else o0_buf in
  let release := if second then producer_o1 else producer_o0 in
  let o_smem := if second then o1_smem else o0_smem in
  let row := begin_q info + start_m_of a tile_idx * BLOCK_M a
             + (if second then BLOCK_M a / 2 else 0) in
  [ local_load (o_buf, bufIdx_o_outer);
    barrier_arrive (release, bufIdx_o_outer);
    if MERGE_EPI a
    then desc_store (to_int32 row) (to_int32 out_offset)
    else local_store (o_smem, 0) ].

Definition act_tile (a : kernel_args) (second : bool) (tile_idx : Z)
    (st : act_state) : list op * act_state :=
  if tile_active a tile_idx then
    let '(loop, cnt') :=
      act_loop a second
        (range_count 0 (klen (_compute_qlen a tile_idx)) (BLOCK_N a))
        (accum_cnt st) in
    (loop ++ act_epilogue a second tile_idx (act_accum_cnt_outer st),
     {| accum_cnt := cnt';
        act_accum_cnt_outer := act_accum_cnt_outer st + 1 |})
  else ([], st).

Definition act_init : act_state :=
  {| accum_cnt := 0; act_accum_cnt_outer := 0 |}.

Definition act_partition (a : kernel_args) (second : bool) (prog_id : Z)
    : list op :=
  (if second && PINGPONG a && NAME_BARRIER a
   then [ named_barrier_arrive 9 128 ] else [])
  ++ fst (run_tiles (act_tile a second) (prog_tiles a prog_id) act_init).

(** **** The epilogue partition (lines 1261-1309) *)

Definition epilogue_tile (a : kernel_args) (tile_idx : Z) (cnt_outer : Z)
    : list op * Z :=
  if tile_active a tile_idx then
    let info := _compute_qlen a tile_idx in
    let out_offset := off_h_of a tile_idx * stride_oh a in
    let row := begin_q info + start_m_of a tile_idx * BLOCK_M a in
    ([ async_descriptor_store (o0_smem, 0)
         (to_int32 row) (to_int32 out_offset);
       async_descriptor_store (o1_smem, 0)
         (to_int32 (row + BLOCK_M a / 2)) (to_int32 out_offset) ],
     cnt_outer + 1)
  else ([], cnt_outer).

Definition epilogue_partition (a : kernel_args) (prog_id : Z) : list op :=
  fst (run_tiles (epilogue_tile a) (prog_tiles a prog_id) 0).

(** The five tasks of [tlx.async_tasks()], in source order. *)
Definition kernel_tasks (a : kernel_args) (prog_id : Z) : list (list op) :=
  [ act_partition a false prog_id;
    act_partition a true prog_id;
    mma_partition a prog_id;
    load_partition a prog_id;
    epilogue_partition a prog_id ].

(** *** Barrier machine

    The state of one program (CTA) while its tasks run.  A barrier records
    how many of its phases have completed; every barrier is allocated with
    [arrive_count=1], so one arrival completes a phase.
    [barrier_wait(bar, phase)] can return once the phase of that parity
    has completed, that is, when the parity of the completed-phase count
    differs from [phase]; a wait whose predicate is false returns at once.
    An asynchronous operation (bulk load, matmul, commit) arrives on its
    barriers at some later step.

    [tlx.barrier_expect_bytes] is not interpreted: the completion of a
    bulk load is taken as the one arrival that completes the phase of its
    barrier.  The transaction count of the barrier, which the hardware
    compares with the bytes the load delivers, is not part of the state;
    the byte counts stay in the operation lists, where [loads_armed]
    relates them to the boxes of the loads. *)

Definition barrier_eqb (x y : barrier) : bool :=
  (if bar_array_eq_dec (fst x) (fst y) then true else false)
  && (snd x =? snd y).

Definition bars_t : Type := barrier -> Z.

Definition arrive (b : barrier) (bars : bars_t) : bars_t :=
  fun b' => if barrier_eqb b' b then bars b' + 1 else bars b'.

Record task : Type := { done : list op; todo : list op }.

Record machine : Type := {
  bars : bars_t;
  tasks : list task;
  pending : list barrier
}.

(** The three [tlx.barrier_arrive(consumer_release_kv[i], 1)] issued before
    the tasks start (lines 381-383). *)
Definition init_bars : bars_t :=
  arrive (consumer_release_kv, 2)
    (arrive (consumer_release_kv, 1)
       (arrive (consumer_release_kv, 0) (fun _ => 0))).

Definition init_machine (a : kernel_args) (prog_id : Z) : machine :=
  {| bars := init_bars;
     tasks := map (fun p => {| done := []; todo := p |})
                  (kernel_tasks a prog_id);
     pending := [] |}.

Definition enabled (bars : bars_t) (o : op) : bool :=
  match o with
  | barrier_wait b phase true => negb (bars b mod 2 =? phase)
  | _ => true
  end.

(** Effect of an operation on the barriers when it is issued. *)
Definition issue_bars (o : op) (bars : bars_t) : bars_t :=
  match o with
  | barrier_arrive b => arrive b bars
  | _ => bars
  end.

(** Arrivals an operation leaves pending until it completes. *)
Definition issue_pending (o : op) : list barrier :=
  match o with
  | async_descriptor_load _ _ _ _ b => [b]
  | async_dot _ _ _ _ mBarriers => mBarriers
  | tcgen05_commit b => [b]
  | _ => []
  end.

Fixpoint set_nth {A : Type} (i : nat) (x : A) (l : list A) : list A :=
  match l, i with
  | [], _ => []
  | _ :: r, O => x :: r
  | y :: r, S k => y :: set_nth k x r
  end.

Inductive step : machine -> machine -> Prop :=
| step_task (m : machine) (i : nat) (dn td : list op) (o : op) :
    nth_error (tasks m) i = Some {| done := dn; todo := o :: td |} ->
    enabled (bars m) o = true ->
    step m {| bars := issue_bars o (bars m);
              tasks := set_nth i {| done := dn ++ [o]; todo := td |} (tasks m);
              pending := pending m ++ issue_pending o |}
| step_complete (m : machine) (l1 l2 : list barrier) (b : barrier) :
    pending m = l1 ++ b :: l2 ->
    step m {| bars := arrive b (bars m);
              tasks := tasks m;
              pending := l1 ++ l2 |}.

(** The step a task takes when its next operation is enabled, as a
    function. *)
Definition exec_task (i : nat) (m : machine) : option machine :=
  match nth_error (tasks m) i with
  | Some {| done := dn; todo := o :: td |} =>
      if enabled (bars m) o
      then Some {| bars := issue_bars o (bars m);
                   tasks := set_nth i {| done := dn ++ [o]; todo := td |}
                                    (tasks m);
                   pending := pending m ++ issue_pending o |}
      else None
  | _ => None
  end.

Fixpoint exec_task_n (i : nat) (n : nat) (m : machine) : option machine :=
  match n with
  | O => Some m
  | S k =>
      match exec_task i m with
      | Some m' => exec_task_n i k m'
      | None => None
      end
  end.

(** The state after task [i] has issued its next [n] operations, or as
    many of them as are enabled in a row. *)
Fixpoint run_task (i : nat) (n : nat) (m : machine) : machine :=
  match n with
  | O => m
  | S k =>
      match exec_task i m with
      | Some m' => run_task i k m'
      | None => m
      end
  end.

(** The completion of the oldest arrival in flight, as a function. *)
Definition exec_complete (m : machine) : option machine :=
  match pending m with
  | b :: l => Some {| bars := arrive b (bars m);
                      tasks := tasks m;
                      pending := l |}
  | [] => None
  end.

(** One step of the run in which an arrival in flight completes before
    any task goes on, and otherwise the first task whose next operation is
    enabled issues it. *)
Fixpoint exec_first (order : list nat) (m : machine) : option machine :=
  match order with
  | [] => None
  | i :: r =>
      match exec_task i m with
      | Some m' => Some m'
      | None => exec_first r m
      end
  end.

Definition exec_next (m : machine) : option machine :=
  match exec_complete m with
  | Some m' => Some m'
  | None => exec_first (seq 0 (length (tasks m))) m
  end.

(** The state after [n] steps of that run, or the state in which it
    stops if no step is possible before. *)
Fixpoint run_steps (n : nat) (m : machine) : machine :=
  match n with
  | O => m
  | S k =>
      match exec_next m with
      | Some m' => run_steps k m'
      | None => m
      end
  end.

Inductive reachable (a : kernel_args) (prog_id : Z) : machine -> Prop :=
| reachable_init : reachable a prog_id (init_machine a prog_id)
| reachable_step (m m' : machine) :
    reachable a prog_id m -> step m m' -> reachable a prog_id m'.

(** **** Channels *)

Inductive channel : Type :=
| ch_q0 | ch_q1 | ch_kv | ch_qk0 | ch_qk1 | ch_o0 | ch_o1.

(** The barrier array on which the consumer of a channel signals that a
    slot may be reused. *)
Definition release_array (c : channel) : bar_array :=
  match c with
  | ch_q0 => consumer_release_q0
  | ch_q1 => consumer_release_q1
  | ch_kv => consumer_release_kv
  | ch_qk0 => producer_qk0
  | ch_qk1 => producer_qk1
  | ch_o0 => producer_o0
  | ch_o1 => producer_o1
  end.

Definition slot_count (a : kernel_args) (c : channel) : Z :=
  match c with
  | ch_q0 | ch_q1 => NUM_BUFFERS_Q a
  | ch_kv => NUM_BUFFERS_KV a
  | ch_qk0 | ch_qk1 => NUM_BUFFERS_QK a
  | ch_o0 | ch_o1 => NUM_BUFFERS_O a
  end.

(** Position of the producing task of a channel in [kernel_tasks]: the
    load partition fills Q and K/V, the gemm partition fills the score
    regions and the accumulators. *)
Definition producer_task (c : channel) : nat :=
  match c with
  | ch_q0 | ch_q1 | ch_kv => 3%nat
  | ch_qk0 | ch_qk1 | ch_o0 | ch_o1 => 2%nat
  end.

Definition is_wait_on (arr : bar_array) (o : op) : bool :=
  match o with
  | barrier_wait (arr', _) _ true =>
      if bar_array_eq_dec arr' arr then true else false
  | _ => false
  end.

Definition is_dot_into (buf : buf_array) (o : op) : bool :=
  match o with
  | async_dot _ _ (buf', _) _ _ =>
      if buf_array_eq_dec buf' buf then true else false
  | _ => false
  end.

Definition count_ops (f : op -> bool) (l : list op) : Z :=
  Z.of_nat (length (filter f l)).

(** An operation by which the producer takes a slot of the channel: the
    wait on the release barrier for Q, K/V and the accumulators; for the
    score regions, whose acquire wait the source leaves out, the matmul
    that overwrites the region. *)
Definition is_acquire (c : channel) (o : op) : bool :=
  match c with
  | ch_qk0 => is_dot_into qk0_buf o
  | ch_qk1 => is_dot_into qk1_buf o
  | _ => is_wait_on (release_array c) o
  end.

Definition acquisitions (c : channel) (m : machine) : Z :=
  match nth_error (tasks m) (producer_task c) with
  | Some t => count_ops (is_acquire c) (done t)
  | None => 0
  end.

Definition zsum (f : Z -> Z) (n : Z) : Z :=
  fold_right Z.add 0 (map (fun s => f (Z.of_nat s)) (seq 0 (Z.to_nat n))).

(** Arrivals made so far on the release barriers of the channel's slots,
    not counting the arrivals issued before the tasks start. *)
Definition releases (a : kernel_args) (c : channel) (m : machine) : Z :=
  zsum (fun s => bars m (release_array c, s) - init_bars (release_array c, s))
       (slot_count a c).

(** **** Static view of a program: its waits on one barrier array *)

(** Executed waits (with a true predicate) on one barrier. *)
Definition is_wait_at (b : barrier) (o : op) : bool :=
  match o with
  | barrier_wait b' _ true => barrier_eqb b' b
  | _ => false
  end.

Definition count_waits (b : barrier) (l : list op) : Z :=
  count_ops (is_wait_at b) l.

(** The (slot, phase) pairs of the waits on array [arr], in order. *)
Definition wait_event (arr : bar_array) (o : op) : list (Z * Z) :=
  match o with
  | barrier_wait (arr', idx) ph true =>
      if bar_array_eq_dec arr' arr then [(idx, ph)] else []
  | _ => []
  end.

Definition acq_events (arr : bar_array) (l : list op) : list (Z * Z) :=
  flat_map (wait_event arr) l.

(** The slot and the phase argument derived from counter value [k]:
    [_get_bufidx_phase(k, N)], with the phase flipped ([phase ^ 1]) where
    the source does so. *)
Definition slot_phase (N : Z) (flip : bool) (k : Z) : Z * Z :=
  let '(bufIdx, phase) := _get_bufidx_phase k N in
  (bufIdx, if flip then Z.lxor phase 1 else phase).

Definition canon (N : Z) (flip : bool) (c : Z) (n : nat) : list (Z * Z) :=
  map (fun j => slot_phase N flip (c + Z.of_nat j)) (seq 0 n).

Definition flip_bit (flip : bool) : Z := if flip then 1 else 0.

(** How many pairs of [l] name slot [s]. *)
Definition slot_hits (s : Z) (l : list (Z * Z)) : Z :=
  Z.of_nat (length (filter (fun e => fst e =? s) l)).

(** Every wait of [P] on array [arr] names a slot below [N] and passes the
    parity of the number of earlier waits on the same barrier, offset by
    [flip]. *)
Definition phased (arr : bar_array) (N : Z) (flip : bool) (P : list op)
    : Prop :=
  forall l1 idx ph l2,
    P = l1 ++ barrier_wait (arr, idx) ph true :: l2 ->
    0 <= idx < N
    /\ ph = (count_waits (arr, idx) l1 + flip_bit flip) mod 2.

(** Matmuls issued into [buf] minus waits on [arr], along a program that
    starts with excess [e]: the excess never goes above one. *)
Definition exc_delta (buf : buf_array) (arr : bar_array) (o : op) : Z :=
  (if is_dot_into buf o then 1 else 0) - (if is_wait_on arr o then 1 else 0).

Fixpoint exc (buf : buf_array) (arr : bar_array) (l : list op) : Z :=
  match l with
  | [] => 0
  | o :: r => exc_delta buf arr o + exc buf arr r
  end.

Fixpoint bounded (buf : buf_array) (arr : bar_array) (e : Z) (l : list op)
    : bool :=
  match l with
  | [] => true
  | o :: r =>
      let e' := e + exc_delta buf arr o in
      (e' <=? 1) && bounded buf arr e' r
  end.

(** Parity offset of the acquire waits on a barrier: the arrivals issued
    before the tasks start, plus the flip of the phase argument. *)
Definition slack (flip : bool) (b : barrier) : Z :=
  (init_bars b + flip_bit flip) mod 2.

(** Whether the producer flips the phase of its acquire wait on the
    channel's release barrier ([phase ^ 1]). *)
Definition acquire_flip (c : channel) : bool :=
  match c with
  | ch_q0 | ch_q1 | ch_o0 | ch_o1 => true
  | ch_kv | ch_qk0 | ch_qk1 => false
  end.

(** The invariant that bounds the waits of task [i], whose program is [P],
    on the barriers of array [arr]. *)
Definition inv_acq (arr : bar_array) (flip : bool) (i : nat) (P : list op)
    (m : machine) : Prop :=
  (forall b, init_bars b <= bars m b)
  /\ exists t,
       nth_error (tasks m) i = Some t
       /\ done t ++ todo t = P
       /\ forall s,
            count_waits (arr, s) (done t)
            <= bars m (arr, s) - init_bars (arr, s) + slack flip (arr, s).

(** The environment and the loop state the gemm prologue sets up. *)
Definition mma_env (a : kernel_args) (st : mma_state) : mma_tile_env :=
  snd (fst (mma_prologue a st)).

Definition mma_loop_init (a : kernel_args) (st : mma_state) : mma_loop_state :=
  snd (mma_prologue a st).

(** The program of the producing task of a channel. *)
Definition producer_program (a : kernel_args) (prog_id : Z) (c : channel)
    : list op :=
  match c with
  | ch_q0 | ch_q1 | ch_kv => load_partition a prog_id
  | ch_qk0 | ch_qk1 | ch_o0 | ch_o1 => mma_partition a prog_id
  end.

(** A small launch used in examples: batch 2, 2 heads, head dimension 64,
    sequence lengths 37 and 129, one program per tile. *)
Definition example_args : kernel_args :=
  {| Q_offsets := [0; 37; 166];
     K_offsets := [0; 37; 166];
     seq_index := [];
     stride_qh := 64; stride_kh := 64; stride_oh := 64;
     Z_ := 2; H_ := 2; G_ := 1;
     N_CTX := 129; N_CTX_KV := 129;
     qk_scale := 1%R;
     SORT_BY_SEQ_LENGTH := false;
     HEAD_DIM := 64; BLOCK_M := 256; BLOCK_N := 128; BLOCK_D := 64;
     WINDOW_SIZE := None;
     activation_enum_int := 0;
     USE_ON_DEVICE_TMA := true;
     NUM_BUFFERS_Q := 1; NUM_BUFFERS_KV := 3;
     NUM_BUFFERS_QK := 1; NUM_BUFFERS_O := 1;
     PINGPONG := true; NAME_BARRIER := false; MERGE_EPI := false;
     num_progs := 4 |}.

(** States of program 3 of the example launch, which handles the tile of
    batch element 1 and head 1, with two key blocks.  In the first the
    load partition has run alone as far as it can: it has issued fifteen
    operations, none of its loads has completed, and no other task has
    started.  The other two are taken from the run of [run_steps]: after 33
    steps the second activation partition is inside its first ping-pong
    turn, and after 60 steps both key blocks have been through the first
    activation partition. *)
Definition example_load_ahead : machine :=
  run_task 3 15 (init_machine example_args 3).

Definition example_second_turn : machine :=
  run_steps 33 (init_machine example_args 3).

Definition example_two_scores : machine :=
  run_steps 60 (init_machine example_args 3).

(** The [i]-th task of a machine. *)
Definition task_at (i : nat) (m : machine) : task :=
  nth i (tasks m) {| done := []; todo := [] |}.

(** *** The stores of the forward kernel

    The epilogue partition (lines 1261-1309) issues, for each active tile
    of the program, one bulk store of each of the two staging buffers
    [o0_smem[0]] and [o1_smem[0]] into the output.  It waits on no
    barrier, so nothing in the source fixes what a staging buffer holds
    when its store is carried out: that content is the parameter
    [staged] below, one tile of values for each store, and only where the
    stores go is taken from the source.  The host wrapper fixes
    [USE_ON_DEVICE_TMA = True] and [MERGE_EPI = False]; the descriptors
    are the on-device ones. *)

Definition mem : Type := Z -> R.

(** A store through a descriptor whose row stride equals its row length
    [width]: the block element [(r, c)] goes to offset
    [(row + r) * width + (col + c)] when [(row + r, col + c)] lies inside
    the shape.  [store_covers] tells whether an offset is written, and
    [store_value] what is written there. *)
Record store_geom : Type := {
  st_shape0 : Z; st_width : Z;
  st_block0 : Z; st_block1 : Z;
  st_row : Z; st_col : Z
}.

Record store_action : Type := {
  st_geom : store_geom;
  st_tile : tile
}.

Definition store_covers (g : store_geom) (addr : Z) : bool :=
  let i := addr / st_width g in
  let j := addr mod st_width g in
  (0 <? st_width g) && (0 <=? addr)
  && (st_row g <=? i) && (i <? st_row g + st_block0 g) && (i <? st_shape0 g)
  && (st_col g <=? j) && (j <? st_col g + st_block1 g).

Definition store_value (s : store_action) (addr : Z) : R :=
  let g := st_geom s in
  st_tile s (addr / st_width g - st_row g) (addr mod st_width g - st_col g).

Definition apply_store (out : mem) (s : store_action) : mem :=
  fun addr =>
    if store_covers (st_geom s) addr then store_value s addr else out addr.

(** Where the two stores of the epilogue partition for an active tile go
    (lines 1282-1307). *)
Definition tile_footprints (a : kernel_args) (tile_idx : Z)
    : list store_geom :=
  if tile_active a tile_idx then
    let info := _compute_qlen a tile_idx in
    let out_offset := off_h_of a tile_idx * stride_oh a in
    let row0 := begin_q info + start_m_of a tile_idx * BLOCK_M a in
    let mk row :=
      {| st_shape0 := to_int32 (end_q info);
         st_width := HEAD_DIM a * H_ a;
         st_block0 := BLOCK_M a / 2;
         st_block1 := BLOCK_D a;
         st_row := to_int32 row;
         st_col := to_int32 out_offset |} in
    [ mk row0; mk (row0 + BLOCK_M a / 2) ]
  else [].

(** The stores themselves: [staged tile_idx false] is what [o0_smem[0]]
    holds when the first store of the tile is carried out, and
    [staged tile_idx true] what [o1_smem[0]] holds at the second. *)
Definition tile_stores (staged : Z -> bool -> tile) (a : kernel_args)
    (tile_idx : Z) : list store_action :=
  map (fun gs => {| st_geom := fst gs; st_tile := staged tile_idx (snd gs) |})
      (combine (tile_footprints a tile_idx) [false; true]).

(** The programs of the grid, [0 .. num_progs - 1]. *)
Definition grid_programs (a : kernel_args) : list Z :=
  map Z.of_nat (seq 0 (Z.to_nat (num_progs a))).

Definition kernel_stores (staged : Z -> bool -> tile) (a : kernel_args)
    : list store_action :=
  flat_map (fun u => flat_map (tile_stores staged a) (prog_tiles a u))
           (grid_programs a).

(** The output storage after the launch, from its content [out] before.
    The stores are applied program by program; where the stores of two
    programs overlap the source fixes no order between them, so this is
    one of the possible results there. *)
Definition kernel_output (staged : Z -> bool -> tile) (a : kernel_args)
    (out : mem) : mem :=
  fold_left apply_store (kernel_stores staged a) out.

(** Whether some store of the launch writes the offset. *)
Definition kernel_footprints (a : kernel_args) : list store_geom :=
  flat_map (fun u => flat_map (tile_footprints a) (prog_tiles a u))
           (grid_programs a).

Definition kernel_writes (a : kernel_args) (addr : Z) : bool :=
  existsb (fun g => store_covers g addr) (kernel_footprints a).


(** *** The host wrapper [gdpa_forward_tlx] *)

Record tensor3 : Type := {
  t_shape : Z * Z * Z;
  t_stride : Z * Z * Z;
  t_data : mem
}.

Definition shape_0 (x : tensor3) : Z := fst (fst (t_shape x)).
Definition shape_1 (x : tensor3) : Z := snd (fst (t_shape x)).
Definition shape_2 (x : tensor3) : Z := snd (t_shape x).
Definition stride_0 (x : tensor3) : Z := fst (fst (t_stride x)).
Definition stride_1 (x : tensor3) : Z := snd (fst (t_stride x)).
Definition stride_2 (x : tensor3) : Z := snd (t_stride x).

(** [x.contiguous()]: a copy laid out row-major. *)
Definition contiguous (x : tensor3) : tensor3 :=
  let s1 := shape_1 x in
  let s2 := shape_2 x in
  {| t_shape := t_shape x;
     t_stride := (s1 * s2, s2, 1);
     t_data := fun addr =>
       let i := addr / (s1 * s2) in
       let j := (addr / s2) mod s1 in
       let k := addr mod s2 in
       t_data x (i * stride_0 x + j * stride_1 x + k * stride_2 x) |}.

(** [expect_contiguous] *)
Definition expect_contiguous (x : tensor3) : tensor3 :=
  if negb (stride_2 x =? 1) then contiguous x else x.

(** [next_power_of_2(x) = 2 ** ceil(log(x, 2))], with the logarithm taken
    exactly; [math.log] raises [ValueError] for [x <= 0]. *)
Definition next_power_of_2 (x : Z) : option Z :=
  if x <=? 0 then None else Some (2 ^ Z.log2_up x).

Inductive host_error : Type :=
| ValueError | TypeError | RuntimeError | ZeroDivisionError
| AssertionError | ActivationError.

Inductive result (A : Type) : Type :=
| Raised (e : host_error)
| Returned (x : A).
Arguments Raised {A} e.
Arguments Returned {A} x.

(** The arguments of [gdpa_forward_tlx] that its body reads.  The
    remaining ones ([ad_to_request_offset], [attn_mask], [attn_offset],
    [allow_tf32], [enable_persistent], [enable_tma], [enable_ws],
    [use_dq_atomic_add], [bwd_opt_tech]) are not read; [is_causal] is kept
    to show that it is not read either. *)
Record forward_args : Type := {
  query : tensor3;
  key : tensor3;
  value : tensor3;
  query_offset : list Z;
  key_offset : list Z;
  max_seq_len_q : Z;
  max_seq_len_kv : Z;
  is_causal : bool;
  f_qk_scale : option R;
  f_seq_index : option (list Z);
  output_offset : option (list Z);
  use_start_end_offsets : bool;
  window_size : option Z;
  broadcast_q : bool;
  activation : String.string;
  total_num_objects : option Z
}.

(** What the wrapper takes from outside its arguments: [get_num_sms]
    (module [gdpa_utils]) and [activation_string_to_int] (module [.math]),
    neither of which is among the sources ([None] stands for an exception
    raised by the latter); and the value of [PINGPONG] in the configuration
    the autotuner selects. *)
Record host_env : Type := {
  get_num_sms : option Z;
  activation_string_to_int : String.string -> option Z;
  autotuned_PINGPONG : bool
}.

(** [torch.empty(shape)]: raises on a missing or negative size. *)
Definition torch_empty_check (rows : option Z) : option host_error :=
  match rows with
  | None => Some TypeError
  | Some n => if n <? 0 then Some RuntimeError else None
  end.

(** The kernel arguments the wrapper passes (lines 1474-1521), with the
    block sizes and buffer counts of [get_cuda_autotune_config]. *)
Definition launch_args (env : host_env) (x : forward_args)
    (BLOCK_D_ activation_enum_int_ : Z) : kernel_args :=
  let qk_scale_ := match f_qk_scale x with None => 1%R | Some s => s end in
  let HEAD_DIM_Q := shape_2 (query x) in
  let HEAD_DIM_K := shape_2 (key x) in
  let BATCH :=
    if broadcast_q x then Z.of_nat (length (key_offset x)) - 1
    else if use_start_end_offsets x
         then Z.of_nat (length (query_offset x)) / 2
         else Z.of_nat (length (query_offset x)) - 1 in
  let nheads := shape_1 (query x) in
  let G := shape_1 (query x) / shape_1 (key x) in
  let NUM_SMS :=
    match get_num_sms env with
    | None => 1000000
    | Some n => if n =? 0 then 1000000 else n
    end in
  let q := expect_contiguous (query x) in
  let k := expect_contiguous (key x) in
  let BLOCK_M_ := 256 in
  let grid :=
    Z.min NUM_SMS
      ((max_seq_len_q x + BLOCK_M_ - 1) / BLOCK_M_ * BATCH * nheads) in
  {| Q_offsets := query_offset x;
     K_offsets := key_offset x;
     seq_index := match f_seq_index x with Some l => l | None => [] end;
     stride_qh := stride_1 q;
     stride_kh := stride_1 k;
     stride_oh := HEAD_DIM_Q;
     Z_ := BATCH;
     H_ := nheads;
     G_ := G;
     N_CTX := max_seq_len_q x;
     N_CTX_KV := max_seq_len_kv x;
     qk_scale := qk_scale_;
     SORT_BY_SEQ_LENGTH :=
       match f_seq_index x with Some _ => true | None => false end;
     HEAD_DIM := HEAD_DIM_K;
     BLOCK_M := BLOCK_M_;
     BLOCK_N := 128;
     BLOCK_D := BLOCK_D_;
     WINDOW_SIZE := window_size x;
     activation_enum_int := activation_enum_int_;
     USE_ON_DEVICE_TMA := true;
     NUM_BUFFERS_Q := 1;
     NUM_BUFFERS_KV := 3;
     NUM_BUFFERS_QK := 1;
     NUM_BUFFERS_O := 1;
     PINGPONG := autotuned_PINGPONG env;
     NAME_BARRIER := false;
     MERGE_EPI := false;
     num_progs := grid |}.

(** What can raise before the wrapper launches the kernel, in source
    order: [next_power_of_2] (line 1375), [torch.empty] (1385-1404), the
    division [query.shape[1] // key.shape[1]] (1410), the assertion (1411),
    the division [HEAD_DIM * H // G] (1431) and [activation_string_to_int]
    (1466).  The result is the error raised, or the values the launch
    needs. *)
Definition host_checks (env : host_env) (x : forward_args)
    : result (Z * Z) :=
  let HEAD_DIM_Q := shape_2 (query x) in
  match next_power_of_2 HEAD_DIM_Q with
  | None => Raised ValueError
  | Some p =>
      let BLOCK_D_ := Z.max p 16 in
      let BATCH :=
        if broadcast_q x then Z.of_nat (length (key_offset x)) - 1
        else if use_start_end_offsets x
             then Z.of_nat (length (query_offset x)) / 2
             else Z.of_nat (length (query_offset x)) - 1 in
      let rows :=
        if use_start_end_offsets x then total_num_objects x
        else Some (if broadcast_q x then BATCH * shape_0 (query x)
                   else shape_0 (query x)) in
      match torch_empty_check rows with
      | Some e => Raised e
      | None =>
          if shape_1 (key x) =? 0 then Raised ZeroDivisionError
          else if negb (shape_1 (query x) mod shape_1 (key x) =? 0)
          then Raised AssertionError
          else
            let G := shape_1 (query x) / shape_1 (key x) in
            if G =? 0 then Raised ZeroDivisionError
            else match activation_string_to_int env (activation x) with
                 | None => Raised ActivationError
                 | Some act => Returned (BLOCK_D_, act)
                 end
      end
  end.

(** [gdpa_forward_tlx]: the storage of the returned tensor [o].  Each
    call allocates [o] with [torch.empty] (lines 1385-1404), which does not
    initialise it: [o_alloc] is the content the storage this call obtained
    happens to hold, and [staged] what the staging buffers of this launch
    hold at each store. *)
Definition gdpa_forward_tlx (env : host_env) (x : forward_args)
    (o_alloc : mem) (staged : Z -> bool -> tile) : result mem :=
  match host_checks env x with
  | Raised e => Raised e
  | Returned (BLOCK_D_, act) =>
      Returned (kernel_output staged (launch_args env x BLOCK_D_ act) o_alloc)
  end.


(** The same call with other offset arrays. *)
Definition with_offsets (x : forward_args) (qo ko : list Z) : forward_args :=
  {| query := query x; key := key x; value := value x;
     query_offset := qo; key_offset := ko;
     max_seq_len_q := max_seq_len_q x; max_seq_len_kv := max_seq_len_kv x;
     is_causal := is_causal x;
     f_qk_scale := f_qk_scale x;
     f_seq_index := f_seq_index x; output_offset := output_offset x;
     use_start_end_offsets := use_start_end_offsets x;
     window_size := window_size x; broadcast_q := broadcast_q x;
     activation := activation x; total_num_objects := total_num_objects x |}.

(** [sum(end[i] - begin[i] for i in batch)] for an offsets array
    [begin_0, end_0 = begin_1, ...]. *)
Fixpoint sum_lengths (offsets : list Z) : Z :=
  match offsets with
  | b :: ((e :: _) as rest) => (e - b) + sum_lengths rest
  | _ => 0
  end.

(** The precondition of the specification: the sequence lengths add up to
    the number of rows of the packed query tensor. *)
Definition offsets_cover_rows (x : forward_args) : bool :=
  sum_lengths (query_offset x) =? shape_0 (query x).

Definition raises {A : Type} (r : result A) : bool :=
  match r with Raised _ => true | Returned _ => false end.

Definition example_env : host_env :=
  {| get_num_sms := Some 148;
     activation_string_to_int := fun s =>
       if String.eqb s "raw"%string then Some 0
       else if String.eqb s "gelu"%string then Some 1
       else if String.eqb s "fast_gelu"%string then Some 3
       else None;
     autotuned_PINGPONG := true |}.

(** Batch 2, 2 heads, head dimension 64, sequence lengths 37 and 129, in
    packed tensors; the query tensor has 200 rows, 34 more than the 166 the
    offsets account for. *)
Definition example_padded : forward_args :=
  {| query := {| t_shape := (200, 2, 64); t_stride := (128, 64, 1);
                 t_data := fun _ => 1%R |};
     key := {| t_shape := (166, 2, 64); t_stride := (128, 64, 1);
               t_data := fun _ => 1%R |};
     value := {| t_shape := (166, 2, 64); t_stride := (128, 64, 1);
                 t_data := fun _ => 1%R |};
     query_offset := [0; 37; 166];
     key_offset := [0; 37; 166];
     max_seq_len_q := 129;
     max_seq_len_kv := 129;
     is_causal := false;
     f_qk_scale := None;
     f_seq_index := None;
     output_offset := None;
     use_start_end_offsets := false;
     window_size := None;
     broadcast_q := false;
     activation := "raw"%string;
     total_num_objects := None |}.
(** *** Integer helpers of the backward kernel *)

(** [tl.cdiv] on [tl.constexpr] operands, which Python evaluates with its
    flooring division. *)
Definition cdiv_constexpr (x d : Z) : Z := (x + d - 1) / d.

(** The two ends of the window-limited range of query rows
    (lines 1536-1541 of [_gdpa_bwd_tlx_compute_num_steps]). *)
Definition bwd_start_m_inner (start_n BLOCK_M1 w : Z) : Z :=
  let start_m_inner := 0 in
  Z.quot (Z.max start_m_inner (start_n - w)) BLOCK_M1 * BLOCK_M1.

Definition bwd_end_m_inner (start_n qlen BLOCK_M1 BLOCK_N1 w : Z) : Z :=
  cdiv (Z.min qlen (start_n + BLOCK_N1 + w)) BLOCK_M1 * BLOCK_M1.

(** [_gdpa_bwd_tlx_compute_num_steps(start_n, qlen, BLOCK_M1, BLOCK_N1,
    WINDOW_SIZE)] *)
Definition _gdpa_bwd_tlx_compute_num_steps
    (start_n qlen BLOCK_M1 BLOCK_N1 : Z) (WINDOW_SIZE : option Z) : Z :=
  let start_m_inner := 0 in
  let num_steps := cdiv (qlen - start_m_inner) BLOCK_M1 in
  match WINDOW_SIZE with
  | Some w =>
      let start_m_inner := bwd_start_m_inner start_n BLOCK_M1 w in
      let end_m_inner := bwd_end_m_inner start_n qlen BLOCK_M1 BLOCK_N1 w in
      Z.quot (end_m_inner - start_m_inner) BLOCK_M1
  | None => num_steps
  end.

(** The call the four tasks of [gdpa_backward_tlx] and
    [_gdpa_bwd_tlx_compute_activation] make (lines 1591, 1967, 2043,
    2195): [_gdpa_bwd_tlx_compute_num_steps(qlen, start_n, BLOCK_M1,
    BLOCK_N1, WINDOW_SIZE)], the arguments being passed by position. *)
Definition bwd_num_steps_at_call (qlen start_n BLOCK_M1 BLOCK_N1 : Z)
    (WINDOW_SIZE : option Z) : Z :=
  _gdpa_bwd_tlx_compute_num_steps qlen start_n BLOCK_M1 BLOCK_N1 WINDOW_SIZE.

Record bwd_offsets : Type := {
  bw_off_z : Z; bw_off_h : Z; bw_off_h_kv : Z; bw_off_q_z : Z; bw_pid : Z
}.

(** [bwd_caculate_offsets], with the values of [tl.program_id(0)] and
    [tl.program_id(2)]. *)
Definition bwd_caculate_offsets (program_id_0 program_id_2 : Z)
    (seq_index : list Z) (H G : Z) (SORT_BY_SEQ_LENGTH BROADCAST_Q : bool)
    : bwd_offsets :=
  let off_z := program_id_2 in
  let off_z := if SORT_BY_SEQ_LENGTH then tl_load seq_index off_z else off_z in
  let off_q_z := if BROADCAST_Q then 0 else off_z in
  let off_seq_h := program_id_0 in
  let off_h := Z.rem off_seq_h H in
  let off_h_kv := Z.quot off_h G in
  let pid := Z.quot off_seq_h H in
  {| bw_off_z := off_z; bw_off_h := off_h; bw_off_h_kv := off_h_kv;
     bw_off_q_z := off_q_z; bw_pid := pid |}.

(** [bwd_caculate_tile_num], with the values of [tl.program_id(0)] and
    [tl.num_programs(0)]; the result is [(tiles_per_sm, n_tile_num)]. *)
Definition bwd_caculate_tile_num (prog_id num_progs Zb H : Z)
    (N_CTX N_CTX_KV BLOCK_N1 BLOCK_M2 : Z) : Z * Z :=
  let n_tile_num :=
    Z.max (cdiv_constexpr N_CTX_KV BLOCK_N1) (cdiv_constexpr N_CTX BLOCK_M2) in
  let total_tiles := n_tile_num * Zb * H in
  (tiles_per_sm total_tiles num_progs prog_id, n_tile_num).
(** *** Tile coordinates of the forward kernel *)

(** [off_z = (tile_idx // n_tile_num) // H], the batch element of a tile
    before the [seq_index] indirection (lines 90-91, 1066-1067). *)
Definition off_z_of (a : kernel_args) (tile_idx : Z) : Z :=
  Z.quot (Z.quot tile_idx (n_tile_num (N_CTX a) (BLOCK_M a))) (H_ a).

(** The tile index that decodes to batch element [z], head [h] and row
    block [pid]. *)
Definition tile_of (a : kernel_args) (z h pid : Z) : Z :=
  (z * H_ a + h) * n_tile_num (N_CTX a) (BLOCK_M a) + pid.

(** Whether one of the stores of a tile writes the offset. *)
Definition tile_covers (a : kernel_args) (tile_idx addr : Z) : bool :=
  existsb (fun g => store_covers g addr) (tile_footprints a tile_idx).

(** The launches whose output layout the storage theorems are about: the
    batch is not permuted by [seq_index], the block of rows splits into two
    equal halves, the output is row-major with [H] heads of [HEAD_DIM]
    columns, a block of columns is one head, the offsets are non-negative
    and non-decreasing, and every row and column coordinate the kernel
    forms fits the 32-bit integers it is converted to. *)
Definition fwd_layout_ok (a : kernel_args) : Prop :=
  SORT_BY_SEQ_LENGTH a = false
  /\ 0 < num_progs a
  /\ 0 < N_CTX a
  /\ 0 < BLOCK_M a /\ 2 * (BLOCK_M a / 2) = BLOCK_M a
  /\ 0 <= Z_ a /\ 0 < H_ a
  /\ stride_oh a = HEAD_DIM a /\ 0 < HEAD_DIM a /\ BLOCK_D a = HEAD_DIM a
  /\ HEAD_DIM a * H_ a < 2 ^ 31
  /\ 0 <= tl_load (Q_offsets a) 0
  /\ (forall z, 0 <= z < Z_ a ->
        tl_load (Q_offsets a) z <= tl_load (Q_offsets a) (z + 1))
  /\ tl_load (Q_offsets a) (Z_ a) + BLOCK_M a < 2 ^ 31.

(** The key blocks a tile goes through: the first one, which the
    prologues of the load and gemm partitions handle whatever the key
    length, and one per iteration of [range(BLOCK_N, klen, BLOCK_N)]. *)
Definition key_blocks (a : kernel_args) (klen : Z) : nat :=
  S (range_count (BLOCK_N a) klen (BLOCK_N a)).

(** The offset, in the storage of the output tensor, of the element on
    row [i], head [h], column [c]. *)
Definition out_addr (a : kernel_args) (i h c : Z) : Z :=
  i * (HEAD_DIM a * H_ a) + (h * HEAD_DIM a + c).

(** The store of one half of the tile of batch element [z], head [h] and
    row block [pid], with its coordinates written without the conversions
    to 32 bits. *)
Definition half_geom (a : kernel_args) (z h pid : Z) (second : bool)
    : store_geom :=
  {| st_shape0 := tl_load (Q_offsets a) (z + 1);
     st_width := HEAD_DIM a * H_ a;
     st_block0 := BLOCK_M a / 2;
     st_block1 := BLOCK_D a;
     st_row := tl_load (Q_offsets a) z + pid * BLOCK_M a
               + (if second then BLOCK_M a / 2 else 0);
     st_col := h * HEAD_DIM a |}.
(** *** Arguments the forward path receives *)

(** The same launch with other values of [qk_scale], [WINDOW_SIZE] and
    [activation_enum_int]. *)
Definition with_kernel_options (a : kernel_args) (s : R) (w : option Z)
    (act : Z) : kernel_args :=
  {| Q_offsets := Q_offsets a; K_offsets := K_offsets a;
     seq_index := seq_index a;
     stride_qh := stride_qh a; stride_kh := stride_kh a;
     stride_oh := stride_oh a;
     Z_ := Z_ a; H_ := H_ a; G_ := G_ a;
     N_CTX := N_CTX a; N_CTX_KV := N_CTX_KV a;
     qk_scale := s;
     SORT_BY_SEQ_LENGTH := SORT_BY_SEQ_LENGTH a;
     HEAD_DIM := HEAD_DIM a; BLOCK_M := BLOCK_M a; BLOCK_N := BLOCK_N a;
     BLOCK_D := BLOCK_D a;
     WINDOW_SIZE := w;
     activation_enum_int := act;
     USE_ON_DEVICE_TMA := USE_ON_DEVICE_TMA a;
     NUM_BUFFERS_Q := NUM_BUFFERS_Q a; NUM_BUFFERS_KV := NUM_BUFFERS_KV a;
     NUM_BUFFERS_QK := NUM_BUFFERS_QK a; NUM_BUFFERS_O := NUM_BUFFERS_O a;
     PINGPONG := PINGPONG a; NAME_BARRIER := NAME_BARRIER a;
     MERGE_EPI := MERGE_EPI a;
     num_progs := num_progs a |}.


(** The same call with another activation name. *)
Definition with_activation (x : forward_args) (name : String.string)
    : forward_args :=
  {| query := query x; key := key x; value := value x;
     query_offset := query_offset x; key_offset := key_offset x;
     max_seq_len_q := max_seq_len_q x; max_seq_len_kv := max_seq_len_kv x;
     is_causal := is_causal x;
     f_qk_scale := f_qk_scale x;
     f_seq_index := f_seq_index x; output_offset := output_offset x;
     use_start_end_offsets := use_start_end_offsets x;
     window_size := window_size x; broadcast_q := broadcast_q x;
     activation := name; total_num_objects := total_num_objects x |}.
(** *** Arrivals on the barriers *)

(** The barriers an operation arrives on: at once for
    [tlx.barrier_arrive], when it completes for a bulk load, a matmul or a
    commit. *)
Definition arrivals (o : op) : list barrier :=
  match o with
  | barrier_arrive b => [b]
  | _ => issue_pending o
  end.

(** Occurrences of barrier [b] in a list of barriers. *)
Definition count_in (b : barrier) (l : list barrier) : Z :=
  Z.of_nat (length (filter (barrier_eqb b) l)).

(** The arrivals on [b] that the operations of [l] make, or will have made
    once they have completed. *)
Definition arrivals_on (b : barrier) (l : list op) : Z :=
  count_in b (flat_map arrivals l).

(** The arrivals on [b] of the operations the tasks have issued. *)
Definition issued_on (b : barrier) (ts : list task) : Z :=
  fold_right Z.add 0 (map (fun t => arrivals_on b (done t)) ts).

(** Whether every arrival of [l] is on a barrier of one of the arrays
    [S]. *)
Definition in_arrays (S : list bar_array) (b : barrier) : bool :=
  existsb (fun x => if bar_array_eq_dec x (fst b) then true else false) S.

Definition arrives_within (S : list bar_array) (l : list op) : bool :=
  forallb (in_arrays S) (flat_map arrivals l).

(** The barrier arrays each task of [kernel_tasks] arrives on. *)
Definition task_arrays (i : nat) : list bar_array :=
  match i with
  | 0%nat => [producer_qk0; producer_commit_pp; producer_o0]
  | 1%nat => [producer_qk1; producer_pp; producer_o1]
  | 2%nat => [producer_commit_qk0; producer_commit_qk1; consumer_release_kv;
              producer_commit_o0; producer_commit_o1;
              consumer_release_q0; consumer_release_q1]
  | 3%nat => [consumer_q0; consumer_q1; consumer_kv]
  | _ => []
  end.

(** Arrivals on any barrier of array [arr] among the operations of [l]. *)
Definition arrivals_on_array (arr : bar_array) (l : list op) : Z :=
  Z.of_nat
    (length
       (filter (fun b => if bar_array_eq_dec (fst b) arr then true else false)
          (flat_map arrivals l))).

(** Along [l], started with [e] waits on [wait_b] not yet followed by an
    arrival on [arrive_b]: no arrival comes without an earlier unmatched
    wait, and no second wait before the arrival that matches the first. *)
Fixpoint alternates (wait_b arrive_b : barrier) (e : Z) (l : list op)
    : bool :=
  match l with
  | [] => true
  | o :: r =>
      let e' := e + (if is_wait_at wait_b o then 1 else 0)
                - count_in arrive_b (arrivals o) in
      (0 <=? e') && (e' <=? 1) && alternates wait_b arrive_b e' r
  end.

(** The coordinates of the bulk loads of tensor [t], in issue order. *)
Definition load_coords (t : tensor) (l : list op) : list (Z * Z) :=
  flat_map (fun o =>
              match o with
              | async_descriptor_load t' _ row col _ =>
                  match t, t' with
                  | tQ, tQ | tK, tK | tV, tV | tOut, tOut => [(row, col)]
                  | _, _ => []
                  end
              | _ => []
              end) l.

(** The coordinates of the bulk stores into the output, in issue order. *)
Definition store_coords (l : list op) : list (Z * Z) :=
  flat_map (fun o =>
              match o with
              | async_descriptor_store _ row col => [(row, col)]
              | _ => []
              end) l.

(** Whether an operation is a bulk store of a staging buffer. *)
Definition is_staged_store (o : op) : bool :=
  match o with
  | async_descriptor_store (o0_smem, _) _ _
  | async_descriptor_store (o1_smem, _) _ _ => true
  | _ => false
  end.

(** The slot of the K/V ring each bulk load of K or V fills, with the
    barrier slot it will arrive on. *)
Definition kv_load_slots (l : list op) : list (Z * Z) :=
  flat_map (fun o =>
              match o with
              | async_descriptor_load _ (kv_buf, i) _ _ (consumer_kv, j) =>
                  [(i, j)]
              | _ => []
              end) l.

(** The task of [kernel_tasks] that arrives on the barriers of an array:
    the load partition (3) signals the Q and K/V slots full, the gemm
    partition (2) signals the score regions and accumulators written and
    the Q and K/V slots free, the activation partitions (0 and 1) signal
    the activated tiles written, the accumulators read, and each other. *)
Definition array_owner (arr : bar_array) : nat :=
  match arr with
  | consumer_q0 | consumer_q1 | consumer_kv => 3%nat
  | consumer_release_q0 | consumer_release_q1 | consumer_release_kv
  | producer_commit_qk0 | producer_commit_qk1
  | producer_commit_o0 | producer_commit_o1 => 2%nat
  | producer_qk1 | producer_o1 | producer_pp => 1%nat
  | producer_qk0 | producer_o0 | producer_commit_pp => 0%nat
  end.

(** Slots of the K/V ring a tile takes (one for K and one for V per key
    block), slots of the Q buffers it takes, score tiles the gemm
    partition produces for each activation partition, and iterations of
    the inner loop of an activation partition. *)
Definition tile_kv_slots (a : kernel_args) (t : Z) : nat :=
  if tile_active a t
  then (2 * key_blocks a (klen (_compute_qlen a t)))%nat else 0%nat.

Definition tile_q_slots (a : kernel_args) (t : Z) : nat :=
  if tile_active a t then 1%nat else 0%nat.

Definition tile_scores (a : kernel_args) (t : Z) : nat :=
  if tile_active a t then key_blocks a (klen (_compute_qlen a t)) else 0%nat.

Definition tile_act_steps (a : kernel_args) (t : Z) : nat :=
  if tile_active a t
  then range_count 0 (klen (_compute_qlen a t)) (BLOCK_N a) else 0%nat.

(** The example launch with an empty key sequence for batch element 0,
    whose query sequence has 37 rows. *)
Definition example_empty_keys : kernel_args :=
  {| Q_offsets := [0; 37; 166];
     K_offsets := [0; 0; 129];
     seq_index := [];
     stride_qh := 64; stride_kh := 64; stride_oh := 64;
     Z_ := 2; H_ := 2; G_ := 1;
     N_CTX := 129; N_CTX_KV := 129;
     qk_scale := 1%R;
     SORT_BY_SEQ_LENGTH := false;
     HEAD_DIM := 64; BLOCK_M := 256; BLOCK_N := 128; BLOCK_D := 64;
     WINDOW_SIZE := None;
     activation_enum_int := 0;
     USE_ON_DEVICE_TMA := true;
     NUM_BUFFERS_Q := 1; NUM_BUFFERS_KV := 3;
     NUM_BUFFERS_QK := 1; NUM_BUFFERS_O := 1;
     PINGPONG := true; NAME_BARRIER := false; MERGE_EPI := false;
     num_progs := 4 |}.

(** *** The byte counts armed before the bulk loads *)

(** The elements of the box a bulk load of tensor [t] brings, from the
    block shape of its descriptor: [[BLOCK_M // 2, BLOCK_D]] for Q and the
    output (lines 1092-1097, 1285-1290), [[BLOCK_N, BLOCK_D]] for K and V
    (lines 324-335). *)
Definition box_elems (a : kernel_args) (t : tensor) : Z :=
  match t with
  | tQ | tOut => BLOCK_M a / 2 * BLOCK_D a
  | tK | tV => BLOCK_N a * BLOCK_D a
  end.

(** Whether the bulk loads of [l] and the byte counts armed with
    [tlx.barrier_expect_bytes] go in pairs: every [barrier_expect_bytes] is
    directly followed by a bulk load that arrives on the barrier it arms,
    its byte count is the size of the box of that load for elements of
    [elem_bytes] bytes, and there is no other bulk load. *)
Fixpoint loads_armed (a : kernel_args) (elem_bytes : Z) (l : list op)
    : bool :=
  match l with
  | [] => true
  | barrier_expect_bytes b n :: r =>
      match r with
      | async_descriptor_load t _ _ _ b' :: r' =>
          barrier_eqb b b' && (n =? elem_bytes * box_elems a t)
          && loads_armed a elem_bytes r'
      | _ => false
      end
  | async_descriptor_load _ _ _ _ _ :: _ => false
  | _ :: r => loads_armed a elem_bytes r
  end.
(** *** The backward kernel as task programs

    [gdpa_backward_tlx] runs four tasks per program; each program handles
    one key block of one head of one batch element.  As for the forward
    kernel, a task is embedded as the list of the operations it issues. *)

(** The barrier arrays and the buffers of the backward kernel. *)
Inductive bwd_bar_array : Type :=
| k_fulls | v_fulls | q_fulls | do_fulls | dsT_fulls
| q_empties | do_empties | dsT_empties
| qk_fulls | ppT_fulls | dpT_fulls | dv_fulls | dk_fulls | dq_fulls
| ppT_empties | dq_empties.

Inductive bwd_buf_array : Type :=
| k_tiles | v_tiles | q_tiles | do_tiles | dsT_tiles
| qk_tiles | ppT_tiles | dpT_tiles | dv_tiles | dk_tiles | dq_tiles.

Definition bwd_barrier : Type := bwd_bar_array * Z.
Definition bwd_view : Type := bwd_buf_array * Z.

(** An operand of a matmul: a view, possibly through [tlx.local_trans]. *)
Record bwd_operand : Type := { opd_view : bwd_view; opd_trans : bool }.

Inductive bwd_tensor : Type := desc_q | desc_k | desc_v | desc_do.
Inductive bwd_grad_tensor : Type := DK | DV.

Inductive bwd_op : Type :=
| bwd_barrier_wait (b : bwd_barrier) (phase : Z)
| bwd_barrier_arrive (b : bwd_barrier)
| bwd_barrier_expect_bytes (b : bwd_barrier) (bytes : Z)
| bwd_async_descriptor_load (t : bwd_tensor) (dst : bwd_view) (row col : Z)
    (b : bwd_barrier)
| bwd_async_dot (x y : bwd_operand) (dst : bwd_view) (use_acc : bool)
    (mBarriers : list bwd_barrier)
| bwd_tcgen05_commit (b : bwd_barrier)
| bwd_local_load (src : bwd_view)
| bwd_local_store (dst : bwd_view)
| bwd_atomic_add (row col : Z)
| bwd_tl_store (t : bwd_grad_tensor) (start_n klen : Z).

(** The arguments of one program of a launch of [gdpa_backward_tlx] that
    its tasks read, with the values of [tl.program_id(0)] and
    [tl.program_id(2)]. *)
Record bwd_args : Type := {
  bw_Q_offsets : list Z;
  bw_K_offsets : list Z;
  bw_seq_index : list Z;
  bw_stride_qh : Z;
  bw_stride_kh : Z;
  bw_H : Z;
  bw_G : Z;
  bw_FUSED_QKV : bool;
  bw_SORT_BY_SEQ_LENGTH : bool;
  bw_BROADCAST_Q : bool;
  bw_BLOCK_D : Z;
  bw_BLOCK_M1 : Z;
  bw_BLOCK_N1 : Z;
  bw_BLOCK_M2 : Z;
  bw_WINDOW_SIZE : option Z;
  bw_NUM_BUFFERS_KV : Z;
  bw_NUM_BUFFERS_Q : Z;
  bw_NUM_BUFFERS_DO : Z;
  bw_NUM_BUFFERS_DS : Z;
  bw_NUM_BUFFERS_TMEM : Z;
  bw_program_id_0 : Z;
  bw_program_id_2 : Z
}.

(** The values every task computes first (lines 1879-1900 and the copies
    of them in the other tasks). *)
Record bwd_env : Type := {
  be_off_h : Z; be_off_h_kv : Z;
  be_begin_q : Z; be_begin_k : Z;
  be_start_n : Z; be_start_m : Z;
  be_qlen : Z; be_klen : Z
}.

Definition bwd_task_env (a : bwd_args) : bwd_env :=
  let o := bwd_caculate_offsets (bw_program_id_0 a) (bw_program_id_2 a)
             (bw_seq_index a) (bw_H a) (bw_G a)
             (bw_SORT_BY_SEQ_LENGTH a) (bw_BROADCAST_Q a) in
  let begin_q := tl_load (bw_Q_offsets a) (bw_off_q_z o) in
  let end_q := tl_load (bw_Q_offsets a) (bw_off_q_z o + 1) in
  let start_n := bw_pid o * bw_BLOCK_N1 a in
  let start_m := bw_pid o * bw_BLOCK_M2 a in
  let qlen := end_q - begin_q in
  let begin_k :=
    if bw_FUSED_QKV a then begin_q else tl_load (bw_K_offsets a) (bw_off_z o) in
  let klen :=
    if bw_FUSED_QKV a then qlen
    else tl_load (bw_K_offsets a) (bw_off_z o + 1)
         - tl_load (bw_K_offsets a) (bw_off_z o) in
  {| be_off_h := bw_off_h o; be_off_h_kv := bw_off_h_kv o;
     be_begin_q := begin_q; be_begin_k := begin_k;
     be_start_n := start_n; be_start_m := start_m;
     be_qlen := qlen; be_klen := klen |}.

(** The guard [if start_n < klen] of every task. *)
Definition bwd_active (a : bwd_args) : bool :=
  be_start_n (bwd_task_env a) <? be_klen (bwd_task_env a).

(** The trip count of the loops [tl.range(0, num_steps, 1)]. *)
Definition bwd_num_steps (a : bwd_args) : Z :=
  bwd_num_steps_at_call (be_qlen (bwd_task_env a))
    (be_start_n (bwd_task_env a)) (bw_BLOCK_M1 a) (bw_BLOCK_N1 a)
    (bw_WINDOW_SIZE a).

(** A loop [for i in tl.range(0, n, 1)] whose body issues [body i]. *)
Fixpoint bwd_loop (body : Z -> list bwd_op) (i : Z) (iters : nat)
    : list bwd_op :=
  match iters with
  | O => []
  | S k => body i ++ bwd_loop body (i + 1) k
  end.

(** The gemm task (lines 1996-2130). *)
Definition bwd_mma_body (a : bwd_args) (i : Z) : list bwd_op :=
  let '(kv_buf_id, _) := _get_bufidx_phase 0 (bw_NUM_BUFFERS_KV a) in
  let '(dkv_buf_id, _) := _get_bufidx_phase 0 (bw_NUM_BUFFERS_TMEM a) in
  let k_tile := (k_tiles, kv_buf_id) in
  let v_tile := (v_tiles, kv_buf_id) in
  let dk_tile := (dk_tiles, dkv_buf_id) in
  let dv_tile := (dv_tiles, dkv_buf_id) in
  let '(q_buf_id, q_phase) := _get_bufidx_phase i (bw_NUM_BUFFERS_Q a) in
  let q_tile := (q_tiles, q_buf_id) in
  let '(do_buf_id, do_phase) := _get_bufidx_phase i (bw_NUM_BUFFERS_DO a) in
  let do_tile := (do_tiles, do_buf_id) in
  let '(tmem_buf_id, tmem_phase) :=
    _get_bufidx_phase i (bw_NUM_BUFFERS_TMEM a) in
  let dsT_tile := (dsT_tiles, tmem_buf_id) in
  let plain v := {| opd_view := v; opd_trans := false |} in
  let trans v := {| opd_view := v; opd_trans := true |} in
  [ bwd_barrier_wait (q_fulls, q_buf_id) q_phase;
    bwd_barrier_wait (ppT_empties, tmem_buf_id) (Z.lxor tmem_phase 1);
    bwd_async_dot (plain k_tile) (trans q_tile) (qk_tiles, tmem_buf_id) false
      [(qk_fulls, tmem_buf_id)];
    bwd_barrier_wait (do_fulls, do_buf_id) do_phase;
    bwd_barrier_wait (dsT_empties, tmem_buf_id) (Z.lxor tmem_phase 1);
    bwd_async_dot (plain v_tile) (trans do_tile) (dpT_tiles, tmem_buf_id)
      false [(dpT_fulls, tmem_buf_id)];
    bwd_barrier_wait (ppT_fulls, tmem_buf_id) tmem_phase;
    bwd_async_dot (plain (ppT_tiles, tmem_buf_id)) (plain do_tile) dv_tile
      (0 <? i) [(do_empties, do_buf_id); (ppT_empties, tmem_buf_id)];
    bwd_barrier_wait (dsT_fulls, tmem_buf_id) tmem_phase;
    bwd_async_dot (plain dsT_tile) (plain q_tile) dk_tile (0 <? i)
      [(q_empties, q_buf_id)];
    bwd_barrier_wait (dq_empties, tmem_buf_id) (Z.lxor tmem_phase 1);
    bwd_async_dot (trans dsT_tile) (plain k_tile) (dq_tiles, tmem_buf_id)
      false [(dq_fulls, tmem_buf_id); (dsT_empties, tmem_buf_id)] ].

Definition bwd_mma_task (a : bwd_args) : list bwd_op :=
  if bwd_active a then
    let '(kv_buf_id, kv_phase) := _get_bufidx_phase 0 (bw_NUM_BUFFERS_KV a) in
    let '(dkv_buf_id, _) := _get_bufidx_phase 0 (bw_NUM_BUFFERS_TMEM a) in
    [ bwd_barrier_wait (k_fulls, kv_buf_id) kv_phase;
      bwd_barrier_wait (v_fulls, kv_buf_id) kv_phase ]
    ++ bwd_loop (bwd_mma_body a) 0 (range_count 0 (bwd_num_steps a) 1)
    ++ [ bwd_tcgen05_commit (dk_fulls, dkv_buf_id);
         bwd_tcgen05_commit (dv_fulls, dkv_buf_id) ]
  else [].

(** The load task (lines 2133-2244); [curr_m] starts at [start_m] and
    advances by [BLOCK_M1]. *)
Definition bwd_load_body (a : bwd_args) (i : Z) : list bwd_op :=
  let e := bwd_task_env a in
  let curr_m := be_start_m e + i * bw_BLOCK_M1 a in
  let '(q_buf_id, q_phase) := _get_bufidx_phase i (bw_NUM_BUFFERS_Q a) in
  let '(do_buf_id, do_phase) := _get_bufidx_phase i (bw_NUM_BUFFERS_DO a) in
  let row := to_int32 (be_begin_q e + curr_m) in
  let col := to_int32 (be_off_h e * bw_stride_qh a) in
  [ bwd_barrier_wait (q_empties, q_buf_id) (Z.lxor q_phase 1);
    bwd_barrier_expect_bytes (q_fulls, q_buf_id)
      (2 * bw_BLOCK_M1 a * bw_BLOCK_D a);
    bwd_async_descriptor_load desc_q (q_tiles, q_buf_id) row col
      (q_fulls, q_buf_id);
    bwd_barrier_wait (do_empties, do_buf_id) (Z.lxor do_phase 1);
    bwd_barrier_expect_bytes (do_fulls, do_buf_id)
      (2 * bw_BLOCK_M1 a * bw_BLOCK_D a);
    bwd_async_descriptor_load desc_do (do_tiles, do_buf_id) row col
      (do_fulls, do_buf_id) ].

Definition bwd_load_task (a : bwd_args) : list bwd_op :=
  if bwd_active a then
    let e := bwd_task_env a in
    let '(kv_buf_id, _) := _get_bufidx_phase 0 (bw_NUM_BUFFERS_KV a) in
    let row := to_int32 (be_begin_k e + be_start_n e) in
    let col := to_int32 (be_off_h_kv e * bw_stride_kh a) in
    [ bwd_barrier_expect_bytes (k_fulls, kv_buf_id)
        (2 * bw_BLOCK_N1 a * bw_BLOCK_D a);
      bwd_async_descriptor_load desc_k (k_tiles, kv_buf_id) row col
        (k_fulls, kv_buf_id);
      bwd_barrier_expect_bytes (v_fulls, kv_buf_id)
        (2 * bw_BLOCK_N1 a * bw_BLOCK_D a);
      bwd_async_descriptor_load desc_v (v_tiles, kv_buf_id) row col
        (v_fulls, kv_buf_id) ]
    ++ bwd_loop (bwd_load_body a) 0 (range_count 0 (bwd_num_steps a) 1)
  else [].

(** The reduction task (lines 1940-1993). *)
Definition bwd_reduction_body (a : bwd_args) (i : Z) : list bwd_op :=
  let e := bwd_task_env a in
  let curr_m := be_start_m e + i * bw_BLOCK_M1 a in
  let '(tmem_buf_id, tmem_phase) :=
    _get_bufidx_phase i (bw_NUM_BUFFERS_TMEM a) in
  [ bwd_barrier_wait (dq_fulls, tmem_buf_id) tmem_phase;
    bwd_local_load (dq_tiles, tmem_buf_id);
    bwd_atomic_add (to_int32 (be_begin_q e + curr_m))
      (to_int32 (be_off_h e * bw_stride_qh a));
    bwd_barrier_arrive (dq_empties, tmem_buf_id) ].

Definition bwd_reduction_task (a : bwd_args) : list bwd_op :=
  if bwd_active a
  then bwd_loop (bwd_reduction_body a) 0 (range_count 0 (bwd_num_steps a) 1)
  else [].

(** The activation task: [_gdpa_bwd_tlx_compute_activation], called with
    [accum_cnt_outer = 0] and [accum_cnt_inner = 0] (lines 1582-1687,
    1902-1937). *)
Definition bwd_act_body (a : bwd_args) (i : Z) : list bwd_op :=
  let accum_cnt_inner := 0 in
  let '(tmem_buf_id, tmem_phase) :=
    _get_bufidx_phase (accum_cnt_inner + i) (bw_NUM_BUFFERS_TMEM a) in
  [ bwd_barrier_wait (qk_fulls, tmem_buf_id) tmem_phase;
    bwd_local_load (qk_tiles, tmem_buf_id);
    bwd_local_store (ppT_tiles, tmem_buf_id);
    bwd_barrier_arrive (ppT_fulls, tmem_buf_id);
    bwd_barrier_wait (dpT_fulls, tmem_buf_id) tmem_phase;
    bwd_local_load (dpT_tiles, tmem_buf_id);
    bwd_local_store (dsT_tiles, tmem_buf_id);
    bwd_barrier_arrive (dsT_fulls, tmem_buf_id) ].

Definition bwd_act_task (a : bwd_args) : list bwd_op :=
  if bwd_active a then
    let e := bwd_task_env a in
    let accum_cnt_outer := 0 in
    let '(dkv_buf_id, dkv_phase) :=
      _get_bufidx_phase accum_cnt_outer (bw_NUM_BUFFERS_TMEM a) in
    bwd_loop (bwd_act_body a) 0 (range_count 0 (bwd_num_steps a) 1)
    ++ [ bwd_barrier_wait (dv_fulls, dkv_buf_id) dkv_phase;
         bwd_local_load (dv_tiles, dkv_buf_id);
         bwd_tl_store DV (be_start_n e) (be_klen e);
         bwd_barrier_wait (dk_fulls, dkv_buf_id) dkv_phase;
         bwd_local_load (dk_tiles, dkv_buf_id);
         bwd_tl_store DK (be_start_n e) (be_klen e) ]
  else [].

Definition bwd_buf_array_eq_dec (x y : bwd_buf_array) : {x = y} + {x <> y}.
Proof. decide equality. Defined.

(** The [use_acc] flags of the matmuls into buffer [acc], in issue
    order. *)
Definition bwd_dots_into (acc : bwd_buf_array) (ops : list bwd_op)
    : list bool :=
  flat_map (fun o =>
              match o with
              | bwd_async_dot _ _ (arr, _) use_acc _ =>
                  if bwd_buf_array_eq_dec arr acc then [use_acc] else []
              | _ => []
              end) ops.

(** The coordinates of the bulk loads of [t], and of the atomic adds into
    [desc_dq], in issue order. *)
Definition bwd_load_coords (t : bwd_tensor) (ops : list bwd_op)
    : list (Z * Z) :=
  flat_map (fun o =>
              match o with
              | bwd_async_descriptor_load t' _ row col _ =>
                  match t, t' with
                  | desc_q, desc_q | desc_k, desc_k
                  | desc_v, desc_v | desc_do, desc_do => [(row, col)]
                  | _, _ => []
                  end
              | _ => []
              end) ops.

Definition bwd_add_coords (ops : list bwd_op) : list (Z * Z) :=
  flat_map (fun o =>
              match o with
              | bwd_atomic_add row col => [(row, col)]
              | _ => []
              end) ops.

(** Whether a task stores the gradient tensor [t]. *)
Definition bwd_stores (t : bwd_grad_tensor) (ops : list bwd_op) : bool :=
  existsb (fun o =>
             match o, t with
             | bwd_tl_store DK _ _, DK | bwd_tl_store DV _ _, DV => true
             | _, _ => false
             end) ops.

(** The number of buffers, and of barriers, each array is allocated with
    (lines 1818-1874). *)
Definition bwd_buf_slots (a : bwd_args) (arr : bwd_buf_array) : Z :=
  match arr with
  | k_tiles | v_tiles => bw_NUM_BUFFERS_KV a
  | q_tiles => bw_NUM_BUFFERS_Q a
  | do_tiles => bw_NUM_BUFFERS_DO a
  | dsT_tiles => bw_NUM_BUFFERS_DS a
  | qk_tiles | ppT_tiles | dpT_tiles | dv_tiles | dk_tiles | dq_tiles =>
      bw_NUM_BUFFERS_TMEM a
  end.

Definition bwd_bar_slots (a : bwd_args) (arr : bwd_bar_array) : Z :=
  match arr with
  | k_fulls | v_fulls => bw_NUM_BUFFERS_KV a
  | q_fulls | q_empties => bw_NUM_BUFFERS_Q a
  | do_fulls | do_empties => bw_NUM_BUFFERS_DO a
  | dsT_fulls | dsT_empties => bw_NUM_BUFFERS_DS a
  | qk_fulls | ppT_fulls | dpT_fulls | dv_fulls | dk_fulls | dq_fulls
  | ppT_empties | dq_empties => bw_NUM_BUFFERS_TMEM a
  end.

(** The buffer views and the barriers an operation names. *)
Definition bwd_op_views (o : bwd_op) : list bwd_view :=
  match o with
  | bwd_async_descriptor_load _ dst _ _ _ => [dst]
  | bwd_async_dot x y dst _ _ => [opd_view x; opd_view y; dst]
  | bwd_local_load src => [src]
  | bwd_local_store dst => [dst]
  | _ => []
  end.

Definition bwd_op_barriers (o : bwd_op) : list bwd_barrier :=
  match o with
  | bwd_barrier_wait b _ | bwd_barrier_arrive b
  | bwd_barrier_expect_bytes b _ | bwd_tcgen05_commit b => [b]
  | bwd_async_descriptor_load _ _ _ _ b => [b]
  | bwd_async_dot _ _ _ _ mBarriers => mBarriers
  | _ => []
  end.

(** Whether every [tlx.local_view] behind an operation takes an index
    inside its array. *)
Definition bwd_in_bounds (a : bwd_args) (o : bwd_op) : bool :=
  forallb (fun v => (0 <=? snd v) && (snd v <? bwd_buf_slots a (fst v)))
          (bwd_op_views o)
  && forallb (fun b => (0 <=? snd b) && (snd b <? bwd_bar_slots a (fst b)))
             (bwd_op_barriers o).

(** A small launch used in examples, with the one configuration of
    [get_tlx_bwd_autotune_config]: the program of key block 0 of head 1 of
    batch element 1, whose sequence has 129 rows. *)
Definition example_bwd_args : bwd_args :=
  {| bw_Q_offsets := [0; 37; 166];
     bw_K_offsets := [0; 37; 166];
     bw_seq_index := [];
     bw_stride_qh := 64; bw_stride_kh := 64;
     bw_H := 2; bw_G := 1;
     bw_FUSED_QKV := false;
     bw_SORT_BY_SEQ_LENGTH := false;
     bw_BROADCAST_Q := false;
     bw_BLOCK_D := 64;
     bw_BLOCK_M1 := 128; bw_BLOCK_N1 := 128; bw_BLOCK_M2 := 128;
     bw_WINDOW_SIZE := None;
     bw_NUM_BUFFERS_KV := 1; bw_NUM_BUFFERS_Q := 1; bw_NUM_BUFFERS_DO := 1;
     bw_NUM_BUFFERS_DS := 1; bw_NUM_BUFFERS_TMEM := 1;
     bw_program_id_0 := 1; bw_program_id_2 := 1 |}.

(** The program of key block 2 of head 0 of a sequence of 300 rows, with
    two slots for the tensor-memory buffers and one for the dS buffers. *)
Definition example_bwd_short_ds : bwd_args :=
  {| bw_Q_offsets := [0; 300; 700];
     bw_K_offsets := [0; 300; 700];
     bw_seq_index := [];
     bw_stride_qh := 64; bw_stride_kh := 64;
     bw_H := 2; bw_G := 1;
     bw_FUSED_QKV := false;
     bw_SORT_BY_SEQ_LENGTH := false;
     bw_BROADCAST_Q := false;
     bw_BLOCK_D := 64;
     bw_BLOCK_M1 := 128; bw_BLOCK_N1 := 128; bw_BLOCK_M2 := 128;
     bw_WINDOW_SIZE := None;
     bw_NUM_BUFFERS_KV := 1; bw_NUM_BUFFERS_Q := 1; bw_NUM_BUFFERS_DO := 1;
     bw_NUM_BUFFERS_DS := 1; bw_NUM_BUFFERS_TMEM := 2;
     bw_program_id_0 := 4; bw_program_id_2 := 0 |}.

(** The call of [_gdpa_bwd_tlx_compute_activation] by the activation task
    of [gdpa_backward_tlx] (lines 1902-1937), under the guard
    [start_n < klen]: [MASK=False], and [start_m], [start_n] and
    [WINDOW_SIZE] of the program. *)
Definition bwd_activation_call (gelu gelu_grad : R -> R) (a : bwd_args)
    (activation_enum_int : Z) (qk_tiles dpT_tiles : nat -> tile)
    (i : nat) (r c : Z) : bwd_elem :=
  let e := bwd_task_env a in
  _gdpa_bwd_tlx_compute_activation gelu gelu_grad false (bw_WINDOW_SIZE a)
    activation_enum_int (be_start_m e) (be_start_n e) qk_tiles dpT_tiles
    i r c.

(** The program of key block 2 of the one head of a batch element with
    100 query rows and 1000 key rows, with a sliding window of 50. *)
Definition example_bwd_window : bwd_args :=
  {| bw_Q_offsets := [0; 100; 1200];
     bw_K_offsets := [0; 1000; 2000];
     bw_seq_index := [];
     bw_stride_qh := 128; bw_stride_kh := 128;
     bw_H := 1; bw_G := 1;
     bw_FUSED_QKV := false;
     bw_SORT_BY_SEQ_LENGTH := false;
     bw_BROADCAST_Q := false;
     bw_BLOCK_D := 128;
     bw_BLOCK_M1 := 128; bw_BLOCK_N1 := 128; bw_BLOCK_M2 := 128;
     bw_WINDOW_SIZE := Some 50;
     bw_NUM_BUFFERS_KV := 1; bw_NUM_BUFFERS_Q := 1; bw_NUM_BUFFERS_DO := 1;
     bw_NUM_BUFFERS_DS := 1; bw_NUM_BUFFERS_TMEM := 1;
     bw_program_id_0 := 2; bw_program_id_2 := 0 |}.
(** *** Sizes of the buffer and barrier arrays of the forward kernel *)

(** The number of buffers each array is allocated with (lines 343-370):
    [NUM_BUFFERS_KV] for the K/V ring, one for every other array. *)
Definition buf_slots (a : kernel_args) (arr : buf_array) : Z :=
  match arr with
  | kv_buf => NUM_BUFFERS_KV a
  | _ => 1
  end.

(** The number of barriers of each array (lines 373-399). *)
Definition bar_slots (a : kernel_args) (arr : bar_array) : Z :=
  match arr with
  | consumer_q0 | consumer_q1
  | consumer_release_q0 | consumer_release_q1 => NUM_BUFFERS_Q a
  | consumer_kv | consumer_release_kv => NUM_BUFFERS_KV a
  | producer_qk0 | producer_commit_qk0
  | producer_qk1 | producer_commit_qk1 => NUM_BUFFERS_QK a
  | producer_o0 | producer_commit_o0 | producer_o1 | producer_commit_o1
  | producer_pp | producer_commit_pp => NUM_BUFFERS_O a
  end.

(** The buffer views and the barriers an operation names. *)
Definition op_views (o : op) : list view :=
  match o with
  | async_descriptor_load _ dst _ _ _ => [dst]
  | async_dot x y dst _ _ => [x; y; dst]
  | local_load v | local_store v | async_descriptor_store v _ _ => [v]
  | _ => []
  end.

Definition op_barriers (o : op) : list barrier :=
  match o with
  | barrier_wait b _ _ | barrier_arrive b
  | barrier_expect_bytes b _ | tcgen05_commit b => [b]
  | async_descriptor_load _ _ _ _ b => [b]
  | async_dot _ _ _ _ mBarriers => mBarriers
  | _ => []
  end.

Definition view_in_bounds (a : kernel_args) (v : view) : bool :=
  (0 <=? snd v) && (snd v <? buf_slots a (fst v)).

Definition barrier_in_bounds (a : kernel_args) (b : barrier) : bool :=
  (0 <=? snd b) && (snd b <? bar_slots a (fst b)).

(** Whether every [tlx.local_view] behind an operation takes an index
    inside its array. *)
Definition in_bounds (a : kernel_args) (o : op) : bool :=
  forallb (view_in_bounds a) (op_views o)
  && forallb (barrier_in_bounds a) (op_barriers o).

(** The state of the inner loop of the gemm partition: the K/V counter
    has a predecessor and the V view is a slot of the ring. *)
Definition mma_loop_ok (a : kernel_args) (s : mma_loop_state) : Prop :=
  1 <= l_accum_cnt_kv s
  /\ view_in_bounds a (v_view s) = true.

(** The barriers arrived on before the tasks start (lines 381-383). *)
Definition init_arrivals : list barrier :=
  [ (consumer_release_kv, 0); (consumer_release_kv, 1);
    (consumer_release_kv, 2) ].

(** The example launch run by a single program, with two slots for the
    barriers of Q. *)
Definition example_two_q : kernel_args :=
  {| Q_offsets := [0; 37; 166];
     K_offsets := [0; 37; 166];
     seq_index := [];
     stride_qh := 64; stride_kh := 64; stride_oh := 64;
     Z_ := 2; H_ := 2; G_ := 1;
     N_CTX := 129; N_CTX_KV := 129;
     qk_scale := 1%R;
     SORT_BY_SEQ_LENGTH := false;
     HEAD_DIM := 64; BLOCK_M := 256; BLOCK_N := 128; BLOCK_D := 64;
     WINDOW_SIZE := None;
     activation_enum_int := 0;
     USE_ON_DEVICE_TMA := true;
     NUM_BUFFERS_Q := 2; NUM_BUFFERS_KV := 3;
     NUM_BUFFERS_QK := 1; NUM_BUFFERS_O := 1;
     PINGPONG := true; NAME_BARRIER := false; MERGE_EPI := false;
     num_progs := 1 |}.
(** *** The accumulators of the forward kernel when its hand-offs are in order

    What the two accumulators of a tile hold at the end of the tile in a
    run where every read of a buffer comes after the write it is meant to
    follow: the two Q sub-tiles are loaded, each key block yields
    [qk = dot(q, k)], the activation partitions replace [qk] by [p], and
    the gemm partition accumulates [dot(p, v)].  It is one run among those
    the source allows, used to evaluate the kernel on an input; it is not a
    description of every run.

    The result of [tlx.async_dot] on two buffer views is the parameter
    [dot].  The source passes the K view as it was loaded (the call of
    [tlx.local_trans] on it is commented out, line 1228). *)

Definition tile_add (x y : tile) : tile := fun r c => (x r c + y r c)%R.

Definition tile_zero : tile := fun _ _ => 0%R.

(** [tlx.async_dot(a, b, acc, use_acc=...)]; with [use_acc=False] the
    previous content [acc] of the destination is not read. *)
Definition async_dot_val (dot : tile -> tile -> tile) (a b acc : tile)
    (use_acc : bool) : tile :=
  if use_acc then tile_add acc (dot a b) else dot a b.

(** [tlx.async_descriptor_load] through a descriptor of the given shape and
    row stride (column stride 1): elements outside the shape read as
    zero. *)
Definition tma_load (data : mem) (shape0 shape1 stride0 : Z) (row col : Z)
    : tile :=
  fun r c =>
    if (0 <=? row + r) && (row + r <? shape0)
       && (0 <=? col + c) && (col + c <? shape1)
    then data ((row + r) * stride0 + (col + c))
    else 0%R.

Record kernel_data : Type := { Q_data : mem; K_data : mem; V_data : mem }.

(** The key blocks after the first one: iteration [start_n] of
    [range(BLOCK_N, klen, BLOCK_N)], with [use_acc=True] for [o0], and for
    [o1] [use_acc = not first], where [first] has been cleared.  The K and
    V descriptors have the shape [[N_CTX_KV * Z, HEAD_DIM * H // G]] of the
    whole packed tensor (lines 324-335), and a block of [BLOCK_N] rows is
    loaded from row [begin_k + start_n] on (lines 1217-1225). *)
Fixpoint fwd_blocks (dot : tile -> tile -> tile) (a : kernel_args)
    (d : kernel_data) (q0 q1 : tile) (begin_k kv_offset : Z) (iters : nat)
    (start_n : Z) (o0 o1 : tile) : tile * tile :=
  match iters with
  | O => (o0, o1)
  | S k =>
      let kv_width := Z.quot (HEAD_DIM a * H_ a) (G_ a) in
      let k_t := tma_load (K_data d) (N_CTX_KV a * Z_ a) kv_width kv_width
                   (to_int32 (begin_k + start_n)) (to_int32 kv_offset) in
      let v_t := tma_load (V_data d) (N_CTX_KV a * Z_ a) kv_width kv_width
                   (to_int32 (begin_k + start_n)) (to_int32 kv_offset) in
      let p0 := fwd_activation_store (activation_enum_int a) (HEAD_DIM a)
                  (async_dot_val dot q0 k_t tile_zero false) in
      let p1 := fwd_activation_store (activation_enum_int a) (HEAD_DIM a)
                  (async_dot_val dot q1 k_t tile_zero false) in
      fwd_blocks dot a d q0 q1 begin_k kv_offset k (start_n + BLOCK_N a)
        (async_dot_val dot p0 v_t o0 true)
        (async_dot_val dot p1 v_t o1 true)
  end.

(** The two accumulators of an active tile with at least one key when the
    gemm partition is done with it: the first key block overwrites them
    ([use_acc=False], in the prologue for [o0] and, with [first] still set,
    in the loop or the epilogue for [o1]).  There is no value for a tile
    that is not active, which stores nothing, nor for a tile without keys,
    where the gemm partition waits for an activated tile that no
    activation partition produces. *)
Definition fwd_tile_values (dot : tile -> tile -> tile) (a : kernel_args)
    (d : kernel_data) (tile_idx : Z) : option (tile * tile) :=
  let info := _compute_qlen a tile_idx in
  if tile_active a tile_idx && (0 <? klen info) then
    let off_h := off_h_of a tile_idx in
    let off_h_kv := Z.quot off_h (G_ a) in
    let q_offset := off_h * stride_qh a in
    let kv_offset := off_h_kv * stride_kh a in
    let q_width := HEAD_DIM a * H_ a in
    let kv_width := Z.quot (HEAD_DIM a * H_ a) (G_ a) in
    let row0 := begin_q info + start_m_of a tile_idx * BLOCK_M a in
    let q0 := tma_load (Q_data d) (to_int32 (end_q info)) q_width q_width
                (to_int32 row0) (to_int32 q_offset) in
    let q1 := tma_load (Q_data d) (to_int32 (end_q info)) q_width q_width
                (to_int32 (row0 + BLOCK_M a / 2)) (to_int32 q_offset) in
    let start_n := 0 in
    let k_t := tma_load (K_data d) (N_CTX_KV a * Z_ a) kv_width kv_width
                 (to_int32 (begin_k info + start_n)) (to_int32 kv_offset) in
    let v_t := tma_load (V_data d) (N_CTX_KV a * Z_ a) kv_width kv_width
                 (to_int32 (begin_k info + start_n)) (to_int32 kv_offset) in
    let p0 := fwd_activation_store (activation_enum_int a) (HEAD_DIM a)
                (async_dot_val dot q0 k_t tile_zero false) in
    let p1 := fwd_activation_store (activation_enum_int a) (HEAD_DIM a)
                (async_dot_val dot q1 k_t tile_zero false) in
    Some (fwd_blocks dot a d q0 q1 (begin_k info) kv_offset
            (range_count (BLOCK_N a) (klen info) (BLOCK_N a)) (BLOCK_N a)
            (async_dot_val dot p0 v_t tile_zero false)
            (async_dot_val dot p1 v_t tile_zero false))
  else None.

(** The staging buffers hold, at each store, the accumulator of the tile
    converted to the output element type (lines 512-540 for [o0], and
    their counterpart in the second activation partition for [o1]). *)
Definition staged_in_order (dot : tile -> tile -> tile) (a : kernel_args)
    (d : kernel_data) (staged : Z -> bool -> tile) : Prop :=
  forall t o0 o1,
    fwd_tile_values dot a d t = Some (o0, o1) ->
    forall r c,
      staged t false r c = to_dtype (o0 r c)
      /\ staged t true r c = to_dtype (o1 r c).

(** The staged values of the run in which every staging buffer holds the
    accumulator of its tile when it is stored. *)
Definition staged_accumulators (dot : tile -> tile -> tile)
    (a : kernel_args) (d : kernel_data) : Z -> bool -> tile :=
  fun t second r c =>
    match fwd_tile_values dot a d t with
    | Some (o0, o1) => to_dtype ((if second then o1 else o0) r c)
    | None => 0%R
    end.

(** The tensors the wrapper hands to the kernel (lines 1419-1421). *)
Definition forward_data (x : forward_args) : kernel_data :=
  {| Q_data := t_data (expect_contiguous (query x));
     K_data := t_data (expect_contiguous (key x));
     V_data := t_data (expect_contiguous (value x)) |}.

(** An exact matmul over an inner dimension of [K] elements:
    [dot(x, y)[r, c]] is the sum over [d] of [x[r, d] * y[d, c]]. *)
Definition matmul (K : nat) (x y : tile) : tile :=
  fun r c =>
    fold_right Rplus 0%R
      (map (fun d => (x r (Z.of_nat d) * y (Z.of_nat d) c)%R) (seq 0 K)).

(** *** The reference of the specification *)

Definition tensor_at (x : tensor3) (i j k : Z) : R :=
  t_data x (i * stride_0 x + j * stride_1 x + k * stride_2 x).

(** Sum of [f n] for [lo <= n < hi]. *)
Definition sum_range (lo hi : Z) (f : Z -> R) : R :=
  fold_right Rplus 0%R
    (map (fun n => f (lo + Z.of_nat n)) (seq 0 (Z.to_nat (hi - lo)))).

(** The reference output as the specification words it,
    [O = activation(Q K^T) V] for each batch element over the keys of its
    own sequence: the element on row [i] (a row of the sequence of batch
    element [z]), head [h] and column [c]; [act] is the activation the
    reference applies. *)
Definition spec_reference (act : R -> R) (x : forward_args) (z i h c : Z)
    : R :=
  let G := shape_1 (query x) / shape_1 (key x) in
  let begin_k := nth (Z.to_nat z) (key_offset x) 0 in
  let end_k := nth (Z.to_nat (z + 1)) (key_offset x) 0 in
  sum_range begin_k end_k (fun n =>
    (act (sum_range 0 (shape_2 (query x)) (fun d =>
            (tensor_at (query x) i h d * tensor_at (key x) n (h / G) d)%R))
     * tensor_at (value x) n (h / G) c)%R).

(** Agreement within the tolerances of the specification, relative 1e-2
    and absolute 1e-2. *)
Definition spec_within_tolerance (out ref : R) : Prop :=
  (Rabs (out - ref) <= 1e-2 + 1e-2 * Rabs ref)%R.

(** Whether an offsets array is non-decreasing. *)
Fixpoint offsets_sorted (offsets : list Z) : bool :=
  match offsets with
  | b :: ((e :: _) as rest) => (b <=? e) && offsets_sorted rest
  | _ => true
  end.

(** Batch 2, one head, head dimension 128, two sequences of one row each,
    activation "fast_gelu".  The query of the first sequence is the unit
    vector [e0]; its key is [e1] and its value is zero; the key and the
    value of the second sequence are [e0]. *)
Definition example_foreign_keys : forward_args :=
  {| query := {| t_shape := (2, 1, 128); t_stride := (128, 128, 1);
                 t_data := fun addr => if addr =? 0 then 1%R else 0%R |};
     key := {| t_shape := (2, 1, 128); t_stride := (128, 128, 1);
               t_data := fun addr =>
                 if (addr =? 1) || (addr =? 128) then 1%R else 0%R |};
     value := {| t_shape := (2, 1, 128); t_stride := (128, 128, 1);
                 t_data := fun addr => if addr =? 128 then 1%R else 0%R |};
     query_offset := [0; 1; 2];
     key_offset := [0; 1; 2];
     max_seq_len_q := 1;
     max_seq_len_kv := 1;
     is_causal := false;
     f_qk_scale := None;
     f_seq_index := None;
     output_offset := None;
     use_start_end_offsets := false;
     window_size := None;
     broadcast_q := false;
     activation := "fast_gelu"%string;
     total_num_objects := None |}.

(** The launch [gdpa_forward_tlx] makes for it. *)
Definition example_foreign_launch : kernel_args :=
  launch_args example_env example_foreign_keys 128 3.
(* ================================================================== *)
(** ** Properties *)
(* ================================================================== *)

(** *** Buffer index and phase *)

Lemma land_1_mod2 (a : Z) : Z.land a 1 = a mod 2.
Proof. exact (Z.land_ones a 1 ltac:(lia)). Qed.

(** C3. For a counter [count >= 0] and [N >= 1] buffers,
    [_get_bufidx_phase count N] is exactly [(count mod N, (count / N) mod 2)];
    the index lies in [0, N), it comes back after [N] increments and the
    phase bit toggles over those [N] increments. *)
Theorem get_bufidx_phase_spec (count N : Z) :
  0 <= count -> 1 <= N ->
  _get_bufidx_phase count N = (count mod N, (count / N) mod 2)
  /\ 0 <= fst (_get_bufidx_phase count N) < N
  /\ fst (_get_bufidx_phase (count + N) N) = fst (_get_bufidx_phase count N)
  /\ snd (_get_bufidx_phase (count + N) N)
     = 1 - snd (_get_bufidx_phase count N).
Proof.
  intros Hc HN.
  assert (E : forall c, 0 <= c ->
            _get_bufidx_phase c N = (c mod N, (c / N) mod 2)).
  { intros c Hc'. unfold _get_bufidx_phase.
    rewrite land_1_mod2, Z.rem_mod_nonneg, Z.quot_div_nonneg by lia.
    reflexivity. }
  rewrite (E count Hc), (E (count + N)) by lia. cbn [fst snd].
  split; [reflexivity|]. split; [apply Z.mod_pos_bound; lia|].
  replace (count + N) with (count + 1 * N) by lia.
  rewrite Z.mod_add, Z.div_add by lia.
  split; [reflexivity|].
  pose proof (Z.mod_pos_bound (count / N) 2 ltac:(lia)).
  pose proof (Z.mod_pos_bound (count / N + 1) 2 ltac:(lia)).
  pose proof (Z.div_mod (count / N) 2 ltac:(lia)).
  pose proof (Z.div_mod (count / N + 1) 2 ltac:(lia)).
  lia.
Qed.

Lemma get_bufidx_phase_spec_witness :
  _get_bufidx_phase 7 3 = (7 mod 3, (7 / 3) mod 2)
  /\ 0 <= fst (_get_bufidx_phase 7 3) < 3
  /\ fst (_get_bufidx_phase (7 + 3) 3) = fst (_get_bufidx_phase 7 3)
  /\ snd (_get_bufidx_phase (7 + 3) 3) = 1 - snd (_get_bufidx_phase 7 3).
Proof. apply (get_bufidx_phase_spec 7 3); lia. Defined.

(** *** Tile scheduler *)

Lemma cdiv_ceiling (x d : Z) :
  0 <= x -> 0 < d -> x <= cdiv x d * d < x + d.
Proof.
  intros Hx Hd. unfold cdiv. rewrite Z.quot_div_nonneg by lia.
  pose proof (Z.div_mod (x + d - 1) d ltac:(lia)).
  pose proof (Z.mod_pos_bound (x + d - 1) d Hd). nia.
Qed.

Lemma total_tiles_nonneg (N_CTX BLOCK_M Zb H : Z) :
  0 <= N_CTX -> 0 < BLOCK_M -> 0 <= Zb -> 0 <= H ->
  0 <= total_tiles N_CTX BLOCK_M Zb H.
Proof.
  intros. unfold total_tiles, n_tile_num.
  pose proof (cdiv_ceiling N_CTX BLOCK_M ltac:(lia) ltac:(lia)).
  assert (0 <= cdiv N_CTX BLOCK_M) by nia.
  apply Z.mul_nonneg_nonneg; [apply Z.mul_nonneg_nonneg|]; lia.
Qed.

Lemma persistent_loop_map (iters : nat) (t p : Z) :
  persistent_loop iters t p
  = map (fun j => t + Z.of_nat j * p) (seq 0 iters).
Proof.
  revert t. induction iters as [|k IH]; intros t; [reflexivity|].
  cbn [persistent_loop seq map]. f_equal; [lia|].
  rewrite IH, <- seq_shift, map_map.
  apply map_ext. intros j. lia.
Qed.

Lemma tiles_per_sm_floor (total p u : Z) :
  0 <= total -> 0 < p ->
  tiles_per_sm total p u
  = total / p + (if u <? total mod p then 1 else 0).
Proof.
  intros Ht Hp. unfold tiles_per_sm.
  rewrite Z.rem_mod_nonneg, Z.quot_div_nonneg by lia.
  destruct (u <? total mod p); lia.
Qed.

Lemma in_unit_tiles (total p u t : Z) :
  0 <= total -> 0 < p -> 0 <= u < p ->
  In t (unit_tiles total p u) <-> 0 <= t < total /\ t mod p = u.
Proof.
  intros Ht Hp Hu. unfold unit_tiles, range_len.
  rewrite persistent_loop_map, in_map_iff, tiles_per_sm_floor by lia.
  pose proof (Z.div_mod total p ltac:(lia)) as Hdm.
  pose proof (Z.mod_pos_bound total p Hp) as Hr.
  assert (Hq : 0 <= total / p) by (apply Z.div_pos; lia).
  split.
  - intros (j & <- & Hj). apply in_seq in Hj.
    split.
    + destruct (Z.ltb_spec u (total mod p)); nia.
    + rewrite Z.mod_add by lia. apply Z.mod_small; lia.
  - intros (Hrange & Hmod).
    pose proof (Z.div_mod t p ltac:(lia)) as Htdm.
    assert (Htq : 0 <= t / p) by (apply Z.div_pos; lia).
    exists (Z.to_nat (t / p)). split.
    + rewrite Z2Nat.id by lia. lia.
    + apply in_seq. destruct (Z.ltb_spec u (total mod p)); nia.
Qed.

(** C2. With [total_tiles = cdiv(N_CTX, BLOCK_M) * Z * H] tiles and
    [num_progs] execution units, unit [u] runs its persistent loop over
    exactly the tile ids [u + j * num_progs] for
    [0 <= j < tiles_per_sm u], where [tiles_per_sm u] is
    [total_tiles / num_progs], plus one when [u < total_tiles mod num_progs];
    the tile lists of different units are disjoint, no unit repeats a tile,
    and together they are exactly [0 .. total_tiles - 1]. *)
Theorem tile_schedule_partition (N_CTX BLOCK_M Zb H num_progs : Z) :
  0 <= N_CTX -> 0 < BLOCK_M -> 0 <= Zb -> 0 <= H -> 0 < num_progs ->
  let total := total_tiles N_CTX BLOCK_M Zb H in
  (N_CTX <= n_tile_num N_CTX BLOCK_M * BLOCK_M < N_CTX + BLOCK_M)
  /\ (forall u, 0 <= u < num_progs ->
        tiles_per_sm total num_progs u
        = total / num_progs + (if u <? total mod num_progs then 1 else 0)
        /\ unit_tiles total num_progs u
           = map (fun j => u + Z.of_nat j * num_progs)
                 (seq 0 (Z.to_nat (tiles_per_sm total num_progs u)))
        /\ NoDup (unit_tiles total num_progs u))
  /\ (forall u u' t, 0 <= u < num_progs -> 0 <= u' < num_progs ->
        In t (unit_tiles total num_progs u) ->
        In t (unit_tiles total num_progs u') -> u = u')
  /\ (forall t, 0 <= t < total <->
        exists u, 0 <= u < num_progs /\ In t (unit_tiles total num_progs u)).
Proof.
  intros HN HB HZ HH Hp total.
  assert (Ht : 0 <= total) by (apply total_tiles_nonneg; lia).
  split; [apply cdiv_ceiling; lia|].
  split; [|split].
  - intros u Hu. split; [apply tiles_per_sm_floor; lia|].
    split; [apply persistent_loop_map|].
    unfold unit_tiles. rewrite persistent_loop_map.
    apply Injective_map_NoDup; [|apply seq_NoDup].
    intros a b Hab. nia.
  - intros u u' t Hu Hu' H1 H2.
    apply (in_unit_tiles total num_progs u t Ht Hp Hu) in H1.
    apply (in_unit_tiles total num_progs u' t Ht Hp Hu') in H2.
    lia.
  - intros t. split.
    + intros Hrange. exists (t mod num_progs).
      pose proof (Z.mod_pos_bound t num_progs Hp).
      split; [lia|]. apply in_unit_tiles; lia.
    + intros (u & Hu & Hin).
      apply (in_unit_tiles total num_progs u t Ht Hp Hu) in Hin. lia.
Qed.

Lemma tile_schedule_partition_witness :
  let total := total_tiles 300 256 2 2 in
  (300 <= n_tile_num 300 256 * 256 < 300 + 256)
  /\ (forall u, 0 <= u < 3 ->
        tiles_per_sm total 3 u = total / 3 + (if u <? total mod 3 then 1 else 0)
        /\ unit_tiles total 3 u
           = map (fun j => u + Z.of_nat j * 3)
                 (seq 0 (Z.to_nat (tiles_per_sm total 3 u)))
        /\ NoDup (unit_tiles total 3 u))
  /\ (forall u u' t, 0 <= u < 3 -> 0 <= u' < 3 ->
        In t (unit_tiles total 3 u) -> In t (unit_tiles total 3 u') -> u = u')
  /\ (forall t, 0 <= t < total <->
        exists u, 0 <= u < 3 /\ In t (unit_tiles total 3 u)).
Proof. apply (tile_schedule_partition 300 256 2 2 3); lia. Defined.

Example unit_tiles_8_3 :
  unit_tiles 8 3 0 = [0; 3; 6] /\ unit_tiles 8 3 1 = [1; 4; 7]
  /\ unit_tiles 8 3 2 = [2; 5].
Proof. repeat split; reflexivity. Qed.

(** *** Activation math *)

Lemma tanh_pos (x : R) : (0 < x)%R -> (0 < tanh x)%R.
Proof.
  intros Hx. unfold tanh. apply Rdiv_lt_0_compat.
  - rewrite <- sinh_0. apply sinh_lt, Hx.
  - unfold cosh. pose proof (exp_pos x). pose proof (exp_pos (- x)). lra.
Qed.

Lemma fwd_activation_half_formula (x : R) :
  fwd_activation_half x
  = (x * tanh (0.0356774081 * (x * x * x) + 0.7978845608 * x) + x)%R.
Proof.
  unfold fwd_activation_half, to_dtype, _fma_f32x2, _mul_f32x2,
    tanh_approx_fp32.
  f_equal. f_equal. f_equal. ring.
Qed.

Lemma fast_gelu_formula (x : R) :
  fast_gelu x
  = (x * tanh (0.0356774081 * (x * x * x) + 0.7978845608 * x) + x)%R.
Proof.
  unfold fast_gelu, _fma_f32x2, _mul_f32x2, tanh_approx_fp32.
  f_equal. f_equal. f_equal. ring.
Qed.

Lemma fwd_activation_store_elem (sel HEAD_DIM : Z) (qk : tile) (r c : Z) :
  fwd_activation_store sel HEAD_DIM qk r c = fwd_activation_half (qk r c).
Proof.
  unfold fwd_activation_store, subslice.
  destruct (c <? HEAD_DIM / 2); f_equal; f_equal; lia.
Qed.

(** C4, as stated, fails: with the selector at 0 (identity) and a score of
    1, the forward activation partition stores [1 * tanh(c1 + c0) + 1], not
    1. *)
Lemma fwd_activation_selector_counterexample :
  fwd_activation_store 0 128 (fun _ _ => 1%R) 0 0
  <> spec_selected_activation (fun x => x) 0 1%R.
Proof.
  rewrite fwd_activation_store_elem, fwd_activation_half_formula.
  unfold spec_selected_activation. cbn [Z.eqb].
  pose proof (tanh_pos (0.0356774081 * (1 * 1 * 1) + 0.7978845608 * 1)%R
                ltac:(lra)).
  lra.
Qed.

(** C4, amended.  Whatever the activation selector, every element [x] of
    the score view is replaced, in the forward activation partitions, by
    [x * tanh(c1 * x^3 + c0 * x) + x], which is [fast_gelu x]. *)
Theorem fwd_activation_is_fast_gelu
    (sel HEAD_DIM : Z) (qk : tile) (r c : Z) :
  let x := qk r c in
  fwd_activation_store sel HEAD_DIM qk r c
  = (x * tanh (0.0356774081 * x ^ 3 + 0.7978845608 * x) + x)%R
  /\ fwd_activation_store sel HEAD_DIM qk r c = fast_gelu x.
Proof.
  intros x. rewrite fwd_activation_store_elem, fwd_activation_half_formula,
    fast_gelu_formula. fold x.
  split.
  - f_equal. f_equal. f_equal. ring.
  - reflexivity.
Qed.

(** *** Backward masking *)

Lemma causal_where_zero (offs_m offs_n : Z) (v : R) :
  offs_n > offs_m -> causal_where offs_m offs_n v = 0%R.
Proof.
  intros H. unfold causal_where.
  destruct (Z.geb_spec offs_m offs_n); [lia|reflexivity].
Qed.

Lemma window_where_zero (w offs_m offs_n : Z) (v : R) :
  Z.abs (offs_m - offs_n) > w -> window_where w offs_m offs_n v = 0%R.
Proof.
  intros H. unfold window_where.
  destruct (Z.leb_spec (Z.abs (offs_m - offs_n)) w); [lia|reflexivity].
Qed.

Lemma window_where_of_zero (w offs_m offs_n : Z) :
  window_where w offs_m offs_n 0%R = 0%R.
Proof. unfold window_where. destruct (_ <=? _); reflexivity. Qed.

Lemma bwd_masks_zero (MASK : bool) (W : option Z) (offs_m offs_n : Z) (v : R) :
  (MASK = true /\ offs_n > offs_m)
  \/ (exists w, W = Some w /\ Z.abs (offs_m - offs_n) > w) ->
  bwd_masks MASK W offs_m offs_n v = 0%R.
Proof.
  intros [[-> Hc] | (w & -> & Hw)]; unfold bwd_masks.
  - rewrite causal_where_zero by assumption.
    destruct W; [apply window_where_of_zero|reflexivity].
  - apply window_where_zero, Hw.
Qed.

(** With the indices the function computes before its loop, the key
    index [offs_n = start_n + r] and [offs_m = start_m + c]: if [MASK] is
    set and [offs_n > offs_m], or if [WINDOW_SIZE] is given and
    [|offs_m - offs_n| > WINDOW_SIZE], the score fed to the activation and
    the factor multiplied by [dpT] are zero, in every iteration alike. *)
Lemma bwd_masks_own_indices
    (gelu gelu_grad : R -> R) (MASK : bool) (WINDOW_SIZE : option Z)
    (activation_enum_int start_m start_n : Z)
    (qk_tiles dpT_tiles : nat -> tile) (i : nat) (r c : Z) :
  let offs_m := start_m + c in
  let offs_n := start_n + r in
  let e := _gdpa_bwd_tlx_compute_activation gelu gelu_grad MASK WINDOW_SIZE
             activation_enum_int start_m start_n qk_tiles dpT_tiles i r c in
  (MASK = true /\ offs_n > offs_m)
  \/ (exists w, WINDOW_SIZE = Some w /\ Z.abs (offs_m - offs_n) > w) ->
  masked_score e = 0%R
  /\ ppT_store e = bwd_ppT gelu activation_enum_int 0%R
  /\ masked_grad e = 0%R
  /\ dsT_store e = 0%R.
Proof.
  intros offs_m offs_n e H. subst e.
  unfold _gdpa_bwd_tlx_compute_activation, bwd_activation_elem.
  cbn [masked_score ppT_store masked_grad dsT_store].
  fold offs_m offs_n.
  rewrite !(bwd_masks_zero MASK WINDOW_SIZE offs_m offs_n) by exact H.
  repeat split; unfold to_dtype; ring.
Qed.

(** C6 fails on [example_bwd_window].  The program runs two steps; the
    load task fetches the Q tile of step 1 at row
    [begin_q + start_m + BLOCK_M1 = 384] of the packed tensor, so column 0
    of the score tile of step 1 belongs to query index 384, and row 0 to
    key index 256: they are 128 apart, more than the window of 50.  The
    masks of step 1 are computed with [offs_m = start_m + 0 = 256], the
    query index of step 0, so a score of 1 there is fed to the activation
    unchanged, the [ppT] operand of the dV product is 1, and the stored
    [dsT] is [dpT], not zero.  The only call of the function passes
    [MASK=False]. *)
Theorem bwd_window_mask_stale :
  bwd_active example_bwd_window = true
  /\ bwd_num_steps example_bwd_window = 2
  /\ be_start_m (bwd_task_env example_bwd_window) = 256
  /\ be_start_n (bwd_task_env example_bwd_window) = 256
  /\ be_begin_q (bwd_task_env example_bwd_window) = 0
  /\ bwd_load_coords desc_q (bwd_load_task example_bwd_window)
     = [(256, 0); (384, 0)]
  /\ Z.abs ((384 + 0) - (256 + 0)) > 50
  /\ forall gelu gelu_grad : R -> R,
       let e := bwd_activation_call gelu gelu_grad example_bwd_window 0
                  (fun _ _ _ => 1%R) (fun _ _ _ => 1%R) 1%nat 0 0 in
       masked_score e = 1%R /\ ppT_store e = 1%R
       /\ masked_grad e = 1%R /\ dsT_store e = 1%R.
Proof.
  do 7 (split; [vm_compute; reflexivity|]).
  intros gelu gelu_grad e. subst e.
  unfold bwd_activation_call.
  change (be_start_m (bwd_task_env example_bwd_window)) with 256.
  change (be_start_n (bwd_task_env example_bwd_window)) with 256.
  unfold _gdpa_bwd_tlx_compute_activation, bwd_activation_elem, bwd_masks,
    window_where, bwd_ppT, bwd_grad, to_dtype.
  cbn. repeat split; lra.
Qed.

(** *** Accumulate flags of the gemm partition *)

Lemma dots_into_app (acc : buf_array) (l1 l2 : list op) :
  dots_into acc (l1 ++ l2) = dots_into acc l1 ++ dots_into acc l2.
Proof. apply flat_map_app. Qed.

Lemma repeat_snoc {A : Type} (x : A) (n : nat) :
  repeat x n ++ [x] = x :: repeat x n.
Proof. induction n as [|n IH]; [reflexivity|]. cbn. now rewrite IH. Qed.

Lemma mma_loop_body_flags (a : kernel_args) (e : mma_tile_env)
    (s : mma_loop_state) :
  dots_into o0_buf (fst (mma_loop_body a e s)) = [true]
  /\ dots_into o1_buf (fst (mma_loop_body a e s)) = [negb (first s)]
  /\ first (snd (mma_loop_body a e s)) = false.
Proof. repeat split. Qed.

Lemma mma_loop_S (a : kernel_args) (e : mma_tile_env) (k : nat)
    (s : mma_loop_state) :
  mma_loop a e (S k) s
  = (fst (mma_loop_body a e s)
       ++ fst (mma_loop a e k (snd (mma_loop_body a e s))),
     snd (mma_loop a e k (snd (mma_loop_body a e s)))).
Proof.
  cbn [mma_loop]. destruct (mma_loop_body a e s) as [ops s'].
  cbn [fst snd]. destruct (mma_loop a e k s') as [rest s'']. reflexivity.
Qed.

Lemma mma_loop_flags (a : kernel_args) (e : mma_tile_env) (k : nat) :
  forall s,
    dots_into o0_buf (fst (mma_loop a e k s)) = repeat true k
    /\ dots_into o1_buf (fst (mma_loop a e k s))
       = match k with
         | O => []
         | S k' => negb (first s) :: repeat true k'
         end
    /\ first (snd (mma_loop a e k s))
       = match k with O => first s | S _ => false end.
Proof.
  induction k as [|k IH]; intros s; [repeat split|].
  rewrite mma_loop_S. cbn [fst snd]. rewrite !dots_into_app.
  destruct (mma_loop_body_flags a e s) as (B0 & B1 & Bf).
  destruct (IH (snd (mma_loop_body a e s))) as (I0 & I1 & If).
  rewrite B0, B1, I0, I1, If, Bf.
  split; [reflexivity|]. split; [|destruct k; reflexivity].
  destruct k; reflexivity.
Qed.

(** C5. In the gemm partition, for every processed tile (any key length
    and any values of the counters on entry), the matmuls issued into [o0]
    carry [use_acc = False] for the first and [True] for all later ones,
    and likewise for [o1]; [first] is [True] when the inner loop starts and
    [False] after one or more iterations of it. *)
Theorem mma_accumulate_flags (a : kernel_args) (klen : Z) (st : mma_state) :
  let n := range_count (BLOCK_N a) klen (BLOCK_N a) in
  let ops := fst (mma_tile_body a klen st) in
  let e := snd (fst (mma_prologue a st)) in
  let s0 := snd (mma_prologue a st) in
  dots_into o0_buf ops = false :: repeat true n
  /\ dots_into o1_buf ops = false :: repeat true n
  /\ first s0 = true
  /\ (forall k, first (snd (mma_loop a e k s0))
                = match k with O => true | S _ => false end).
Proof.
  intros n ops e s0.
  assert (Hs0 : first s0 = true) by reflexivity.
  assert (Hpro0 : dots_into o0_buf (fst (fst (mma_prologue a st))) = [false])
    by reflexivity.
  assert (Hpro1 : dots_into o1_buf (fst (fst (mma_prologue a st))) = [])
    by reflexivity.
  assert (Hops : ops = fst (fst (mma_prologue a st))
                       ++ fst (mma_loop a e n s0)
                       ++ fst (mma_epilogue a st e (snd (mma_loop a e n s0)))).
  { subst ops e s0 n. unfold mma_tile_body.
    destruct (mma_prologue a st) as [[pro e] s0]. cbn [fst snd].
    destruct (mma_loop a e _ s0) as [body s1]. cbn [fst snd].
    destruct (mma_epilogue a st e s1) as [epi st']. reflexivity. }
  destruct (mma_loop_flags a e n s0) as (L0 & L1 & Lf).
  assert (Hepi0 : forall s, dots_into o0_buf (fst (mma_epilogue a st e s)) = [])
    by reflexivity.
  assert (Hepi1 : forall s, dots_into o1_buf (fst (mma_epilogue a st e s))
                            = [negb (first s)]) by reflexivity.
  split; [|split; [|split]].
  - rewrite Hops, !dots_into_app, Hpro0, L0, Hepi0, app_nil_r. reflexivity.
  - rewrite Hops, !dots_into_app, Hpro1, L1, Hepi1, Lf, Hs0.
    destruct n as [|n']; [reflexivity|].
    cbn [app negb]. f_equal. apply (repeat_snoc true n').
  - exact Hs0.
  - intros k. destruct (mma_loop_flags a e k s0) as (_ & _ & Hf).
    rewrite Hf, Hs0. reflexivity.
Qed.

(** *** Barrier protocol: producers cannot run ahead *)

(** **** Counting lemmas *)

Lemma count_ops_cons (f : op -> bool) (o : op) (l : list op) :
  count_ops f (o :: l) = (if f o then 1 else 0) + count_ops f l.
Proof.
  unfold count_ops. cbn [filter]. destruct (f o); cbn [length]; lia.
Qed.

Lemma count_ops_app (f : op -> bool) (l1 l2 : list op) :
  count_ops f (l1 ++ l2) = count_ops f l1 + count_ops f l2.
Proof.
  unfold count_ops. rewrite filter_app, length_app. lia.
Qed.

Lemma count_ops_nonneg (f : op -> bool) (l : list op) : 0 <= count_ops f l.
Proof. unfold count_ops. lia. Qed.

Lemma zsum_S (f : Z -> Z) (n : nat) :
  zsum f (Z.of_nat (S n)) = zsum f (Z.of_nat n) + f (Z.of_nat n).
Proof.
  unfold zsum. rewrite !Nat2Z.id, seq_S, map_app, fold_right_app.
  cbn [map fold_right Nat.add].
  generalize (map (fun s => f (Z.of_nat s)) (seq 0 n)) as l.
  induction l as [|x l IH]; cbn [fold_right]; lia.
Qed.

Lemma zsum_le_nat (f g : Z -> Z) (n : nat) :
  (forall s, 0 <= s < Z.of_nat n -> f s <= g s) ->
  zsum f (Z.of_nat n) <= zsum g (Z.of_nat n).
Proof.
  induction n as [|n IH]; intros H; [reflexivity|].
  rewrite !zsum_S.
  assert (f (Z.of_nat n) <= g (Z.of_nat n)) by (apply H; lia).
  assert (zsum f (Z.of_nat n) <= zsum g (Z.of_nat n))
    by (apply IH; intros; apply H; lia).
  lia.
Qed.

Lemma zsum_add_nat (f g : Z -> Z) (n : nat) :
  zsum (fun s => f s + g s) (Z.of_nat n)
  = zsum f (Z.of_nat n) + zsum g (Z.of_nat n).
Proof.
  induction n as [|n IH]; [reflexivity|]. rewrite !zsum_S, IH. lia.
Qed.

Lemma zsum_ext_nat (f g : Z -> Z) (n : nat) :
  (forall s, 0 <= s < Z.of_nat n -> f s = g s) ->
  zsum f (Z.of_nat n) = zsum g (Z.of_nat n).
Proof.
  intros H. apply Z.le_antisymm; apply zsum_le_nat; intros s Hs;
    rewrite (H s Hs); lia.
Qed.

Lemma zsum_indicator_nat (i : Z) (n : nat) :
  zsum (fun s => if s =? i then 1 else 0) (Z.of_nat n)
  = if (0 <=? i) && (i <? Z.of_nat n) then 1 else 0.
Proof.
  induction n as [|n IH].
  - change (Z.of_nat 0) with 0.
    destruct (Z.leb_spec 0 i), (Z.ltb_spec i 0); cbn [andb];
      try reflexivity; lia.
  - rewrite zsum_S, IH.
    destruct (Z.eqb_spec (Z.of_nat n) i), (Z.leb_spec 0 i),
      (Z.ltb_spec i (Z.of_nat n)), (Z.ltb_spec i (Z.of_nat (S n)));
      cbn [andb]; lia.
Qed.

Lemma zsum_const_le_nat (f : Z -> Z) (n : nat) :
  (forall s, 0 <= s < Z.of_nat n -> f s <= 1) ->
  zsum f (Z.of_nat n) <= Z.of_nat n.
Proof.
  induction n as [|n IH]; intros H; [reflexivity|].
  rewrite zsum_S.
  assert (f (Z.of_nat n) <= 1) by (apply H; lia).
  assert (zsum f (Z.of_nat n) <= Z.of_nat n)
    by (apply IH; intros; apply H; lia).
  lia.
Qed.

Lemma zsum_zero_nat (f : Z -> Z) (n : nat) :
  (forall s, 0 <= s < Z.of_nat n -> f s = 0) -> zsum f (Z.of_nat n) = 0.
Proof.
  induction n as [|n IH]; intros H; [reflexivity|].
  rewrite zsum_S, IH, H; [reflexivity|lia|]. intros; apply H; lia.
Qed.

Lemma barrier_eqb_eq (x y : barrier) : barrier_eqb x y = true <-> x = y.
Proof.
  destruct x as [a i], y as [b j]. unfold barrier_eqb. cbn [fst snd].
  destruct (bar_array_eq_dec a b) as [->|Hne]; cbn [andb].
  - rewrite Z.eqb_eq. split; [intros ->; reflexivity|].
    intros E. now inversion E.
  - split; [discriminate|]. intros E. inversion E. contradiction.
Qed.

Lemma barrier_eqb_refl (x : barrier) : barrier_eqb x x = true.
Proof. now apply barrier_eqb_eq. Qed.

Lemma arrive_ge (b b' : barrier) (bs : bars_t) : bs b' <= arrive b bs b'.
Proof. unfold arrive. destruct (barrier_eqb b' b); lia. Qed.

(** The waits on array [arr] are the waits on its slots, as long as they
    name slots below [N]. *)
Lemma count_waits_sum (arr : bar_array) (n : nat) (l : list op) :
  (forall idx ph, In (barrier_wait (arr, idx) ph true) l ->
                  0 <= idx < Z.of_nat n) ->
  count_ops (is_wait_on arr) l
  = zsum (fun s => count_waits (arr, s) l) (Z.of_nat n).
Proof.
  induction l as [|o l IH]; intros Hr.
  - unfold count_waits, count_ops. cbn [filter length].
    symmetry. apply zsum_zero_nat. reflexivity.
  - rewrite count_ops_cons, IH by (intros; eapply Hr; right; eassumption).
    unfold count_waits.
    rewrite (zsum_ext_nat (fun s => count_ops (is_wait_at (arr, s)) (o :: l))
               (fun s => (if is_wait_at (arr, s) o then 1 else 0)
                         + count_ops (is_wait_at (arr, s)) l))
      by (intros; apply count_ops_cons).
    rewrite zsum_add_nat. f_equal.
    destruct o as [[arr' idx] ph [|] | | | | | | | | | | |];
      cbn [is_wait_on is_wait_at];
      try (symmetry; apply zsum_zero_nat; reflexivity).
    destruct (bar_array_eq_dec arr' arr) as [->|Hne].
    + specialize (Hr idx ph (or_introl eq_refl)).
      rewrite (zsum_ext_nat _ (fun s => if s =? idx then 1 else 0)).
      * rewrite zsum_indicator_nat.
        destruct (Z.leb_spec 0 idx), (Z.ltb_spec idx (Z.of_nat n));
          cbn [andb]; lia.
      * intros s _. unfold barrier_eqb. cbn [fst snd].
        destruct (bar_array_eq_dec arr arr); [|contradiction].
        cbn [andb]. rewrite Z.eqb_sym. reflexivity.
    + symmetry. apply zsum_zero_nat. intros s _.
      unfold barrier_eqb. cbn [fst snd].
      destruct (bar_array_eq_dec arr' arr); [contradiction|reflexivity].
Qed.

(** **** Slots and phases along a counter *)

Lemma lxor_bit_1 (p : Z) : 0 <= p < 2 -> Z.lxor p 1 = 1 - p.
Proof. intros H. assert (p = 0 \/ p = 1) as [-> | ->] by lia; reflexivity. Qed.

Lemma slot_phase_nonneg (N : Z) (flip : bool) (k : Z) :
  1 <= N -> 0 <= k ->
  slot_phase N flip k = (k mod N, (k / N + flip_bit flip) mod 2).
Proof.
  intros HN Hk. unfold slot_phase, _get_bufidx_phase.
  rewrite land_1_mod2, Z.rem_mod_nonneg, Z.quot_div_nonneg by lia.
  f_equal. pose proof (Z.mod_pos_bound (k / N) 2 ltac:(lia)) as Hb.
  destruct flip; cbn [flip_bit].
  - rewrite lxor_bit_1 by exact Hb.
    pose proof (Z.div_mod (k / N) 2 ltac:(lia)).
    pose proof (Z.div_mod (k / N + 1) 2 ltac:(lia)).
    pose proof (Z.mod_pos_bound (k / N + 1) 2 ltac:(lia)). lia.
  - now rewrite Z.add_0_r.
Qed.

Lemma canon_S (N : Z) (flip : bool) (c : Z) (n : nat) :
  canon N flip c (S n) = slot_phase N flip c :: canon N flip (c + 1) n.
Proof.
  unfold canon. cbn [seq map]. f_equal.
  - replace (c + Z.of_nat 0) with c by lia. reflexivity.
  - rewrite <- seq_shift, map_map. apply map_ext. intros j.
    replace (c + Z.of_nat (S j)) with (c + 1 + Z.of_nat j) by lia.
    reflexivity.
Qed.

Lemma canon_app (N : Z) (flip : bool) (n1 n2 : nat) :
  forall c,
    canon N flip c (n1 + n2)
    = canon N flip c n1 ++ canon N flip (c + Z.of_nat n1) n2.
Proof.
  induction n1 as [|n1 IH]; intros c.
  - cbn [Nat.add]. change (canon N flip c 0) with (@nil (Z * Z)).
    cbn [app]. replace (c + Z.of_nat 0) with c by lia. reflexivity.
  - cbn [Nat.add]. rewrite !canon_S, IH. cbn [app].
    replace (c + 1 + Z.of_nat n1) with (c + Z.of_nat (S n1)) by lia.
    reflexivity.
Qed.

Lemma canon_length (N : Z) (flip : bool) (c : Z) (n : nat) :
  length (canon N flip c n) = n.
Proof. unfold canon. now rewrite length_map, length_seq. Qed.

Lemma canon_split (N : Z) (flip : bool) (n : nat) :
  forall c A x B,
    canon N flip c n = A ++ x :: B ->
    A = canon N flip c (length A)
    /\ x = slot_phase N flip (c + Z.of_nat (length A)).
Proof.
  induction n as [|n IH]; intros c A x B E.
  - destruct A; discriminate.
  - rewrite canon_S in E. destruct A as [|y A]; cbn [app] in E.
    + inversion E. split; [reflexivity|]. cbn [length].
      replace (c + Z.of_nat 0) with c by lia. reflexivity.
    + inversion E as [[Ey E']]. destruct (IH _ _ _ _ E') as [HA Hx].
      cbn [length]. rewrite canon_S. split.
      * f_equal. exact HA.
      * rewrite Hx.
        replace (c + 1 + Z.of_nat (length A))
          with (c + Z.of_nat (S (length A))) by lia.
        reflexivity.
Qed.

Lemma slot_hits_app (s : Z) (l1 l2 : list (Z * Z)) :
  slot_hits s (l1 ++ l2) = slot_hits s l1 + slot_hits s l2.
Proof. unfold slot_hits. rewrite filter_app, length_app. lia. Qed.

Lemma div_step (x N : Z) :
  1 <= N -> 0 <= x ->
  (x + 1) / N = x / N + (if (x + 1) mod N =? 0 then 1 else 0).
Proof.
  intros HN Hx.
  pose proof (Z.div_mod x N ltac:(lia)) as E.
  pose proof (Z.mod_pos_bound x N ltac:(lia)) as B.
  pose proof (Z.div_mod (x + 1) N ltac:(lia)) as E1.
  pose proof (Z.mod_pos_bound (x + 1) N ltac:(lia)) as B1.
  destruct (Z.eqb_spec ((x + 1) mod N) 0); nia.
Qed.

(** Among the first [k] counter values, slot [s] is named
    [(k + N - 1 - s) / N] times. *)
Lemma slot_hits_canon (N : Z) (flip : bool) (s : Z) (k : nat) :
  1 <= N -> 0 <= s < N ->
  slot_hits s (canon N flip 0 k) = (Z.of_nat k + N - 1 - s) / N.
Proof.
  intros HN Hs. induction k as [|k IH].
  - cbn. symmetry. apply Z.div_small. lia.
  - replace (S k) with (k + 1)%nat by lia.
    rewrite canon_app, slot_hits_app, IH.
    cbn [canon seq map]. rewrite slot_phase_nonneg by lia.
    unfold slot_hits. cbn [filter fst].
    replace (Z.of_nat (k + 1) + N - 1 - s)
      with ((Z.of_nat k + N - 1 - s) + 1) by lia.
    rewrite (div_step (Z.of_nat k + N - 1 - s) N) by lia.
    f_equal.
    replace (0 + Z.of_nat k + Z.of_nat 0) with (Z.of_nat k) by lia.
    replace (Z.of_nat k + N - 1 - s + 1) with (Z.of_nat k - s + 1 * N) by lia.
    rewrite Z.mod_add by lia.
    pose proof (Z.div_mod (Z.of_nat k) N ltac:(lia)) as E.
    pose proof (Z.mod_pos_bound (Z.of_nat k) N ltac:(lia)) as B.
    pose proof (Z.div_mod (Z.of_nat k - s) N ltac:(lia)) as E1.
    pose proof (Z.mod_pos_bound (Z.of_nat k - s) N ltac:(lia)) as B1.
    destruct (Z.eqb_spec (Z.of_nat k mod N) s) as [Heq|Hne],
             (Z.eqb_spec ((Z.of_nat k - s) mod N) 0) as [Hz|Hnz];
      cbn [length]; try lia.
    + exfalso. apply Hnz.
      replace (Z.of_nat k - s) with (0 + (Z.of_nat k / N) * N) by lia.
      rewrite Z.mod_add by lia. apply Z.mod_0_l. lia.
    + exfalso. apply Hne.
      symmetry. apply (Z.mod_unique _ _ ((Z.of_nat k - s) / N)); lia.
Qed.

Lemma slot_hits_own (N : Z) (flip : bool) (k : nat) :
  1 <= N ->
  slot_hits (Z.of_nat k mod N) (canon N flip 0 k) = Z.of_nat k / N.
Proof.
  intros HN.
  pose proof (Z.mod_pos_bound (Z.of_nat k) N ltac:(lia)) as B.
  rewrite slot_hits_canon by lia.
  pose proof (Z.div_mod (Z.of_nat k) N ltac:(lia)) as E.
  symmetry. apply (Z.div_unique _ _ _ (N - 1)); lia.
Qed.

Lemma acq_events_app (arr : bar_array) (l1 l2 : list op) :
  acq_events arr (l1 ++ l2) = acq_events arr l1 ++ acq_events arr l2.
Proof. apply flat_map_app. Qed.

Lemma count_waits_events (arr : bar_array) (s : Z) (l : list op) :
  count_waits (arr, s) l = slot_hits s (acq_events arr l).
Proof.
  induction l as [|o l IH]; [reflexivity|].
  unfold count_waits in *. rewrite count_ops_cons, IH.
  change (acq_events arr (o :: l))
    with (wait_event arr o ++ acq_events arr l).
  rewrite slot_hits_app. f_equal.
  destruct o as [[arr' idx] ph [|] | | | | | | | | | | |]; try reflexivity.
  cbn [is_wait_at wait_event]. unfold barrier_eqb. cbn [fst snd].
  destruct (bar_array_eq_dec arr' arr); [|reflexivity].
  cbn [andb]. unfold slot_hits. cbn [filter fst].
  destruct (idx =? s); reflexivity.
Qed.

(** A program whose waits on [arr] follow a counter from zero is phased. *)
Lemma events_phased (arr : bar_array) (N : Z) (flip : bool) (P : list op)
    (n : nat) :
  1 <= N -> acq_events arr P = canon N flip 0 n -> phased arr N flip P.
Proof.
  intros HN E l1 idx ph l2 ->.
  rewrite acq_events_app in E.
  change (acq_events arr (barrier_wait (arr, idx) ph true :: l2))
    with (wait_event arr (barrier_wait (arr, idx) ph true)
            ++ acq_events arr l2) in E.
  cbn [wait_event] in E.
  destruct (bar_array_eq_dec arr arr); [|contradiction].
  cbn [app] in E. symmetry in E.
  destruct (canon_split _ _ _ _ _ _ _ E) as [HA Hx].
  set (k := length (acq_events arr l1)) in *.
  rewrite slot_phase_nonneg in Hx by lia. inversion Hx as [[Hidx Hph]].
  replace (0 + Z.of_nat k) with (Z.of_nat k) in * by lia.
  split; [apply Z.mod_pos_bound; lia|].
  rewrite count_waits_events, HA.
  fold k. rewrite slot_hits_own by lia. reflexivity.
Qed.

(** **** The invariant of the machine *)

Lemma nth_error_set_nth_eq {A : Type} (l : list A) (i : nat) (x y : A) :
  nth_error l i = Some y -> nth_error (set_nth i x l) i = Some x.
Proof.
  revert i. induction l as [|z l IH]; intros [|i] H; try discriminate.
  - reflexivity.
  - cbn [set_nth nth_error] in *. now apply IH.
Qed.

Lemma nth_error_set_nth_ne {A : Type} (l : list A) (i j : nat) (x : A) :
  i <> j -> nth_error (set_nth i x l) j = nth_error l j.
Proof.
  revert i j. induction l as [|z l IH]; intros [|i] [|j] H;
    cbn [set_nth nth_error]; try reflexivity; try contradiction.
  apply IH. congruence.
Qed.

Lemma issue_bars_ge (o : op) (bs : bars_t) (b : barrier) :
  bs b <= issue_bars o bs b.
Proof. destruct o; cbn [issue_bars]; try lia. apply arrive_ge. Qed.

Lemma slack_bound (flip : bool) (b : barrier) : 0 <= slack flip b <= 1.
Proof.
  unfold slack. pose proof (Z.mod_pos_bound (init_bars b + flip_bit flip) 2).
  lia.
Qed.

(** A wait whose slot has not been released since its last acquisition is
    not enabled. *)
Lemma wait_blocked (flip : bool) (b : barrier) (bs : bars_t) (cnt : Z) :
  cnt = bs b - init_bars b + slack flip b ->
  (cnt + flip_bit flip) mod 2 = bs b mod 2.
Proof.
  intros ->. unfold slack.
  pose proof (Z.div_mod (init_bars b + flip_bit flip) 2 ltac:(lia)) as E.
  set (q := (init_bars b + flip_bit flip) / 2) in *.
  set (r := (init_bars b + flip_bit flip) mod 2) in *.
  replace (bs b - init_bars b + r + flip_bit flip)
    with (bs b + (flip_bit flip - q) * 2) by lia.
  apply Z.mod_add. lia.
Qed.

Lemma is_wait_at_inv (b : barrier) (o : op) :
  is_wait_at b o = true -> exists ph, o = barrier_wait b ph true.
Proof.
  destruct o as [b' ph [|] | | | | | | | | | | |]; try discriminate.
  cbn [is_wait_at]. intros H. apply barrier_eqb_eq in H. subst. now exists ph.
Qed.

Lemma inv_acq_init (a : kernel_args) (prog_id : Z) (arr : bar_array)
    (flip : bool) (i : nat) (P : list op) :
  nth_error (kernel_tasks a prog_id) i = Some P ->
  inv_acq arr flip i P (init_machine a prog_id).
Proof.
  intros H. split; [cbn [init_machine bars]; intros; lia|].
  exists {| done := []; todo := P |}. cbn [init_machine tasks bars done todo].
  split; [|split].
  - rewrite nth_error_map, H. reflexivity.
  - reflexivity.
  - intros s. pose proof (slack_bound flip (arr, s)).
    unfold count_waits, count_ops. cbn [filter length]. lia.
Qed.

Lemma inv_acq_step (arr : bar_array) (N : Z) (flip : bool) (i : nat)
    (P : list op) (m m' : machine) :
  phased arr N flip P ->
  inv_acq arr flip i P m -> step m m' -> inv_acq arr flip i P m'.
Proof.
  intros Hph (Hge & t & Hnth & HP & Hcnt) Hstep.
  destruct Hstep as [m i' dn td o Hnth' Hen | m l1 l2 b Hpend].
  - split; [cbn [bars]; intros b;
            pose proof (issue_bars_ge o (bars m) b); specialize (Hge b); lia|].
    cbn [bars tasks].
    destruct (Nat.eq_dec i' i) as [->|Hne].
    + rewrite Hnth in Hnth'. inversion Hnth'; subst t.
      cbn [done todo] in *.
      exists {| done := dn ++ [o]; todo := td |}. cbn [done todo].
      split; [eapply nth_error_set_nth_eq; eassumption|].
      split; [rewrite <- app_assoc; exact HP|].
      intros s. unfold count_waits in *.
      rewrite count_ops_app, count_ops_cons.
      change (count_ops (is_wait_at (arr, s)) []) with 0.
      specialize (Hcnt s).
      pose proof (issue_bars_ge o (bars m) (arr, s)) as Hmono.
      destruct (is_wait_at (arr, s) o) eqn:Ew; [|lia].
      destruct (is_wait_at_inv _ _ Ew) as [ph ->].
      cbn [issue_bars enabled] in *.
      destruct (Hph dn s ph td (eq_sym HP)) as [_ Hphase].
      unfold count_waits in Hphase.
      destruct (Z.eq_dec (count_ops (is_wait_at (arr, s)) dn)
                  (bars m (arr, s) - init_bars (arr, s)
                   + slack flip (arr, s))) as [Heq|Hneq]; [|lia].
      apply (wait_blocked flip (arr, s) (bars m)) in Heq.
      rewrite <- Hphase in Heq. rewrite Heq, Z.eqb_refl in Hen.
      discriminate.
    + exists t. split; [|split; [exact HP|]].
      * rewrite nth_error_set_nth_ne by exact Hne. exact Hnth.
      * intros s. specialize (Hcnt s).
        pose proof (issue_bars_ge o (bars m) (arr, s)). lia.
  - split; [cbn [bars]; intros b';
            pose proof (arrive_ge b b' (bars m)); specialize (Hge b'); lia|].
    exists t. cbn [bars tasks]. split; [exact Hnth|split; [exact HP|]].
    intros s. specialize (Hcnt s).
    pose proof (arrive_ge b (arr, s) (bars m)). lia.
Qed.

Lemma inv_acq_reachable (a : kernel_args) (prog_id : Z) (arr : bar_array)
    (N : Z) (flip : bool) (i : nat) (P : list op) (m : machine) :
  nth_error (kernel_tasks a prog_id) i = Some P ->
  phased arr N flip P ->
  reachable a prog_id m -> inv_acq arr flip i P m.
Proof.
  intros Hi Hph Hr. induction Hr as [|m m' _ IH Hstep].
  - now apply inv_acq_init.
  - eapply inv_acq_step; eassumption.
Qed.

(** From the invariant: the waits of the task on array [arr] are at most
    the arrivals on its [N] slots, plus [N]. *)
Lemma inv_acq_bound (arr : bar_array) (N : Z) (flip : bool) (i : nat)
    (P : list op) (m : machine) (t : task) :
  1 <= N -> phased arr N flip P -> inv_acq arr flip i P m ->
  nth_error (tasks m) i = Some t ->
  count_ops (is_wait_on arr) (done t)
  <= zsum (fun s => bars m (arr, s) - init_bars (arr, s)) N
     + zsum (fun s => slack flip (arr, s)) N.
Proof.
  intros HN Hph (Hge & t' & Hnth & HP & Hcnt) Hnth'.
  rewrite Hnth in Hnth'. inversion Hnth'; subst t'. clear Hnth'.
  rewrite <- (Z2Nat.id N) by lia.
  rewrite (count_waits_sum arr (Z.to_nat N)).
  - rewrite <- zsum_add_nat. apply zsum_le_nat. intros s _. apply Hcnt.
  - intros idx ph Hin. rewrite Z2Nat.id by lia.
    apply in_split in Hin. destruct Hin as (l1 & l2 & Hsplit).
    destruct (Hph l1 idx ph (l2 ++ todo t)) as [Hr _]; [|exact Hr].
    rewrite <- HP, Hsplit, <- app_assoc. reflexivity.
Qed.

(** **** The programs, seen through one barrier array *)

Lemma run_tiles_cons {S : Type} (body : Z -> S -> list op * S)
    (t : Z) (ts : list Z) (st : S) :
  run_tiles body (t :: ts) st
  = (fst (body t st) ++ fst (run_tiles body ts (snd (body t st))),
     snd (run_tiles body ts (snd (body t st)))).
Proof.
  cbn [run_tiles]. destruct (body t st) as [ops st']. cbn [fst snd].
  destruct (run_tiles body ts st') as [rest st'']. reflexivity.
Qed.

Lemma run_tiles_events {S : Type} (body : Z -> S -> list op * S)
    (arr : bar_array) (N : Z) (flip : bool) (cnt : S -> Z) :
  (forall t st, exists m,
      acq_events arr (fst (body t st)) = canon N flip (cnt st) m
      /\ cnt (snd (body t st)) = cnt st + Z.of_nat m) ->
  forall tiles st, exists M,
      acq_events arr (fst (run_tiles body tiles st)) = canon N flip (cnt st) M
      /\ cnt (snd (run_tiles body tiles st)) = cnt st + Z.of_nat M.
Proof.
  intros Hbody tiles. induction tiles as [|t ts IH]; intros st.
  - exists 0%nat. split; [reflexivity|cbn; lia].
  - rewrite run_tiles_cons. cbn [fst snd].
    destruct (Hbody t st) as (m1 & E1 & C1).
    destruct (IH (snd (body t st))) as (m2 & E2 & C2).
    exists (m1 + m2)%nat. rewrite acq_events_app, E1, E2, C1, C2, canon_app.
    split; [reflexivity|lia].
Qed.

Lemma canon_1 (N : Z) (flip : bool) (c : Z) :
  canon N flip c 1 = [slot_phase N flip c].
Proof. rewrite canon_S. reflexivity. Qed.

Lemma canon_2 (N : Z) (flip : bool) (c : Z) :
  canon N flip c 2 = [slot_phase N flip c; slot_phase N flip (c + 1)].
Proof. rewrite canon_S, canon_1. reflexivity. Qed.

(** The load partition *)

Lemma load_loop_S (a : kernel_args) (bk kvo : Z) (k : nat) (sn cnt : Z) :
  load_loop a bk kvo (S k) sn cnt
  = (load_loop_body a bk kvo sn cnt
       ++ fst (load_loop a bk kvo k (sn + BLOCK_N a) (cnt + 2)),
     snd (load_loop a bk kvo k (sn + BLOCK_N a) (cnt + 2))).
Proof.
  cbn [load_loop].
  destruct (load_loop a bk kvo k (sn + BLOCK_N a) (cnt + 2)). reflexivity.
Qed.

Lemma load_loop_cnt (a : kernel_args) (bk kvo : Z) (k : nat) :
  forall sn cnt,
    snd (load_loop a bk kvo k sn cnt) = cnt + 2 * Z.of_nat k.
Proof.
  induction k as [|k IH]; intros sn cnt; [cbn; lia|].
  rewrite load_loop_S. cbn [snd]. rewrite IH. lia.
Qed.

Lemma load_kv_events (a : kernel_args) (t : tensor) (cnt row kvo : Z) :
  acq_events consumer_release_kv (load_kv a t cnt row kvo)
  = [slot_phase (NUM_BUFFERS_KV a) false cnt]
  /\ acq_events consumer_release_q0 (load_kv a t cnt row kvo) = []
  /\ acq_events consumer_release_q1 (load_kv a t cnt row kvo) = [].
Proof. repeat split. Qed.

Lemma load_loop_events_kv (a : kernel_args) (bk kvo : Z) (k : nat) :
  forall sn cnt,
    acq_events consumer_release_kv (fst (load_loop a bk kvo k sn cnt))
    = canon (NUM_BUFFERS_KV a) false cnt (2 * k).
Proof.
  induction k as [|k IH]; intros sn cnt; [reflexivity|].
  rewrite load_loop_S. cbn [fst]. unfold load_loop_body.
  rewrite !acq_events_app, IH.
  destruct (load_kv_events a tK cnt (bk + sn) kvo) as (-> & _).
  destruct (load_kv_events a tV (cnt + 1) (bk + sn) kvo) as (-> & _).
  replace (2 * S k)%nat with (2 + 2 * k)%nat by lia.
  rewrite canon_app, canon_2. reflexivity.
Qed.

Lemma load_loop_events_q (a : kernel_args) (bk kvo : Z) (k : nat) :
  forall sn cnt,
    acq_events consumer_release_q0 (fst (load_loop a bk kvo k sn cnt)) = []
    /\ acq_events consumer_release_q1 (fst (load_loop a bk kvo k sn cnt)) = [].
Proof.
  induction k as [|k IH]; intros sn cnt; [split; reflexivity|].
  rewrite load_loop_S. cbn [fst]. unfold load_loop_body.
  rewrite !acq_events_app.
  destruct (IH (sn + BLOCK_N a) (cnt + 2)) as [-> ->].
  split; reflexivity.
Qed.

Lemma load_tile_body_eq (a : kernel_args) (t : Z) (st : load_state) :
  let info := _compute_qlen a t in
  let kvo := Z.quot (off_h_of a t) (G_ a) * stride_kh a in
  let k := range_count (BLOCK_N a) (klen info) (BLOCK_N a) in
  let loop := load_loop a (begin_k info) kvo k (BLOCK_N a)
                (ld_accum_cnt_kv st + 2) in
  fst (load_tile_body a t st)
  = load_q a consumer_release_q0 consumer_q0 q0_buf
      (Z.rem (accum_count_q st) (NUM_BUFFERS_Q a))
      (Z.land (Z.quot (accum_count_q st) (NUM_BUFFERS_Q a)) 1)
      (begin_q info + start_m_of a t * BLOCK_M a)
      (off_h_of a t * stride_qh a)
    ++ load_kv a tK (ld_accum_cnt_kv st) (begin_k info + 0) kvo
    ++ load_q a consumer_release_q1 consumer_q1 q1_buf
         (Z.rem (accum_count_q st) (NUM_BUFFERS_Q a))
         (Z.land (Z.quot (accum_count_q st) (NUM_BUFFERS_Q a)) 1)
         (begin_q info + start_m_of a t * BLOCK_M a + BLOCK_M a / 2)
         (off_h_of a t * stride_qh a)
    ++ load_kv a tV (ld_accum_cnt_kv st + 1) (begin_k info + 0) kvo
    ++ fst loop
  /\ snd (load_tile_body a t st)
     = {| accum_count_q := accum_count_q st + 1;
          ld_accum_cnt_kv := snd loop |}.
Proof.
  cbv zeta. unfold load_tile_body.
  destruct (load_loop a _ _ _ _ _) as [loop cnt']. split; reflexivity.
Qed.

Lemma load_tile_events_kv (a : kernel_args) (t : Z) (st : load_state) :
  exists m,
    acq_events consumer_release_kv (fst (load_tile a t st))
    = canon (NUM_BUFFERS_KV a) false (ld_accum_cnt_kv st) m
    /\ ld_accum_cnt_kv (snd (load_tile a t st))
       = ld_accum_cnt_kv st + Z.of_nat m.
Proof.
  unfold load_tile. destruct (tile_active a t).
  - destruct (load_tile_body_eq a t st) as [-> ->].
    set (k := range_count _ _ _). exists (2 + 2 * k)%nat.
    cbn [ld_accum_cnt_kv]. rewrite load_loop_cnt.
    split; [|lia].
    rewrite !acq_events_app, load_loop_events_kv.
    rewrite canon_app, canon_2. reflexivity.
  - exists 0%nat. split; [reflexivity|cbn; lia].
Qed.

Lemma load_tile_events_q (a : kernel_args) (t : Z) (st : load_state) :
  exists m,
    (acq_events consumer_release_q0 (fst (load_tile a t st))
     = canon (NUM_BUFFERS_Q a) true (accum_count_q st) m
     /\ acq_events consumer_release_q1 (fst (load_tile a t st))
        = canon (NUM_BUFFERS_Q a) true (accum_count_q st) m)
    /\ accum_count_q (snd (load_tile a t st))
       = accum_count_q st + Z.of_nat m.
Proof.
  unfold load_tile. destruct (tile_active a t).
  - destruct (load_tile_body_eq a t st) as [-> ->].
    exists 1%nat. cbn [accum_count_q]. split; [|lia].
    rewrite !acq_events_app.
    destruct (load_loop_events_q a (begin_k (_compute_qlen a t))
                (Z.quot (off_h_of a t) (G_ a) * stride_kh a)
                (range_count (BLOCK_N a) (klen (_compute_qlen a t))
                   (BLOCK_N a))
                (BLOCK_N a) (ld_accum_cnt_kv st + 2)) as [-> ->].
    rewrite canon_1. split; reflexivity.
  - exists 0%nat. split; [split; reflexivity|cbn; lia].
Qed.

(** The gemm partition *)

Lemma mma_tile_body_eq (a : kernel_args) (klen : Z) (st : mma_state) :
  let n := range_count (BLOCK_N a) klen (BLOCK_N a) in
  let loop := mma_loop a (mma_env a st) n (mma_loop_init a st) in
  fst (mma_tile_body a klen st)
  = fst (fst (mma_prologue a st))
    ++ fst loop
    ++ fst (mma_epilogue a st (mma_env a st) (snd loop))
  /\ snd (mma_tile_body a klen st)
     = snd (mma_epilogue a st (mma_env a st) (snd loop)).
Proof.
  cbv zeta. unfold mma_tile_body, mma_env, mma_loop_init.
  destruct (mma_prologue a st) as [[pro e] s0]. cbn [fst snd].
  destruct (mma_loop a e _ s0) as [body s1]. cbn [fst snd].
  destruct (mma_epilogue a st e s1) as [epi st']. split; reflexivity.
Qed.

Lemma mma_loop_body_state (a : kernel_args) (e : mma_tile_env)
    (s : mma_loop_state) :
  l_accum_cnt_qk (snd (mma_loop_body a e s)) = l_accum_cnt_qk s + 1
  /\ l_accum_cnt_qk1 (snd (mma_loop_body a e s)) = l_accum_cnt_qk1 s + 1
  /\ first (snd (mma_loop_body a e s)) = false.
Proof. repeat split. Qed.

Lemma mma_loop_counters (a : kernel_args) (e : mma_tile_env) (k : nat) :
  forall s,
    l_accum_cnt_qk (snd (mma_loop a e k s)) = l_accum_cnt_qk s + Z.of_nat k
    /\ l_accum_cnt_qk1 (snd (mma_loop a e k s))
       = l_accum_cnt_qk1 s + Z.of_nat k
    /\ first (snd (mma_loop a e k s))
       = match k with O => first s | S _ => false end.
Proof.
  induction k as [|k IH]; intros s; [cbn; repeat split; lia|].
  rewrite mma_loop_S. cbn [snd].
  destruct (IH (snd (mma_loop_body a e s))) as (-> & -> & ->).
  destruct (mma_loop_body_state a e s) as (-> & -> & ->).
  repeat split; try lia. destruct k; reflexivity.
Qed.

Lemma mma_loop_events_o0 (a : kernel_args) (st : mma_state) (k : nat) :
  forall s,
    acq_events producer_o0 (fst (mma_loop a (mma_env a st) k s)) = [].
Proof.
  induction k as [|k IH]; intros s; [reflexivity|].
  rewrite mma_loop_S. cbn [fst]. rewrite acq_events_app, IH.
  destruct (first s) eqn:Ef; unfold mma_loop_body; rewrite Ef; reflexivity.
Qed.

Lemma mma_loop_events_o1 (a : kernel_args) (st : mma_state) (k : nat) :
  forall s,
    acq_events producer_o1 (fst (mma_loop a (mma_env a st) k s))
    = if first s
      then match k with
           | O => []
           | S _ => [slot_phase (NUM_BUFFERS_O a) true (accum_cnt_outer st)]
           end
      else [].
Proof.
  induction k as [|k IH]; intros s; [destruct (first s); reflexivity|].
  rewrite mma_loop_S. cbn [fst]. rewrite acq_events_app, IH.
  destruct (first s) eqn:Ef; unfold mma_loop_body; rewrite Ef; reflexivity.
Qed.

Lemma mma_loop_events_qk0 (a : kernel_args) (st : mma_state) (k : nat) :
  forall s,
    acq_events producer_qk0 (fst (mma_loop a (mma_env a st) k s))
    = canon (NUM_BUFFERS_QK a) false (l_accum_cnt_qk s) k.
Proof.
  induction k as [|k IH]; intros s; [reflexivity|].
  rewrite mma_loop_S. cbn [fst]. rewrite acq_events_app, IH, canon_S.
  destruct (first s) eqn:Ef; unfold mma_loop_body; rewrite Ef; reflexivity.
Qed.

Lemma mma_loop_events_qk1 (a : kernel_args) (st : mma_state) (k : nat) :
  forall s,
    acq_events producer_qk1 (fst (mma_loop a (mma_env a st) k s))
    = canon (NUM_BUFFERS_QK a) false (l_accum_cnt_qk1 s) k.
Proof.
  induction k as [|k IH]; intros s; [reflexivity|].
  rewrite mma_loop_S. cbn [fst]. rewrite acq_events_app, IH, canon_S.
  destruct (first s) eqn:Ef; unfold mma_loop_body; rewrite Ef; reflexivity.
Qed.

Lemma mma_epilogue_state (a : kernel_args) (st : mma_state)
    (e : mma_tile_env) (s : mma_loop_state) :
  accum_cnt_outer (snd (mma_epilogue a st e s)) = accum_cnt_outer st + 1
  /\ accum_cnt_qk (snd (mma_epilogue a st e s)) = l_accum_cnt_qk s.
Proof. split; reflexivity. Qed.

Lemma mma_prologue_events (a : kernel_args) (st : mma_state) :
  acq_events producer_o0 (fst (fst (mma_prologue a st)))
  = [slot_phase (NUM_BUFFERS_O a) true (accum_cnt_outer st)]
  /\ acq_events producer_o1 (fst (fst (mma_prologue a st))) = []
  /\ acq_events producer_qk0 (fst (fst (mma_prologue a st)))
     = [slot_phase (NUM_BUFFERS_QK a) false (accum_cnt_qk st)]
  /\ acq_events producer_qk1 (fst (fst (mma_prologue a st))) = [].
Proof. repeat split. Qed.

Lemma mma_epilogue_events (a : kernel_args) (st : mma_state)
    (s : mma_loop_state) :
  let epi := fst (mma_epilogue a st (mma_env a st) s) in
  acq_events producer_o0 epi = []
  /\ acq_events producer_o1 epi
     = (if first s
        then [slot_phase (NUM_BUFFERS_O a) true (accum_cnt_outer st)]
        else [])
  /\ acq_events producer_qk0 epi = []
  /\ acq_events producer_qk1 epi
     = [slot_phase (NUM_BUFFERS_QK a) false (l_accum_cnt_qk1 s)].
Proof.
  cbv zeta. unfold mma_epilogue.
  destruct (first s); repeat split.
Qed.

Lemma mma_tile_events_o (a : kernel_args) (t : Z) (st : mma_state) :
  exists m,
    (acq_events producer_o0 (fst (mma_tile a t st))
     = canon (NUM_BUFFERS_O a) true (accum_cnt_outer st) m
     /\ acq_events producer_o1 (fst (mma_tile a t st))
        = canon (NUM_BUFFERS_O a) true (accum_cnt_outer st) m)
    /\ accum_cnt_outer (snd (mma_tile a t st))
       = accum_cnt_outer st + Z.of_nat m.
Proof.
  unfold mma_tile. destruct (tile_active a t).
  - destruct (mma_tile_body_eq a (klen (_compute_qlen a t)) st) as [-> ->].
    set (n := range_count _ _ _).
    set (s1 := snd (mma_loop a (mma_env a st) n (mma_loop_init a st))).
    exists 1%nat.
    destruct (mma_epilogue_state a st (mma_env a st) s1) as [-> _].
    split; [|lia].
    destruct (mma_prologue_events a st) as (P0 & P1 & _).
    destruct (mma_epilogue_events a st s1) as (E0 & E1 & _).
    rewrite !acq_events_app, mma_loop_events_o0, mma_loop_events_o1,
      canon_1, P0, P1, E0, E1.
    destruct (mma_loop_counters a (mma_env a st) n (mma_loop_init a st))
      as (_ & _ & Hf).
    fold s1 in Hf. rewrite Hf.
    change (first (mma_loop_init a st)) with true.
    split; [reflexivity|]. destruct n; reflexivity.
  - exists 0%nat. split; [split; reflexivity|cbn; lia].
Qed.

Lemma mma_tile_events_qk (a : kernel_args) (t : Z) (st : mma_state) :
  exists m,
    (acq_events producer_qk0 (fst (mma_tile a t st))
     = canon (NUM_BUFFERS_QK a) false (accum_cnt_qk st) m
     /\ acq_events producer_qk1 (fst (mma_tile a t st))
        = canon (NUM_BUFFERS_QK a) false (accum_cnt_qk st) m)
    /\ accum_cnt_qk (snd (mma_tile a t st)) = accum_cnt_qk st + Z.of_nat m.
Proof.
  unfold mma_tile. destruct (tile_active a t).
  - destruct (mma_tile_body_eq a (klen (_compute_qlen a t)) st) as [-> ->].
    set (n := range_count _ _ _).
    set (s1 := snd (mma_loop a (mma_env a st) n (mma_loop_init a st))).
    exists (1 + n)%nat.
    destruct (mma_epilogue_state a st (mma_env a st) s1) as [_ ->].
    destruct (mma_loop_counters a (mma_env a st) n (mma_loop_init a st))
      as (Hqk & Hqk1 & _).
    fold s1 in Hqk, Hqk1.
    change (l_accum_cnt_qk (mma_loop_init a st)) with (accum_cnt_qk st + 1)
      in Hqk.
    change (l_accum_cnt_qk1 (mma_loop_init a st)) with (accum_cnt_qk st)
      in Hqk1.
    split; [|lia].
    destruct (mma_prologue_events a st) as (_ & _ & P0 & P1).
    destruct (mma_epilogue_events a st s1) as (_ & _ & E0 & E1).
    rewrite !acq_events_app, mma_loop_events_qk0, mma_loop_events_qk1,
      P0, P1, E0, E1, Hqk1.
    change (l_accum_cnt_qk (mma_loop_init a st)) with (accum_cnt_qk st + 1).
    change (l_accum_cnt_qk1 (mma_loop_init a st)) with (accum_cnt_qk st).
    split.
    + rewrite canon_app, canon_1, app_nil_r. reflexivity.
    + replace (1 + n)%nat with (n + 1)%nat by lia.
      rewrite canon_app, canon_1. reflexivity.
  - exists 0%nat. split; [split; reflexivity|cbn; lia].
Qed.

(** Matmuls into a score region against the waits for the activated tile *)

Lemma exc_app (buf : buf_array) (arr : bar_array) (l1 l2 : list op) :
  exc buf arr (l1 ++ l2) = exc buf arr l1 + exc buf arr l2.
Proof. induction l1 as [|o l1 IH]; cbn [app exc]; [lia|rewrite IH; lia]. Qed.

Lemma bounded_app (buf : buf_array) (arr : bar_array) (l1 l2 : list op) :
  forall e,
    bounded buf arr e (l1 ++ l2)
    = bounded buf arr e l1 && bounded buf arr (e + exc buf arr l1) l2.
Proof.
  induction l1 as [|o l1 IH]; intros e; cbn [app bounded exc andb].
  - now rewrite Z.add_0_r.
  - rewrite IH, andb_assoc, Z.add_assoc. reflexivity.
Qed.

Lemma exc_counts (buf : buf_array) (arr : bar_array) (l : list op) :
  exc buf arr l
  = count_ops (is_dot_into buf) l - count_ops (is_wait_on arr) l.
Proof.
  induction l as [|o l IH]; [reflexivity|].
  cbn [exc]. rewrite !count_ops_cons, IH. unfold exc_delta. lia.
Qed.

Lemma bounded_prefix (buf : buf_array) (arr : bar_array) (l1 l2 : list op) :
  forall e,
    e <= 1 -> bounded buf arr e (l1 ++ l2) = true ->
    e + exc buf arr l1 <= 1.
Proof.
  induction l1 as [|o l1 IH]; intros e He Hb; cbn [exc]; [lia|].
  cbn [app bounded] in Hb. apply andb_prop in Hb as [H1 H2].
  apply Z.leb_le in H1. specialize (IH _ H1 H2). lia.
Qed.

Lemma mma_loop_balance (a : kernel_args) (st : mma_state) (k : nat) :
  forall s,
    let ops := fst (mma_loop a (mma_env a st) k s) in
    (bounded qk0_buf producer_qk0 0 ops = true
     /\ exc qk0_buf producer_qk0 ops = 0)
    /\ (bounded qk1_buf producer_qk1 1 ops = true
        /\ exc qk1_buf producer_qk1 ops = 0).
Proof.
  induction k as [|k IH]; intros s; [repeat split|].
  cbv zeta. rewrite mma_loop_S. cbn [fst].
  destruct (IH (snd (mma_loop_body a (mma_env a st) s)))
    as ((B0 & X0) & (B1 & X1)).
  rewrite !bounded_app, !exc_app, X0, X1.
  assert (Hbody :
    (bounded qk0_buf producer_qk0 0 (fst (mma_loop_body a (mma_env a st) s))
     = true
     /\ exc qk0_buf producer_qk0 (fst (mma_loop_body a (mma_env a st) s)) = 0)
    /\ (bounded qk1_buf producer_qk1 1
          (fst (mma_loop_body a (mma_env a st) s)) = true
        /\ exc qk1_buf producer_qk1
             (fst (mma_loop_body a (mma_env a st) s)) = 0)).
  { unfold mma_loop_body. destruct (first s); repeat split. }
  destruct Hbody as ((Bb0 & Xb0) & (Bb1 & Xb1)).
  rewrite Bb0, Bb1, Xb0, Xb1. cbn [andb Z.add].
  repeat split; assumption.
Qed.

Lemma mma_tile_balance (a : kernel_args) (t : Z) (st : mma_state) :
  let ops := fst (mma_tile a t st) in
  (bounded qk0_buf producer_qk0 0 ops = true
   /\ exc qk0_buf producer_qk0 ops = 0)
  /\ (bounded qk1_buf producer_qk1 0 ops = true
      /\ exc qk1_buf producer_qk1 ops = 0).
Proof.
  cbv zeta. unfold mma_tile. destruct (tile_active a t); [|repeat split].
  destruct (mma_tile_body_eq a (klen (_compute_qlen a t)) st) as [-> _].
  set (n := range_count _ _ _).
  set (s1 := snd (mma_loop a (mma_env a st) n (mma_loop_init a st))).
  destruct (mma_loop_balance a st n (mma_loop_init a st))
    as ((B0 & X0) & (B1 & X1)).
  assert (Hpro :
    (bounded qk0_buf producer_qk0 0 (fst (fst (mma_prologue a st))) = true
     /\ exc qk0_buf producer_qk0 (fst (fst (mma_prologue a st))) = 0)
    /\ (bounded qk1_buf producer_qk1 0 (fst (fst (mma_prologue a st))) = true
        /\ exc qk1_buf producer_qk1 (fst (fst (mma_prologue a st))) = 1))
    by (repeat split).
  assert (Hepi :
    (bounded qk0_buf producer_qk0 0
       (fst (mma_epilogue a st (mma_env a st) s1)) = true
     /\ exc qk0_buf producer_qk0
          (fst (mma_epilogue a st (mma_env a st) s1)) = 0)
    /\ (bounded qk1_buf producer_qk1 1
          (fst (mma_epilogue a st (mma_env a st) s1)) = true
        /\ exc qk1_buf producer_qk1
             (fst (mma_epilogue a st (mma_env a st) s1)) = -1)).
  { unfold mma_epilogue. destruct (first s1); repeat split. }
  destruct Hpro as ((Pb0 & Px0) & (Pb1 & Px1)).
  destruct Hepi as ((Eb0 & Ex0) & (Eb1 & Ex1)).
  rewrite !bounded_app, !exc_app, Px0, Px1, X0, X1, Ex0, Ex1, Pb0, Pb1.
  cbn [Z.add andb]. rewrite B0, B1, Eb0, Eb1. repeat split.
Qed.

Lemma mma_tiles_balance (a : kernel_args) (tiles : list Z) :
  forall st,
    let ops := fst (run_tiles (mma_tile a) tiles st) in
    (bounded qk0_buf producer_qk0 0 ops = true
     /\ exc qk0_buf producer_qk0 ops = 0)
    /\ (bounded qk1_buf producer_qk1 0 ops = true
        /\ exc qk1_buf producer_qk1 ops = 0).
Proof.
  induction tiles as [|t ts IH]; intros st; [repeat split|].
  cbv zeta. rewrite run_tiles_cons. cbn [fst].
  destruct (mma_tile_balance a t st) as ((B0 & X0) & (B1 & X1)).
  destruct (IH (snd (mma_tile a t st))) as ((C0 & Y0) & (C1 & Y1)).
  rewrite !bounded_app, !exc_app, X0, X1, Y0, Y1, B0, B1.
  cbn [Z.add andb]. repeat split; assumption.
Qed.

(** The programs are phased on the release barriers they wait on. *)

Lemma load_partition_phased (a : kernel_args) (prog_id : Z) :
  1 <= NUM_BUFFERS_Q a -> 1 <= NUM_BUFFERS_KV a ->
  phased consumer_release_q0 (NUM_BUFFERS_Q a) true
    (load_partition a prog_id)
  /\ phased consumer_release_q1 (NUM_BUFFERS_Q a) true
       (load_partition a prog_id)
  /\ phased consumer_release_kv (NUM_BUFFERS_KV a) false
       (load_partition a prog_id).
Proof.
  intros HQ HKV. unfold load_partition.
  set (tiles := prog_tiles a prog_id).
  destruct (run_tiles_events (load_tile a) consumer_release_q0
              (NUM_BUFFERS_Q a) true accum_count_q
              (fun t st => let '(ex_intro _ m (conj (conj E _) C)) :=
                             load_tile_events_q a t st in
                           ex_intro _ m (conj E C))
              tiles load_init) as (m0 & E0 & _).
  destruct (run_tiles_events (load_tile a) consumer_release_q1
              (NUM_BUFFERS_Q a) true accum_count_q
              (fun t st => let '(ex_intro _ m (conj (conj _ E) C)) :=
                             load_tile_events_q a t st in
                           ex_intro _ m (conj E C))
              tiles load_init) as (m1 & E1 & _).
  destruct (run_tiles_events (load_tile a) consumer_release_kv
              (NUM_BUFFERS_KV a) false ld_accum_cnt_kv
              (load_tile_events_kv a) tiles load_init) as (m2 & E2 & _).
  split; [|split]; eapply events_phased; eassumption.
Qed.

Lemma mma_partition_phased (a : kernel_args) (prog_id : Z) :
  1 <= NUM_BUFFERS_QK a -> 1 <= NUM_BUFFERS_O a ->
  phased producer_o0 (NUM_BUFFERS_O a) true (mma_partition a prog_id)
  /\ phased producer_o1 (NUM_BUFFERS_O a) true (mma_partition a prog_id)
  /\ phased producer_qk0 (NUM_BUFFERS_QK a) false (mma_partition a prog_id)
  /\ phased producer_qk1 (NUM_BUFFERS_QK a) false (mma_partition a prog_id).
Proof.
  intros HQK HO. unfold mma_partition.
  set (tiles := prog_tiles a prog_id).
  destruct (run_tiles_events (mma_tile a) producer_o0
              (NUM_BUFFERS_O a) true accum_cnt_outer
              (fun t st => let '(ex_intro _ m (conj (conj E _) C)) :=
                             mma_tile_events_o a t st in
                           ex_intro _ m (conj E C))
              tiles mma_init) as (m0 & E0 & _).
  destruct (run_tiles_events (mma_tile a) producer_o1
              (NUM_BUFFERS_O a) true accum_cnt_outer
              (fun t st => let '(ex_intro _ m (conj (conj _ E) C)) :=
                             mma_tile_events_o a t st in
                           ex_intro _ m (conj E C))
              tiles mma_init) as (m1 & E1 & _).
  destruct (run_tiles_events (mma_tile a) producer_qk0
              (NUM_BUFFERS_QK a) false accum_cnt_qk
              (fun t st => let '(ex_intro _ m (conj (conj E _) C)) :=
                             mma_tile_events_qk a t st in
                           ex_intro _ m (conj E C))
              tiles mma_init) as (m2 & E2 & _).
  destruct (run_tiles_events (mma_tile a) producer_qk1
              (NUM_BUFFERS_QK a) false accum_cnt_qk
              (fun t st => let '(ex_intro _ m (conj (conj _ E) C)) :=
                             mma_tile_events_qk a t st in
                           ex_intro _ m (conj E C))
              tiles mma_init) as (m3 & E3 & _).
  split; [|split; [|split]]; eapply events_phased; eassumption.
Qed.

(** **** Backpressure *)

Lemma producer_program_nth (a : kernel_args) (prog_id : Z) (c : channel) :
  nth_error (kernel_tasks a prog_id) (producer_task c)
  = Some (producer_program a prog_id c).
Proof. destruct c; reflexivity. Qed.

Lemma producer_program_phased (a : kernel_args) (prog_id : Z) (c : channel) :
  1 <= NUM_BUFFERS_Q a -> 1 <= NUM_BUFFERS_KV a ->
  1 <= NUM_BUFFERS_QK a -> 1 <= NUM_BUFFERS_O a ->
  phased (release_array c) (slot_count a c) (acquire_flip c)
    (producer_program a prog_id c).
Proof.
  intros HQ HKV HQK HO.
  destruct (load_partition_phased a prog_id HQ HKV) as (L0 & L1 & L2).
  destruct (mma_partition_phased a prog_id HQK HO) as (M0 & M1 & M2 & M3).
  destruct c; assumption.
Qed.

Lemma slot_count_pos (a : kernel_args) (c : channel) :
  1 <= NUM_BUFFERS_Q a -> 1 <= NUM_BUFFERS_KV a ->
  1 <= NUM_BUFFERS_QK a -> 1 <= NUM_BUFFERS_O a ->
  1 <= slot_count a c.
Proof. intros; destruct c; assumption. Qed.

Lemma zsum_slack_le (flip : bool) (arr : bar_array) (N : Z) :
  0 <= N -> zsum (fun s => slack flip (arr, s)) N <= N.
Proof.
  intros HN. rewrite <- (Z2Nat.id N HN) at 2.
  rewrite <- (Z2Nat.id N HN) at 1.
  apply zsum_const_le_nat. intros s _.
  apply (slack_bound flip (arr, s)).
Qed.

Lemma zsum_slack_qk (arr : bar_array) (N : Z) :
  arr = producer_qk0 \/ arr = producer_qk1 ->
  0 <= N -> zsum (fun s => slack false (arr, s)) N = 0.
Proof.
  intros Harr HN. rewrite <- (Z2Nat.id N HN).
  apply zsum_zero_nat. intros s _.
  destruct Harr as [-> | ->]; reflexivity.
Qed.

Lemma mma_partition_balance (a : kernel_args) (prog_id : Z) (dn td : list op) :
  dn ++ td = mma_partition a prog_id ->
  count_ops (is_dot_into qk0_buf) dn
  <= count_ops (is_wait_on producer_qk0) dn + 1
  /\ count_ops (is_dot_into qk1_buf) dn
     <= count_ops (is_wait_on producer_qk1) dn + 1.
Proof.
  intros HP.
  destruct (mma_tiles_balance a (prog_tiles a prog_id) mma_init)
    as ((B0 & _) & (B1 & _)).
  change (fst (run_tiles (mma_tile a) (prog_tiles a prog_id) mma_init))
    with (mma_partition a prog_id) in B0, B1.
  rewrite <- HP in B0, B1.
  apply bounded_prefix in B0; [|lia]. apply bounded_prefix in B1; [|lia].
  rewrite exc_counts in B0, B1. lia.
Qed.

(** **** Runs of the machine *)

Lemma exec_task_step (i : nat) (m m' : machine) :
  exec_task i m = Some m' -> step m m'.
Proof.
  unfold exec_task. destruct (nth_error (tasks m) i) as [[dn [|o td]]|] eqn:E;
    try discriminate.
  destruct (enabled (bars m) o) eqn:En; [|discriminate].
  intros H. inversion H. now apply step_task.
Qed.

Lemma exec_task_n_reachable (a : kernel_args) (prog_id : Z) (i : nat)
    (n : nat) :
  forall m m',
    reachable a prog_id m -> exec_task_n i n m = Some m' ->
    reachable a prog_id m'.
Proof.
  induction n as [|n IH]; intros m m' Hr H; cbn [exec_task_n] in H.
  - inversion H; subst; exact Hr.
  - destruct (exec_task i m) as [m1|] eqn:E; [|discriminate].
    apply (IH m1 m'); [|exact H].
    eapply reachable_step; [exact Hr|]. apply (exec_task_step i). exact E.
Qed.

Lemma run_task_reachable (a : kernel_args) (prog_id : Z) (i : nat)
    (n : nat) :
  forall m, reachable a prog_id m -> reachable a prog_id (run_task i n m).
Proof.
  induction n as [|n IH]; intros m Hr; cbn [run_task]; [exact Hr|].
  destruct (exec_task i m) as [m1|] eqn:E; [|exact Hr].
  apply IH. eapply reachable_step; [exact Hr|].
  apply (exec_task_step i). exact E.
Qed.

Lemma exec_complete_step (m m' : machine) :
  exec_complete m = Some m' -> step m m'.
Proof.
  unfold exec_complete. destruct (pending m) as [|b l] eqn:E;
    [discriminate|].
  intros H. inversion H. apply (step_complete m [] l b). exact E.
Qed.

Lemma exec_first_step (order : list nat) (m m' : machine) :
  exec_first order m = Some m' -> step m m'.
Proof.
  induction order as [|i r IH]; cbn [exec_first]; [discriminate|].
  destruct (exec_task i m) as [m1|] eqn:E; [|exact IH].
  intros H. inversion H; subst. apply (exec_task_step i). exact E.
Qed.

Lemma exec_next_step (m m' : machine) :
  exec_next m = Some m' -> step m m'.
Proof.
  unfold exec_next. destruct (exec_complete m) as [m1|] eqn:E.
  - intros H. inversion H; subst. apply exec_complete_step. exact E.
  - apply exec_first_step.
Qed.

Lemma run_steps_reachable (a : kernel_args) (prog_id : Z) (n : nat) :
  forall m, reachable a prog_id m -> reachable a prog_id (run_steps n m).
Proof.
  induction n as [|n IH]; intros m Hr; cbn [run_steps]; [exact Hr|].
  destruct (exec_next m) as [m1|] eqn:E; [|exact Hr].
  apply IH. eapply reachable_step; [exact Hr|].
  apply exec_next_step. exact E.
Qed.

Lemma example_load_ahead_reachable :
  reachable example_args 3 example_load_ahead.
Proof. apply run_task_reachable, reachable_init. Qed.

Lemma example_second_turn_reachable :
  reachable example_args 3 example_second_turn.
Proof. apply run_steps_reachable, reachable_init. Qed.

Lemma example_two_scores_reachable :
  reachable example_args 3 example_two_scores.
Proof. apply run_steps_reachable, reachable_init. Qed.

(** C7. In every reachable state of one program of the forward kernel and
    for every buffered channel (the two Q sub-tiles, the K/V ring, the two
    score regions, the two accumulators), the number of slot acquisitions
    the producing partition has completed is at most the number of
    arrivals made on the release barriers of the channel's slots plus the
    channel's slot count.  Moreover a producer whose next operation is the
    wait on a release barrier, and which has passed that barrier as often
    as the releases so far allow, finds the wait not enabled: it blocks. *)
Theorem producer_backpressure (a : kernel_args) (prog_id : Z) (m : machine)
    (c : channel) :
  1 <= NUM_BUFFERS_Q a -> 1 <= NUM_BUFFERS_KV a ->
  1 <= NUM_BUFFERS_QK a -> 1 <= NUM_BUFFERS_O a ->
  reachable a prog_id m ->
  acquisitions c m <= releases a c m + slot_count a c
  /\ forall t idx ph rest,
       nth_error (tasks m) (producer_task c) = Some t ->
       todo t = barrier_wait (release_array c, idx) ph true :: rest ->
       count_waits (release_array c, idx) (done t)
       = bars m (release_array c, idx) - init_bars (release_array c, idx)
         + slack (acquire_flip c) (release_array c, idx) ->
       enabled (bars m) (barrier_wait (release_array c, idx) ph true) = false.
Proof.
  intros HQ HKV HQK HO Hr.
  pose proof (producer_program_phased a prog_id c HQ HKV HQK HO) as Hph.
  pose proof (slot_count_pos a c HQ HKV HQK HO) as HN.
  pose proof (inv_acq_reachable a prog_id _ _ _ _ _ m
                (producer_program_nth a prog_id c) Hph Hr) as Hinv.
  assert (Hinv' := Hinv).
  destruct Hinv' as (_ & t & Hnth & HP & _).
  pose proof (inv_acq_bound _ _ _ _ _ m t HN Hph Hinv Hnth) as Hb.
  split.
  - unfold acquisitions, releases. rewrite Hnth.
    pose proof (zsum_slack_le (acquire_flip c) (release_array c)
                  (slot_count a c) ltac:(lia)) as Hs.
    destruct c; unfold is_acquire, release_array, acquire_flip in *;
      match goal with
      | |- context [count_ops (fun o => ?f o)] =>
          change (fun o : op => f o) with f
      end;
      try lia.
    + pose proof (zsum_slack_qk producer_qk0 (slot_count a ch_qk0)
                    (or_introl eq_refl) ltac:(lia)) as Hz.
      destruct (mma_partition_balance a prog_id (done t) (todo t) HP)
        as [Hd _].
      unfold release_array, acquire_flip in *. lia.
    + pose proof (zsum_slack_qk producer_qk1 (slot_count a ch_qk1)
                    (or_intror eq_refl) ltac:(lia)) as Hz.
      destruct (mma_partition_balance a prog_id (done t) (todo t) HP)
        as [_ Hd].
      unfold release_array, acquire_flip in *. lia.
  - intros t' idx ph rest Hnth' Htodo Hfull.
    rewrite Hnth in Hnth'. inversion Hnth'; subst t'.
    destruct (Hph (done t) idx ph rest) as [_ Hphase].
    { rewrite <- HP, Htodo. reflexivity. }
    apply (wait_blocked (acquire_flip c)) in Hfull.
    cbn [enabled]. rewrite Hphase, Hfull, Z.eqb_refl. reflexivity.
Qed.

Lemma producer_backpressure_witness :
  acquisitions ch_kv example_load_ahead = 3
  /\ releases example_args ch_kv example_load_ahead = 0
  /\ slot_count example_args ch_kv = 3
  /\ acquisitions ch_kv example_load_ahead
     <= releases example_args ch_kv example_load_ahead
        + slot_count example_args ch_kv
  /\ hd_error (todo (task_at 3 example_load_ahead))
     = Some (barrier_wait (consumer_release_kv, 0) 1 true)
  /\ enabled (bars example_load_ahead)
       (barrier_wait (consumer_release_kv, 0) 1 true) = false.
Proof.
  destruct (producer_backpressure example_args 3 example_load_ahead ch_kv)
    as [Hb Hw];
    [cbn; lia | cbn; lia | cbn; lia | cbn; lia
    | exact example_load_ahead_reachable |].
  split; [vm_compute; reflexivity|].
  split; [vm_compute; reflexivity|].
  split; [reflexivity|].
  split; [exact Hb|].
  split; [vm_compute; reflexivity|].
  apply (Hw (task_at 3 example_load_ahead) 0 1
            (tl (todo (task_at 3 example_load_ahead))));
    vm_compute; reflexivity.
Defined.

(** Program 3 of the example launch handles the tile of batch element 1,
    head 1, whose 129 keys take two key blocks. *)
Example example_load_program :
  map (fun o => match o with
                | barrier_wait b ph _ => Some (b, ph)
                | _ => None
                end)
      (filter (fun o => match o with barrier_wait _ _ _ => true | _ => false end)
              (load_partition example_args 3))
  = [ Some ((consumer_release_q0, 0), 1);
      Some ((consumer_release_kv, 0), 0);
      Some ((consumer_release_q1, 0), 1);
      Some ((consumer_release_kv, 1), 0);
      Some ((consumer_release_kv, 2), 0);
      Some ((consumer_release_kv, 0), 1) ].
Proof. vm_compute. reflexivity. Qed.

Example example_mma_flags :
  dots_into o0_buf (mma_partition example_args 3) = [false; true]
  /\ dots_into o1_buf (mma_partition example_args 3) = [false; true].
Proof. split; vm_compute; reflexivity. Qed.

(** In program 3 of the example launch the load partition can run fifteen
    operations before any slot is released: it has then taken the three K/V
    slots, and its next operation, the wait for slot 0 to be released, is
    not enabled. *)
Example example_load_blocks :
  exists m,
    exec_task_n 3 15 (init_machine example_args 3) = Some m
    /\ reachable example_args 3 m
    /\ acquisitions ch_kv m = 3
    /\ releases example_args ch_kv m = 0
    /\ exec_task 3 m = None
    /\ match nth_error (tasks m) 3 with
       | Some t => hd_error (todo t)
                   = Some (barrier_wait (consumer_release_kv, 0) 1 true)
       | None => False
       end.
Proof.
  assert (H : exists m,
             exec_task_n 3 15 (init_machine example_args 3) = Some m
             /\ acquisitions ch_kv m = 3
             /\ releases example_args ch_kv m = 0
             /\ exec_task 3 m = None
             /\ match nth_error (tasks m) 3 with
                | Some t => hd_error (todo t)
                            = Some (barrier_wait (consumer_release_kv, 0)
                                      1 true)
                | None => False
                end).
  { eexists. split; [vm_compute; reflexivity|]. vm_compute. repeat split. }
  destruct H as (m & E & H).
  exists m. split; [exact E|]. split; [|exact H].
  eapply exec_task_n_reachable; [apply reachable_init|exact E].
Qed.

(** *** The host wrapper *)

Lemma forward_raises (env : host_env) (x : forward_args) (o_alloc : mem)
    (staged : Z -> bool -> tile) :
  raises (gdpa_forward_tlx env x o_alloc staged)
  = raises (host_checks env x).
Proof.
  unfold gdpa_forward_tlx. destruct (host_checks env x) as [e | [bd act]];
    reflexivity.
Qed.

Lemma example_padded_checks :
  host_checks example_env example_padded = Returned (64, 0).
Proof. vm_compute. reflexivity. Qed.

(** C8, as stated, fails: the offsets of [example_padded] account for 166
    rows of a query tensor of 200 rows, and the call is launched. *)
Lemma forward_offsets_unchecked_counterexample :
  offsets_cover_rows example_padded = false
  /\ raises (gdpa_forward_tlx example_env example_padded (fun _ => 0%R)
               (fun _ _ _ _ => 0%R))
     = false.
Proof.
  split; [vm_compute; reflexivity|].
  rewrite forward_raises, example_padded_checks. reflexivity.
Qed.

(** C8, amended.  Before the launch the wrapper raises exactly when the
    head dimension of the query is not positive, the size given to
    [torch.empty] is missing or negative, the key has no heads, the number
    of query heads is not a multiple of the number of key heads, the
    quotient [G] of the two numbers of heads is zero (the query has no
    heads), or the activation name is not known; the values stored in the
    offset arrays are not read, so two calls that differ only in offset
    arrays of the same lengths pass or fail the checks alike. *)
Theorem forward_checks_ignore_offsets (env : host_env) (x : forward_args)
    (o_alloc o_alloc' : mem) (staged staged' : Z -> bool -> tile)
    (qo ko : list Z) :
  length qo = length (query_offset x) ->
  length ko = length (key_offset x) ->
  host_checks env (with_offsets x qo ko) = host_checks env x
  /\ raises (gdpa_forward_tlx env (with_offsets x qo ko) o_alloc' staged')
     = raises (gdpa_forward_tlx env x o_alloc staged)
  /\ (raises (gdpa_forward_tlx env x o_alloc staged) = true <->
      shape_2 (query x) <= 0
      \/ (use_start_end_offsets x = true
          /\ (total_num_objects x = None
              \/ exists n, total_num_objects x = Some n /\ n < 0))
      \/ (use_start_end_offsets x = false
          /\ (if broadcast_q x
              then (Z.of_nat (length (key_offset x)) - 1) * shape_0 (query x)
              else shape_0 (query x)) < 0)
      \/ shape_1 (key x) = 0
      \/ shape_1 (query x) mod shape_1 (key x) <> 0
      \/ shape_1 (query x) / shape_1 (key x) = 0
      \/ activation_string_to_int env (activation x) = None).
Proof.
  intros Hq Hk.
  assert (Hc : host_checks env (with_offsets x qo ko) = host_checks env x).
  { unfold host_checks, with_offsets.
    cbn [query key query_offset key_offset broadcast_q use_start_end_offsets
         total_num_objects activation].
    rewrite Hq, Hk. reflexivity. }
  split; [exact Hc|].
  split; [rewrite !forward_raises, Hc; reflexivity|].
  rewrite forward_raises.
  unfold host_checks, next_power_of_2.
  destruct (Z.leb_spec (shape_2 (query x)) 0) as [Hd|Hd].
  { cbn [raises]. split; [intros _; left; exact Hd|reflexivity]. }
  unfold torch_empty_check.
  destruct (use_start_end_offsets x) eqn:Euse.
  - destruct (total_num_objects x) as [n|] eqn:Etot.
    + destruct (Z.ltb_spec n 0) as [Hn|Hn].
      { cbn [raises]. split; [|reflexivity]. intros _. right. left.
        split; [reflexivity|]. right. exists n. split; [reflexivity|lia]. }
      destruct (Z.eqb_spec (shape_1 (key x)) 0) as [Hk0|Hk0].
      { cbn [raises]. split; [|reflexivity]. intros _. tauto. }
      destruct (Z.eqb_spec (shape_1 (query x) mod shape_1 (key x)) 0)
        as [Hm|Hm]; cbn [negb].
      * cbv zeta.
        destruct (Z.eqb_spec (shape_1 (query x) / shape_1 (key x)) 0)
          as [Hg|Hg].
        { cbn [raises]. split; [|reflexivity]. intros _. tauto. }
        destruct (activation_string_to_int env (activation x)) as [act|];
          cbn [raises].
        -- split; [discriminate|].
           intros [H|[[_ [H|(n' & H & Hn')]]|[[H _]|[H|[H|[H|H]]]]]];
             try discriminate; try lia; try contradiction.
           inversion H; subst; lia.
        -- split; [|reflexivity]. intros _. tauto.
      * cbn [raises]. split; [|reflexivity]. intros _. tauto.
    + cbn [raises]. split; [|reflexivity]. intros _. right. left.
      split; [reflexivity|]. left. reflexivity.
  - set (rows := if broadcast_q x then _ else _).
    destruct (Z.ltb_spec rows 0) as [Hn|Hn].
    { cbn [raises]. split; [|reflexivity]. intros _. right. right. left.
      split; [reflexivity|]. subst rows.
      destruct (broadcast_q x); exact Hn. }
    destruct (Z.eqb_spec (shape_1 (key x)) 0) as [Hk0|Hk0].
    { cbn [raises]. split; [|reflexivity]. intros _. tauto. }
    destruct (Z.eqb_spec (shape_1 (query x) mod shape_1 (key x)) 0)
      as [Hm|Hm]; cbn [negb].
    + cbv zeta.
      destruct (Z.eqb_spec (shape_1 (query x) / shape_1 (key x)) 0)
        as [Hg|Hg].
      { cbn [raises]. split; [|reflexivity]. intros _. tauto. }
      destruct (activation_string_to_int env (activation x)) as [act|];
        cbn [raises].
      * split; [discriminate|].
        intros [H|[[H _]|[[_ H]|[H|[H|[H|H]]]]]];
          try discriminate; try lia; try contradiction.
        subst rows. destruct (broadcast_q x); lia.
      * split; [|reflexivity]. intros _. tauto.
    + cbn [raises]. split; [|reflexivity]. intros _. tauto.
Qed.

Lemma forward_checks_ignore_offsets_witness :
  host_checks example_env (with_offsets example_padded [0; 37; 200] [0; 5; 9])
  = host_checks example_env example_padded
  /\ raises (gdpa_forward_tlx example_env
               (with_offsets example_padded [0; 37; 200] [0; 5; 9])
               (fun _ => 1%R) (fun _ _ _ _ => 1%R))
     = raises (gdpa_forward_tlx example_env example_padded
                 (fun _ => 0%R) (fun _ _ _ _ => 0%R))
  /\ (raises (gdpa_forward_tlx example_env example_padded
                (fun _ => 0%R) (fun _ _ _ _ => 0%R)) = true <->
      shape_2 (query example_padded) <= 0
      \/ (use_start_end_offsets example_padded = true
          /\ (total_num_objects example_padded = None
              \/ exists n, total_num_objects example_padded = Some n /\ n < 0))
      \/ (use_start_end_offsets example_padded = false
          /\ (if broadcast_q example_padded
              then (Z.of_nat (length (key_offset example_padded)) - 1)
                   * shape_0 (query example_padded)
              else shape_0 (query example_padded)) < 0)
      \/ shape_1 (key example_padded) = 0
      \/ shape_1 (query example_padded) mod shape_1 (key example_padded) <> 0
      \/ shape_1 (query example_padded) / shape_1 (key example_padded) = 0
      \/ activation_string_to_int example_env (activation example_padded)
         = None).
Proof.
  apply (forward_checks_ignore_offsets example_env example_padded
           (fun _ => 0%R) (fun _ => 1%R)
           (fun _ _ _ _ => 0%R) (fun _ _ _ _ => 1%R)
           [0; 37; 200] [0; 5; 9]); reflexivity.
Defined.

(** *** What a launch leaves in the output storage *)

Lemma fold_stores_outside (stores : list store_action) (addr : Z) :
  forall out,
    existsb (fun s => store_covers (st_geom s) addr) stores = false ->
    fold_left apply_store stores out addr = out addr.
Proof.
  induction stores as [|s r IH]; intros out H; [reflexivity|].
  cbn [existsb] in H. apply orb_false_elim in H as [Hs Hr].
  cbn [fold_left]. rewrite (IH _ Hr). unfold apply_store. now rewrite Hs.
Qed.

Lemma map_flat_map {A B C : Type} (f : B -> C) (g : A -> list B)
    (l : list A) :
  map f (flat_map g l) = flat_map (fun x => map f (g x)) l.
Proof.
  induction l as [|x l IH]; [reflexivity|].
  cbn [flat_map]. now rewrite map_app, IH.
Qed.

Lemma tile_stores_geom (staged : Z -> bool -> tile) (a : kernel_args)
    (t : Z) :
  map st_geom (tile_stores staged a t) = tile_footprints a t.
Proof.
  unfold tile_stores, tile_footprints.
  destruct (tile_active a t); reflexivity.
Qed.

Lemma kernel_stores_geom (staged : Z -> bool -> tile) (a : kernel_args) :
  map st_geom (kernel_stores staged a) = kernel_footprints a.
Proof.
  unfold kernel_stores, kernel_footprints. rewrite map_flat_map.
  apply flat_map_ext. intros u. rewrite map_flat_map.
  apply flat_map_ext. intros t. apply tile_stores_geom.
Qed.

Lemma kernel_stores_cover (staged : Z -> bool -> tile) (a : kernel_args)
    (addr : Z) :
  existsb (fun s => store_covers (st_geom s) addr) (kernel_stores staged a)
  = kernel_writes a addr.
Proof.
  unfold kernel_writes. rewrite <- (kernel_stores_geom staged a).
  induction (kernel_stores staged a) as [|s r IH]; [reflexivity|].
  cbn [map existsb]. now rewrite IH.
Qed.



Example example_padded_row_165_written :
  kernel_writes (launch_args example_env example_padded 64 0)
                (165 * 128 + 127) = true
  /\ kernel_writes (launch_args example_env example_padded 64 0) 0 = true.
Proof. split; vm_compute; reflexivity. Qed.



(** *** Independence from [qk_scale] *)

Lemma run_tiles_ext {S : Type} (body1 body2 : Z -> S -> list op * S)
    (tiles : list Z) :
  (forall t st, body1 t st = body2 t st) ->
  forall st, run_tiles body1 tiles st = run_tiles body2 tiles st.
Proof.
  intros H. induction tiles as [|t ts IH]; intros st; [reflexivity|].
  cbn [run_tiles]. rewrite H. destruct (body2 t st) as [ops st'].
  now rewrite IH.
Qed.










(** *** The rows of the sequences are stored *)

Lemma to_int32_small (x : Z) : 0 <= x < 2 ^ 31 -> to_int32 x = x.
Proof.
  intros H. unfold to_int32. rewrite Z.mod_small; lia.
Qed.

Lemma quot_rem_decode (q r n : Z) :
  0 <= q -> 0 <= r < n ->
  Z.quot (q * n + r) n = q /\ Z.rem (q * n + r) n = r.
Proof.
  intros Hq Hr.
  assert (0 <= q * n) by nia.
  rewrite Z.quot_div_nonneg, Z.rem_mod_nonneg by lia.
  split.
  - symmetry. apply (Z.div_unique _ _ _ r); lia.
  - symmetry. apply (Z.mod_unique _ _ q); lia.
Qed.

Lemma in_grid_programs (a : kernel_args) (u : Z) :
  0 <= u < num_progs a -> In u (grid_programs a).
Proof.
  intros Hu. unfold grid_programs. apply in_map_iff.
  exists (Z.to_nat u). split; [lia|]. apply in_seq. lia.
Qed.

(** Every element of a row that lies inside a sequence, within the first
    [N_CTX] rows of it, is written by the launch. *)
Lemma kernel_writes_sequence_rows (a : kernel_args) (z h i c : Z) :
  SORT_BY_SEQ_LENGTH a = false ->
  0 < num_progs a -> 0 < N_CTX a ->
  0 < BLOCK_M a -> 2 * (BLOCK_M a / 2) = BLOCK_M a ->
  0 <= z < Z_ a -> 0 <= h < H_ a ->
  stride_oh a = HEAD_DIM a -> 0 < HEAD_DIM a <= BLOCK_D a ->
  HEAD_DIM a * H_ a < 2 ^ 31 ->
  let begin_ := tl_load (Q_offsets a) z in
  let end_ := tl_load (Q_offsets a) (z + 1) in
  0 <= begin_ -> end_ < 2 ^ 31 ->
  begin_ <= i < end_ -> i - begin_ < N_CTX a ->
  0 <= c < HEAD_DIM a ->
  kernel_writes a (i * (HEAD_DIM a * H_ a) + (h * HEAD_DIM a + c)) = true.
Proof.
  intros Hsort Hp HN HB Heven Hz Hh Hso HD HW begin_ end_ Hb0 He Hi HiN Hc.
  set (n := n_tile_num (N_CTX a) (BLOCK_M a)).
  pose proof (cdiv_ceiling (N_CTX a) (BLOCK_M a) ltac:(lia) HB) as Hn.
  fold (n_tile_num (N_CTX a) (BLOCK_M a)) in Hn. fold n in Hn.
  set (pid := (i - begin_) / BLOCK_M a).
  pose proof (Z.div_mod (i - begin_) (BLOCK_M a) ltac:(lia)) as Hdm.
  pose proof (Z.mod_pos_bound (i - begin_) (BLOCK_M a) HB) as Hmb.
  fold pid in Hdm.
  assert (Hpid0 : 0 <= pid) by (apply Z.div_pos; lia).
  assert (Hpidn : pid < n) by nia.
  set (t := (z * H_ a + h) * n + pid).
  assert (Hzh : 0 <= z * H_ a + h) by nia.
  destruct (quot_rem_decode (z * H_ a + h) pid n Hzh ltac:(lia)) as [Dq Dr].
  destruct (quot_rem_decode z h (H_ a) ltac:(lia) Hh) as [Dz Dh].
  fold t in Dq, Dr.
  assert (Hinfo : begin_q (_compute_qlen a t) = begin_
                  /\ end_q (_compute_qlen a t) = end_
                  /\ qlen (_compute_qlen a t) = Z.min (end_ - begin_) (N_CTX a)).
  { unfold _compute_qlen. fold n. rewrite Dq, Dz, Hsort.
    cbn [begin_q end_q qlen]. repeat split. }
  destruct Hinfo as (Ibq & Ieq & Iql).
  assert (Hsm : start_m_of a t = pid) by (unfold start_m_of; fold n; exact Dr).
  assert (Hoh : off_h_of a t = h)
    by (unfold off_h_of; fold n; rewrite Dq; exact Dh).
  assert (Hact : tile_active a t = true).
  { unfold tile_active. rewrite Hsm, Iql. apply Z.ltb_lt. lia. }
  (* the tile belongs to a program of the grid *)
  assert (Htot : 0 <= t < kernel_total_tiles a).
  { unfold kernel_total_tiles, total_tiles. fold n. subst t.
    split; [nia|].
    assert (z * H_ a + h + 1 <= Z_ a * H_ a) by nia.
    nia. }
  set (u := t mod num_progs a).
  pose proof (Z.mod_pos_bound t (num_progs a) Hp) as Hu. fold u in Hu.
  assert (Hin : In t (prog_tiles a u)).
  { unfold prog_tiles. apply in_unit_tiles; try lia. }
  (* the half of the tile that holds the row *)
  set (W := HEAD_DIM a * H_ a) in *.
  set (addr := i * W + (h * HEAD_DIM a + c)).
  assert (HcolW : 0 <= h * HEAD_DIM a + c < W) by (subst W; nia).
  assert (Hdiv : addr / W = i)
    by (symmetry; apply (Z.div_unique _ _ _ (h * HEAD_DIM a + c)); lia).
  assert (Hmod : addr mod W = h * HEAD_DIM a + c)
    by (symmetry; apply (Z.mod_unique _ _ i); lia).
  assert (Haddr0 : 0 <= addr) by (subst addr; nia).
  set (row0 := begin_ + pid * BLOCK_M a).
  assert (Hrow0 : 0 <= row0 <= i) by (subst row0; nia).
  unfold kernel_writes, kernel_footprints.
  apply existsb_exists.
  assert (Hfp : tile_footprints a t
                = [ {| st_shape0 := to_int32 end_; st_width := W;
                       st_block0 := BLOCK_M a / 2; st_block1 := BLOCK_D a;
                       st_row := to_int32 row0;
                       st_col := to_int32 (h * HEAD_DIM a) |};
                    {| st_shape0 := to_int32 end_; st_width := W;
                       st_block0 := BLOCK_M a / 2; st_block1 := BLOCK_D a;
                       st_row := to_int32 (row0 + BLOCK_M a / 2);
                       st_col := to_int32 (h * HEAD_DIM a) |} ]).
  { unfold tile_footprints. rewrite Hact, Ibq, Ieq, Hsm, Hoh, Hso.
    reflexivity. }
  assert (Hcol32 : to_int32 (h * HEAD_DIM a) = h * HEAD_DIM a)
    by (apply to_int32_small; lia).
  assert (Hend32 : to_int32 end_ = end_) by (apply to_int32_small; lia).
  destruct (Z.lt_ge_cases (i - row0) (BLOCK_M a / 2)) as [Hlo|Hhi].
  - eexists. split.
    + apply in_flat_map. exists u. split; [apply in_grid_programs; lia|].
      apply in_flat_map. exists t. split; [exact Hin|].
      rewrite Hfp. left. reflexivity.
    + unfold store_covers.
      cbn [st_shape0 st_width st_block0 st_block1 st_row st_col].
      fold addr. rewrite Hdiv, Hmod, Hcol32, Hend32.
      rewrite (to_int32_small row0) by lia.
      repeat (apply andb_true_intro; split);
        first [apply Z.ltb_lt | apply Z.leb_le]; lia.
  - eexists. split.
    + apply in_flat_map. exists u. split; [apply in_grid_programs; lia|].
      apply in_flat_map. exists t. split; [exact Hin|].
      rewrite Hfp. right. left. reflexivity.
    + unfold store_covers.
      cbn [st_shape0 st_width st_block0 st_block1 st_row st_col].
      fold addr. rewrite Hdiv, Hmod, Hcol32, Hend32.
      rewrite (to_int32_small (row0 + BLOCK_M a / 2)) by lia.
      subst row0.
      repeat (apply andb_true_intro; split);
        first [apply Z.ltb_lt | apply Z.leb_le]; lia.
Qed.
(** *** The forward kernel against the reference of the specification *)

Lemma sum_seq_zero (f : nat -> R) (n : nat) :
  forall s,
    (forall d, (s <= d < s + n)%nat -> f d = 0%R) ->
    fold_right Rplus 0%R (map f (seq s n)) = 0%R.
Proof.
  induction n as [|n IH]; intros s H; [reflexivity|].
  cbn [seq map fold_right]. rewrite (H s) by lia.
  rewrite (IH (S s)); [lra|]. intros d Hd. apply H. lia.
Qed.

Lemma sum_seq_single (f : nat -> R) (j : nat) (n : nat) :
  forall s,
    (s <= j < s + n)%nat ->
    (forall d, (s <= d < s + n)%nat -> d <> j -> f d = 0%R) ->
    fold_right Rplus 0%R (map f (seq s n)) = f j.
Proof.
  induction n as [|n IH]; intros s Hj H; [lia|].
  cbn [seq map fold_right].
  destruct (Nat.eq_dec s j) as [->|Hne].
  - rewrite sum_seq_zero; [lra|]. intros d Hd. apply H; lia.
  - rewrite (H s) by lia. rewrite (IH (S s)); [lra|lia|].
    intros d Hd Hdj. apply H; lia.
Qed.

(** A matmul whose products vanish but for one inner index. *)
Lemma matmul_single (K : nat) (x y : tile) (r c : Z) (j : nat) :
  (j < K)%nat ->
  (forall d, (d < K)%nat -> d <> j ->
     (x r (Z.of_nat d) * y (Z.of_nat d) c)%R = 0%R) ->
  matmul K x y r c = (x r (Z.of_nat j) * y (Z.of_nat j) c)%R.
Proof.
  intros Hj H. unfold matmul.
  apply (sum_seq_single
           (fun d => (x r (Z.of_nat d) * y (Z.of_nat d) c)%R) j K 0%nat).
  - lia.
  - intros d Hd. apply H. lia.
Qed.

Lemma example_foreign_checks :
  host_checks example_env example_foreign_keys = Returned (128, 3).
Proof. vm_compute. reflexivity. Qed.

(** The accumulators of tile 0 of the example. *)
Lemma example_foreign_values :
  let d := forward_data example_foreign_keys in
  let q0 := tma_load (Q_data d) 1 128 128 0 0 in
  let q1 := tma_load (Q_data d) 1 128 128 128 0 in
  let k_t := tma_load (K_data d) 2 128 128 0 0 in
  let v_t := tma_load (V_data d) 2 128 128 0 0 in
  fwd_tile_values (matmul 128) example_foreign_launch d 0
  = Some (matmul 128 (fwd_activation_store 3 128 (matmul 128 q0 k_t)) v_t,
          matmul 128 (fwd_activation_store 3 128 (matmul 128 q1 k_t)) v_t).
Proof. reflexivity. Qed.

Lemma example_foreign_data :
  forward_data example_foreign_keys
  = {| Q_data := fun addr => if addr =? 0 then 1%R else 0%R;
       K_data := fun addr =>
         if (addr =? 1) || (addr =? 128) then 1%R else 0%R;
       V_data := fun addr => if addr =? 128 then 1%R else 0%R |}.
Proof. reflexivity. Qed.

Lemma example_foreign_score :
  let d := forward_data example_foreign_keys in
  matmul 128 (tma_load (Q_data d) 1 128 128 0 0)
    (tma_load (K_data d) 2 128 128 0 0) 0 1 = 1%R.
Proof.
  cbv zeta. rewrite example_foreign_data. cbn [Q_data K_data].
  rewrite (matmul_single 128 _ _ 0 1 0%nat); [|lia|].
  - unfold tma_load. cbn. lra.
  - intros n Hn Hne. unfold tma_load at 1.
    destruct (_ && _); [|lra].
    destruct (Z.eqb_spec ((0 + 0) * 128 + (0 + Z.of_nat n)) 0); [lia|lra].
Qed.

Lemma example_foreign_accumulator :
  let d := forward_data example_foreign_keys in
  let q0 := tma_load (Q_data d) 1 128 128 0 0 in
  let k_t := tma_load (K_data d) 2 128 128 0 0 in
  let v_t := tma_load (V_data d) 2 128 128 0 0 in
  matmul 128 (fwd_activation_store 3 128 (matmul 128 q0 k_t)) v_t 0 0
  = fast_gelu 1.
Proof.
  cbv zeta. rewrite (matmul_single 128 _ _ 0 0 1%nat); [|lia|].
  - rewrite fwd_activation_store_elem.
    change (Z.of_nat 1) with 1. rewrite example_foreign_score.
    rewrite fwd_activation_half_formula, fast_gelu_formula.
    rewrite example_foreign_data. cbn [V_data].
    unfold tma_load. cbn. lra.
  - intros n Hn Hne. rewrite example_foreign_data. cbn [V_data].
    unfold tma_load at 3.
    destruct (Z.leb_spec 0 (0 + Z.of_nat n));
      destruct (Z.ltb_spec (0 + Z.of_nat n) 2); cbn [andb]; try lra.
    destruct (Z.eqb_spec ((0 + Z.of_nat n) * 128 + (0 + 0)) 128);
      [lia|].
    destruct (_ && _); lra.
Qed.

(** Element 0 of the output, row 0 of the first sequence, is written by
    the first store of tile 0 and by no other store of the launch. *)
Lemma example_foreign_output (staged : Z -> bool -> tile) (o_alloc : mem) :
  kernel_output staged example_foreign_launch o_alloc 0 = staged 0 false 0 0.
Proof. vm_compute. reflexivity. Qed.

Lemma example_foreign_reference (act : R -> R) :
  spec_reference act example_foreign_keys 0 0 0 0 = 0%R.
Proof.
  unfold spec_reference, sum_range at 1.
  cbn [example_foreign_keys key_offset key query value shape_1 shape_2
       t_shape fst snd].
  change (Z.to_nat (nth (Z.to_nat (0 + 1)) [0; 1; 2] 0
                    - nth (Z.to_nat 0) [0; 1; 2] 0)) with 1%nat.
  cbn [seq map fold_right].
  unfold tensor_at at 3. cbn. lra.
Qed.

Lemma staged_accumulators_in_order (dot : tile -> tile -> tile)
    (a : kernel_args) (d : kernel_data) :
  staged_in_order dot a d (staged_accumulators dot a d).
Proof.
  intros t o0 o1 E r c. unfold staged_accumulators. rewrite E.
  split; reflexivity.
Qed.

(** C1 fails on [example_foreign_keys], whose offsets are non-decreasing
    and account for every row, without window and without causal mask, at
    row 0, which lies inside the sequence of the first batch element.
    The call is launched; the block of keys and values that the tile of
    the first sequence loads is clipped at the end of the packed tensor
    only, so it holds the row of the second sequence, and no key row is
    masked.  In a run whose hand-offs are in order the accumulator element
    for row 0 and column 0 is [fast_gelu 1], above 1, and that is what the
    returned tensor holds there; the reference is 0 there whatever the
    activation it applies, since the only value row of the first sequence
    is zero.  The two are not within the tolerance. *)
Theorem forward_reads_foreign_keys :
  offsets_sorted (query_offset example_foreign_keys) = true
  /\ offsets_sorted (key_offset example_foreign_keys) = true
  /\ offsets_cover_rows example_foreign_keys = true
  /\ nth 0 (query_offset example_foreign_keys) 0 <= 0
     < nth 1 (query_offset example_foreign_keys) 0
  /\ window_size example_foreign_keys = None
  /\ is_causal example_foreign_keys = false
  /\ host_checks example_env example_foreign_keys = Returned (128, 3)
  /\ (exists o0 o1,
        fwd_tile_values (matmul 128) example_foreign_launch
          (forward_data example_foreign_keys) 0 = Some (o0, o1)
        /\ o0 0 0 = fast_gelu 1 /\ (1 < fast_gelu 1)%R)
  /\ staged_in_order (matmul 128) example_foreign_launch
       (forward_data example_foreign_keys)
       (staged_accumulators (matmul 128) example_foreign_launch
          (forward_data example_foreign_keys))
  /\ forall (act : R -> R) (o_alloc : mem) (staged : Z -> bool -> tile),
       staged_in_order (matmul 128) example_foreign_launch
         (forward_data example_foreign_keys) staged ->
       spec_reference act example_foreign_keys 0 0 0 0 = 0%R
       /\ match gdpa_forward_tlx example_env example_foreign_keys
                  o_alloc staged with
          | Returned o =>
              o 0 = fast_gelu 1
              /\ ~ spec_within_tolerance (o 0)
                     (spec_reference act example_foreign_keys 0 0 0 0)
          | Raised _ => False
          end.
Proof.
  assert (Hg : (1 < fast_gelu 1)%R).
  { rewrite fast_gelu_formula.
    pose proof (tanh_pos (0.0356774081 * (1 * 1 * 1) + 0.7978845608 * 1)%R
                  ltac:(lra)).
    lra. }
  do 3 (split; [reflexivity|]).
  split; [cbn; lia|].
  do 3 (split; [reflexivity|]).
  split.
  - eexists. eexists. split; [apply example_foreign_values|].
    split; [apply example_foreign_accumulator|exact Hg].
  - split; [apply staged_accumulators_in_order|].
    intros act o_alloc staged Hs.
    split; [apply example_foreign_reference|].
    unfold gdpa_forward_tlx. rewrite example_foreign_checks.
    fold example_foreign_launch.
    rewrite example_foreign_output, example_foreign_reference.
    destruct (Hs 0 _ _ example_foreign_values 0 0) as [E _].
    rewrite E. unfold to_dtype. rewrite example_foreign_accumulator.
    split; [reflexivity|].
    unfold spec_within_tolerance. rewrite Rminus_0_r, Rabs_R0.
    rewrite Rabs_pos_eq by lra. lra.
Qed.
(* ================================================================== *)
(** ** Further properties *)
(* ================================================================== *)

(** *** Tile coordinates *)

Lemma n_tile_num_pos (a : kernel_args) :
  0 < N_CTX a -> 0 < BLOCK_M a -> 1 <= n_tile_num (N_CTX a) (BLOCK_M a).
Proof.
  intros HN HB.
  pose proof (cdiv_ceiling (N_CTX a) (BLOCK_M a) ltac:(lia) HB) as H.
  unfold n_tile_num. nia.
Qed.

Lemma tile_decode_range (a : kernel_args) (t : Z) :
  0 < N_CTX a -> 0 < BLOCK_M a -> 0 < H_ a -> 0 <= Z_ a ->
  0 <= t < kernel_total_tiles a ->
  let n := n_tile_num (N_CTX a) (BLOCK_M a) in
  0 <= off_z_of a t < Z_ a /\ 0 <= off_h_of a t < H_ a
  /\ 0 <= start_m_of a t < n
  /\ tile_of a (off_z_of a t) (off_h_of a t) (start_m_of a t) = t.
Proof.
  intros HN HB HH HZ Ht n.
  pose proof (n_tile_num_pos a HN HB) as Hn. fold n in Hn.
  unfold kernel_total_tiles, total_tiles in Ht. fold n in Ht.
  unfold off_z_of, off_h_of, start_m_of, tile_of. fold n.
  assert (Hq : 0 <= t / n) by (apply Z.div_pos; lia).
  rewrite (Z.quot_div_nonneg t n), (Z.rem_mod_nonneg t n) by lia.
  rewrite (Z.quot_div_nonneg (t / n)), (Z.rem_mod_nonneg (t / n)) by lia.
  pose proof (Z.div_mod t n ltac:(lia)) as E1.
  pose proof (Z.mod_pos_bound t n ltac:(lia)) as B1.
  pose proof (Z.div_mod (t / n) (H_ a) ltac:(lia)) as E2.
  pose proof (Z.mod_pos_bound (t / n) (H_ a) HH) as B2.
  assert (Hq2 : 0 <= t / n / H_ a) by (apply Z.div_pos; lia).
  assert (Hlt : t / n < Z_ a * H_ a)
    by (apply Z.div_lt_upper_bound; nia).
  assert (Hlt2 : t / n / H_ a < Z_ a)
    by (apply Z.div_lt_upper_bound; nia).
  repeat split; lia.
Qed.

Lemma tile_of_decode (a : kernel_args) (z h pid : Z) :
  0 < N_CTX a -> 0 < BLOCK_M a -> 0 < H_ a ->
  let n := n_tile_num (N_CTX a) (BLOCK_M a) in
  0 <= z < Z_ a -> 0 <= h < H_ a -> 0 <= pid < n ->
  0 <= tile_of a z h pid < kernel_total_tiles a
  /\ off_z_of a (tile_of a z h pid) = z
  /\ off_h_of a (tile_of a z h pid) = h
  /\ start_m_of a (tile_of a z h pid) = pid.
Proof.
  intros HN HB HH n Hz Hh Hp.
  assert (Hzh : 0 <= z * H_ a + h) by nia.
  destruct (quot_rem_decode (z * H_ a + h) pid n Hzh Hp) as [Dq Dr].
  destruct (quot_rem_decode z h (H_ a) ltac:(lia) Hh) as [Dz Dh].
  unfold off_z_of, off_h_of, start_m_of, tile_of, kernel_total_tiles,
    total_tiles.
  fold n. rewrite Dq, Dr, Dz, Dh.
  repeat split; try nia.
  assert (z * H_ a + h + 1 <= Z_ a * H_ a) by nia. nia.
Qed.

(** X1. A tile index below [total_tiles] decodes to a batch element, a
    head and a row block inside their ranges and is recovered from them;
    every such triple is the decoding of one tile index below
    [total_tiles]; and the batch element is the one whose offsets
    [_compute_qlen] loads. *)
Theorem tile_index_round_trip (a : kernel_args) :
  0 < N_CTX a -> 0 < BLOCK_M a -> 0 < H_ a -> 0 <= Z_ a ->
  let n := n_tile_num (N_CTX a) (BLOCK_M a) in
  (forall t, 0 <= t < kernel_total_tiles a ->
     0 <= off_z_of a t < Z_ a /\ 0 <= off_h_of a t < H_ a
     /\ 0 <= start_m_of a t < n
     /\ tile_of a (off_z_of a t) (off_h_of a t) (start_m_of a t) = t
     /\ begin_q (_compute_qlen a t)
        = tl_load (Q_offsets a)
            (if SORT_BY_SEQ_LENGTH a
             then tl_load (seq_index a) (off_z_of a t)
             else off_z_of a t))
  /\ (forall z h pid,
        0 <= z < Z_ a -> 0 <= h < H_ a -> 0 <= pid < n ->
        0 <= tile_of a z h pid < kernel_total_tiles a
        /\ off_z_of a (tile_of a z h pid) = z
        /\ off_h_of a (tile_of a z h pid) = h
        /\ start_m_of a (tile_of a z h pid) = pid).
Proof.
  intros HN HB HH HZ n. split.
  - intros t Ht.
    destruct (tile_decode_range a t HN HB HH HZ Ht) as (A & B & C & D).
    repeat split; try tauto.
  - intros z h pid Hz Hh Hp. now apply tile_of_decode.
Qed.

Lemma tile_index_round_trip_witness :
  let a := example_args in
  let n := n_tile_num (N_CTX a) (BLOCK_M a) in
  (forall t, 0 <= t < kernel_total_tiles a ->
     0 <= off_z_of a t < Z_ a /\ 0 <= off_h_of a t < H_ a
     /\ 0 <= start_m_of a t < n
     /\ tile_of a (off_z_of a t) (off_h_of a t) (start_m_of a t) = t
     /\ begin_q (_compute_qlen a t)
        = tl_load (Q_offsets a)
            (if SORT_BY_SEQ_LENGTH a
             then tl_load (seq_index a) (off_z_of a t)
             else off_z_of a t))
  /\ (forall z h pid,
        0 <= z < Z_ a -> 0 <= h < H_ a -> 0 <= pid < n ->
        0 <= tile_of a z h pid < kernel_total_tiles a
        /\ off_z_of a (tile_of a z h pid) = z
        /\ off_h_of a (tile_of a z h pid) = h
        /\ start_m_of a (tile_of a z h pid) = pid).
Proof. apply (tile_index_round_trip example_args); cbn; lia. Defined.

(** *** Grid of the forward launch *)

Lemma cdiv_floor (x d : Z) : 0 <= x -> 0 < d -> cdiv x d = (x + d - 1) / d.
Proof. intros. unfold cdiv. apply Z.quot_div_nonneg; lia. Qed.

Lemma unit_tiles_head (total p u : Z) :
  0 <= total -> 0 < p -> 0 <= u < p -> u < total ->
  1 <= tiles_per_sm total p u /\ In u (unit_tiles total p u).
Proof.
  intros Ht Hp Hu Hlt.
  assert (Hin : In u (unit_tiles total p u)).
  { apply in_unit_tiles; try lia. split; [lia|]. apply Z.mod_small. lia. }
  split; [|exact Hin].
  unfold unit_tiles, range_len in Hin.
  destruct (Z.to_nat (tiles_per_sm total p u)) eqn:E; [destruct Hin|]. lia.
Qed.

(** X2. The grid [grid_tma_persistent] gives the forward launch is the
    smaller of [NUM_SMS] (a million when [get_num_sms] gives nothing) and
    the number of tiles, so no program of the grid is idle: each one runs
    at least one tile, its own index first; and when the tiles do not
    outnumber [NUM_SMS] each program runs exactly one. *)
Theorem launch_grid_no_idle_program (env : host_env) (x : forward_args)
    (bd act : Z) :
  let a := launch_args env x bd act in
  let NUM_SMS := match get_num_sms env with
                 | Some n => if n =? 0 then 1000000 else n
                 | None => 1000000
                 end in
  0 <= max_seq_len_q x ->
  (forall n, get_num_sms env = Some n -> 0 <= n) ->
  0 < kernel_total_tiles a ->
  num_progs a = Z.min NUM_SMS (kernel_total_tiles a)
  /\ 0 < num_progs a
  /\ (forall u, 0 <= u < num_progs a ->
        1 <= tiles_per_sm (kernel_total_tiles a) (num_progs a) u
        /\ In u (prog_tiles a u))
  /\ (kernel_total_tiles a <= NUM_SMS ->
      forall u, 0 <= u < num_progs a -> prog_tiles a u = [u]).
Proof.
  intros a NUM_SMS Hq Hsms Htot.
  assert (HS : 0 < NUM_SMS).
  { subst NUM_SMS. destruct (get_num_sms env) as [n|] eqn:E; [|lia].
    specialize (Hsms n eq_refl). destruct (Z.eqb_spec n 0); lia. }
  assert (Hg : num_progs a = Z.min NUM_SMS (kernel_total_tiles a)).
  { unfold kernel_total_tiles, total_tiles, n_tile_num.
    change (N_CTX a) with (max_seq_len_q x). change (BLOCK_M a) with 256.
    rewrite cdiv_floor by lia. reflexivity. }
  assert (Hp : 0 < num_progs a) by lia.
  split; [exact Hg|]. split; [exact Hp|]. split.
  - intros u Hu. unfold prog_tiles. apply unit_tiles_head; lia.
  - intros Hle u Hu. unfold prog_tiles, unit_tiles, range_len.
    assert (E : num_progs a = kernel_total_tiles a) by lia.
    rewrite tiles_per_sm_floor by lia.
    rewrite E, Z.div_same, Z.mod_same by lia.
    destruct (Z.ltb_spec u 0); [lia|]. reflexivity.
Qed.

Lemma launch_grid_no_idle_program_witness :
  let a := launch_args example_env example_padded 64 0 in
  num_progs a = Z.min 148 (kernel_total_tiles a)
  /\ 0 < num_progs a
  /\ (forall u, 0 <= u < num_progs a ->
        1 <= tiles_per_sm (kernel_total_tiles a) (num_progs a) u
        /\ In u (prog_tiles a u))
  /\ (kernel_total_tiles a <= 148 ->
      forall u, 0 <= u < num_progs a -> prog_tiles a u = [u]).
Proof.
  apply (launch_grid_no_idle_program example_env example_padded 64 0).
  - cbn. lia.
  - intros n E. inversion E. lia.
  - vm_compute. reflexivity.
Defined.

(** *** Helpers of the backward kernel *)

Lemma zsum_const_nat (c : Z) (n : nat) :
  zsum (fun _ => c) (Z.of_nat n) = Z.of_nat n * c.
Proof.
  induction n as [|n IH]; [reflexivity|]. rewrite zsum_S, IH. lia.
Qed.

Lemma zsum_below_nat (r : Z) (n : nat) :
  0 <= r <= Z.of_nat n ->
  zsum (fun s => if s <? r then 1 else 0) (Z.of_nat n) = r.
Proof.
  induction n as [|n IH]; intros Hr.
  - change (Z.of_nat 0) with 0 in *. unfold zsum. cbn. lia.
  - rewrite zsum_S. destruct (Z.ltb_spec (Z.of_nat n) r).
    + assert (r = Z.of_nat (S n)) by lia. subst r.
      rewrite (zsum_ext_nat _ (fun _ => 1)).
      * rewrite zsum_const_nat. lia.
      * intros s Hs. destruct (Z.ltb_spec s (Z.of_nat (S n))); lia.
    + rewrite IH by lia. lia.
Qed.

Lemma tiles_per_sm_sum (total p : Z) :
  0 <= total -> 0 < p ->
  zsum (fun u => tiles_per_sm total p u) p = total.
Proof.
  intros Ht Hp.
  pose proof (Z.div_mod total p ltac:(lia)) as E.
  pose proof (Z.mod_pos_bound total p Hp) as B.
  set (f := fun u => tiles_per_sm total p u).
  set (g := fun u => total / p + (if u <? total mod p then 1 else 0)).
  rewrite <- (Z2Nat.id p) by lia.
  rewrite (zsum_ext_nat f g).
  - subst g. rewrite zsum_add_nat, zsum_const_nat, zsum_below_nat by lia.
    rewrite Z2Nat.id by lia. lia.
  - intros u _. apply tiles_per_sm_floor; lia.
Qed.

Lemma cdiv_constexpr_ceiling (x d : Z) :
  0 < d -> x <= cdiv_constexpr x d * d < x + d.
Proof.
  intros Hd. unfold cdiv_constexpr.
  pose proof (Z.div_mod (x + d - 1) d ltac:(lia)).
  pose proof (Z.mod_pos_bound (x + d - 1) d Hd). nia.
Qed.

(** X3. [bwd_caculate_tile_num] takes as many tiles per batch element and
    head as cover both the keys in blocks of [BLOCK_N1] and the queries in
    blocks of [BLOCK_M2]; the counts it gives the programs add up to the
    number of tiles, and a program never gets fewer tiles than one with a
    higher id, nor more than one tile more. *)
Theorem bwd_tile_num_balanced
    (P Zb H N_CTX_ N_CTX_KV_ BLOCK_N1 BLOCK_M2 : Z) :
  0 < P -> 0 <= Zb -> 0 <= H -> 0 <= N_CTX_ -> 0 <= N_CTX_KV_ ->
  0 < BLOCK_N1 -> 0 < BLOCK_M2 ->
  let per u :=
    fst (bwd_caculate_tile_num u P Zb H N_CTX_ N_CTX_KV_ BLOCK_N1 BLOCK_M2) in
  let n :=
    snd (bwd_caculate_tile_num 0 P Zb H N_CTX_ N_CTX_KV_ BLOCK_N1 BLOCK_M2) in
  N_CTX_KV_ <= n * BLOCK_N1 /\ N_CTX_ <= n * BLOCK_M2
  /\ (n * BLOCK_N1 < N_CTX_KV_ + BLOCK_N1 \/ n * BLOCK_M2 < N_CTX_ + BLOCK_M2)
  /\ zsum per P = n * Zb * H
  /\ (forall u v, 0 <= u <= v -> v < P -> per v <= per u <= per v + 1).
Proof.
  intros HP HZ HH HN HK HB1 HB2 per n.
  pose proof (cdiv_constexpr_ceiling N_CTX_KV_ BLOCK_N1 HB1) as C1.
  pose proof (cdiv_constexpr_ceiling N_CTX_ BLOCK_M2 HB2) as C2.
  subst per n. unfold bwd_caculate_tile_num. cbn [fst snd].
  set (n := Z.max _ _).
  assert (Hn : 0 <= n) by (subst n; nia).
  assert (Ht : 0 <= n * Zb * H)
    by (apply Z.mul_nonneg_nonneg; [apply Z.mul_nonneg_nonneg|]; lia).
  split; [subst n; nia|]. split; [subst n; nia|].
  split; [subst n; destruct (Z.max_spec (cdiv_constexpr N_CTX_KV_ BLOCK_N1)
                               (cdiv_constexpr N_CTX_ BLOCK_M2))
            as [[_ ->]|[_ ->]]; lia|].
  split; [apply tiles_per_sm_sum; lia|].
  intros u v Hu Hv. rewrite !tiles_per_sm_floor by lia.
  destruct (Z.ltb_spec u (n * Zb * H mod P)),
    (Z.ltb_spec v (n * Zb * H mod P)); lia.
Qed.

Lemma bwd_tile_num_balanced_witness :
  let per u := fst (bwd_caculate_tile_num u 3 2 2 300 129 128 128) in
  let n := snd (bwd_caculate_tile_num 0 3 2 2 300 129 128 128) in
  129 <= n * 128 /\ 300 <= n * 128
  /\ (n * 128 < 129 + 128 \/ n * 128 < 300 + 128)
  /\ zsum per 3 = n * 2 * 2
  /\ (forall u v, 0 <= u <= v -> v < 3 -> per v <= per u <= per v + 1).
Proof. apply (bwd_tile_num_balanced 3 2 2 300 129 128 128); lia. Defined.

(** X4. [bwd_caculate_offsets] splits [program_id(0)] into a key block
    [pid] and a query head [off_h] below [H] from which it is recovered,
    every pair being the decoding of one id; the K/V head [off_h_kv] is
    the group of [G] consecutive query heads that [off_h] lies in; the
    batch element is [program_id(2)], looked up in [seq_index] when the
    batch is sorted, and the batch element of Q is 0 when Q is
    broadcast. *)
Theorem bwd_offsets_round_trip (x y : Z) (seq_index_ : list Z) (H G : Z)
    (sort bq : bool) :
  0 <= x -> 0 < H -> 0 < G ->
  let o := bwd_caculate_offsets x y seq_index_ H G sort bq in
  x = bw_pid o * H + bw_off_h o
  /\ 0 <= bw_off_h o < H /\ 0 <= bw_pid o
  /\ bw_off_h_kv o * G <= bw_off_h o < (bw_off_h_kv o + 1) * G
  /\ bw_off_z o = (if sort then tl_load seq_index_ y else y)
  /\ bw_off_q_z o = (if bq then 0 else bw_off_z o)
  /\ (forall p h, 0 <= p -> 0 <= h < H ->
        let o' := bwd_caculate_offsets (p * H + h) y seq_index_ H G sort bq in
        bw_pid o' = p /\ bw_off_h o' = h).
Proof.
  intros Hx HH HG o. subst o. unfold bwd_caculate_offsets.
  cbn [bw_pid bw_off_h bw_off_h_kv bw_off_z bw_off_q_z].
  rewrite (Z.quot_div_nonneg x H), (Z.rem_mod_nonneg x H) by lia.
  pose proof (Z.div_mod x H ltac:(lia)) as E.
  pose proof (Z.mod_pos_bound x H HH) as B.
  assert (0 <= x / H) by (apply Z.div_pos; lia).
  rewrite (Z.quot_div_nonneg (x mod H) G) by lia.
  pose proof (Z.div_mod (x mod H) G ltac:(lia)) as E2.
  pose proof (Z.mod_pos_bound (x mod H) G HG) as B2.
  repeat split; try lia.
  - destruct (quot_rem_decode p h H ltac:(lia) ltac:(lia)) as [Dq _].
    exact Dq.
  - destruct (quot_rem_decode p h H ltac:(lia) ltac:(lia)) as [_ Dr].
    exact Dr.
Qed.

Lemma bwd_offsets_round_trip_witness :
  let o := bwd_caculate_offsets 11 1 [] 4 2 false false in
  11 = bw_pid o * 4 + bw_off_h o
  /\ 0 <= bw_off_h o < 4 /\ 0 <= bw_pid o
  /\ bw_off_h_kv o * 2 <= bw_off_h o < (bw_off_h_kv o + 1) * 2
  /\ bw_off_z o = 1
  /\ bw_off_q_z o = bw_off_z o
  /\ (forall p h, 0 <= p -> 0 <= h < 4 ->
        let o' := bwd_caculate_offsets (p * 4 + h) 1 [] 4 2 false false in
        bw_pid o' = p /\ bw_off_h o' = h).
Proof.
  apply (bwd_offsets_round_trip 11 1 [] 4 2 false false); lia.
Defined.

Lemma quot_mul_exact (q d : Z) : 0 < d -> Z.quot (q * d) d = q.
Proof. intros Hd. apply Z.quot_mul. lia. Qed.

(** X5. With a window, [_gdpa_bwd_tlx_compute_num_steps] counts the
    blocks of [BLOCK_M1] query rows between [start_m_inner], a multiple of
    [BLOCK_M1], and [end_m_inner]: that range holds every query row of the
    sequence that is within [WINDOW_SIZE] of a key row of the block
    [start_n .. start_n + BLOCK_N1 - 1], and it exceeds the rows between
    [max(0, start_n - WINDOW_SIZE)] and
    [min(qlen, start_n + BLOCK_N1 + WINDOW_SIZE)] by less than one block
    at either end.  Without a window the count is that of the blocks
    covering all [qlen] rows. *)
Theorem bwd_num_steps_window (start_n qlen_ BLOCK_M1 BLOCK_N1 w : Z) :
  0 <= start_n -> 0 <= qlen_ -> 0 < BLOCK_M1 -> 0 < BLOCK_N1 -> 0 <= w ->
  let s := bwd_start_m_inner start_n BLOCK_M1 w in
  let e := bwd_end_m_inner start_n qlen_ BLOCK_M1 BLOCK_N1 w in
  let steps :=
    _gdpa_bwd_tlx_compute_num_steps start_n qlen_ BLOCK_M1 BLOCK_N1 (Some w) in
  steps * BLOCK_M1 = e - s
  /\ Z.max 0 (start_n - w) - BLOCK_M1 < s <= Z.max 0 (start_n - w)
  /\ Z.min qlen_ (start_n + BLOCK_N1 + w) <= e
     < Z.min qlen_ (start_n + BLOCK_N1 + w) + BLOCK_M1
  /\ (forall m n, 0 <= m < qlen_ -> start_n <= n < start_n + BLOCK_N1 ->
        Z.abs (m - n) <= w -> s <= m < e)
  /\ qlen_
     <= _gdpa_bwd_tlx_compute_num_steps start_n qlen_ BLOCK_M1 BLOCK_N1 None
        * BLOCK_M1
     < qlen_ + BLOCK_M1.
Proof.
  intros Hs Hq HM HN Hw s e steps.
  subst s e steps.
  unfold _gdpa_bwd_tlx_compute_num_steps, bwd_start_m_inner,
    bwd_end_m_inner.
  set (lo := Z.max 0 (start_n - w)).
  set (hi := Z.min qlen_ (start_n + BLOCK_N1 + w)).
  assert (Hlo : 0 <= lo) by (subst lo; lia).
  assert (Hhi : 0 <= hi) by (subst hi; lia).
  rewrite (Z.quot_div_nonneg lo) by lia.
  pose proof (Z.div_mod lo BLOCK_M1 ltac:(lia)) as E1.
  pose proof (Z.mod_pos_bound lo BLOCK_M1 HM) as B1.
  pose proof (cdiv_ceiling hi BLOCK_M1 Hhi HM) as C.
  pose proof (cdiv_ceiling qlen_ BLOCK_M1 Hq HM) as Cq.
  replace (qlen_ - 0) with qlen_ by lia.
  set (qs := lo / BLOCK_M1) in *. set (qe := cdiv hi BLOCK_M1) in *.
  replace (qe * BLOCK_M1 - qs * BLOCK_M1) with ((qe - qs) * BLOCK_M1) by lia.
  rewrite quot_mul_exact by lia.
  split; [lia|]. split; [nia|]. split; [lia|]. split; [|lia].
  intros m n Hm Hn Habs. subst lo hi. split; nia.
Qed.

Lemma bwd_num_steps_window_witness :
  let s := bwd_start_m_inner 512 128 100 in
  let e := bwd_end_m_inner 512 700 128 128 100 in
  let steps := _gdpa_bwd_tlx_compute_num_steps 512 700 128 128 (Some 100) in
  steps * 128 = e - s
  /\ Z.max 0 (512 - 100) - 128 < s <= Z.max 0 (512 - 100)
  /\ Z.min 700 (512 + 128 + 100) <= e < Z.min 700 (512 + 128 + 100) + 128
  /\ (forall m n, 0 <= m < 700 -> 512 <= n < 512 + 128 ->
        Z.abs (m - n) <= 100 -> s <= m < e)
  /\ 700 <= _gdpa_bwd_tlx_compute_num_steps 512 700 128 128 None * 128
     < 700 + 128.
Proof. apply (bwd_num_steps_window 512 700 128 128 100); lia. Defined.

(** X6. The tasks of the backward kernel call
    [_gdpa_bwd_tlx_compute_num_steps] with [qlen] in the place of
    [start_n] and [start_n] in the place of [qlen].  Without a window the
    number of steps they get is therefore the number of blocks of
    [BLOCK_M1] rows below the first key row [start_n = pid * BLOCK_N1] of
    the program's key block: it does not depend on the length of the query
    sequence, it is [pid * (BLOCK_N1 / BLOCK_M1)] when [BLOCK_M1] divides
    [BLOCK_N1], and it is zero for the first key block. *)
Theorem bwd_num_steps_at_call_ignores_qlen
    (qlen_ qlen' pid BLOCK_M1 BLOCK_N1 k : Z) :
  0 <= pid -> 0 < BLOCK_M1 -> 0 < k -> BLOCK_N1 = k * BLOCK_M1 ->
  bwd_num_steps_at_call qlen_ (pid * BLOCK_N1) BLOCK_M1 BLOCK_N1 None
  = pid * k
  /\ bwd_num_steps_at_call qlen_ (pid * BLOCK_N1) BLOCK_M1 BLOCK_N1 None
     = bwd_num_steps_at_call qlen' (pid * BLOCK_N1) BLOCK_M1 BLOCK_N1 None
  /\ bwd_num_steps_at_call qlen_ (0 * BLOCK_N1) BLOCK_M1 BLOCK_N1 None = 0.
Proof.
  intros Hp HM Hk ->.
  assert (E : forall q p, 0 <= p ->
            bwd_num_steps_at_call q (p * (k * BLOCK_M1)) BLOCK_M1
              (k * BLOCK_M1) None = p * k).
  { intros q p Hp'.
    unfold bwd_num_steps_at_call, _gdpa_bwd_tlx_compute_num_steps.
    assert (Hx : 0 <= p * (k * BLOCK_M1)) by nia.
    pose proof (cdiv_ceiling (p * (k * BLOCK_M1) - 0) BLOCK_M1
                  ltac:(lia) HM) as C.
    nia. }
  split; [apply E; lia|]. split; [rewrite !E by lia; reflexivity|].
  rewrite E by lia. lia.
Qed.

Lemma bwd_num_steps_at_call_ignores_qlen_witness :
  bwd_num_steps_at_call 700 (3 * 128) 128 128 None = 3 * 1
  /\ bwd_num_steps_at_call 700 (3 * 128) 128 128 None
     = bwd_num_steps_at_call 5 (3 * 128) 128 128 None
  /\ bwd_num_steps_at_call 700 (0 * 128) 128 128 None = 0.
Proof.
  apply (bwd_num_steps_at_call_ignores_qlen 700 5 3 128 128 1); lia.
Defined.
(** *** Where the forward kernel stores *)

Lemma offsets_mono (a : kernel_args) :
  (forall z, 0 <= z < Z_ a ->
     tl_load (Q_offsets a) z <= tl_load (Q_offsets a) (z + 1)) ->
  forall z z', 0 <= z <= z' -> z' <= Z_ a ->
    tl_load (Q_offsets a) z <= tl_load (Q_offsets a) z'.
Proof.
  intros Hm z z' Hz Hz'.
  replace z' with (z + Z.of_nat (Z.to_nat (z' - z))) in * by lia.
  induction (Z.to_nat (z' - z)) as [|k IH]; [rewrite Z.add_0_r; lia|].
  rewrite Nat2Z.inj_succ in *.
  replace (z + Z.succ (Z.of_nat k)) with (z + Z.of_nat k + 1) in * by lia.
  specialize (Hm (z + Z.of_nat k) ltac:(lia)).
  assert (tl_load (Q_offsets a) z <= tl_load (Q_offsets a) (z + Z.of_nat k))
    by (apply IH; lia).
  lia.
Qed.

Lemma layout_offsets (a : kernel_args) (z : Z) :
  fwd_layout_ok a -> 0 <= z < Z_ a ->
  0 <= tl_load (Q_offsets a) z
  /\ tl_load (Q_offsets a) z <= tl_load (Q_offsets a) (z + 1)
  /\ tl_load (Q_offsets a) (z + 1) + BLOCK_M a < 2 ^ 31.
Proof.
  intros (_ & _ & _ & _ & _ & HZ & _ & _ & _ & _ & _ & H0 & Hm & Hend) Hz.
  pose proof (offsets_mono a Hm 0 z ltac:(lia) ltac:(lia)).
  pose proof (offsets_mono a Hm (z + 1) (Z_ a) ltac:(lia) ltac:(lia)).
  pose proof (Hm z Hz). lia.
Qed.

(** The stores of a tile, with the conversions to 32 bits resolved. *)
Lemma tile_footprints_layout (a : kernel_args) (t : Z) :
  fwd_layout_ok a -> 0 <= t < kernel_total_tiles a ->
  tile_footprints a t
  = if tile_active a t
    then [ half_geom a (off_z_of a t) (off_h_of a t) (start_m_of a t) false;
           half_geom a (off_z_of a t) (off_h_of a t) (start_m_of a t) true ]
    else [].
Proof.
  intros Hok Ht.
  pose proof Hok as (Hsort & Hp & HN & HB & Heven & HZ & HH & Hso & HD & HBD
                     & HW & H0 & Hm & Hend).
  destruct (tile_decode_range a t HN HB HH HZ Ht) as (Rz & Rh & Rp & _).
  destruct (layout_offsets a (off_z_of a t) Hok Rz) as (Lb & Lm & Le).
  unfold tile_footprints.
  destruct (tile_active a t) eqn:Hact; [|reflexivity].
  unfold tile_active in Hact. apply Z.ltb_lt in Hact.
  assert (Hinfo : begin_q (_compute_qlen a t)
                  = tl_load (Q_offsets a) (off_z_of a t)
                  /\ end_q (_compute_qlen a t)
                     = tl_load (Q_offsets a) (off_z_of a t + 1)
                  /\ qlen (_compute_qlen a t)
                     = Z.min (tl_load (Q_offsets a) (off_z_of a t + 1)
                              - tl_load (Q_offsets a) (off_z_of a t))
                             (N_CTX a)).
  { unfold _compute_qlen, off_z_of. rewrite Hsort.
    cbn [begin_q end_q qlen]. repeat split. }
  destruct Hinfo as (Ibq & Ieq & Iql).
  rewrite Iql in Hact. rewrite Ibq, Ieq, Hso.
  set (b := tl_load (Q_offsets a) (off_z_of a t)) in *.
  set (e := tl_load (Q_offsets a) (off_z_of a t + 1)) in *.
  set (pid := start_m_of a t) in *. set (h := off_h_of a t) in *.
  assert (0 <= pid * BLOCK_M a) by nia.
  assert (0 <= BLOCK_M a / 2) by (apply Z.div_pos; lia).
  assert (0 <= h * HEAD_DIM a < 2 ^ 31) by nia.
  unfold half_geom. fold b e.
  rewrite (to_int32_small e), (to_int32_small (b + pid * BLOCK_M a)),
    (to_int32_small (b + pid * BLOCK_M a + BLOCK_M a / 2)),
    (to_int32_small (h * HEAD_DIM a)) by lia.
  rewrite Z.add_0_r. reflexivity.
Qed.

Lemma half_geom_covers (a : kernel_args) (z h pid : Z) (second : bool)
    (addr : Z) :
  store_covers (half_geom a z h pid second) addr = true ->
  let W := HEAD_DIM a * H_ a in
  let row := tl_load (Q_offsets a) z + pid * BLOCK_M a
             + (if second then BLOCK_M a / 2 else 0) in
  0 < W /\ 0 <= addr
  /\ row <= addr / W < row + BLOCK_M a / 2
  /\ addr / W < tl_load (Q_offsets a) (z + 1)
  /\ h * HEAD_DIM a <= addr mod W < h * HEAD_DIM a + BLOCK_D a.
Proof.
  unfold store_covers, half_geom.
  cbn [st_shape0 st_width st_block0 st_block1 st_row st_col].
  intros H. repeat (apply andb_prop in H; destruct H as [H ?]).
  repeat match goal with
         | H : (_ <? _) = true |- _ => apply Z.ltb_lt in H
         | H : (_ <=? _) = true |- _ => apply Z.leb_le in H
         end.
  cbv zeta. lia.
Qed.

Lemma half_geom_covers_intro (a : kernel_args) (z h pid : Z) (second : bool)
    (addr : Z) :
  let W := HEAD_DIM a * H_ a in
  let row := tl_load (Q_offsets a) z + pid * BLOCK_M a
             + (if second then BLOCK_M a / 2 else 0) in
  0 < W -> 0 <= addr ->
  row <= addr / W < row + BLOCK_M a / 2 ->
  addr / W < tl_load (Q_offsets a) (z + 1) ->
  h * HEAD_DIM a <= addr mod W < h * HEAD_DIM a + BLOCK_D a ->
  store_covers (half_geom a z h pid second) addr = true.
Proof.
  cbv zeta. intros HW Ha Hr He Hc.
  unfold store_covers, half_geom.
  cbn [st_shape0 st_width st_block0 st_block1 st_row st_col].
  repeat (apply andb_true_intro; split);
    first [apply Z.ltb_lt | apply Z.leb_le]; lia.
Qed.

(** What a covered offset tells about the tile that covers it. *)
Lemma tile_covers_decode (a : kernel_args) (t addr : Z) :
  fwd_layout_ok a -> 0 <= t < kernel_total_tiles a ->
  tile_covers a t addr = true ->
  let W := HEAD_DIM a * H_ a in
  let z := off_z_of a t in
  let b := tl_load (Q_offsets a) z in
  0 <= z < Z_ a /\ 0 <= off_h_of a t < H_ a
  /\ 0 <= start_m_of a t < n_tile_num (N_CTX a) (BLOCK_M a)
  /\ 0 < W /\ 0 <= addr
  /\ b + start_m_of a t * BLOCK_M a <= addr / W
     < b + (start_m_of a t + 1) * BLOCK_M a
  /\ addr / W < tl_load (Q_offsets a) (z + 1)
  /\ off_h_of a t * HEAD_DIM a <= addr mod W
     < (off_h_of a t + 1) * HEAD_DIM a.
Proof.
  intros Hok Ht Hc.
  pose proof Hok as (Hsort & Hp & HN & HB & Heven & HZ & HH & Hso & HD & HBD
                     & HW & H0 & Hm & Hend).
  destruct (tile_decode_range a t HN HB HH HZ Ht) as (Rz & Rh & Rp & _).
  unfold tile_covers in Hc. rewrite (tile_footprints_layout a t Hok Ht) in Hc.
  destruct (tile_active a t); [|discriminate].
  cbn [existsb] in Hc. rewrite orb_false_r in Hc.
  cbv zeta.
  apply orb_prop in Hc. destruct Hc as [Hc|Hc];
    apply half_geom_covers in Hc; cbv zeta in Hc; rewrite HBD in Hc;
    repeat split; try lia.
Qed.

Lemma tile_of_unique (a : kernel_args) (t1 t2 addr : Z) :
  fwd_layout_ok a ->
  0 <= t1 < kernel_total_tiles a -> 0 <= t2 < kernel_total_tiles a ->
  tile_covers a t1 addr = true -> tile_covers a t2 addr = true ->
  t1 = t2.
Proof.
  intros Hok Ht1 Ht2 Hc1 Hc2.
  pose proof Hok as (Hsort & Hp & HN & HB & Heven & HZ & HH & Hso & HD & HBD
                     & HW & H0 & Hm & Hend).
  destruct (tile_decode_range a t1 HN HB HH HZ Ht1) as (_ & _ & _ & E1).
  destruct (tile_decode_range a t2 HN HB HH HZ Ht2) as (_ & _ & _ & E2).
  pose proof (tile_covers_decode a t1 addr Hok Ht1 Hc1) as D1.
  pose proof (tile_covers_decode a t2 addr Hok Ht2 Hc2) as D2.
  cbv zeta in D1, D2.
  destruct D1 as (Z1 & H1 & P1 & _ & _ & R1 & L1 & C1).
  destruct D2 as (Z2 & H2 & P2 & _ & _ & R2 & L2 & C2).
  set (W := HEAD_DIM a * H_ a) in *.
  assert (Eh : off_h_of a t1 = off_h_of a t2) by nia.
  assert (Ez : off_z_of a t1 = off_z_of a t2).
  { destruct (Z.lt_trichotomy (off_z_of a t1) (off_z_of a t2))
      as [Hlt|[Heq|Hgt]]; [|exact Heq|].
    - pose proof (offsets_mono a Hm (off_z_of a t1 + 1) (off_z_of a t2)
                    ltac:(lia) ltac:(lia)). nia.
    - pose proof (offsets_mono a Hm (off_z_of a t2 + 1) (off_z_of a t1)
                    ltac:(lia) ltac:(lia)). nia. }
  rewrite Ez in R1.
  assert (Ep : start_m_of a t1 = start_m_of a t2) by nia.
  rewrite <- E1, <- E2, Ez, Eh, Ep. reflexivity.
Qed.

(** X7. Under the output layout of the host wrapper, every element the
    forward launch writes lies on a row of one of the sequences the
    offsets describe, within the first [cdiv(N_CTX, BLOCK_M) * BLOCK_M]
    rows of it, and in the columns of one head: rows of the output tensor
    outside the sequences, and rows of a sequence beyond that bound, are
    never written. *)
Theorem kernel_writes_confined (a : kernel_args) (addr : Z) :
  fwd_layout_ok a ->
  kernel_writes a addr = true ->
  let W := HEAD_DIM a * H_ a in
  exists z h,
    0 <= z < Z_ a /\ 0 <= h < H_ a
    /\ tl_load (Q_offsets a) z <= addr / W < tl_load (Q_offsets a) (z + 1)
    /\ addr / W - tl_load (Q_offsets a) z
       < n_tile_num (N_CTX a) (BLOCK_M a) * BLOCK_M a
    /\ h * HEAD_DIM a <= addr mod W < (h + 1) * HEAD_DIM a.
Proof.
  intros Hok Hw W.
  pose proof Hok as (Hsort & Hp & HN & HB & Heven & HZ & HH & Hso & HD & HBD
                     & HW & H0 & Hm & Hend).
  unfold kernel_writes, kernel_footprints in Hw.
  apply existsb_exists in Hw. destruct Hw as (g & Hin & Hg).
  apply in_flat_map in Hin. destruct Hin as (u & Hu & Hin).
  apply in_flat_map in Hin. destruct Hin as (t & Ht & Hin).
  unfold grid_programs in Hu. apply in_map_iff in Hu.
  destruct Hu as (k & <- & Hk). apply in_seq in Hk.
  assert (Htot : 0 <= kernel_total_tiles a)
    by (apply total_tiles_nonneg; lia).
  unfold prog_tiles in Ht. apply in_unit_tiles in Ht; try lia.
  destruct Ht as [Ht _].
  assert (Hc : tile_covers a t addr = true).
  { unfold tile_covers. apply existsb_exists. exists g. now split. }
  pose proof (tile_covers_decode a t addr Hok Ht Hc) as D. cbv zeta in D.
  destruct D as (Z1 & H1 & P1 & _ & _ & R1 & L1 & C1).
  exists (off_z_of a t), (off_h_of a t). fold W in R1, L1, C1.
  repeat split; try lia; nia.
Qed.

Lemma example_layout_ok :
  fwd_layout_ok (launch_args example_env example_padded 64 0).
Proof.
  unfold fwd_layout_ok. cbn.
  repeat split; try lia; try reflexivity.
  intros z Hz. assert (z = 0 \/ z = 1) as [-> | ->] by lia;
    vm_compute; discriminate.
Qed.

Lemma kernel_writes_confined_witness :
  let a := launch_args example_env example_padded 64 0 in
  let W := HEAD_DIM a * H_ a in
  exists z h,
    0 <= z < Z_ a /\ 0 <= h < H_ a
    /\ tl_load (Q_offsets a) z <= (165 * 128 + 127) / W
       < tl_load (Q_offsets a) (z + 1)
    /\ (165 * 128 + 127) / W - tl_load (Q_offsets a) z
       < n_tile_num (N_CTX a) (BLOCK_M a) * BLOCK_M a
    /\ h * HEAD_DIM a <= (165 * 128 + 127) mod W < (h + 1) * HEAD_DIM a.
Proof.
  apply (kernel_writes_confined
           (launch_args example_env example_padded 64 0) (165 * 128 + 127)).
  - exact example_layout_ok.
  - vm_compute. reflexivity.
Defined.

(** X8. Under the output layout of the host wrapper, no element of the
    output is written by two tiles, and the two stores of one tile write
    different rows: the stores of a launch do not overlap, whatever the
    order in which the programs run. *)
Theorem tiles_write_disjoint (a : kernel_args) (addr : Z) :
  fwd_layout_ok a ->
  (forall t1 t2,
     0 <= t1 < kernel_total_tiles a -> 0 <= t2 < kernel_total_tiles a ->
     tile_covers a t1 addr = true -> tile_covers a t2 addr = true ->
     t1 = t2)
  /\ (forall t g1 g2,
        0 <= t < kernel_total_tiles a ->
        tile_footprints a t = [g1; g2] ->
        store_covers g1 addr = true -> store_covers g2 addr = true ->
        False).
Proof.
  intros Hok. split.
  - intros t1 t2. now apply tile_of_unique.
  - intros t g1 g2 Ht Hfp H1 H2.
    rewrite (tile_footprints_layout a t Hok Ht) in Hfp.
    destruct (tile_active a t); [|discriminate].
    inversion Hfp; subst g1 g2.
    apply half_geom_covers in H1. apply half_geom_covers in H2.
    cbv zeta in H1, H2. lia.
Qed.

Lemma tiles_write_disjoint_witness :
  let a := launch_args example_env example_padded 64 0 in
  (forall t1 t2,
     0 <= t1 < kernel_total_tiles a -> 0 <= t2 < kernel_total_tiles a ->
     tile_covers a t1 0 = true -> tile_covers a t2 0 = true ->
     t1 = t2)
  /\ (forall t g1 g2,
        0 <= t < kernel_total_tiles a ->
        tile_footprints a t = [g1; g2] ->
        store_covers g1 0 = true -> store_covers g2 0 = true ->
        False).
Proof.
  apply (tiles_write_disjoint
           (launch_args example_env example_padded 64 0) 0).
  exact example_layout_ok.
Defined.

(** *** What the forward kernel stores *)

Lemma fold_stores_last (stores : list store_action) (addr : Z) :
  forall out,
    existsb (fun s => store_covers (st_geom s) addr) stores = true ->
    exists s,
      In s stores /\ store_covers (st_geom s) addr = true
      /\ fold_left apply_store stores out addr = store_value s addr.
Proof.
  induction stores as [|s r IH]; intros out H; [discriminate|].
  cbn [fold_left].
  destruct (existsb (fun s => store_covers (st_geom s) addr) r) eqn:Er.
  - destruct (IH (apply_store out s) eq_refl) as (s' & Hin & Hc & Hv).
    exists s'. split; [right; exact Hin|]. split; assumption.
  - cbn [existsb] in H. rewrite Er, orb_false_r in H.
    exists s. split; [left; reflexivity|]. split; [exact H|].
    rewrite (fold_stores_outside r addr _ Er). unfold apply_store.
    now rewrite H.
Qed.

Lemma in_kernel_stores (staged : Z -> bool -> tile) (a : kernel_args)
    (s : store_action) :
  0 < num_progs a -> 0 <= kernel_total_tiles a ->
  In s (kernel_stores staged a) ->
  exists t, 0 <= t < kernel_total_tiles a /\ In s (tile_stores staged a t).
Proof.
  intros Hp Htot Hin. unfold kernel_stores in Hin.
  apply in_flat_map in Hin. destruct Hin as (u & Hu & Hin).
  apply in_flat_map in Hin. destruct Hin as (t & Ht & Hin).
  unfold grid_programs in Hu. apply in_map_iff in Hu.
  destruct Hu as (k & <- & Hk). apply in_seq in Hk.
  unfold prog_tiles in Ht. apply in_unit_tiles in Ht; try lia.
  exists t. split; [lia|exact Hin].
Qed.

Lemma out_addr_div_mod (a : kernel_args) (i h c : Z) :
  0 < HEAD_DIM a -> 0 <= h < H_ a -> 0 <= c < HEAD_DIM a ->
  out_addr a i h c / (HEAD_DIM a * H_ a) = i
  /\ out_addr a i h c mod (HEAD_DIM a * H_ a) = h * HEAD_DIM a + c.
Proof.
  intros HD Hh Hc. unfold out_addr.
  set (W := HEAD_DIM a * H_ a).
  assert (HcolW : 0 <= h * HEAD_DIM a + c < W) by (subst W; nia).
  split.
  - symmetry. apply (Z.div_unique _ _ _ (h * HEAD_DIM a + c)); lia.
  - symmetry. apply (Z.mod_unique _ _ i); lia.
Qed.

(** X9. Under the output layout of the host wrapper, every element of a
    row that lies inside a sequence, within the first [N_CTX] rows of it,
    is covered by a store of the launch, and by the stores of one tile
    only: the tile of the batch element, the head and the block of rows of
    the element, by its first store when the row is in the upper half of
    the block and by its second store otherwise.  What the returned
    storage holds there is the element of the staging buffer of that store
    on the row's position within the half and the element's column,
    whatever the storage held before. *)
Theorem sequence_rows_stored (a : kernel_args) (z h i c : Z) :
  fwd_layout_ok a ->
  0 <= z < Z_ a -> 0 <= h < H_ a ->
  let b := tl_load (Q_offsets a) z in
  b <= i < tl_load (Q_offsets a) (z + 1) -> i - b < N_CTX a ->
  0 <= c < HEAD_DIM a ->
  let pid := (i - b) / BLOCK_M a in
  let r := (i - b) mod BLOCK_M a in
  let second := negb (r <? BLOCK_M a / 2) in
  kernel_writes a (out_addr a i h c) = true
  /\ (forall t, 0 <= t < kernel_total_tiles a ->
        tile_covers a t (out_addr a i h c) = true -> t = tile_of a z h pid)
  /\ map (fun g => store_covers g (out_addr a i h c))
         (tile_footprints a (tile_of a z h pid))
     = [negb second; second]
  /\ forall (staged : Z -> bool -> tile) (out : mem),
       kernel_output staged a out (out_addr a i h c)
       = staged (tile_of a z h pid) second
           (if second then r - BLOCK_M a / 2 else r) c.
Proof.
  intros Hok Hz Hh b Hi HiN Hc pid r second.
  pose proof Hok as (Hsort & Hp & HN & HB & Heven & HZ & HH & Hso & HD & HBD
                     & HW & H0 & Hm & Hend).
  destruct (layout_offsets a z Hok Hz) as (Lb & Lm & Le). fold b in Lb, Lm.
  assert (Hw : kernel_writes a (out_addr a i h c) = true).
  { unfold out_addr.
    apply (kernel_writes_sequence_rows a z h i c); try assumption; lia. }
  destruct (out_addr_div_mod a i h c HD Hh Hc) as [Hdiv Hmod].
  set (addr := out_addr a i h c) in *.
  assert (Htot : 0 <= kernel_total_tiles a)
    by (apply total_tiles_nonneg; lia).
  pose proof (Z.div_mod (i - b) (BLOCK_M a) ltac:(lia)) as Hdm.
  pose proof (Z.mod_pos_bound (i - b) (BLOCK_M a) HB) as Hmb.
  fold pid r in Hdm, Hmb.
  assert (Huniq : forall t, 0 <= t < kernel_total_tiles a ->
                    tile_covers a t addr = true ->
                    t = tile_of a z h pid
                    /\ off_z_of a t = z /\ off_h_of a t = h
                    /\ start_m_of a t = pid).
  { intros t Ht Hc'.
    pose proof (tile_covers_decode a t addr Hok Ht Hc') as D. cbv zeta in D.
    destruct D as (Z1 & H1 & P1 & _ & _ & R1 & L1 & C1).
    rewrite Hdiv in R1, L1. rewrite Hmod in C1.
    assert (Eh : off_h_of a t = h) by nia.
    assert (Ez : off_z_of a t = z).
    { destruct (Z.lt_trichotomy (off_z_of a t) z) as [Hlt|[Heq|Hgt]];
        [|exact Heq|].
      - pose proof (offsets_mono a Hm (off_z_of a t + 1) z
                      ltac:(lia) ltac:(lia)). fold b in H. nia.
      - pose proof (offsets_mono a Hm (z + 1) (off_z_of a t)
                      ltac:(lia) ltac:(lia)). nia. }
    rewrite Ez in R1. fold b in R1.
    assert (Ep : start_m_of a t = pid) by nia.
    repeat split; try assumption.
    destruct (tile_decode_range a t HN HB HH HZ Ht) as (_ & _ & _ & E).
    rewrite <- E, Ez, Eh, Ep. reflexivity. }
  (* the covering tile and its two stores *)
  assert (Hex : exists t, 0 <= t < kernel_total_tiles a
                          /\ tile_covers a t addr = true).
  { pose proof Hw as Hw'. unfold kernel_writes, kernel_footprints in Hw'.
    apply existsb_exists in Hw'. destruct Hw' as (g & Hg & Hcov).
    apply in_flat_map in Hg. destruct Hg as (u & Hu & Hg).
    apply in_flat_map in Hg. destruct Hg as (t & Ht & Hg).
    unfold grid_programs in Hu. apply in_map_iff in Hu.
    destruct Hu as (k & <- & Hk). apply in_seq in Hk.
    unfold prog_tiles in Ht. apply in_unit_tiles in Ht; try lia.
    exists t. split; [lia|]. unfold tile_covers.
    apply existsb_exists. exists g. split; assumption. }
  destruct Hex as (t0 & Ht0 & Hc0).
  destruct (Huniq t0 Ht0 Hc0) as (Et0 & Ez0 & Eh0 & Ep0).
  assert (Hfp : tile_footprints a t0
                = if tile_active a t0
                  then [half_geom a z h pid false; half_geom a z h pid true]
                  else []).
  { rewrite (tile_footprints_layout a t0 Hok Ht0), Ez0, Eh0, Ep0.
    reflexivity. }
  assert (Hact : tile_active a t0 = true).
  { destruct (tile_active a t0) eqn:E; [reflexivity|].
    unfold tile_covers in Hc0. rewrite Hfp in Hc0. discriminate. }
  rewrite Hact in Hfp.
  assert (Hcov : forall sec,
            store_covers (half_geom a z h pid sec) addr
            = if sec then second else negb second).
  { intros sec.
    destruct (store_covers (half_geom a z h pid sec) addr) eqn:E.
    - apply half_geom_covers in E. cbv zeta in E.
      rewrite Hdiv, Hmod in E. fold b in E. subst second.
      destruct sec; destruct (Z.ltb_spec r (BLOCK_M a / 2));
        cbn [negb]; try reflexivity; lia.
    - unfold tile_covers in Hc0. rewrite Hfp in Hc0.
      cbn [existsb] in Hc0. rewrite orb_false_r in Hc0.
      apply orb_true_iff in Hc0. subst second.
      destruct sec.
      + destruct Hc0 as [Hc0|Hc0]; [|congruence].
        apply half_geom_covers in Hc0. cbv zeta in Hc0.
        rewrite Hdiv, Hmod in Hc0. fold b in Hc0.
        destruct (Z.ltb_spec r (BLOCK_M a / 2)); cbn [negb];
          [reflexivity|lia].
      + destruct Hc0 as [Hc0|Hc0]; [congruence|].
        apply half_geom_covers in Hc0. cbv zeta in Hc0.
        rewrite Hdiv, Hmod in Hc0. fold b in Hc0.
        destruct (Z.ltb_spec r (BLOCK_M a / 2)); cbn [negb];
          [lia|reflexivity]. }
  split; [exact Hw|]. split; [|split].
  - intros t Ht Hc'. apply (Huniq t Ht Hc').
  - rewrite <- Et0, Hfp. cbn [map]. rewrite !Hcov. reflexivity.
  - intros staged out.
    rewrite <- (kernel_stores_cover staged a) in Hw.
    destruct (fold_stores_last _ addr out Hw) as (s & Hin & Hcs & Hval).
    unfold kernel_output. rewrite Hval. clear Hval Hw.
    destruct (in_kernel_stores staged a s Hp Htot Hin) as (t & Ht & Hs).
    assert (Hc' : tile_covers a t addr = true).
    { unfold tile_covers. rewrite <- (tile_stores_geom staged a t).
      apply existsb_exists. exists (st_geom s). split; [|exact Hcs].
      apply in_map. exact Hs. }
    destruct (Huniq t Ht Hc') as (Et & _).
    assert (Ett : t = t0) by congruence. clear Et. subst t.
    rewrite <- Et0.
    unfold tile_stores in Hs. rewrite Hfp in Hs.
    cbn [combine map fst snd] in Hs.
    destruct Hs as [<- | [<- | []]]; cbn [st_geom] in Hcs;
      rewrite Hcov in Hcs;
      unfold store_value, half_geom;
      cbn [st_geom st_tile st_width st_row st_col];
      fold addr; rewrite Hdiv, Hmod; fold b.
    + destruct second; [discriminate|]. f_equal; lia.
    + rewrite Hcs. f_equal; lia.
Qed.

Lemma sequence_rows_stored_witness :
  let a := launch_args example_env example_padded 64 0 in
  kernel_writes a (out_addr a 165 1 63) = true
  /\ (forall t, 0 <= t < kernel_total_tiles a ->
        tile_covers a t (out_addr a 165 1 63) = true ->
        t = tile_of a 1 1 ((165 - 37) / 256))
  /\ map (fun g => store_covers g (out_addr a 165 1 63))
         (tile_footprints a (tile_of a 1 1 ((165 - 37) / 256)))
     = [negb (negb ((165 - 37) mod 256 <? 256 / 2));
        negb ((165 - 37) mod 256 <? 256 / 2)]
  /\ forall (staged : Z -> bool -> tile) (out : mem),
       kernel_output staged a out (out_addr a 165 1 63)
       = staged (tile_of a 1 1 ((165 - 37) / 256))
           (negb ((165 - 37) mod 256 <? 256 / 2))
           (if negb ((165 - 37) mod 256 <? 256 / 2)
            then (165 - 37) mod 256 - 256 / 2
            else (165 - 37) mod 256) 63.
Proof.
  apply (sequence_rows_stored
           (launch_args example_env example_padded 64 0) 1 1 165 63).
  - exact example_layout_ok.
  - cbn. lia.
  - cbn. lia.
  - vm_compute. split; [discriminate|reflexivity].
  - vm_compute. reflexivity.
  - vm_compute. split; [discriminate|reflexivity].
Defined.
(** *** Barrier protocol: who arrives where *)

Lemma count_in_app (b : barrier) (l1 l2 : list barrier) :
  count_in b (l1 ++ l2) = count_in b l1 + count_in b l2.
Proof. unfold count_in. rewrite filter_app, length_app. lia. Qed.

Lemma count_in_nonneg (b : barrier) (l : list barrier) : 0 <= count_in b l.
Proof. unfold count_in. lia. Qed.

Lemma count_in_cons (b b' : barrier) (l : list barrier) :
  count_in b (b' :: l) = (if barrier_eqb b b' then 1 else 0) + count_in b l.
Proof.
  unfold count_in. cbn [filter]. destruct (barrier_eqb b b'); cbn [length];
    lia.
Qed.

Lemma arrivals_on_app (b : barrier) (l1 l2 : list op) :
  arrivals_on b (l1 ++ l2) = arrivals_on b l1 + arrivals_on b l2.
Proof. unfold arrivals_on. now rewrite flat_map_app, count_in_app. Qed.

Lemma arrivals_on_nonneg (b : barrier) (l : list op) : 0 <= arrivals_on b l.
Proof. apply count_in_nonneg. Qed.

Lemma arrivals_on_one (b : barrier) (o : op) :
  arrivals_on b [o] = count_in b (arrivals o).
Proof. unfold arrivals_on. cbn [flat_map]. now rewrite app_nil_r. Qed.

Lemma arrives_within_app (S : list bar_array) (l1 l2 : list op) :
  arrives_within S (l1 ++ l2) = arrives_within S l1 && arrives_within S l2.
Proof. unfold arrives_within. now rewrite flat_map_app, forallb_app. Qed.

Lemma run_tiles_arrives {St : Type} (body : Z -> St -> list op * St)
    (S : list bar_array) :
  (forall t st, arrives_within S (fst (body t st)) = true) ->
  forall tiles st, arrives_within S (fst (run_tiles body tiles st)) = true.
Proof.
  intros H tiles. induction tiles as [|t ts IH]; intros st; [reflexivity|].
  rewrite run_tiles_cons. cbn [fst]. now rewrite arrives_within_app, H, IH.
Qed.

Lemma act_loop_S (a : kernel_args) (second : bool) (k : nat) (cnt : Z) :
  act_loop a second (S k) cnt
  = (act_loop_body a second cnt ++ fst (act_loop a second k (cnt + 1)),
     snd (act_loop a second k (cnt + 1))).
Proof.
  cbn [act_loop]. destruct (act_loop a second k (cnt + 1)). reflexivity.
Qed.

Lemma act_loop_cnt (a : kernel_args) (second : bool) (k : nat) :
  forall cnt, snd (act_loop a second k cnt) = cnt + Z.of_nat k.
Proof.
  induction k as [|k IH]; intros cnt; [cbn; lia|].
  rewrite act_loop_S. cbn [snd]. rewrite IH. lia.
Qed.

Lemma act_tile_eq (a : kernel_args) (second : bool) (t : Z)
    (st : act_state) :
  let k := range_count 0 (klen (_compute_qlen a t)) (BLOCK_N a) in
  act_tile a second t st
  = if tile_active a t
    then (fst (act_loop a second k (accum_cnt st))
            ++ act_epilogue a second t (act_accum_cnt_outer st),
          {| accum_cnt := accum_cnt st + Z.of_nat k;
             act_accum_cnt_outer := act_accum_cnt_outer st + 1 |})
    else ([], st).
Proof.
  cbv zeta. unfold act_tile. destruct (tile_active a t); [|reflexivity].
  set (k := range_count _ _ _).
  pose proof (act_loop_cnt a second k (accum_cnt st)) as E.
  destruct (act_loop a second k (accum_cnt st)) as [loop cnt'].
  cbn [fst snd] in *. subst cnt'. reflexivity.
Qed.

Lemma act_loop_arrives (a : kernel_args) (second : bool) (k : nat) :
  forall cnt,
    arrives_within (task_arrays (if second then 1 else 0))
      (fst (act_loop a second k cnt)) = true.
Proof.
  induction k as [|k IH]; intros cnt; [reflexivity|].
  rewrite act_loop_S. cbn [fst]. rewrite arrives_within_app, IH, andb_true_r.
  unfold act_loop_body.
  destruct second, (PINGPONG a), (NAME_BARRIER a); reflexivity.
Qed.

Lemma act_partition_arrives (a : kernel_args) (second : bool) (u : Z) :
  arrives_within (task_arrays (if second then 1 else 0))
    (act_partition a second u) = true.
Proof.
  unfold act_partition. rewrite arrives_within_app.
  apply andb_true_intro. split.
  - destruct (second && PINGPONG a && NAME_BARRIER a), second; reflexivity.
  - apply run_tiles_arrives. intros t st. rewrite act_tile_eq.
    destruct (tile_active a t); [|reflexivity]. cbn [fst].
    rewrite arrives_within_app, act_loop_arrives.
    unfold act_epilogue. destruct second, (MERGE_EPI a); reflexivity.
Qed.

Lemma mma_loop_arrives (a : kernel_args) (e : mma_tile_env) (k : nat) :
  forall s, arrives_within (task_arrays 2) (fst (mma_loop a e k s)) = true.
Proof.
  induction k as [|k IH]; intros s; [reflexivity|].
  rewrite mma_loop_S. cbn [fst]. rewrite arrives_within_app, IH, andb_true_r.
  reflexivity.
Qed.

Lemma mma_partition_arrives (a : kernel_args) (u : Z) :
  arrives_within (task_arrays 2) (mma_partition a u) = true.
Proof.
  unfold mma_partition. apply run_tiles_arrives. intros t st.
  unfold mma_tile. destruct (tile_active a t); [|reflexivity].
  destruct (mma_tile_body_eq a (klen (_compute_qlen a t)) st) as [-> _].
  rewrite !arrives_within_app, mma_loop_arrives. reflexivity.
Qed.

Lemma load_loop_arrives (a : kernel_args) (bk kvo : Z) (k : nat) :
  forall sn cnt,
    arrives_within (task_arrays 3) (fst (load_loop a bk kvo k sn cnt)) = true.
Proof.
  induction k as [|k IH]; intros sn cnt; [reflexivity|].
  rewrite load_loop_S. cbn [fst]. rewrite arrives_within_app, IH, andb_true_r.
  reflexivity.
Qed.

Lemma load_partition_arrives (a : kernel_args) (u : Z) :
  arrives_within (task_arrays 3) (load_partition a u) = true.
Proof.
  unfold load_partition. apply run_tiles_arrives. intros t st.
  unfold load_tile. destruct (tile_active a t); [|reflexivity].
  destruct (load_tile_body_eq a t st) as [-> _].
  rewrite !arrives_within_app, load_loop_arrives. reflexivity.
Qed.

Lemma epilogue_partition_arrives (a : kernel_args) (u : Z) :
  arrives_within (task_arrays 4) (epilogue_partition a u) = true.
Proof.
  unfold epilogue_partition. apply run_tiles_arrives. intros t st.
  unfold epilogue_tile. destruct (tile_active a t); reflexivity.
Qed.

Lemma kernel_tasks_arrive (a : kernel_args) (u : Z) (i : nat)
    (P : list op) :
  nth_error (kernel_tasks a u) i = Some P ->
  arrives_within (task_arrays i) P = true.
Proof.
  unfold kernel_tasks.
  destruct i as [|[|[|[|[|i]]]]]; cbn [nth_error]; intros E;
    try (injection E as <-).
  - apply (act_partition_arrives a false).
  - apply (act_partition_arrives a true).
  - apply mma_partition_arrives.
  - apply load_partition_arrives.
  - apply epilogue_partition_arrives.
  - destruct i; discriminate.
Qed.

Lemma task_arrays_owner (arr : bar_array) (j : nat) :
  In arr (task_arrays j) -> j = array_owner arr.
Proof.
  destruct j as [|[|[|[|j]]]]; cbn [task_arrays In]; intros H;
    repeat (destruct H as [<-|H]; [reflexivity|]); destruct H.
Qed.

Lemma in_arrays_In (S : list bar_array) (b : barrier) :
  in_arrays S b = true -> In (fst b) S.
Proof.
  unfold in_arrays. intros H. apply existsb_exists in H.
  destruct H as (x & Hin & Hx).
  destruct (bar_array_eq_dec x (fst b)); [subst; exact Hin|discriminate].
Qed.

(** A program that arrives only on the arrays [S] makes no arrival on a
    barrier of another array. *)
Lemma arrives_within_none (S : list bar_array) (b : barrier) (l : list op) :
  arrives_within S l = true -> ~ In (fst b) S -> arrivals_on b l = 0.
Proof.
  unfold arrives_within, arrivals_on, count_in. intros H Hn.
  induction (flat_map arrivals l) as [|x r IH]; [reflexivity|].
  cbn [forallb] in H. apply andb_prop in H. destruct H as [Hx Hr].
  cbn [filter]. destruct (barrier_eqb b x) eqn:E; [|now apply IH].
  apply barrier_eqb_eq in E. subst x.
  apply in_arrays_In in Hx. contradiction.
Qed.
(** *** Barrier protocol: accounting of the arrivals *)

Lemma map_set_nth {A B : Type} (f : A -> B) (l : list A) (i : nat)
    (x y : A) :
  nth_error l i = Some y -> f x = f y -> map f (set_nth i x l) = map f l.
Proof.
  revert i. induction l as [|z l IH]; intros [|i] H E; try discriminate.
  - cbn in H. inversion H; subst. cbn. now rewrite E.
  - cbn [set_nth map]. f_equal. now apply IH.
Qed.

(** Every task is at a point of its program. *)
Lemma tasks_follow_programs (a : kernel_args) (u : Z) (m : machine) :
  reachable a u m ->
  map (fun t => done t ++ todo t) (tasks m) = kernel_tasks a u.
Proof.
  intros Hr. induction Hr as [|m m' _ IH Hstep].
  - cbn [init_machine tasks]. rewrite map_map. cbn [done todo app].
    apply map_id.
  - destruct Hstep as [m i dn td o Hnth Hen | m l1 l2 b Hpend];
      cbn [tasks]; [|exact IH].
    rewrite <- IH. apply (map_set_nth _ _ _ _ _ Hnth).
    cbn [done todo]. now rewrite <- app_assoc.
Qed.

Lemma task_program (a : kernel_args) (u : Z) (m : machine) (i : nat)
    (t : task) :
  reachable a u m -> nth_error (tasks m) i = Some t ->
  nth_error (kernel_tasks a u) i = Some (done t ++ todo t).
Proof.
  intros Hr Hn. rewrite <- (tasks_follow_programs a u m Hr).
  rewrite nth_error_map, Hn. reflexivity.
Qed.

Lemma issued_on_set_nth (b : barrier) (ts : list task) (i : nat)
    (dn td : list op) (o : op) :
  nth_error ts i = Some {| done := dn; todo := o :: td |} ->
  issued_on b (set_nth i {| done := dn ++ [o]; todo := td |} ts)
  = issued_on b ts + count_in b (arrivals o).
Proof.
  revert i. induction ts as [|t ts IH]; intros [|i] H; try discriminate.
  - cbn in H. inversion H; subst t. unfold issued_on.
    cbn [set_nth map fold_right done].
    rewrite arrivals_on_app, arrivals_on_one. lia.
  - cbn [nth_error] in H. unfold issued_on in *.
    cbn [set_nth map fold_right]. rewrite (IH i H). lia.
Qed.

Lemma issue_bars_count (o : op) (bs : bars_t) (b : barrier) :
  issue_bars o bs b + count_in b (issue_pending o)
  = bs b + count_in b (arrivals o).
Proof.
  destruct o; cbn [issue_bars issue_pending arrivals]; try reflexivity.
  unfold arrive. rewrite count_in_cons.
  change (count_in b []) with 0. destruct (barrier_eqb b b0); lia.
Qed.

(** The phases a barrier has completed, together with the arrivals still
    in flight, are the arrivals made before the tasks started and the
    arrivals of the operations the tasks have issued. *)
Lemma arrivals_conserved (a : kernel_args) (u : Z) (m : machine) :
  reachable a u m ->
  forall b,
    bars m b + count_in b (pending m) = init_bars b + issued_on b (tasks m).
Proof.
  intros Hr. induction Hr as [|m m' _ IH Hstep]; intros b.
  - cbn [init_machine bars pending tasks]. unfold issued_on.
    rewrite map_map. cbn [done].
    change (count_in b []) with 0.
    change (arrivals_on b []) with 0.
    induction (kernel_tasks a u) as [|p ps IHp]; [cbn; lia|].
    cbn [map fold_right]. lia.
  - specialize (IH b).
    destruct Hstep as [m i dn td o Hnth Hen | m l1 l2 b0 Hpend];
      cbn [bars tasks pending].
    + rewrite (issued_on_set_nth b _ _ _ _ _ Hnth), count_in_app.
      pose proof (issue_bars_count o (bars m) b). lia.
    + rewrite Hpend in IH. rewrite count_in_app, count_in_cons in IH.
      rewrite count_in_app. unfold arrive.
      destruct (barrier_eqb b b0); lia.
Qed.

Lemma reachable_five_tasks (a : kernel_args) (u : Z) (m : machine) :
  reachable a u m ->
  exists t0 t1 t2 t3 t4,
    tasks m = [t0; t1; t2; t3; t4]
    /\ done t0 ++ todo t0 = act_partition a false u
    /\ done t1 ++ todo t1 = act_partition a true u
    /\ done t2 ++ todo t2 = mma_partition a u
    /\ done t3 ++ todo t3 = load_partition a u
    /\ done t4 ++ todo t4 = epilogue_partition a u.
Proof.
  intros Hr. pose proof (tasks_follow_programs a u m Hr) as E.
  unfold kernel_tasks in E.
  destruct (tasks m) as [|t0 [|t1 [|t2 [|t3 [|t4 [|t5 r]]]]]];
    try discriminate.
  cbn [map] in E. inversion E.
  exists t0, t1, t2, t3, t4. repeat split; assumption.
Qed.

Lemma done_no_arrival (a : kernel_args) (u : Z) (m : machine) (i : nat)
    (t : task) (arr : bar_array) (s : Z) :
  reachable a u m -> nth_error (tasks m) i = Some t ->
  i <> array_owner arr -> arrivals_on (arr, s) (done t) = 0.
Proof.
  intros Hr Hn Hi.
  pose proof (kernel_tasks_arrive a u i _ (task_program a u m i t Hr Hn)) as H.
  rewrite arrives_within_app in H. apply andb_prop in H. destruct H as [H _].
  apply (arrives_within_none _ _ _ H). cbn [fst]. intros Hin.
  apply task_arrays_owner in Hin. contradiction.
Qed.

(** Only the owner of a barrier array arrives on its barriers: the phases
    a barrier has completed and its arrivals in flight are its initial
    arrivals and the arrivals its owner has issued. *)
Lemma owner_accounting (a : kernel_args) (u : Z) (m : machine)
    (arr : bar_array) (s : Z) (t : task) :
  reachable a u m ->
  nth_error (tasks m) (array_owner arr) = Some t ->
  bars m (arr, s) + count_in (arr, s) (pending m)
  = init_bars (arr, s) + arrivals_on (arr, s) (done t).
Proof.
  intros Hr Hn. rewrite (arrivals_conserved a u m Hr). f_equal.
  destruct (reachable_five_tasks a u m Hr)
    as (t0 & t1 & t2 & t3 & t4 & E & _).
  assert (Z0 : forall i x, nth_error (tasks m) i = Some x ->
                 i <> array_owner arr -> arrivals_on (arr, s) (done x) = 0)
    by (intros i x Hx Hne; eapply done_no_arrival; eassumption).
  rewrite E in Hn, Z0. unfold issued_on. rewrite E. cbn [map fold_right].
  pose proof (Z0 0%nat t0 eq_refl) as A0.
  pose proof (Z0 1%nat t1 eq_refl) as A1.
  pose proof (Z0 2%nat t2 eq_refl) as A2.
  pose proof (Z0 3%nat t3 eq_refl) as A3.
  pose proof (Z0 4%nat t4 eq_refl) as A4.
  destruct arr; cbn [array_owner nth_error] in *; inversion Hn; subst t;
    repeat match goal with
           | H : ?x <> ?y -> _ |- _ =>
               first [ specialize (H ltac:(discriminate)) | clear H ]
           end; lia.
Qed.
(** *** Barrier protocol: the waits of the consumers *)

Lemma run_tiles_events_sum {St : Type} (body : Z -> St -> list op * St)
    (arr : bar_array) (N : Z) (flip : bool) (cnt : St -> Z) (m : Z -> nat) :
  (forall t st,
      acq_events arr (fst (body t st)) = canon N flip (cnt st) (m t)
      /\ cnt (snd (body t st)) = cnt st + Z.of_nat (m t)) ->
  forall tiles st,
      acq_events arr (fst (run_tiles body tiles st))
      = canon N flip (cnt st) (list_sum (map m tiles))
      /\ cnt (snd (run_tiles body tiles st))
         = cnt st + Z.of_nat (list_sum (map m tiles)).
Proof.
  intros Hbody tiles. induction tiles as [|t ts IH]; intros st.
  - split; [reflexivity|cbn; lia].
  - rewrite run_tiles_cons. cbn [fst snd map].
    change (list_sum (m t :: map m ts))
      with (m t + list_sum (map m ts))%nat.
    destruct (Hbody t st) as (E1 & C1).
    destruct (IH (snd (body t st))) as (E2 & C2).
    rewrite acq_events_app, E1, E2, C1, C2, canon_app.
    split; [reflexivity|lia].
Qed.

(** The load partition, with the number of slots each tile takes *)

Lemma load_tile_events_kv_count (a : kernel_args) (t : Z) (st : load_state) :
  acq_events consumer_release_kv (fst (load_tile a t st))
  = canon (NUM_BUFFERS_KV a) false (ld_accum_cnt_kv st) (tile_kv_slots a t)
  /\ ld_accum_cnt_kv (snd (load_tile a t st))
     = ld_accum_cnt_kv st + Z.of_nat (tile_kv_slots a t).
Proof.
  unfold load_tile, tile_kv_slots, key_blocks. destruct (tile_active a t).
  - destruct (load_tile_body_eq a t st) as [-> ->].
    set (k := range_count _ _ _).
    cbn [ld_accum_cnt_kv]. rewrite load_loop_cnt.
    split; [|lia].
    rewrite !acq_events_app, load_loop_events_kv.
    replace (2 * S k)%nat with (2 + 2 * k)%nat by lia.
    rewrite canon_app, canon_2. reflexivity.
  - split; [reflexivity|cbn; lia].
Qed.

Lemma load_tile_events_q_count (a : kernel_args) (t : Z) (st : load_state) :
  acq_events consumer_release_q0 (fst (load_tile a t st))
  = canon (NUM_BUFFERS_Q a) true (accum_count_q st) (tile_q_slots a t)
  /\ acq_events consumer_release_q1 (fst (load_tile a t st))
     = canon (NUM_BUFFERS_Q a) true (accum_count_q st) (tile_q_slots a t)
  /\ accum_count_q (snd (load_tile a t st))
     = accum_count_q st + Z.of_nat (tile_q_slots a t).
Proof.
  unfold load_tile, tile_q_slots. destruct (tile_active a t).
  - destruct (load_tile_body_eq a t st) as [-> ->].
    cbn [accum_count_q].
    rewrite !acq_events_app.
    destruct (load_loop_events_q a (begin_k (_compute_qlen a t))
                (Z.quot (off_h_of a t) (G_ a) * stride_kh a)
                (range_count (BLOCK_N a) (klen (_compute_qlen a t))
                   (BLOCK_N a))
                (BLOCK_N a) (ld_accum_cnt_kv st + 2)) as [-> ->].
    rewrite canon_1. repeat split; lia.
  - repeat split; cbn; lia.
Qed.

(** The gemm partition as a consumer of Q and K/V *)

Lemma mma_loop_body_kv (a : kernel_args) (st : mma_state)
    (s : mma_loop_state) :
  acq_events consumer_kv (fst (mma_loop_body a (mma_env a st) s))
  = canon (NUM_BUFFERS_KV a) false (l_accum_cnt_kv s) 2
  /\ acq_events consumer_q0 (fst (mma_loop_body a (mma_env a st) s)) = []
  /\ acq_events consumer_q1 (fst (mma_loop_body a (mma_env a st) s)) = []
  /\ l_accum_cnt_kv (snd (mma_loop_body a (mma_env a st) s))
     = l_accum_cnt_kv s + 2.
Proof.
  rewrite canon_2. unfold mma_loop_body.
  destruct (first s); repeat split.
Qed.

Lemma mma_loop_events_kv (a : kernel_args) (st : mma_state) (k : nat) :
  forall s,
    acq_events consumer_kv (fst (mma_loop a (mma_env a st) k s))
    = canon (NUM_BUFFERS_KV a) false (l_accum_cnt_kv s) (2 * k)
    /\ acq_events consumer_q0 (fst (mma_loop a (mma_env a st) k s)) = []
    /\ acq_events consumer_q1 (fst (mma_loop a (mma_env a st) k s)) = []
    /\ l_accum_cnt_kv (snd (mma_loop a (mma_env a st) k s))
       = l_accum_cnt_kv s + 2 * Z.of_nat k.
Proof.
  induction k as [|k IH]; intros s; [cbn; repeat split; lia|].
  rewrite mma_loop_S. cbn [fst snd]. rewrite !acq_events_app.
  destruct (mma_loop_body_kv a st s) as (-> & -> & -> & Hc).
  destruct (IH (snd (mma_loop_body a (mma_env a st) s)))
    as (-> & -> & -> & ->).
  rewrite Hc. replace (2 * S k)%nat with (2 + 2 * k)%nat by lia.
  rewrite canon_app. repeat split; lia.
Qed.

Lemma mma_prologue_events_in (a : kernel_args) (st : mma_state) :
  acq_events consumer_kv (fst (fst (mma_prologue a st)))
  = canon (NUM_BUFFERS_KV a) false (accum_cnt_kv st) 2
  /\ acq_events consumer_q0 (fst (fst (mma_prologue a st)))
     = canon (NUM_BUFFERS_Q a) false (accum_cnt_q st) 1
  /\ acq_events consumer_q1 (fst (fst (mma_prologue a st)))
     = canon (NUM_BUFFERS_Q a) false (accum_cnt_q st) 1.
Proof. rewrite canon_2, canon_1. repeat split. Qed.

Lemma mma_epilogue_events_in (a : kernel_args) (st : mma_state)
    (s : mma_loop_state) :
  let epi := mma_epilogue a st (mma_env a st) s in
  acq_events consumer_kv (fst epi) = []
  /\ acq_events consumer_q0 (fst epi) = []
  /\ acq_events consumer_q1 (fst epi) = []
  /\ accum_cnt_kv (snd epi) = l_accum_cnt_kv s
  /\ accum_cnt_q (snd epi) = accum_cnt_q st + 1.
Proof. cbv zeta. unfold mma_epilogue. destruct (first s); repeat split. Qed.

Lemma mma_tile_events_kv_count (a : kernel_args) (t : Z) (st : mma_state) :
  acq_events consumer_kv (fst (mma_tile a t st))
  = canon (NUM_BUFFERS_KV a) false (accum_cnt_kv st) (tile_kv_slots a t)
  /\ accum_cnt_kv (snd (mma_tile a t st))
     = accum_cnt_kv st + Z.of_nat (tile_kv_slots a t).
Proof.
  unfold mma_tile, tile_kv_slots, key_blocks. destruct (tile_active a t).
  - destruct (mma_tile_body_eq a (klen (_compute_qlen a t)) st) as [-> ->].
    set (n := range_count _ _ _).
    set (s1 := snd (mma_loop a (mma_env a st) n (mma_loop_init a st))).
    rewrite !acq_events_app.
    destruct (mma_epilogue_events_in a st s1)
      as (-> & _ & _ & -> & _).
    destruct (mma_prologue_events_in a st) as (-> & _ & _).
    destruct (mma_loop_events_kv a st n (mma_loop_init a st))
      as (E & _ & _ & C).
    fold s1 in C. rewrite E, C, app_nil_r.
    change (l_accum_cnt_kv (mma_loop_init a st)) with (accum_cnt_kv st + 2).
    replace (2 * S n)%nat with (2 + 2 * n)%nat by lia.
    rewrite canon_app. split; [reflexivity|lia].
  - split; [reflexivity|cbn; lia].
Qed.

Lemma mma_tile_events_q_count (a : kernel_args) (t : Z) (st : mma_state) :
  acq_events consumer_q0 (fst (mma_tile a t st))
  = canon (NUM_BUFFERS_Q a) false (accum_cnt_q st) (tile_q_slots a t)
  /\ acq_events consumer_q1 (fst (mma_tile a t st))
     = canon (NUM_BUFFERS_Q a) false (accum_cnt_q st) (tile_q_slots a t)
  /\ accum_cnt_q (snd (mma_tile a t st))
     = accum_cnt_q st + Z.of_nat (tile_q_slots a t).
Proof.
  unfold mma_tile, tile_q_slots. destruct (tile_active a t).
  - destruct (mma_tile_body_eq a (klen (_compute_qlen a t)) st) as [-> ->].
    set (n := range_count _ _ _).
    set (s1 := snd (mma_loop a (mma_env a st) n (mma_loop_init a st))).
    rewrite !acq_events_app.
    destruct (mma_epilogue_events_in a st s1)
      as (_ & -> & -> & _ & ->).
    destruct (mma_prologue_events_in a st) as (_ & -> & ->).
    destruct (mma_loop_events_kv a st n (mma_loop_init a st))
      as (_ & -> & -> & _).
    rewrite !app_nil_r. repeat split; lia.
  - repeat split; cbn; lia.
Qed.

Lemma load_partition_events (a : kernel_args) (u : Z) :
  acq_events consumer_release_kv (load_partition a u)
  = canon (NUM_BUFFERS_KV a) false 0
      (list_sum (map (tile_kv_slots a) (prog_tiles a u)))
  /\ acq_events consumer_release_q0 (load_partition a u)
     = canon (NUM_BUFFERS_Q a) true 0
         (list_sum (map (tile_q_slots a) (prog_tiles a u)))
  /\ acq_events consumer_release_q1 (load_partition a u)
     = canon (NUM_BUFFERS_Q a) true 0
         (list_sum (map (tile_q_slots a) (prog_tiles a u))).
Proof.
  unfold load_partition. split; [|split].
  - apply (run_tiles_events_sum (load_tile a) consumer_release_kv
             (NUM_BUFFERS_KV a) false ld_accum_cnt_kv (tile_kv_slots a)
             (load_tile_events_kv_count a) (prog_tiles a u) load_init).
  - apply (run_tiles_events_sum (load_tile a) consumer_release_q0
             (NUM_BUFFERS_Q a) true accum_count_q (tile_q_slots a)
             (fun t st => let '(conj E (conj _ C)) :=
                            load_tile_events_q_count a t st in conj E C)
             (prog_tiles a u) load_init).
  - apply (run_tiles_events_sum (load_tile a) consumer_release_q1
             (NUM_BUFFERS_Q a) true accum_count_q (tile_q_slots a)
             (fun t st => let '(conj _ (conj E C)) :=
                            load_tile_events_q_count a t st in conj E C)
             (prog_tiles a u) load_init).
Qed.

Lemma mma_partition_events_in (a : kernel_args) (u : Z) :
  acq_events consumer_kv (mma_partition a u)
  = canon (NUM_BUFFERS_KV a) false 0
      (list_sum (map (tile_kv_slots a) (prog_tiles a u)))
  /\ acq_events consumer_q0 (mma_partition a u)
     = canon (NUM_BUFFERS_Q a) false 0
         (list_sum (map (tile_q_slots a) (prog_tiles a u)))
  /\ acq_events consumer_q1 (mma_partition a u)
     = canon (NUM_BUFFERS_Q a) false 0
         (list_sum (map (tile_q_slots a) (prog_tiles a u))).
Proof.
  unfold mma_partition. split; [|split].
  - apply (run_tiles_events_sum (mma_tile a) consumer_kv
             (NUM_BUFFERS_KV a) false accum_cnt_kv (tile_kv_slots a)
             (mma_tile_events_kv_count a) (prog_tiles a u) mma_init).
  - apply (run_tiles_events_sum (mma_tile a) consumer_q0
             (NUM_BUFFERS_Q a) false accum_cnt_q (tile_q_slots a)
             (fun t st => let '(conj E (conj _ C)) :=
                            mma_tile_events_q_count a t st in conj E C)
             (prog_tiles a u) mma_init).
  - apply (run_tiles_events_sum (mma_tile a) consumer_q1
             (NUM_BUFFERS_Q a) false accum_cnt_q (tile_q_slots a)
             (fun t st => let '(conj _ (conj E C)) :=
                            mma_tile_events_q_count a t st in conj E C)
             (prog_tiles a u) mma_init).
Qed.
(** *** Barrier protocol: the hand-offs seen from the consumer *)

(** The activation partitions as consumers of the score tiles *)

Lemma act_loop_events (a : kernel_args) (second : bool) (k : nat) :
  forall cnt,
    acq_events (if second then producer_commit_qk1 else producer_commit_qk0)
      (fst (act_loop a second k cnt))
    = canon (NUM_BUFFERS_QK a) false cnt k.
Proof.
  induction k as [|k IH]; intros cnt; [reflexivity|].
  rewrite act_loop_S. cbn [fst]. rewrite acq_events_app, IH, canon_S.
  unfold act_loop_body.
  destruct second, (PINGPONG a), (NAME_BARRIER a); reflexivity.
Qed.

Lemma act_epilogue_events (a : kernel_args) (second : bool) (t c : Z)
    (arr : bar_array) :
  acq_events arr (act_epilogue a second t c) = [].
Proof. unfold act_epilogue. destruct (MERGE_EPI a); reflexivity. Qed.

Lemma act_tile_events (a : kernel_args) (second : bool) (t : Z)
    (st : act_state) :
  acq_events (if second then producer_commit_qk1 else producer_commit_qk0)
    (fst (act_tile a second t st))
  = canon (NUM_BUFFERS_QK a) false (accum_cnt st) (tile_act_steps a t)
  /\ accum_cnt (snd (act_tile a second t st))
     = accum_cnt st + Z.of_nat (tile_act_steps a t).
Proof.
  rewrite act_tile_eq. unfold tile_act_steps.
  destruct (tile_active a t); [|split; [reflexivity|cbn; lia]].
  cbn [fst snd accum_cnt].
  rewrite acq_events_app, act_loop_events, act_epilogue_events, app_nil_r.
  split; reflexivity.
Qed.

Lemma act_partition_events (a : kernel_args) (second : bool) (u : Z) :
  acq_events (if second then producer_commit_qk1 else producer_commit_qk0)
    (act_partition a second u)
  = canon (NUM_BUFFERS_QK a) false 0
      (list_sum (map (tile_act_steps a) (prog_tiles a u))).
Proof.
  unfold act_partition. rewrite acq_events_app.
  replace (acq_events _ (if second && PINGPONG a && NAME_BARRIER a
                         then [named_barrier_arrive 9 128] else []))
    with (@nil (Z * Z))
    by (destruct (second && PINGPONG a && NAME_BARRIER a), second;
        reflexivity).
  apply (run_tiles_events_sum (act_tile a second) _ (NUM_BUFFERS_QK a) false
           accum_cnt (tile_act_steps a) (act_tile_events a second)
           (prog_tiles a u) act_init).
Qed.

(** The ping-pong barriers, in the variant the host wrapper launches *)

Lemma act_loop_events_pp (a : kernel_args) (second : bool) (k : nat) :
  PINGPONG a = true -> NAME_BARRIER a = false -> NUM_BUFFERS_QK a = 1 ->
  forall cnt,
    acq_events (if second then producer_commit_pp else producer_pp)
      (fst (act_loop a second k cnt))
    = canon 1 (negb second) cnt k.
Proof.
  intros Hpp Hnb Hqk.
  induction k as [|k IH]; intros cnt; [reflexivity|].
  rewrite act_loop_S. cbn [fst]. rewrite acq_events_app, IH, canon_S.
  unfold act_loop_body. rewrite Hpp, Hnb, Hqk.
  unfold slot_phase, _get_bufidx_phase. rewrite Z.rem_1_r.
  destruct second; reflexivity.
Qed.

Lemma act_partition_events_pp (a : kernel_args) (second : bool) (u : Z) :
  PINGPONG a = true -> NAME_BARRIER a = false -> NUM_BUFFERS_QK a = 1 ->
  exists n,
    acq_events (if second then producer_commit_pp else producer_pp)
      (act_partition a second u)
    = canon 1 (negb second) 0 n.
Proof.
  intros Hpp Hnb Hqk. unfold act_partition. rewrite Hnb, andb_false_r.
  cbn [app].
  destruct (run_tiles_events (act_tile a second)
              (if second then producer_commit_pp else producer_pp)
              1 (negb second) accum_cnt) with (tiles := prog_tiles a u)
                                              (st := act_init)
    as (n & E & _).
  - intros t st. rewrite act_tile_eq.
    destruct (tile_active a t).
    + eexists. cbn [fst snd accum_cnt].
      rewrite acq_events_app, act_loop_events_pp, act_epilogue_events,
        app_nil_r by assumption.
      split; reflexivity.
    + exists 0%nat. split; [reflexivity|cbn; lia].
  - exists n. exact E.
Qed.

(** A wait on a barrier of an array other than [consumer_release_kv]
    starts from a barrier without arrivals. *)
Lemma init_bars_zero (arr : bar_array) (s : Z) :
  arr <> consumer_release_kv -> init_bars (arr, s) = 0.
Proof.
  intros H. unfold init_bars, arrive, barrier_eqb. cbn [fst snd].
  destruct (bar_array_eq_dec arr consumer_release_kv); [contradiction|].
  reflexivity.
Qed.

(** The waits task [i] has completed on barrier [(arr, s)], whose phase
    argument is the parity of the earlier waits ([flip] apart), against
    the arrivals the owner of the array has issued. *)
Lemma waits_le_arrivals (a : kernel_args) (u : Z) (m : machine)
    (arr : bar_array) (N : Z) (flip : bool) (i : nat) (P : list op)
    (s : Z) (t towner : task) :
  nth_error (kernel_tasks a u) i = Some P ->
  phased arr N flip P ->
  arr <> consumer_release_kv ->
  reachable a u m ->
  nth_error (tasks m) i = Some t ->
  nth_error (tasks m) (array_owner arr) = Some towner ->
  count_waits (arr, s) (done t) + count_in (arr, s) (pending m)
  <= arrivals_on (arr, s) (done towner) + flip_bit flip.
Proof.
  intros HP Hph Harr Hr Ht Ho.
  destruct (inv_acq_reachable a u arr N flip i P m HP Hph Hr)
    as (_ & t' & Ht' & _ & Hc).
  rewrite Ht in Ht'. inversion Ht'; subst t'. specialize (Hc s).
  pose proof (owner_accounting a u m arr s towner Hr Ho) as Hacc.
  rewrite (init_bars_zero arr s Harr) in *.
  unfold slack in Hc. rewrite (init_bars_zero arr s Harr) in Hc.
  cbn [Z.add] in Hc.
  assert (flip_bit flip mod 2 = flip_bit flip) by (destruct flip; reflexivity).
  lia.
Qed.

Lemma map_fst_canon (N : Z) (f1 f2 : bool) (c : Z) (n : nat) :
  map fst (canon N f1 c n) = map fst (canon N f2 c n).
Proof.
  unfold canon. rewrite !map_map. apply map_ext. intros j.
  unfold slot_phase. destruct (_get_bufidx_phase _ _). reflexivity.
Qed.

Lemma load_loop_slots (a : kernel_args) (bk kvo : Z) (k : nat) :
  forall sn cnt,
    kv_load_slots (fst (load_loop a bk kvo k sn cnt))
    = map (fun e => (fst e, fst e))
        (acq_events consumer_release_kv (fst (load_loop a bk kvo k sn cnt))).
Proof.
  induction k as [|k IH]; intros sn cnt; [reflexivity|].
  rewrite load_loop_S. cbn [fst]. unfold kv_load_slots in *.
  rewrite acq_events_app, flat_map_app, map_app, IH. reflexivity.
Qed.

Lemma load_partition_slots (a : kernel_args) (u : Z) :
  kv_load_slots (load_partition a u)
  = map (fun e => (fst e, fst e))
      (acq_events consumer_release_kv (load_partition a u)).
Proof.
  unfold load_partition.
  generalize load_init. induction (prog_tiles a u) as [|t ts IH]; intros st;
    [reflexivity|].
  rewrite run_tiles_cons. cbn [fst]. unfold kv_load_slots in *.
  rewrite acq_events_app, flat_map_app, map_app, IH. f_equal.
  unfold load_tile. destruct (tile_active a t); [|reflexivity].
  destruct (load_tile_body_eq a t st) as [-> _].
  rewrite !acq_events_app, !flat_map_app, !map_app.
  fold (kv_load_slots (fst (load_loop a (begin_k (_compute_qlen a t))
                              (Z.quot (off_h_of a t) (G_ a) * stride_kh a)
                              (range_count (BLOCK_N a)
                                 (klen (_compute_qlen a t)) (BLOCK_N a))
                              (BLOCK_N a) (ld_accum_cnt_kv st + 2)))).
  rewrite load_loop_slots. reflexivity.
Qed.

(** X14. The gemm partition waits for the slots of the K/V ring in the
    order, and with the phases, in which the load partition acquires
    them, and for the slots of the two Q buffers in the order in which
    the load partition acquires those; each bulk load of K or V fills the
    slot it has acquired and signals the full barrier of that slot. *)
Theorem kv_ring_order (a : kernel_args) (u : Z) :
  acq_events consumer_kv (mma_partition a u)
  = acq_events consumer_release_kv (load_partition a u)
  /\ map fst (acq_events consumer_q0 (mma_partition a u))
     = map fst (acq_events consumer_release_q0 (load_partition a u))
  /\ map fst (acq_events consumer_q1 (mma_partition a u))
     = map fst (acq_events consumer_release_q1 (load_partition a u))
  /\ kv_load_slots (load_partition a u)
     = map (fun e => (fst e, fst e))
         (acq_events consumer_release_kv (load_partition a u)).
Proof.
  split; [|split; [|split]]; [| | |apply load_partition_slots].
  - destruct (mma_partition_events_in a u) as (-> & _).
    destruct (load_partition_events a u) as (-> & _). reflexivity.
  - destruct (mma_partition_events_in a u) as (_ & -> & _).
    destruct (load_partition_events a u) as (_ & -> & _).
    apply map_fst_canon.
  - destruct (mma_partition_events_in a u) as (_ & _ & ->).
    destruct (load_partition_events a u) as (_ & _ & ->).
    apply map_fst_canon.
Qed.
(** *** Barrier protocol: what the consumers can rely on *)

Lemma mma_partition_phased_in (a : kernel_args) (u : Z) :
  1 <= NUM_BUFFERS_Q a -> 1 <= NUM_BUFFERS_KV a ->
  phased consumer_q0 (NUM_BUFFERS_Q a) false (mma_partition a u)
  /\ phased consumer_q1 (NUM_BUFFERS_Q a) false (mma_partition a u)
  /\ phased consumer_kv (NUM_BUFFERS_KV a) false (mma_partition a u).
Proof.
  intros HQ HKV. destruct (mma_partition_events_in a u) as (E & E0 & E1).
  split; [|split]; eapply events_phased; eassumption.
Qed.

Lemma act_partition_phased (a : kernel_args) (second : bool) (u : Z) :
  1 <= NUM_BUFFERS_QK a ->
  phased (if second then producer_commit_qk1 else producer_commit_qk0)
    (NUM_BUFFERS_QK a) false (act_partition a second u).
Proof.
  intros H. eapply events_phased; [exact H|apply act_partition_events].
Qed.

(** In the machine, where the completion of a bulk load is one arrival
    on its barrier: for every slot of the two Q buffers and of the K/V
    ring, the waits the gemm partition has completed on the full barrier
    of the slot, together with the bulk loads into the slot that are still
    in flight, are at most the bulk loads into the slot the load partition
    has issued. *)
Lemma waits_follow_load_arrivals (a : kernel_args) (u : Z) (m : machine)
    (arr : bar_array) (s : Z) (tg tl : task) :
  1 <= NUM_BUFFERS_Q a -> 1 <= NUM_BUFFERS_KV a ->
  In arr [consumer_q0; consumer_q1; consumer_kv] ->
  reachable a u m ->
  nth_error (tasks m) 2 = Some tg -> nth_error (tasks m) 3 = Some tl ->
  count_waits (arr, s) (done tg) + count_in (arr, s) (pending m)
  <= arrivals_on (arr, s) (done tl).
Proof.
  intros HQ HKV Harr Hr Hg Hl.
  destruct (mma_partition_phased_in a u HQ HKV) as (P0 & P1 & P2).
  assert (E : nth_error (kernel_tasks a u) 2 = Some (mma_partition a u))
    by reflexivity.
  cbn [In] in Harr. destruct Harr as [<-|[<-|[<-|[]]]].
  - pose proof (waits_le_arrivals a u m consumer_q0 _ false 2 _ s tg tl
                  E P0 ltac:(discriminate) Hr Hg Hl). cbn [flip_bit] in *.
    lia.
  - pose proof (waits_le_arrivals a u m consumer_q1 _ false 2 _ s tg tl
                  E P1 ltac:(discriminate) Hr Hg Hl). cbn [flip_bit] in *.
    lia.
  - pose proof (waits_le_arrivals a u m consumer_kv _ false 2 _ s tg tl
                  E P2 ltac:(discriminate) Hr Hg Hl). cbn [flip_bit] in *.
    lia.
Qed.

(** X16. In every reachable state of a program and for every slot of the
    score regions: an activation partition has completed at most as many
    waits for a score tile as matmuls into the region have completed, and
    the gemm partition has completed at most as many waits for an
    activated tile as the activation partition has signalled.  The
    activation reads a score tile only after the matmul that writes it,
    and the second matmul reads the activated tile only after the
    activation has stored it. *)
Theorem score_handoff (a : kernel_args) (u : Z) (m : machine) (s : Z)
    (t0 t1 tg : task) :
  1 <= NUM_BUFFERS_QK a -> 1 <= NUM_BUFFERS_O a ->
  reachable a u m ->
  nth_error (tasks m) 0 = Some t0 -> nth_error (tasks m) 1 = Some t1 ->
  nth_error (tasks m) 2 = Some tg ->
  count_waits (producer_commit_qk0, s) (done t0)
  + count_in (producer_commit_qk0, s) (pending m)
  <= arrivals_on (producer_commit_qk0, s) (done tg)
  /\ count_waits (producer_commit_qk1, s) (done t1)
     + count_in (producer_commit_qk1, s) (pending m)
     <= arrivals_on (producer_commit_qk1, s) (done tg)
  /\ count_waits (producer_qk0, s) (done tg)
     <= arrivals_on (producer_qk0, s) (done t0)
  /\ count_waits (producer_qk1, s) (done tg)
     <= arrivals_on (producer_qk1, s) (done t1).
Proof.
  intros HQK HO Hr H0 H1 Hg.
  destruct (mma_partition_phased a u HQK HO) as (_ & _ & M0 & M1).
  pose proof (act_partition_phased a false u HQK) as A0.
  pose proof (act_partition_phased a true u HQK) as A1.
  cbv iota in A0, A1.
  assert (E0 : nth_error (kernel_tasks a u) 0
               = Some (act_partition a false u)) by reflexivity.
  assert (E1 : nth_error (kernel_tasks a u) 1
               = Some (act_partition a true u)) by reflexivity.
  assert (E2 : nth_error (kernel_tasks a u) 2 = Some (mma_partition a u))
    by reflexivity.
  pose proof (waits_le_arrivals a u m producer_commit_qk0 _ false 0 _ s
                t0 tg E0 A0 ltac:(discriminate) Hr H0 Hg) as B0.
  pose proof (waits_le_arrivals a u m producer_commit_qk1 _ false 1 _ s
                t1 tg E1 A1 ltac:(discriminate) Hr H1 Hg) as B1.
  pose proof (waits_le_arrivals a u m producer_qk0 _ false 2 _ s
                tg t0 E2 M0 ltac:(discriminate) Hr Hg H0) as B2.
  pose proof (waits_le_arrivals a u m producer_qk1 _ false 2 _ s
                tg t1 E2 M1 ltac:(discriminate) Hr Hg H1) as B3.
  cbn [flip_bit] in *.
  pose proof (count_in_nonneg (producer_qk0, s) (pending m)).
  pose proof (count_in_nonneg (producer_qk1, s) (pending m)).
  lia.
Qed.

Lemma score_handoff_witness :
  let m := example_two_scores in
  let t0 := task_at 0 m in
  let t1 := task_at 1 m in
  let tg := task_at 2 m in
  (count_waits (producer_commit_qk0, 0) (done t0) = 2
   /\ count_waits (producer_commit_qk1, 0) (done t1) = 1
   /\ count_waits (producer_qk0, 0) (done tg) = 1
   /\ arrivals_on (producer_qk0, 0) (done t0) = 2)
  /\ count_waits (producer_commit_qk0, 0) (done t0)
     + count_in (producer_commit_qk0, 0) (pending m)
     <= arrivals_on (producer_commit_qk0, 0) (done tg)
  /\ count_waits (producer_commit_qk1, 0) (done t1)
     + count_in (producer_commit_qk1, 0) (pending m)
     <= arrivals_on (producer_commit_qk1, 0) (done tg)
  /\ count_waits (producer_qk0, 0) (done tg)
     <= arrivals_on (producer_qk0, 0) (done t0)
  /\ count_waits (producer_qk1, 0) (done tg)
     <= arrivals_on (producer_qk1, 0) (done t1).
Proof.
  cbv zeta. split; [vm_compute; repeat split|].
  apply (score_handoff example_args 3 example_two_scores 0
           (task_at 0 example_two_scores) (task_at 1 example_two_scores)
           (task_at 2 example_two_scores)).
  - cbn. lia.
  - cbn. lia.
  - exact example_two_scores_reachable.
  - vm_compute. reflexivity.
  - vm_compute. reflexivity.
  - vm_compute. reflexivity.
Defined.

(** **** The ping-pong of the activation partitions *)

Lemma alternates_prefix (wb ab : barrier) (l1 l2 : list op) :
  forall e,
    alternates wb ab e (l1 ++ l2) = true -> 0 <= e <= 1 ->
    0 <= e + count_waits wb l1 - arrivals_on ab l1 <= 1.
Proof.
  induction l1 as [|o l1 IH]; intros e H He.
  - change (count_waits wb []) with 0. change (arrivals_on ab []) with 0. lia.
  - cbn [app alternates] in H.
    apply andb_prop in H. destruct H as [H Hr].
    apply andb_prop in H. destruct H as [Hlo Hhi].
    apply Z.leb_le in Hlo, Hhi.
    specialize (IH _ Hr (conj Hlo Hhi)).
    unfold count_waits in *. rewrite count_ops_cons.
    change (o :: l1) with ([o] ++ l1).
    rewrite arrivals_on_app, arrivals_on_one. lia.
Qed.

Lemma alternates_app (wb ab : barrier) (l1 l2 : list op) :
  forall e,
    alternates wb ab e l1 = true ->
    alternates wb ab (e + count_waits wb l1 - arrivals_on ab l1) l2 = true ->
    alternates wb ab e (l1 ++ l2) = true.
Proof.
  induction l1 as [|o l1 IH]; intros e H1 H2.
  - change (count_waits wb []) with 0 in H2.
    change (arrivals_on ab []) with 0 in H2.
    replace (e + 0 - 0) with e in H2 by lia. exact H2.
  - cbn [app alternates] in *.
    apply andb_prop in H1. destruct H1 as [H1 Hr]. rewrite H1. cbn [andb].
    apply IH; [exact Hr|].
    unfold count_waits in *. rewrite count_ops_cons in H2.
    change (o :: l1) with ([o] ++ l1) in H2.
    rewrite arrivals_on_app, arrivals_on_one in H2.
    match goal with
    | H : alternates _ _ ?x l2 = true |- alternates _ _ ?y l2 = true =>
        replace y with x by lia; exact H
    end.
Qed.

Lemma alternates_closed (wb ab : barrier) (l1 l2 : list op) (e : Z) :
  alternates wb ab e l1 = true ->
  count_waits wb l1 - arrivals_on ab l1 = 0 ->
  alternates wb ab e l2 = true ->
  alternates wb ab e (l1 ++ l2) = true.
Proof.
  intros H1 Hn H2. apply alternates_app; [exact H1|].
  replace (e + count_waits wb l1 - arrivals_on ab l1) with e by lia.
  exact H2.
Qed.

Lemma balanced_app (wb ab : barrier) (l1 l2 : list op) :
  (alternates wb ab 0 l1 = true
   /\ count_waits wb l1 - arrivals_on ab l1 = 0) ->
  (alternates wb ab 0 l2 = true
   /\ count_waits wb l2 - arrivals_on ab l2 = 0) ->
  alternates wb ab 0 (l1 ++ l2) = true
  /\ count_waits wb (l1 ++ l2) - arrivals_on ab (l1 ++ l2) = 0.
Proof.
  intros [A1 N1] [A2 N2]. split; [now apply alternates_closed|].
  unfold count_waits in *. rewrite count_ops_app, arrivals_on_app. lia.
Qed.

Lemma act_loop_balanced (a : kernel_args) (second : bool) (k : nat) :
  PINGPONG a = true -> NAME_BARRIER a = false ->
  let wb := (if second then producer_commit_pp else producer_pp, 0) in
  let ab := (if second then producer_pp else producer_commit_pp, 0) in
  forall cnt,
    alternates wb ab 0 (fst (act_loop a second k cnt)) = true
    /\ count_waits wb (fst (act_loop a second k cnt))
       - arrivals_on ab (fst (act_loop a second k cnt)) = 0.
Proof.
  intros Hpp Hnb wb ab.
  induction k as [|k IH]; intros cnt; [split; reflexivity|].
  rewrite act_loop_S. cbn [fst]. apply balanced_app; [|apply IH].
  subst wb ab. unfold act_loop_body. rewrite Hpp, Hnb.
  destruct second; split; reflexivity.
Qed.

Lemma act_partition_balanced (a : kernel_args) (second : bool) (u : Z) :
  PINGPONG a = true -> NAME_BARRIER a = false ->
  let wb := (if second then producer_commit_pp else producer_pp, 0) in
  let ab := (if second then producer_pp else producer_commit_pp, 0) in
  alternates wb ab 0 (act_partition a second u) = true.
Proof.
  intros Hpp Hnb wb ab. unfold act_partition.
  rewrite Hnb, andb_false_r. cbn [app].
  assert (H : forall tiles st,
             alternates wb ab 0 (fst (run_tiles (act_tile a second) tiles st))
             = true
             /\ count_waits wb (fst (run_tiles (act_tile a second) tiles st))
                - arrivals_on ab
                    (fst (run_tiles (act_tile a second) tiles st)) = 0).
  { induction tiles as [|t ts IH]; intros st; [split; reflexivity|].
    rewrite run_tiles_cons. cbn [fst]. apply balanced_app; [|apply IH].
    rewrite act_tile_eq. destruct (tile_active a t); [|split; reflexivity].
    cbn [fst]. apply balanced_app.
    - apply (act_loop_balanced a second _ Hpp Hnb).
    - subst wb ab. unfold act_epilogue.
      destruct second, (MERGE_EPI a); split; reflexivity. }
  apply H.
Qed.

(** X17. With the ping-pong that the host wrapper launches ([PINGPONG]
    set, [NAME_BARRIER] clear, one score region) the two activation
    partitions take turns: in every reachable state at most one of them
    is between its ping-pong wait and the arrival that ends its turn, the
    first partition is the one that starts, and it has completed as many
    turns as the second or one more. *)
Theorem pingpong_mutual_exclusion (a : kernel_args) (u : Z) (m : machine)
    (t0 t1 : task) :
  PINGPONG a = true -> NAME_BARRIER a = false -> NUM_BUFFERS_QK a = 1 ->
  reachable a u m ->
  nth_error (tasks m) 0 = Some t0 -> nth_error (tasks m) 1 = Some t1 ->
  let in0 := count_waits (producer_pp, 0) (done t0)
             - arrivals_on (producer_commit_pp, 0) (done t0) in
  let in1 := count_waits (producer_commit_pp, 0) (done t1)
             - arrivals_on (producer_pp, 0) (done t1) in
  0 <= in0 <= 1 /\ 0 <= in1 <= 1 /\ in0 + in1 <= 1
  /\ arrivals_on (producer_pp, 0) (done t1)
     <= arrivals_on (producer_commit_pp, 0) (done t0)
     <= arrivals_on (producer_pp, 0) (done t1) + 1.
Proof.
  intros Hpp Hnb Hqk Hr H0 H1 in0 in1.
  assert (E0 : nth_error (kernel_tasks a u) 0
               = Some (act_partition a false u)) by reflexivity.
  assert (E1 : nth_error (kernel_tasks a u) 1
               = Some (act_partition a true u)) by reflexivity.
  (* each partition alternates between wait and arrival *)
  pose proof (task_program a u m 0 t0 Hr H0) as Q0.
  pose proof (task_program a u m 1 t1 Hr H1) as Q1.
  rewrite E0 in Q0. rewrite E1 in Q1.
  inversion Q0 as [Q0']. inversion Q1 as [Q1'].
  pose proof (act_partition_balanced a false u Hpp Hnb) as B0.
  pose proof (act_partition_balanced a true u Hpp Hnb) as B1.
  cbv zeta iota in B0, B1. rewrite Q0' in B0. rewrite Q1' in B1.
  apply alternates_prefix in B0; [|lia]. apply alternates_prefix in B1; [|lia].
  (* each wait has been let through by the other partition *)
  destruct (act_partition_events_pp a false u Hpp Hnb Hqk) as (n0 & V0).
  destruct (act_partition_events_pp a true u Hpp Hnb Hqk) as (n1 & V1).
  cbv iota in V0, V1. cbn [negb] in V0, V1.
  pose proof (events_phased _ 1 _ _ _ ltac:(lia) V0) as P0.
  pose proof (events_phased _ 1 _ _ _ ltac:(lia) V1) as P1.
  pose proof (waits_le_arrivals a u m producer_pp 1 true 0 _ 0 t0 t1
                E0 P0 ltac:(discriminate) Hr H0 H1) as W0.
  pose proof (waits_le_arrivals a u m producer_commit_pp 1 false 1 _ 0 t1 t0
                E1 P1 ltac:(discriminate) Hr H1 H0) as W1.
  cbn [flip_bit] in W0, W1.
  pose proof (count_in_nonneg (producer_pp, 0) (pending m)).
  pose proof (count_in_nonneg (producer_commit_pp, 0) (pending m)).
  subst in0 in1. lia.
Qed.

Lemma pingpong_mutual_exclusion_witness :
  let t0 := task_at 0 example_second_turn in
  let t1 := task_at 1 example_second_turn in
  let in0 := count_waits (producer_pp, 0) (done t0)
             - arrivals_on (producer_commit_pp, 0) (done t0) in
  let in1 := count_waits (producer_commit_pp, 0) (done t1)
             - arrivals_on (producer_pp, 0) (done t1) in
  (in0 = 0 /\ in1 = 1
   /\ arrivals_on (producer_commit_pp, 0) (done t0) = 1
   /\ arrivals_on (producer_pp, 0) (done t1) = 0)
  /\ 0 <= in0 <= 1 /\ 0 <= in1 <= 1 /\ in0 + in1 <= 1
  /\ arrivals_on (producer_pp, 0) (done t1)
     <= arrivals_on (producer_commit_pp, 0) (done t0)
     <= arrivals_on (producer_pp, 0) (done t1) + 1.
Proof.
  cbv zeta. split; [vm_compute; repeat split|].
  apply (pingpong_mutual_exclusion example_args 3 example_second_turn
           (task_at 0 example_second_turn) (task_at 1 example_second_turn)).
  - reflexivity.
  - reflexivity.
  - reflexivity.
  - exact example_second_turn_reachable.
  - vm_compute. reflexivity.
  - vm_compute. reflexivity.
Defined.
(** *** Barrier protocol: a tile without keys *)

Lemma count_waits_length (arr : bar_array) (l : list op) :
  count_ops (is_wait_on arr) l = Z.of_nat (length (acq_events arr l)).
Proof.
  induction l as [|o l IH]; [reflexivity|].
  rewrite count_ops_cons, IH.
  change (acq_events arr (o :: l))
    with (wait_event arr o ++ acq_events arr l).
  rewrite length_app.
  destruct o as [[arr' idx] ph [|] | | | | | | | | | | |];
    cbn [is_wait_on wait_event length]; try lia.
  destruct (bar_array_eq_dec arr' arr); cbn [length]; lia.
Qed.

Lemma arrivals_on_array_app (arr : bar_array) (l1 l2 : list op) :
  arrivals_on_array arr (l1 ++ l2)
  = arrivals_on_array arr l1 + arrivals_on_array arr l2.
Proof.
  unfold arrivals_on_array.
  rewrite flat_map_app, filter_app, length_app, Nat2Z.inj_add. reflexivity.
Qed.

Lemma arrivals_on_array_nonneg (arr : bar_array) (l : list op) :
  0 <= arrivals_on_array arr l.
Proof. unfold arrivals_on_array. lia. Qed.

(** The arrivals on the slots of an array are arrivals on the array. *)
Lemma arrivals_on_slots (arr : bar_array) (l : list op) (n : nat) :
  zsum (fun s => arrivals_on (arr, s) l) (Z.of_nat n)
  <= arrivals_on_array arr l.
Proof.
  unfold arrivals_on, arrivals_on_array, count_in.
  induction (flat_map arrivals l) as [|b bs IH].
  - cbn [filter length]. rewrite zsum_zero_nat; [reflexivity|].
    intros; reflexivity.
  - destruct b as [arr' i].
    rewrite (zsum_ext_nat _
               (fun s => (if (if bar_array_eq_dec arr arr' then true
                               else false) && (s =? i)
                          then 1 else 0)
                         + Z.of_nat
                             (length (filter (barrier_eqb (arr, s)) bs)))).
    + rewrite zsum_add_nat. cbn [filter fst].
      destruct (bar_array_eq_dec arr arr') as [->|Hne].
      * destruct (bar_array_eq_dec arr' arr'); [|contradiction].
        cbn [andb length]. rewrite zsum_indicator_nat.
        destruct ((0 <=? i) && (i <? Z.of_nat n)); lia.
      * destruct (bar_array_eq_dec arr' arr); [congruence|].
        cbn [andb]. rewrite zsum_zero_nat by (intros; reflexivity). lia.
    + intros s _. cbn [filter]. unfold barrier_eqb at 1. cbn [fst snd].
      destruct ((if bar_array_eq_dec arr arr' then true else false)
                && (s =? i)); cbn [length]; lia.
Qed.

Lemma act_loop_arrivals (a : kernel_args) (k : nat) :
  forall cnt,
    arrivals_on_array producer_qk0 (fst (act_loop a false k cnt))
    = Z.of_nat k.
Proof.
  induction k as [|k IH]; intros cnt; [reflexivity|].
  rewrite act_loop_S. cbn [fst]. rewrite arrivals_on_array_app, IH.
  replace (arrivals_on_array producer_qk0 (act_loop_body a false cnt)) with 1;
    [lia|].
  unfold act_loop_body. destruct (PINGPONG a), (NAME_BARRIER a); reflexivity.
Qed.

Lemma act_partition_arrivals (a : kernel_args) (u : Z) :
  arrivals_on_array producer_qk0 (act_partition a false u)
  = Z.of_nat (list_sum (map (tile_act_steps a) (prog_tiles a u))).
Proof.
  unfold act_partition. cbn [andb app].
  generalize act_init.
  induction (prog_tiles a u) as [|t ts IH]; intros st; [reflexivity|].
  rewrite run_tiles_cons. cbn [fst map].
  change (list_sum (tile_act_steps a t :: map (tile_act_steps a) ts))
    with (tile_act_steps a t + list_sum (map (tile_act_steps a) ts))%nat.
  rewrite arrivals_on_array_app, IH, Nat2Z.inj_add. f_equal.
  rewrite act_tile_eq. unfold tile_act_steps.
  destruct (tile_active a t); [|reflexivity].
  cbn [fst]. rewrite arrivals_on_array_app, act_loop_arrivals.
  unfold act_epilogue. destruct (MERGE_EPI a); cbn; lia.
Qed.

Lemma mma_tile_events_qk0_count (a : kernel_args) (t : Z) (st : mma_state) :
  acq_events producer_qk0 (fst (mma_tile a t st))
  = canon (NUM_BUFFERS_QK a) false (accum_cnt_qk st) (tile_scores a t)
  /\ accum_cnt_qk (snd (mma_tile a t st))
     = accum_cnt_qk st + Z.of_nat (tile_scores a t).
Proof.
  unfold mma_tile, tile_scores, key_blocks. destruct (tile_active a t).
  - destruct (mma_tile_body_eq a (klen (_compute_qlen a t)) st) as [-> ->].
    set (n := range_count _ _ _).
    set (s1 := snd (mma_loop a (mma_env a st) n (mma_loop_init a st))).
    destruct (mma_epilogue_state a st (mma_env a st) s1) as [_ ->].
    destruct (mma_loop_counters a (mma_env a st) n (mma_loop_init a st))
      as (Hqk & _ & _).
    fold s1 in Hqk.
    change (l_accum_cnt_qk (mma_loop_init a st)) with (accum_cnt_qk st + 1)
      in Hqk.
    split; [|lia].
    destruct (mma_prologue_events a st) as (_ & _ & P0 & _).
    destruct (mma_epilogue_events a st s1) as (_ & _ & E0 & _).
    rewrite !acq_events_app, mma_loop_events_qk0, P0, E0, app_nil_r.
    change (l_accum_cnt_qk (mma_loop_init a st)) with (accum_cnt_qk st + 1).
    change (S n) with (1 + n)%nat. rewrite canon_app, canon_1. reflexivity.
  - split; [reflexivity|cbn; lia].
Qed.

Lemma mma_partition_waits_qk0 (a : kernel_args) (u : Z) :
  count_ops (is_wait_on producer_qk0) (mma_partition a u)
  = Z.of_nat (list_sum (map (tile_scores a) (prog_tiles a u))).
Proof.
  rewrite count_waits_length. unfold mma_partition.
  destruct (run_tiles_events_sum (mma_tile a) producer_qk0
              (NUM_BUFFERS_QK a) false accum_cnt_qk (tile_scores a)
              (mma_tile_events_qk0_count a) (prog_tiles a u) mma_init)
    as [-> _].
  now rewrite canon_length.
Qed.

(** An activation partition makes one step per key block; the gemm
    partition takes one score tile per key block and at least one. *)
Lemma act_steps_le_scores (a : kernel_args) (t : Z) :
  0 < BLOCK_N a ->
  (tile_act_steps a t <= tile_scores a t)%nat
  /\ (tile_active a t = true -> klen (_compute_qlen a t) <= 0 ->
      (tile_act_steps a t < tile_scores a t)%nat).
Proof.
  intros HB. unfold tile_act_steps, tile_scores, key_blocks, range_count.
  set (k := klen (_compute_qlen a t)). set (B := BLOCK_N a) in *.
  replace (k - 0 + B - 1) with (k - B + B - 1 + 1 * B) by lia.
  rewrite Z.div_add by lia.
  destruct (tile_active a t); split; try lia; try discriminate.
  intros _ Hk.
  assert ((k - B + B - 1) / B < 0)
    by (apply Z.div_lt_upper_bound; lia).
  lia.
Qed.

Lemma list_sum_le_lt (f g : Z -> nat) (l : list Z) (t : Z) :
  (forall x, (f x <= g x)%nat) -> In t l -> (f t < g t)%nat ->
  (list_sum (map f l) < list_sum (map g l))%nat.
Proof.
  intros Hle Hin Hlt.
  assert (Hall : forall l', (list_sum (map f l') <= list_sum (map g l'))%nat).
  { induction l' as [|x l' IH]; [cbn; lia|].
    cbn [map]. change (list_sum (?y :: ?r)) with (y + list_sum r)%nat.
    specialize (Hle x). cbn [list_sum fold_right] in *. lia. }
  induction l as [|x l IH]; [destruct Hin|].
  cbn [map list_sum fold_right].
  fold (list_sum (map f l)). fold (list_sum (map g l)).
  destruct Hin as [->|Hin].
  - specialize (Hall l). lia.
  - specialize (IH Hin). specialize (Hle x). lia.
Qed.

(** X18. When a program has an active tile whose key sequence is empty,
    its gemm partition never comes to the end of its operations: it waits
    for one activated tile per key block and for at least one per tile,
    the activation partition produces one per key block and so none for
    that tile, and over the whole program one of the waits is left
    without an arrival. *)
Theorem empty_keys_stall_gemm (a : kernel_args) (u t : Z) (m : machine)
    (tg : task) :
  0 < BLOCK_N a -> 1 <= NUM_BUFFERS_QK a -> 1 <= NUM_BUFFERS_O a ->
  In t (prog_tiles a u) -> tile_active a t = true ->
  klen (_compute_qlen a t) <= 0 ->
  reachable a u m -> nth_error (tasks m) 2 = Some tg ->
  todo tg <> [].
Proof.
  intros HB HQK HO Hin Hact Hk Hr Hg Hdone.
  destruct (reachable_five_tasks a u m Hr)
    as (t0 & t1 & t2 & t3 & t4 & E & Q0 & _ & Q2 & _).
  rewrite E in Hg. cbn [nth_error] in Hg. inversion Hg; subst t2. clear Hg.
  rewrite Hdone, app_nil_r in Q2.
  (* the waits of the gemm partition against the phases completed *)
  destruct (mma_partition_phased a u HQK HO) as (_ & _ & M0 & _).
  assert (E2 : nth_error (kernel_tasks a u) 2 = Some (mma_partition a u))
    by reflexivity.
  pose proof (inv_acq_reachable a u producer_qk0 _ false 2 _ m E2 M0 Hr)
    as Hinv.
  assert (Hn2 : nth_error (tasks m) 2 = Some tg) by (now rewrite E).
  pose proof (inv_acq_bound _ _ _ _ _ m tg HQK M0 Hinv Hn2) as Hb.
  rewrite Q2, mma_partition_waits_qk0 in Hb.
  rewrite (zsum_slack_qk producer_qk0 _ (or_introl eq_refl)) in Hb by lia.
  (* the phases completed against the arrivals of the activation *)
  assert (Hn0 : nth_error (tasks m) 0 = Some t0) by (now rewrite E).
  assert (Hs : zsum (fun s => bars m (producer_qk0, s)
                              - init_bars (producer_qk0, s))
                 (NUM_BUFFERS_QK a)
               <= arrivals_on_array producer_qk0 (done t0)).
  { rewrite <- (Z2Nat.id (NUM_BUFFERS_QK a)) by lia.
    etransitivity; [|apply (arrivals_on_slots producer_qk0 (done t0))].
    apply zsum_le_nat. intros s _.
    pose proof (owner_accounting a u m producer_qk0 s t0 Hr Hn0) as Hacc.
    pose proof (count_in_nonneg (producer_qk0, s) (pending m)).
    rewrite (init_bars_zero producer_qk0 s ltac:(discriminate)) in *. lia. }
  assert (Hp : arrivals_on_array producer_qk0 (done t0)
               <= arrivals_on_array producer_qk0 (act_partition a false u)).
  { rewrite <- Q0, arrivals_on_array_app.
    pose proof (arrivals_on_array_nonneg producer_qk0 (todo t0)). lia. }
  rewrite act_partition_arrivals in Hp.
  pose proof (list_sum_le_lt (tile_act_steps a) (tile_scores a)
                (prog_tiles a u) t
                (fun x => proj1 (act_steps_le_scores a x HB)) Hin
                (proj2 (act_steps_le_scores a t HB) Hact Hk)).
  lia.
Qed.

Lemma empty_keys_stall_gemm_witness :
  todo {| done := []; todo := mma_partition example_empty_keys 0 |} <> [].
Proof.
  apply (empty_keys_stall_gemm example_empty_keys 0 0
           (init_machine example_empty_keys 0)).
  - cbn. lia.
  - cbn. lia.
  - cbn. lia.
  - vm_compute. tauto.
  - vm_compute. reflexivity.
  - vm_compute. discriminate.
  - apply reachable_init.
  - reflexivity.
Defined.
(** *** The byte counts of the bulk loads *)

Lemma loads_armed_app (a : kernel_args) (eb : Z) (l1 l2 : list op) :
  loads_armed a eb l1 = true ->
  loads_armed a eb (l1 ++ l2) = loads_armed a eb l2.
Proof.
  assert (H : forall n l, (length l <= n)%nat ->
                loads_armed a eb l = true ->
                loads_armed a eb (l ++ l2) = loads_armed a eb l2).
  { induction n as [|n IH]; intros l Hl Ha.
    - destruct l; [reflexivity|cbn in Hl; lia].
    - destruct l as [|o r]; [reflexivity|].
      cbn [length] in Hl.
      destruct o; cbn [loads_armed app] in *;
        try (apply IH; [lia|exact Ha]); try discriminate.
      destruct r as [|o' r']; [discriminate|].
      destruct o'; try discriminate.
      cbn [app]. apply andb_prop in Ha. destruct Ha as [Hc Hr].
      rewrite Hc. cbn [andb]. apply IH; [cbn [length] in Hl; lia|exact Hr]. }
  apply (H (length l1)). lia.
Qed.

Lemma load_kv_armed (a : kernel_args) (eb : Z) (t : tensor) (cnt row kvo : Z)
    (rest : list op) :
  t = tK \/ t = tV ->
  loads_armed a eb (load_kv a t cnt row kvo ++ rest)
  = (BLOCK_N a * BLOCK_D a * 2 =? eb * (BLOCK_N a * BLOCK_D a))
    && loads_armed a eb rest.
Proof.
  intros Ht. unfold load_kv, _get_bufidx_phase.
  cbn [app loads_armed]. rewrite barrier_eqb_refl.
  destruct Ht as [-> | ->]; reflexivity.
Qed.

Lemma load_q_armed (a : kernel_args) (eb : Z) (release full : bar_array)
    (buf : buf_array) (idx ph row qo : Z) (rest : list op) :
  loads_armed a eb (load_q a release full buf idx ph row qo ++ rest)
  = (BLOCK_M a / 2 * BLOCK_D a * 2 =? eb * (BLOCK_M a / 2 * BLOCK_D a))
    && loads_armed a eb rest.
Proof.
  unfold load_q. cbn [app loads_armed]. rewrite barrier_eqb_refl.
  reflexivity.
Qed.

Lemma load_loop_armed (a : kernel_args) (bk kvo : Z) (k : nat) :
  forall sn cnt, loads_armed a 2 (fst (load_loop a bk kvo k sn cnt)) = true.
Proof.
  induction k as [|k IH]; intros sn cnt; [reflexivity|].
  rewrite load_loop_S. cbn [fst]. unfold load_loop_body.
  rewrite <- app_assoc.
  rewrite !load_kv_armed by tauto. rewrite IH.
  replace (BLOCK_N a * BLOCK_D a * 2 =? 2 * (BLOCK_N a * BLOCK_D a))
    with true by (symmetry; apply Z.eqb_eq; lia).
  reflexivity.
Qed.

Lemma load_tile_armed (a : kernel_args) (t : Z) (st : load_state) :
  loads_armed a 2 (fst (load_tile a t st)) = true.
Proof.
  unfold load_tile. destruct (tile_active a t); [|reflexivity].
  destruct (load_tile_body_eq a t st) as [-> _].
  rewrite load_q_armed, load_kv_armed, load_q_armed, load_kv_armed by tauto.
  rewrite load_loop_armed.
  replace (BLOCK_N a * BLOCK_D a * 2 =? 2 * (BLOCK_N a * BLOCK_D a))
    with true by (symmetry; apply Z.eqb_eq; lia).
  replace (BLOCK_M a / 2 * BLOCK_D a * 2 =? 2 * (BLOCK_M a / 2 * BLOCK_D a))
    with true by (symmetry; apply Z.eqb_eq; lia).
  reflexivity.
Qed.

Lemma load_tile_misarmed (a : kernel_args) (eb : Z) (t : Z) (st : load_state)
    (rest : list op) :
  0 < BLOCK_M a / 2 -> 0 < BLOCK_D a -> eb <> 2 ->
  tile_active a t = true ->
  loads_armed a eb (fst (load_tile a t st) ++ rest) = false.
Proof.
  intros HM HD Heb Hact. unfold load_tile. rewrite Hact.
  destruct (load_tile_body_eq a t st) as [-> _].
  rewrite <- !app_assoc. rewrite load_q_armed.
  destruct (Z.eqb_spec (BLOCK_M a / 2 * BLOCK_D a * 2)
              (eb * (BLOCK_M a / 2 * BLOCK_D a))) as [E|E];
    [|reflexivity].
  exfalso. apply Heb.
  assert (0 < BLOCK_M a / 2 * BLOCK_D a) by nia. nia.
Qed.

(** X15.  In the load partition the bulk loads and the byte counts armed
    before them go in pairs: every [tlx.barrier_expect_bytes] is directly
    followed by the bulk load that arrives on the barrier it arms, no load
    is issued otherwise, and the count armed is twice the number of
    elements of the box of the load.  So the count armed is the size of
    the box when the elements are 2 bytes wide; for elements of any other
    size, a program with an active tile arms a count that differs from the
    bytes of the box it loads. *)
Theorem loads_armed_for_two_bytes (a : kernel_args) (u : Z) (elem_bytes : Z) :
  0 < BLOCK_M a / 2 -> 0 < BLOCK_D a ->
  loads_armed a 2 (load_partition a u) = true
  /\ (elem_bytes <> 2 ->
      (exists t, In t (prog_tiles a u) /\ tile_active a t = true) ->
      loads_armed a elem_bytes (load_partition a u) = false).
Proof.
  intros HM HD. unfold load_partition. split.
  - generalize load_init.
    induction (prog_tiles a u) as [|t ts IH]; intros st; [reflexivity|].
    rewrite run_tiles_cons. cbn [fst].
    rewrite loads_armed_app by apply load_tile_armed. apply IH.
  - intros Heb (t & Hin & Hact). revert Hin. generalize load_init.
    induction (prog_tiles a u) as [|t0 ts IH]; intros st Hin;
      [destruct Hin|].
    rewrite run_tiles_cons. cbn [fst].
    destruct (tile_active a t0) eqn:E0.
    + apply load_tile_misarmed; assumption.
    + destruct Hin as [-> | Hin]; [congruence|].
      assert (Hl : load_tile a t0 st = ([], st))
        by (unfold load_tile; rewrite E0; reflexivity).
      rewrite Hl. cbn [fst snd app]. apply IH. exact Hin.
Qed.

Lemma loads_armed_for_two_bytes_witness :
  loads_armed example_args 2 (load_partition example_args 3) = true
  /\ loads_armed example_args 4 (load_partition example_args 3) = false.
Proof.
  destruct (loads_armed_for_two_bytes example_args 3 4) as [H2 H4];
    [cbn; lia | cbn; lia |].
  split; [exact H2|].
  apply H4; [discriminate|].
  exists 3. split; vm_compute; [left|]; reflexivity.
Defined.
(** *** Arguments the forward path does not use *)

Lemma mma_loop_options (a : kernel_args) (s : R) (w : option Z) (act : Z)
    (e : mma_tile_env) (k : nat) :
  let a' := with_kernel_options a s w act in
  forall st, mma_loop a' e k st = mma_loop a e k st.
Proof.
  intros a'. induction k as [|k IH]; intros st; [reflexivity|].
  cbn [mma_loop].
  change (mma_loop_body a' e st) with (mma_loop_body a e st).
  destruct (mma_loop_body a e st) as [ops st']. now rewrite IH.
Qed.

Lemma mma_tile_options (a : kernel_args) (s : R) (w : option Z) (act : Z)
    (t : Z) (st : mma_state) :
  mma_tile (with_kernel_options a s w act) t st = mma_tile a t st.
Proof.
  set (a' := with_kernel_options a s w act). unfold mma_tile.
  change (tile_active a' t) with (tile_active a t).
  change (klen (_compute_qlen a' t)) with (klen (_compute_qlen a t)).
  destruct (tile_active a t); [|reflexivity].
  unfold mma_tile_body.
  change (mma_prologue a' st) with (mma_prologue a st).
  destruct (mma_prologue a st) as [[pro e] s0].
  change (BLOCK_N a') with (BLOCK_N a).
  rewrite (mma_loop_options a s w act).
  destruct (mma_loop a e _ s0) as [body s1]. reflexivity.
Qed.

Lemma load_loop_options (a : kernel_args) (s : R) (w : option Z) (act : Z)
    (bk kvo : Z) (k : nat) :
  let a' := with_kernel_options a s w act in
  forall sn cnt, load_loop a' bk kvo k sn cnt = load_loop a bk kvo k sn cnt.
Proof.
  intros a'. induction k as [|k IH]; intros sn cnt; [reflexivity|].
  cbn [load_loop]. rewrite IH. reflexivity.
Qed.

Lemma load_tile_options (a : kernel_args) (s : R) (w : option Z) (act : Z)
    (t : Z) (st : load_state) :
  load_tile (with_kernel_options a s w act) t st = load_tile a t st.
Proof.
  set (a' := with_kernel_options a s w act). unfold load_tile.
  change (tile_active a' t) with (tile_active a t).
  destruct (tile_active a t); [|reflexivity].
  unfold load_tile_body. rewrite (load_loop_options a s w act). reflexivity.
Qed.

Lemma act_loop_options (a : kernel_args) (s : R) (w : option Z) (act : Z)
    (second : bool) (k : nat) :
  let a' := with_kernel_options a s w act in
  forall cnt, act_loop a' second k cnt = act_loop a second k cnt.
Proof.
  intros a'. induction k as [|k IH]; intros cnt; [reflexivity|].
  cbn [act_loop]. rewrite IH. reflexivity.
Qed.

Lemma act_tile_options (a : kernel_args) (s : R) (w : option Z) (act : Z)
    (second : bool) (t : Z) (st : act_state) :
  act_tile (with_kernel_options a s w act) second t st
  = act_tile a second t st.
Proof.
  set (a' := with_kernel_options a s w act). unfold act_tile.
  change (tile_active a' t) with (tile_active a t).
  destruct (tile_active a t); [|reflexivity].
  rewrite (act_loop_options a s w act). reflexivity.
Qed.

Lemma kernel_tasks_options (a : kernel_args) (s : R) (w : option Z)
    (act : Z) (prog_id : Z) :
  kernel_tasks (with_kernel_options a s w act) prog_id
  = kernel_tasks a prog_id.
Proof.
  set (a' := with_kernel_options a s w act).
  unfold kernel_tasks, act_partition, mma_partition, load_partition,
    epilogue_partition.
  change (prog_tiles a' prog_id) with (prog_tiles a prog_id).
  rewrite (run_tiles_ext (act_tile a' false) (act_tile a false))
    by apply act_tile_options.
  rewrite (run_tiles_ext (act_tile a' true) (act_tile a true))
    by apply act_tile_options.
  rewrite (run_tiles_ext (mma_tile a') (mma_tile a))
    by apply mma_tile_options.
  rewrite (run_tiles_ext (load_tile a') (load_tile a))
    by apply load_tile_options.
  reflexivity.
Qed.


(** X12. Two calls of [gdpa_forward_tlx] that differ only in the
    activation name, both names being known to
    [activation_string_to_int], raise the same error or are both launched,
    with kernel arguments that differ only in [activation_enum_int]; and
    the kernel issues the same operations and stores to the same elements
    for every value of [activation_enum_int]. *)
Theorem forward_ignores_activation_name (env : host_env) (x : forward_args)
    (n1 n2 : String.string) (a : kernel_args) (act' : Z) (prog_id : Z) :
  activation_string_to_int env n1 <> None ->
  activation_string_to_int env n2 <> None ->
  match host_checks env (with_activation x n1),
        host_checks env (with_activation x n2) with
  | Raised e1, Raised e2 => e1 = e2
  | Returned (bd1, act1), Returned (bd2, act2) =>
      bd1 = bd2
      /\ launch_args env (with_activation x n1) bd1 act1
         = with_kernel_options (launch_args env (with_activation x n2) bd2 act2)
             (qk_scale (launch_args env (with_activation x n2) bd2 act2))
             (WINDOW_SIZE (launch_args env (with_activation x n2) bd2 act2))
             act1
  | _, _ => False
  end
  /\ kernel_tasks (with_kernel_options a (qk_scale a) (WINDOW_SIZE a) act')
       prog_id
     = kernel_tasks a prog_id
  /\ kernel_footprints
       (with_kernel_options a (qk_scale a) (WINDOW_SIZE a) act')
     = kernel_footprints a.
Proof.
  intros H1 H2. split; [|split].
  - unfold host_checks.
    change (shape_2 (query (with_activation x n1)))
      with (shape_2 (query x)).
    change (shape_2 (query (with_activation x n2)))
      with (shape_2 (query x)).
    destruct (next_power_of_2 (shape_2 (query x))) as [p|]; [|reflexivity].
    cbv zeta.
    change (broadcast_q (with_activation x n1)) with (broadcast_q x).
    change (broadcast_q (with_activation x n2)) with (broadcast_q x).
    change (use_start_end_offsets (with_activation x n1))
      with (use_start_end_offsets x).
    change (use_start_end_offsets (with_activation x n2))
      with (use_start_end_offsets x).
    change (total_num_objects (with_activation x n1))
      with (total_num_objects x).
    change (total_num_objects (with_activation x n2))
      with (total_num_objects x).
    change (key_offset (with_activation x n1)) with (key_offset x).
    change (key_offset (with_activation x n2)) with (key_offset x).
    change (query_offset (with_activation x n1)) with (query_offset x).
    change (query_offset (with_activation x n2)) with (query_offset x).
    change (query (with_activation x n1)) with (query x).
    change (query (with_activation x n2)) with (query x).
    change (key (with_activation x n1)) with (key x).
    change (key (with_activation x n2)) with (key x).
    destruct (torch_empty_check _); [reflexivity|].
    destruct (shape_1 (key x) =? 0); [reflexivity|].
    destruct (negb _); [reflexivity|].
    destruct (shape_1 (query x) / shape_1 (key x) =? 0); [reflexivity|].
    change (activation (with_activation x n1)) with n1.
    change (activation (with_activation x n2)) with n2.
    destruct (activation_string_to_int env n1) as [a1|]; [|contradiction].
    destruct (activation_string_to_int env n2) as [a2|]; [|contradiction].
    split; reflexivity.
  - apply kernel_tasks_options.
  - reflexivity.
Qed.

Lemma forward_ignores_activation_name_witness :
  match host_checks example_env (with_activation example_padded "raw"),
        host_checks example_env (with_activation example_padded "fast_gelu")
  with
  | Raised e1, Raised e2 => e1 = e2
  | Returned (bd1, act1), Returned (bd2, act2) =>
      bd1 = bd2
      /\ launch_args example_env (with_activation example_padded "raw")
           bd1 act1
         = with_kernel_options
             (launch_args example_env
                (with_activation example_padded "fast_gelu") bd2 act2)
             (qk_scale
                (launch_args example_env
                   (with_activation example_padded "fast_gelu") bd2 act2))
             (WINDOW_SIZE
                (launch_args example_env
                   (with_activation example_padded "fast_gelu") bd2 act2))
             act1
  | _, _ => False
  end
  /\ kernel_tasks
       (with_kernel_options example_args (qk_scale example_args)
          (WINDOW_SIZE example_args) 3) 0
     = kernel_tasks example_args 0
  /\ kernel_footprints
       (with_kernel_options example_args (qk_scale example_args)
          (WINDOW_SIZE example_args) 3)
     = kernel_footprints example_args.
Proof.
  apply (forward_ignores_activation_name example_env example_padded
           "raw"%string "fast_gelu"%string example_args 3 0);
    cbn; discriminate.
Defined.
(** *** The forward activation as a function *)

Lemma cosh_pos (x : R) : (0 < cosh x)%R.
Proof.
  unfold cosh. pose proof (exp_pos x). pose proof (exp_pos (- x)). lra.
Qed.

Lemma tanh_lt_1 (x : R) : (tanh x < 1)%R.
Proof.
  pose proof (cosh_pos x) as Hc. pose proof (exp_pos (- x)) as He.
  replace (tanh x) with (1 - exp (- x) / cosh x)%R.
  - assert (0 < exp (- x) / cosh x)%R by (apply Rdiv_lt_0_compat; lra). lra.
  - unfold tanh, sinh. unfold cosh in *. field. lra.
Qed.

Lemma tanh_gt_m1 (x : R) : (-1 < tanh x)%R.
Proof.
  pose proof (cosh_pos x) as Hc. pose proof (exp_pos x) as He.
  replace (tanh x) with (exp x / cosh x - 1)%R.
  - assert (0 < exp x / cosh x)%R by (apply Rdiv_lt_0_compat; lra). lra.
  - unfold tanh, sinh. unfold cosh in *. field. lra.
Qed.

Lemma tanh_opp (x : R) : tanh (- x) = (- tanh x)%R.
Proof.
  pose proof (cosh_pos x) as Hc.
  unfold tanh, sinh. unfold cosh in *. rewrite Ropp_involutive. field. lra.
Qed.

Lemma tanh_sign (x : R) :
  ((0 <= x -> 0 <= tanh x) /\ (x <= 0 -> tanh x <= 0))%R.
Proof.
  split; intros H.
  - destruct H as [H| <-]; [left; now apply tanh_pos|].
    unfold tanh. rewrite sinh_0. lra.
  - destruct H as [H| ->].
    + assert (0 < tanh (- x))%R by (apply tanh_pos; lra).
      rewrite tanh_opp in *. lra.
    + unfold tanh. rewrite sinh_0. lra.
Qed.

(** X13. What the activation partitions compute in line on a score [x] is
    [fast_gelu(x)], the function the module defines and the kernel does
    not call.  It vanishes at 0, lies between [x] and [x + |x|] (between
    [x] and [2 x] for a positive score, between [x] and 0 for a negative
    one), and satisfies [fast_gelu(x) - fast_gelu(-x) = 2 x]: it is twice
    the tanh approximation of GELU with the coefficients [c0] and [c1]. *)
Theorem fast_gelu_shape (x : R) :
  fwd_activation_half x = fast_gelu x
  /\ fast_gelu 0 = 0%R
  /\ (x <= fast_gelu x <= x + Rabs x)%R
  /\ (fast_gelu x - fast_gelu (- x) = 2 * x)%R
  /\ fast_gelu x
     = (2 * (0.5 * x
             * (1 + tanh (0.7978845608 * x + 0.0356774081 * (x * x * x)))))%R.
Proof.
  assert (F : forall y, fast_gelu y
              = (y * tanh ((0.0356774081 * (y * y) + 0.7978845608) * y)
                 + y)%R)
    by (intros y; reflexivity).
  split; [reflexivity|]. split; [|split; [|split]].
  - rewrite F. ring.
  - rewrite F.
    set (u := ((0.0356774081 * (x * x) + 0.7978845608) * x)%R).
    pose proof (tanh_lt_1 u) as H1. pose proof (tanh_gt_m1 u) as H2.
    destruct (tanh_sign u) as [Hp Hn].
    assert (Hsq : (0 <= x * x)%R) by nra.
    destruct (Rle_lt_dec 0 x) as [Hx|Hx].
    + rewrite Rabs_right by lra.
      assert (0 <= u)%R by (subst u; nra).
      specialize (Hp ltac:(lra)). nra.
    + rewrite Rabs_left by lra.
      assert (u <= 0)%R by (subst u; nra).
      specialize (Hn ltac:(lra)). nra.
  - rewrite !F.
    replace ((0.0356774081 * (- x * - x) + 0.7978845608) * - x)%R
      with (- ((0.0356774081 * (x * x) + 0.7978845608) * x))%R by ring.
    rewrite tanh_opp. ring.
  - rewrite F.
    replace ((0.0356774081 * (x * x) + 0.7978845608) * x)%R
      with (0.7978845608 * x + 0.0356774081 * (x * x * x))%R by ring.
    set (t := tanh _). lra.
Qed.
(** *** The rows and columns the load partition asks for *)

Lemma load_coords_app (t : tensor) (l1 l2 : list op) :
  load_coords t (l1 ++ l2) = load_coords t l1 ++ load_coords t l2.
Proof. apply flat_map_app. Qed.

Lemma load_loop_coords (a : kernel_args) (bk kvo : Z) (k : nat) :
  forall sn cnt,
    load_coords tK (fst (load_loop a bk kvo k sn cnt))
    = map (fun j => (to_int32 (bk + (sn + Z.of_nat j * BLOCK_N a)),
                     to_int32 kvo)) (seq 0 k)
    /\ load_coords tV (fst (load_loop a bk kvo k sn cnt))
       = map (fun j => (to_int32 (bk + (sn + Z.of_nat j * BLOCK_N a)),
                        to_int32 kvo)) (seq 0 k)
    /\ load_coords tQ (fst (load_loop a bk kvo k sn cnt)) = [].
Proof.
  induction k as [|k IH]; intros sn cnt; [repeat split|].
  rewrite load_loop_S. cbn [fst]. rewrite !load_coords_app.
  destruct (IH (sn + BLOCK_N a) (cnt + 2)) as (-> & -> & ->).
  assert (E : map (fun j => (to_int32 (bk + (sn + Z.of_nat j * BLOCK_N a)),
                             to_int32 kvo)) (seq 0 (S k))
              = (to_int32 (bk + sn), to_int32 kvo)
                :: map (fun j =>
                          (to_int32 (bk + (sn + BLOCK_N a
                                           + Z.of_nat j * BLOCK_N a)),
                           to_int32 kvo)) (seq 0 k)).
  { cbn [seq map]. rewrite <- seq_shift, map_map.
    f_equal; [ try (do 2 f_equal; lia) ..
             | apply map_ext; intros j; do 2 f_equal; lia ]. }
  rewrite E. unfold load_loop_body, load_kv.
  destruct (_get_bufidx_phase cnt (NUM_BUFFERS_KV a)).
  destruct (_get_bufidx_phase (cnt + 1) (NUM_BUFFERS_KV a)).
  repeat split.
Qed.

(** The number of key blocks of a tile is the number of blocks of
    [BLOCK_N] rows that cover its keys, and one when it has no key. *)
Lemma key_blocks_bounds (a : kernel_args) (k : Z) :
  0 < BLOCK_N a ->
  (1 <= k ->
   (Z.of_nat (key_blocks a k) - 1) * BLOCK_N a < k
   <= Z.of_nat (key_blocks a k) * BLOCK_N a)
  /\ (k <= 0 -> key_blocks a k = 1%nat).
Proof.
  intros HB. unfold key_blocks, range_count.
  replace (k - BLOCK_N a + BLOCK_N a - 1) with (k - 1) by lia.
  split; intros Hk.
  - rewrite Nat2Z.inj_succ, Z2Nat.id by (apply Z.div_pos; lia).
    pose proof (Z.mul_div_le (k - 1) (BLOCK_N a) HB).
    pose proof (Z.mul_succ_div_gt (k - 1) (BLOCK_N a) HB).
    nia.
  - assert ((k - 1) / BLOCK_N a < 0) by (apply Z.div_lt_upper_bound; lia).
    f_equal. lia.
Qed.

(** X19.  The rows the load partition asks for, for a tile it processes.
    K and V are loaded at the same coordinates, one block per key block [j]
    at row [begin_k + j * BLOCK_N] of the key/value head of the tile; the
    blocks are as many as cover the keys of the sequence, so that the last
    one reaches at most [BLOCK_N - 1] rows past them, and there is one
    block even when the sequence has no key.  The two halves of Q are
    loaded at the rows at which the epilogue partition stores the two
    halves of the output. *)
Theorem load_tile_coordinates (a : kernel_args) (t : Z) (st : load_state)
    (cnt_outer : Z) :
  0 < BLOCK_N a ->
  tile_active a t = true ->
  let info := _compute_qlen a t in
  let nb := key_blocks a (klen info) in
  let row0 := begin_q info + start_m_of a t * BLOCK_M a in
  let ops := fst (load_tile a t st) in
  load_coords tK ops
  = map (fun j => (to_int32 (begin_k info + Z.of_nat j * BLOCK_N a),
                   to_int32 (Z.quot (off_h_of a t) (G_ a) * stride_kh a)))
        (seq 0 nb)
  /\ load_coords tV ops = load_coords tK ops
  /\ load_coords tQ ops
     = [ (to_int32 row0, to_int32 (off_h_of a t * stride_qh a));
         (to_int32 (row0 + BLOCK_M a / 2),
          to_int32 (off_h_of a t * stride_qh a)) ]
  /\ map fst (load_coords tQ ops)
     = map fst (store_coords (fst (epilogue_tile a t cnt_outer)))
  /\ (1 <= klen info ->
      (Z.of_nat nb - 1) * BLOCK_N a < klen info <= Z.of_nat nb * BLOCK_N a)
  /\ (klen info <= 0 -> nb = 1%nat).
Proof.
  intros HB Hact. cbv zeta.
  assert (EK : load_coords tK (fst (load_tile a t st))
               = map (fun j =>
                        (to_int32 (begin_k (_compute_qlen a t)
                                   + Z.of_nat j * BLOCK_N a),
                         to_int32 (Z.quot (off_h_of a t) (G_ a)
                                   * stride_kh a)))
                     (seq 0 (key_blocks a (klen (_compute_qlen a t))))
               /\ load_coords tV (fst (load_tile a t st))
                  = load_coords tK (fst (load_tile a t st))
               /\ load_coords tQ (fst (load_tile a t st))
                  = [ (to_int32 (begin_q (_compute_qlen a t)
                                 + start_m_of a t * BLOCK_M a),
                       to_int32 (off_h_of a t * stride_qh a));
                      (to_int32 (begin_q (_compute_qlen a t)
                                 + start_m_of a t * BLOCK_M a
                                 + BLOCK_M a / 2),
                       to_int32 (off_h_of a t * stride_qh a)) ]).
  { unfold load_tile. rewrite Hact.
    destruct (load_tile_body_eq a t st) as [-> _].
    rewrite !load_coords_app.
    set (kvo := Z.quot (off_h_of a t) (G_ a) * stride_kh a).
    set (k := range_count _ _ _).
    destruct (load_loop_coords a (begin_k (_compute_qlen a t)) kvo k
                (BLOCK_N a) (ld_accum_cnt_kv st + 2)) as (-> & -> & ->).
    unfold load_q, load_kv.
    destruct (_get_bufidx_phase (ld_accum_cnt_kv st) (NUM_BUFFERS_KV a)).
    destruct (_get_bufidx_phase (ld_accum_cnt_kv st + 1) (NUM_BUFFERS_KV a)).
    cbn [load_coords flat_map app].
    assert (E : map (fun j =>
                       (to_int32 (begin_k (_compute_qlen a t)
                                  + Z.of_nat j * BLOCK_N a),
                        to_int32 kvo))
                    (seq 0 (key_blocks a (klen (_compute_qlen a t))))
                = (to_int32 (begin_k (_compute_qlen a t) + 0), to_int32 kvo)
                  :: map (fun j =>
                            (to_int32 (begin_k (_compute_qlen a t)
                                       + (BLOCK_N a
                                          + Z.of_nat j * BLOCK_N a)),
                             to_int32 kvo)) (seq 0 k)).
    { unfold key_blocks. fold k. cbn [seq map].
      rewrite <- seq_shift, map_map.
      f_equal; [ try (do 2 f_equal; lia) ..
               | apply map_ext; intros j; do 2 f_equal; lia ]. }
    rewrite E. repeat split. }
  destruct EK as (EK & EV & EQ).
  repeat split; try assumption.
  - rewrite EQ. unfold epilogue_tile. rewrite Hact. reflexivity.
  - apply key_blocks_bounds; assumption.
  - apply key_blocks_bounds; assumption.
  - apply key_blocks_bounds; assumption.
Qed.

Lemma load_tile_coordinates_witness :
  let a := example_args in
  let info := _compute_qlen a 3 in
  let nb := key_blocks a (klen info) in
  let row0 := begin_q info + start_m_of a 3 * BLOCK_M a in
  let ops := fst (load_tile a 3 load_init) in
  load_coords tK ops
  = map (fun j => (to_int32 (begin_k info + Z.of_nat j * BLOCK_N a),
                   to_int32 (Z.quot (off_h_of a 3) (G_ a) * stride_kh a)))
        (seq 0 nb)
  /\ load_coords tV ops = load_coords tK ops
  /\ load_coords tQ ops
     = [ (to_int32 row0, to_int32 (off_h_of a 3 * stride_qh a));
         (to_int32 (row0 + BLOCK_M a / 2),
          to_int32 (off_h_of a 3 * stride_qh a)) ]
  /\ map fst (load_coords tQ ops)
     = map fst (store_coords (fst (epilogue_tile a 3 0)))
  /\ (1 <= klen info ->
      (Z.of_nat nb - 1) * BLOCK_N a < klen info <= Z.of_nat nb * BLOCK_N a)
  /\ (klen info <= 0 -> nb = 1%nat).
Proof.
  apply (load_tile_coordinates example_args 3 load_init 0).
  - cbn. lia.
  - vm_compute. reflexivity.
Defined.
(** *** What no barrier orders *)

Lemma run_tiles_no_events {St : Type} (body : Z -> St -> list op * St)
    (arr : bar_array) :
  (forall t st, acq_events arr (fst (body t st)) = []) ->
  forall tiles st, acq_events arr (fst (run_tiles body tiles st)) = [].
Proof.
  intros Hbody tiles. induction tiles as [|t ts IH]; intros st; [reflexivity|].
  rewrite run_tiles_cons. cbn [fst]. now rewrite acq_events_app, Hbody, IH.
Qed.

Lemma run_tiles_arrivals_sum {St : Type} (body : Z -> St -> list op * St)
    (arr : bar_array) (m : Z -> nat) :
  (forall t st, arrivals_on_array arr (fst (body t st)) = Z.of_nat (m t)) ->
  forall tiles st,
    arrivals_on_array arr (fst (run_tiles body tiles st))
    = Z.of_nat (list_sum (map m tiles)).
Proof.
  intros Hbody tiles. induction tiles as [|t ts IH]; intros st; [reflexivity|].
  rewrite run_tiles_cons. cbn [fst map].
  change (list_sum (m t :: map m ts)) with (m t + list_sum (map m ts))%nat.
  rewrite arrivals_on_array_app, Hbody, IH. lia.
Qed.

(** No wait on the commit barriers of the accumulators, partition by
    partition. *)
Lemma act_loop_no_commit_o (a : kernel_args) (second : bool) (k : nat) :
  forall cnt,
    acq_events producer_commit_o0 (fst (act_loop a second k cnt)) = []
    /\ acq_events producer_commit_o1 (fst (act_loop a second k cnt)) = [].
Proof.
  induction k as [|k IH]; intros cnt; [split; reflexivity|].
  rewrite act_loop_S. cbn [fst]. rewrite !acq_events_app.
  destruct (IH (cnt + 1)) as [-> ->].
  unfold act_loop_body.
  destruct second, (PINGPONG a), (NAME_BARRIER a); split; reflexivity.
Qed.

Lemma act_partition_no_commit_o (a : kernel_args) (second : bool) (u : Z) :
  acq_events producer_commit_o0 (act_partition a second u) = []
  /\ acq_events producer_commit_o1 (act_partition a second u) = [].
Proof.
  assert (Ht : forall arr,
             arr = producer_commit_o0 \/ arr = producer_commit_o1 ->
             forall t st, acq_events arr (fst (act_tile a second t st)) = []).
  { intros arr Harr t st. rewrite act_tile_eq.
    destruct (tile_active a t); [|reflexivity].
    cbn [fst]. rewrite acq_events_app.
    destruct (act_loop_no_commit_o a second
                (range_count 0 (klen (_compute_qlen a t)) (BLOCK_N a))
                (accum_cnt st)) as [E0 E1].
    unfold act_epilogue.
    destruct Harr as [-> | ->]; [rewrite E0 | rewrite E1];
      destruct second, (MERGE_EPI a); reflexivity. }
  unfold act_partition. rewrite !acq_events_app.
  rewrite !(run_tiles_no_events (act_tile a second)) by (apply Ht; tauto).
  destruct (second && PINGPONG a && NAME_BARRIER a); split; reflexivity.
Qed.

Lemma mma_loop_no_commit_o (a : kernel_args) (st : mma_state) (k : nat) :
  forall s,
    acq_events producer_commit_o0 (fst (mma_loop a (mma_env a st) k s)) = []
    /\ acq_events producer_commit_o1 (fst (mma_loop a (mma_env a st) k s))
       = [].
Proof.
  induction k as [|k IH]; intros s; [split; reflexivity|].
  rewrite mma_loop_S. cbn [fst]. rewrite !acq_events_app.
  destruct (IH (snd (mma_loop_body a (mma_env a st) s))) as [-> ->].
  unfold mma_loop_body. destruct (first s); split; reflexivity.
Qed.

Lemma mma_partition_no_commit_o (a : kernel_args) (u : Z) :
  acq_events producer_commit_o0 (mma_partition a u) = []
  /\ acq_events producer_commit_o1 (mma_partition a u) = [].
Proof.
  assert (Ht : forall arr,
             arr = producer_commit_o0 \/ arr = producer_commit_o1 ->
             forall t st, acq_events arr (fst (mma_tile a t st)) = []).
  { intros arr Harr t st. unfold mma_tile.
    destruct (tile_active a t); [|reflexivity].
    destruct (mma_tile_body_eq a (klen (_compute_qlen a t)) st) as [-> _].
    set (n := range_count _ _ _).
    rewrite !acq_events_app.
    destruct (mma_loop_no_commit_o a st n (mma_loop_init a st)) as [E0 E1].
    unfold mma_epilogue.
    destruct Harr as [-> | ->]; [rewrite E0 | rewrite E1];
      destruct (first _); reflexivity. }
  unfold mma_partition.
  rewrite !(run_tiles_no_events (mma_tile a)) by (apply Ht; tauto).
  split; reflexivity.
Qed.

Lemma load_partition_no_commit_o (a : kernel_args) (u : Z) :
  acq_events producer_commit_o0 (load_partition a u) = []
  /\ acq_events producer_commit_o1 (load_partition a u) = [].
Proof.
  assert (Hl : forall arr,
             arr = producer_commit_o0 \/ arr = producer_commit_o1 ->
             forall bk kvo k sn cnt,
               acq_events arr (fst (load_loop a bk kvo k sn cnt)) = []).
  { intros arr Harr bk kvo k.
    induction k as [|k IH]; intros sn cnt; [reflexivity|].
    rewrite load_loop_S. cbn [fst]. rewrite acq_events_app, IH.
    destruct Harr as [-> | ->]; reflexivity. }
  assert (Ht : forall arr,
             arr = producer_commit_o0 \/ arr = producer_commit_o1 ->
             forall t st, acq_events arr (fst (load_tile a t st)) = []).
  { intros arr Harr t st. unfold load_tile.
    destruct (tile_active a t); [|reflexivity].
    destruct (load_tile_body_eq a t st) as [-> _].
    rewrite !acq_events_app, (Hl arr Harr).
    destruct Harr as [-> | ->]; reflexivity. }
  unfold load_partition.
  rewrite !(run_tiles_no_events (load_tile a)) by (apply Ht; tauto).
  split; reflexivity.
Qed.

Lemma epilogue_partition_no_wait (a : kernel_args) (u : Z) (arr : bar_array) :
  acq_events arr (epilogue_partition a u) = [].
Proof.
  unfold epilogue_partition. apply run_tiles_no_events.
  intros t st. unfold epilogue_tile.
  destruct (tile_active a t); reflexivity.
Qed.

(** The arrivals of the gemm partition on the commit barriers. *)
Lemma mma_loop_commit_o (a : kernel_args) (e : mma_tile_env) (k : nat) :
  forall s,
    arrivals_on_array producer_commit_o0 (fst (mma_loop a e k s))
    = Z.of_nat k
    /\ arrivals_on_array producer_commit_o1 (fst (mma_loop a e k s))
       = Z.of_nat k.
Proof.
  induction k as [|k IH]; intros s; [split; reflexivity|].
  rewrite mma_loop_S. cbn [fst]. rewrite !arrivals_on_array_app.
  destruct (IH (snd (mma_loop_body a e s))) as [-> ->].
  replace (arrivals_on_array producer_commit_o0
             (fst (mma_loop_body a e s))) with 1 by reflexivity.
  replace (arrivals_on_array producer_commit_o1
             (fst (mma_loop_body a e s))) with 1 by reflexivity.
  lia.
Qed.

Lemma mma_tile_commit_o (a : kernel_args) (t : Z) (st : mma_state) :
  arrivals_on_array producer_commit_o0 (fst (mma_tile a t st))
  = Z.of_nat (tile_scores a t)
  /\ arrivals_on_array producer_commit_o1 (fst (mma_tile a t st))
     = Z.of_nat (tile_scores a t).
Proof.
  unfold mma_tile, tile_scores, key_blocks.
  destruct (tile_active a t); [|split; reflexivity].
  destruct (mma_tile_body_eq a (klen (_compute_qlen a t)) st) as [-> _].
  set (n := range_count _ _ _).
  rewrite !arrivals_on_array_app.
  destruct (mma_loop_commit_o a (mma_env a st) n (mma_loop_init a st))
    as [-> ->].
  replace (arrivals_on_array producer_commit_o0
             (fst (fst (mma_prologue a st)))) with 1 by reflexivity.
  replace (arrivals_on_array producer_commit_o1
             (fst (fst (mma_prologue a st)))) with 0 by reflexivity.
  set (s1 := snd (mma_loop _ _ _ _)).
  replace (arrivals_on_array producer_commit_o0
             (fst (mma_epilogue a st (mma_env a st) s1))) with 0
    by reflexivity.
  replace (arrivals_on_array producer_commit_o1
             (fst (mma_epilogue a st (mma_env a st) s1))) with 1
    by reflexivity.
  lia.
Qed.

(** X20.  The gemm partition signals, on [producer_commit_o0] and
    [producer_commit_o1], the completion of each of its matmuls into the
    two accumulators, one per key block of every tile; none of the five
    partitions ever waits on a barrier of these two arrays.  No barrier
    therefore tells an activation partition, which has no wait between its
    inner loop and its read of the accumulator, that the last matmul into
    the accumulator has completed. *)
Theorem accumulator_commits_never_awaited (a : kernel_args) (u : Z) :
  Forall (fun P => count_ops (is_wait_on producer_commit_o0) P = 0
                   /\ count_ops (is_wait_on producer_commit_o1) P = 0)
         (kernel_tasks a u)
  /\ arrivals_on_array producer_commit_o0 (mma_partition a u)
     = Z.of_nat (list_sum (map (tile_scores a) (prog_tiles a u)))
  /\ arrivals_on_array producer_commit_o1 (mma_partition a u)
     = Z.of_nat (list_sum (map (tile_scores a) (prog_tiles a u))).
Proof.
  split; [|split].
  - unfold kernel_tasks. repeat constructor; rewrite count_waits_length.
    + now destruct (act_partition_no_commit_o a false u) as [-> _].
    + now destruct (act_partition_no_commit_o a false u) as [_ ->].
    + now destruct (act_partition_no_commit_o a true u) as [-> _].
    + now destruct (act_partition_no_commit_o a true u) as [_ ->].
    + now destruct (mma_partition_no_commit_o a u) as [-> _].
    + now destruct (mma_partition_no_commit_o a u) as [_ ->].
    + now destruct (load_partition_no_commit_o a u) as [-> _].
    + now destruct (load_partition_no_commit_o a u) as [_ ->].
    + now rewrite epilogue_partition_no_wait.
    + now rewrite epilogue_partition_no_wait.
  - unfold mma_partition. apply run_tiles_arrivals_sum.
    intros t st. apply mma_tile_commit_o.
  - unfold mma_partition. apply run_tiles_arrivals_sum.
    intros t st. apply mma_tile_commit_o.
Qed.

(** **** The stores of the epilogue partition *)

Lemma set_nth_same {A : Type} (l : list A) (i : nat) (x : A) :
  nth_error l i = Some x -> set_nth i x l = l.
Proof.
  revert i. induction l as [|y l IH]; intros [|i] H; try discriminate.
  - cbn in H. injection H as ->. reflexivity.
  - cbn [set_nth nth_error] in *. f_equal. now apply IH.
Qed.

Lemma set_nth_twice {A : Type} (l : list A) (i : nat) (x y : A) :
  set_nth i x (set_nth i y l) = set_nth i x l.
Proof.
  revert i. induction l as [|z l IH]; intros [|i]; cbn [set_nth];
    try reflexivity.
  f_equal. apply IH.
Qed.

(** A task whose next operations are stores of the staging buffers can
    issue them all, whatever the other tasks have done. *)
Lemma run_staged_stores (a : kernel_args) (u : Z) (i : nat) (P : list op) :
  forallb is_staged_store P = true ->
  forall m dn td,
    reachable a u m ->
    nth_error (tasks m) i = Some {| done := dn; todo := P ++ td |} ->
    exists m',
      reachable a u m'
      /\ tasks m' = set_nth i {| done := dn ++ P; todo := td |} (tasks m)
      /\ bars m' = bars m /\ pending m' = pending m.
Proof.
  induction P as [|o P IH]; intros HP m dn td Hr Hn.
  - exists m. rewrite app_nil_r. cbn [app] in Hn.
    rewrite (set_nth_same _ _ _ Hn). repeat split. assumption.
  - cbn [forallb] in HP. apply andb_prop in HP as [Ho HP].
    cbn [app] in Hn.
    assert (Hen : enabled (bars m) o = true)
      by (destruct o as [? ? [|] | | | | | | | | | | |];
          try reflexivity; discriminate).
    pose proof (step_task m i dn (P ++ td) o Hn Hen) as Hs.
    set (m1 := {| bars := issue_bars o (bars m);
                  tasks := set_nth i {| done := dn ++ [o];
                                        todo := P ++ td |} (tasks m);
                  pending := pending m ++ issue_pending o |}) in Hs.
    destruct (IH HP m1 (dn ++ [o]) td) as (m' & Hr' & Ht & Hb & Hp).
    + apply (reachable_step a u m m1); assumption.
    + cbn [tasks m1]. apply (nth_error_set_nth_eq _ _ _ _ Hn).
    + exists m'. split; [assumption|].
      rewrite Ht, Hb, Hp. cbn [tasks bars pending m1].
      rewrite set_nth_twice, <- app_assoc.
      destruct o as [| | | | | | | | [[] ?] ? ? | | |];
        try discriminate; cbn [issue_bars issue_pending app];
        rewrite app_nil_r; repeat split.
Qed.

Lemma epilogue_partition_stores (a : kernel_args) (u : Z) :
  forallb is_staged_store (epilogue_partition a u) = true
  /\ length (epilogue_partition a u)
     = (2 * length (filter (tile_active a) (prog_tiles a u)))%nat.
Proof.
  unfold epilogue_partition. generalize 0.
  induction (prog_tiles a u) as [|t ts IH]; intros c; [split; reflexivity|].
  rewrite run_tiles_cons. cbn [fst filter].
  rewrite forallb_app, length_app.
  destruct (IH (snd (epilogue_tile a t c))) as [-> ->].
  unfold epilogue_tile. destruct (tile_active a t); cbn; split; lia.
Qed.

(** X21.  Nothing orders the stores of the epilogue partition after the
    writes of the staging buffers they read.  The partition waits on no
    barrier, so from the start of a program it can issue every one of its
    stores, two per tile the program processes (of [o0_smem[0]] and of
    [o1_smem[0]]), while the other four partitions have issued no operation
    at all: no tile has been loaded, no matmul issued, and no activation
    partition has written a staging buffer. *)
Theorem epilogue_stores_unordered (a : kernel_args) (u : Z) :
  exists m,
    reachable a u m
    /\ tasks m
       = [ {| done := []; todo := act_partition a false u |};
           {| done := []; todo := act_partition a true u |};
           {| done := []; todo := mma_partition a u |};
           {| done := []; todo := load_partition a u |};
           {| done := epilogue_partition a u; todo := [] |} ]
    /\ bars m = init_bars /\ pending m = []
    /\ forallb is_staged_store (epilogue_partition a u) = true
    /\ length (epilogue_partition a u)
       = (2 * length (filter (tile_active a) (prog_tiles a u)))%nat.
Proof.
  destruct (epilogue_partition_stores a u) as [Hs Hl].
  destruct (run_staged_stores a u 4 (epilogue_partition a u) Hs
              (init_machine a u) [] [] (reachable_init a u))
    as (m & Hr & Ht & Hb & Hp).
  - cbn. now rewrite app_nil_r.
  - exists m. repeat split; assumption.
Qed.
(** *** The tasks of the backward kernel *)

Lemma bwd_dots_into_app (acc : bwd_buf_array) (l1 l2 : list bwd_op) :
  bwd_dots_into acc (l1 ++ l2) = bwd_dots_into acc l1 ++ bwd_dots_into acc l2.
Proof. apply flat_map_app. Qed.

Lemma bwd_load_coords_app (t : bwd_tensor) (l1 l2 : list bwd_op) :
  bwd_load_coords t (l1 ++ l2)
  = bwd_load_coords t l1 ++ bwd_load_coords t l2.
Proof. apply flat_map_app. Qed.

Lemma bwd_add_coords_app (l1 l2 : list bwd_op) :
  bwd_add_coords (l1 ++ l2) = bwd_add_coords l1 ++ bwd_add_coords l2.
Proof. apply flat_map_app. Qed.

Lemma bwd_mma_body_flags (a : bwd_args) (i : Z) :
  bwd_dots_into dv_tiles (bwd_mma_body a i) = [0 <? i]
  /\ bwd_dots_into dk_tiles (bwd_mma_body a i) = [0 <? i]
  /\ bwd_dots_into dq_tiles (bwd_mma_body a i) = [false]
  /\ bwd_dots_into qk_tiles (bwd_mma_body a i) = [false]
  /\ bwd_dots_into dpT_tiles (bwd_mma_body a i) = [false].
Proof. repeat split. Qed.

(** The flags of a loop that starts at iteration [i]. *)
Lemma bwd_mma_loop_flags (a : bwd_args) (n : nat) :
  forall i, 0 <= i ->
    bwd_dots_into dv_tiles (bwd_loop (bwd_mma_body a) i n)
    = map (fun j => 0 <? i + Z.of_nat j) (seq 0 n)
    /\ bwd_dots_into dk_tiles (bwd_loop (bwd_mma_body a) i n)
       = map (fun j => 0 <? i + Z.of_nat j) (seq 0 n)
    /\ bwd_dots_into dq_tiles (bwd_loop (bwd_mma_body a) i n)
       = repeat false n
    /\ bwd_dots_into qk_tiles (bwd_loop (bwd_mma_body a) i n)
       = repeat false n
    /\ bwd_dots_into dpT_tiles (bwd_loop (bwd_mma_body a) i n)
       = repeat false n.
Proof.
  induction n as [|n IH]; intros i Hi; [repeat split|].
  cbn [bwd_loop]. rewrite !bwd_dots_into_app.
  destruct (IH (i + 1)) as (-> & -> & -> & -> & ->); [lia|].
  destruct (bwd_mma_body_flags a i) as (-> & -> & -> & -> & ->).
  assert (E : map (fun j => 0 <? i + Z.of_nat j) (seq 0 (S n))
              = (0 <? i)
                :: map (fun j => 0 <? i + 1 + Z.of_nat j) (seq 0 n)).
  { cbn [seq map]. rewrite <- seq_shift, map_map.
    f_equal; [ try (f_equal; lia) ..
             | apply map_ext; intros j; f_equal; lia ]. }
  rewrite E. repeat split.
Qed.

Lemma map_seq_true (n : nat) :
  map (fun j => 0 <? 1 + Z.of_nat j) (seq 0 n) = repeat true n.
Proof.
  replace (repeat true n) with (map (fun _ : nat => true) (seq 0 n)).
  - apply map_ext. intros j. apply Z.ltb_lt. lia.
  - generalize 0%nat. induction n as [|n IH]; intros s; [reflexivity|].
    cbn [seq map repeat]. now rewrite IH.
Qed.

(** X22.  The gemm task of a backward program issues five matmuls per
    step.  Those into the dV and dK accumulators overwrite on the first
    step and accumulate on every later one; those that produce the score
    tile, the dP tile and the dQ tile always overwrite, dQ being summed
    outside the accumulator by the atomic adds of the reduction task, of
    which there is one per step.  A program whose key block lies past the
    end of the keys issues nothing. *)
Theorem bwd_accumulate_flags (a : bwd_args) :
  let n := if bwd_active a
           then range_count 0 (bwd_num_steps a) 1 else 0%nat in
  bwd_dots_into dv_tiles (bwd_mma_task a)
  = match n with O => [] | S k => false :: repeat true k end
  /\ bwd_dots_into dk_tiles (bwd_mma_task a)
     = match n with O => [] | S k => false :: repeat true k end
  /\ bwd_dots_into dq_tiles (bwd_mma_task a) = repeat false n
  /\ bwd_dots_into qk_tiles (bwd_mma_task a) = repeat false n
  /\ bwd_dots_into dpT_tiles (bwd_mma_task a) = repeat false n
  /\ length (bwd_add_coords (bwd_reduction_task a)) = n.
Proof.
  cbv zeta. unfold bwd_mma_task, bwd_reduction_task.
  destruct (bwd_active a); [|repeat split].
  set (n := range_count 0 (bwd_num_steps a) 1).
  assert (Hadd : length (bwd_add_coords
                           (bwd_loop (bwd_reduction_body a) 0 n)) = n).
  { generalize 0. induction n as [|k IH]; intros i; [reflexivity|].
    cbn [bwd_loop]. rewrite bwd_add_coords_app, length_app, IH.
    reflexivity. }
  unfold _get_bufidx_phase.
  rewrite !bwd_dots_into_app.
  destruct (bwd_mma_loop_flags a n 0) as (-> & -> & -> & -> & ->); [lia|].
  cbn [bwd_dots_into flat_map app]. rewrite !app_nil_r.
  repeat split; try assumption.
  - destruct n as [|k]; [reflexivity|].
    cbn [seq map]. rewrite <- seq_shift, map_map.
    f_equal. rewrite <- (map_seq_true k).
    apply map_ext. intros j. f_equal. lia.
  - destruct n as [|k]; [reflexivity|].
    cbn [seq map]. rewrite <- seq_shift, map_map.
    f_equal. rewrite <- (map_seq_true k).
    apply map_ext. intros j. f_equal. lia.
Qed.

(** The coordinates of a loop that starts at iteration [i]. *)
Lemma bwd_load_loop_coords (a : bwd_args) (n : nat) :
  forall i,
    let rows :=
      map (fun j =>
             (to_int32 (be_begin_q (bwd_task_env a)
                        + (be_start_m (bwd_task_env a)
                           + (i + Z.of_nat j) * bw_BLOCK_M1 a)),
              to_int32 (be_off_h (bwd_task_env a) * bw_stride_qh a)))
          (seq 0 n) in
    bwd_load_coords desc_q (bwd_loop (bwd_load_body a) i n) = rows
    /\ bwd_load_coords desc_do (bwd_loop (bwd_load_body a) i n) = rows
    /\ bwd_load_coords desc_k (bwd_loop (bwd_load_body a) i n) = []
    /\ bwd_load_coords desc_v (bwd_loop (bwd_load_body a) i n) = []
    /\ bwd_add_coords (bwd_loop (bwd_reduction_body a) i n) = rows.
Proof.
  cbv zeta. induction n as [|n IH]; intros i; [repeat split|].
  cbn [bwd_loop]. rewrite !bwd_load_coords_app, bwd_add_coords_app.
  destruct (IH (i + 1)) as (-> & -> & -> & -> & ->).
  assert (E : forall f : Z -> Z * Z,
             map (fun j => f (i + Z.of_nat j)) (seq 0 (S n))
             = f i :: map (fun j => f (i + 1 + Z.of_nat j)) (seq 0 n)).
  { intros f. cbn [seq map]. rewrite <- seq_shift, map_map.
    f_equal; [ try (f_equal; lia) ..
             | apply map_ext; intros j; f_equal; lia ]. }
  rewrite (E (fun x => (to_int32 (be_begin_q (bwd_task_env a)
                                  + (be_start_m (bwd_task_env a)
                                     + x * bw_BLOCK_M1 a)),
                        to_int32 (be_off_h (bwd_task_env a)
                                  * bw_stride_qh a)))).
  repeat split.
Qed.

(** X23.  The query rows of a backward program.  Step [i] loads its Q
    tile and its dO tile at the same coordinates, row
    [begin_q + start_m + i * BLOCK_M1] with [start_m = pid * BLOCK_M2], at
    the column [off_h * stride_qh] (also for dO, whose own head stride is
    not used), and the reduction task adds the dQ tile of the step at
    these coordinates.  K and V are loaded once, at row
    [begin_k + pid * BLOCK_N1] of the key/value head. *)
Theorem bwd_step_rows (a : bwd_args) :
  let e := bwd_task_env a in
  let n := if bwd_active a
           then range_count 0 (bwd_num_steps a) 1 else 0%nat in
  let rows :=
    map (fun i =>
           (to_int32 (be_begin_q e
                      + (be_start_m e + Z.of_nat i * bw_BLOCK_M1 a)),
            to_int32 (be_off_h e * bw_stride_qh a)))
        (seq 0 n) in
  bwd_load_coords desc_q (bwd_load_task a) = rows
  /\ bwd_load_coords desc_do (bwd_load_task a) = rows
  /\ bwd_add_coords (bwd_reduction_task a) = rows
  /\ bwd_load_coords desc_k (bwd_load_task a)
     = (if bwd_active a
        then [(to_int32 (be_begin_k e + be_start_n e),
               to_int32 (be_off_h_kv e * bw_stride_kh a))]
        else [])
  /\ bwd_load_coords desc_v (bwd_load_task a)
     = bwd_load_coords desc_k (bwd_load_task a).
Proof.
  cbv zeta. unfold bwd_load_task, bwd_reduction_task.
  destruct (bwd_active a); [|repeat split].
  set (n := range_count 0 (bwd_num_steps a) 1).
  unfold _get_bufidx_phase. rewrite !bwd_load_coords_app.
  destruct (bwd_load_loop_coords a n 0) as (-> & -> & -> & -> & ->).
  cbn [bwd_load_coords flat_map app].
  repeat split.
Qed.

Lemma bwd_first_block_steps (a : bwd_args) :
  bw_WINDOW_SIZE a = None ->
  0 < bw_BLOCK_M1 a -> 0 < bw_BLOCK_N1 a ->
  0 <= bw_program_id_0 a -> 0 < bw_H a ->
  let pid := Z.quot (bw_program_id_0 a) (bw_H a) in
  0 <= pid
  /\ be_start_n (bwd_task_env a) = pid * bw_BLOCK_N1 a
  /\ be_start_m (bwd_task_env a) = pid * bw_BLOCK_M2 a
  /\ (pid = 0 -> range_count 0 (bwd_num_steps a) 1 = 0%nat).
Proof.
  intros HW HM HN Hp HH. cbv zeta.
  assert (Hpid : 0 <= Z.quot (bw_program_id_0 a) (bw_H a))
    by (apply Z.quot_pos; lia).
  repeat split; try assumption.
  intros Hz. unfold bwd_num_steps, bwd_num_steps_at_call,
    _gdpa_bwd_tlx_compute_num_steps. rewrite HW.
  change (be_start_n (bwd_task_env a))
    with (Z.quot (bw_program_id_0 a) (bw_H a) * bw_BLOCK_N1 a).
  rewrite Hz. unfold cdiv, range_count.
  replace (0 * bw_BLOCK_N1 a - 0 + bw_BLOCK_M1 a - 1)
    with (bw_BLOCK_M1 a - 1) by lia.
  rewrite Z.quot_small by lia. reflexivity.
Qed.

(** X24.  Without a sliding window, the program of the first key block
    of a sequence ([pid = 0]) makes no step: its gemm task only waits for
    K and V and commits the two barriers, its load task loads no Q or dO
    tile and its reduction task adds nothing; its activation task still
    loads the dV and dK accumulators, which no matmul has written, and
    stores them to [DV] and [DK].  And no program adds into the first
    [BLOCK_M2] query rows of its sequence: an atomic add is made only by
    a program with [pid >= 1], at the row
    [begin_q + pid * BLOCK_M2 + i * BLOCK_M1] of a step [i] of the
    program, converted to 32 bits; when these rows fit 32 bits, the row of
    the add is at least [begin_q + BLOCK_M2]. *)
Theorem bwd_first_block_unwritten (a : bwd_args) :
  bw_WINDOW_SIZE a = None ->
  0 < bw_BLOCK_M1 a -> 0 < bw_BLOCK_N1 a -> 0 <= bw_BLOCK_M2 a ->
  0 <= bw_program_id_0 a -> 0 < bw_H a ->
  (bw_program_id_0 a < bw_H a -> bwd_active a = true ->
   (forall acc, bwd_dots_into acc (bwd_mma_task a) = [])
   /\ bwd_load_coords desc_q (bwd_load_task a) = []
   /\ bwd_load_coords desc_do (bwd_load_task a) = []
   /\ bwd_add_coords (bwd_reduction_task a) = []
   /\ bwd_stores DV (bwd_act_task a) = true
   /\ bwd_stores DK (bwd_act_task a) = true
   /\ In (bwd_local_load (dv_tiles, 0)) (bwd_act_task a)
   /\ In (bwd_local_load (dk_tiles, 0)) (bwd_act_task a))
  /\ (forall row col,
        In (row, col) (bwd_add_coords (bwd_reduction_task a)) ->
        let pid := Z.quot (bw_program_id_0 a) (bw_H a) in
        let begin_q := be_begin_q (bwd_task_env a) in
        1 <= pid
        /\ exists i,
             0 <= i < bwd_num_steps a
             /\ row = to_int32 (begin_q
                                + (pid * bw_BLOCK_M2 a + i * bw_BLOCK_M1 a))
             /\ (0 <= begin_q ->
                 begin_q + pid * bw_BLOCK_M2 a
                 + bwd_num_steps a * bw_BLOCK_M1 a <= 2 ^ 31 ->
                 begin_q + bw_BLOCK_M2 a <= row)).
Proof.
  intros HW HM HN HM2 Hp HH.
  destruct (bwd_first_block_steps a HW HM HN Hp HH) as (Hpid & Hsn & Hsm & H0).
  split.
  - intros Hlt Hact.
    assert (Hn : range_count 0 (bwd_num_steps a) 1 = 0%nat)
      by (apply H0; apply Z.quot_small; lia).
    unfold bwd_mma_task, bwd_act_task, bwd_load_task, bwd_reduction_task.
    rewrite Hact, Hn.
    unfold _get_bufidx_phase. cbn [bwd_loop app].
    repeat split.
    + right; left; reflexivity.
    + do 4 right; left; reflexivity.
  - intros row col Hin.
    unfold bwd_reduction_task in Hin.
    destruct (bwd_active a) eqn:Hact; [|contradiction].
    destruct (bwd_load_loop_coords a (range_count 0 (bwd_num_steps a) 1) 0)
      as (_ & _ & _ & _ & EADD).
    rewrite EADD in Hin. apply in_map_iff in Hin as (i & E & Hi).
    apply in_seq in Hi.
    set (bq := be_begin_q (bwd_task_env a)) in *.
    rewrite Hsm in E.
    assert (Er : row = to_int32 (bq + (Z.quot (bw_program_id_0 a) (bw_H a)
                                       * bw_BLOCK_M2 a
                                       + (0 + Z.of_nat i) * bw_BLOCK_M1 a)))
      by congruence.
    clear E.
    assert (Hp1 : 1 <= Z.quot (bw_program_id_0 a) (bw_H a)).
    { destruct (Z.eq_dec (Z.quot (bw_program_id_0 a) (bw_H a)) 0) as [Ez|Ez];
        [|lia].
      specialize (H0 Ez). rewrite H0 in Hi. lia. }
    assert (Hi' : 0 <= Z.of_nat i < bwd_num_steps a).
    { unfold range_count in Hi.
      replace ((bwd_num_steps a - 0 + 1 - 1) / 1) with (bwd_num_steps a)
        in Hi by (rewrite Z.div_1_r; lia).
      lia. }
    cbv zeta. split; [exact Hp1|].
    exists (Z.of_nat i). split; [exact Hi'|]. subst row.
    split; [f_equal; lia|].
    intros Hb Hfit. rewrite to_int32_small; nia.
Qed.

Lemma bwd_first_block_unwritten_witness :
  let a := example_bwd_args in
  (bw_program_id_0 a < bw_H a /\ bwd_active a = true
   /\ bwd_dots_into dv_tiles (bwd_mma_task a) = []
   /\ bwd_dots_into dk_tiles (bwd_mma_task a) = []
   /\ bwd_stores DV (bwd_act_task a) = true
   /\ bwd_stores DK (bwd_act_task a) = true)
  /\ (bwd_num_steps example_bwd_short_ds = 2
      /\ forall row col,
           In (row, col)
              (bwd_add_coords (bwd_reduction_task example_bwd_short_ds)) ->
           be_begin_q (bwd_task_env example_bwd_short_ds)
           + bw_BLOCK_M2 example_bwd_short_ds <= row).
Proof.
  cbv zeta. split.
  - assert (Hlt : bw_program_id_0 example_bwd_args < bw_H example_bwd_args)
      by (cbn; lia).
    assert (Hact : bwd_active example_bwd_args = true) by reflexivity.
    destruct (bwd_first_block_unwritten example_bwd_args) as [H _];
      try first [reflexivity | cbn; lia].
    destruct (H Hlt Hact) as (Hd & _ & _ & _ & Hv & Hk & _).
    exact (conj Hlt (conj Hact (conj (Hd dv_tiles) (conj (Hd dk_tiles)
             (conj Hv Hk))))).
  - split; [vm_compute; reflexivity|].
    intros row col Hin.
    destruct (bwd_first_block_unwritten example_bwd_short_ds) as [_ H];
      try first [reflexivity | cbn; lia].
    destruct (H row col Hin) as (_ & i & _ & _ & Hrow).
    apply Hrow; vm_compute; discriminate.
Defined.

(** **** The indices of the buffers and barriers *)

Lemma bwd_slot_ok (i N M : Z) :
  0 <= i -> 0 < N -> N <= M ->
  (0 <=? Z.rem i N) && (Z.rem i N <? M) = true.
Proof.
  intros Hi HN HM. pose proof (Z.rem_bound_pos i N Hi HN).
  apply andb_true_intro. split; [apply Z.leb_le | apply Z.ltb_lt]; lia.
Qed.

Lemma bwd_loop_forallb (P : bwd_op -> bool) (body : Z -> list bwd_op)
    (n : nat) :
  (forall j, 0 <= j -> forallb P (body j) = true) ->
  forall i, 0 <= i -> forallb P (bwd_loop body i n) = true.
Proof.
  intros Hb. induction n as [|n IH]; intros i Hi; [reflexivity|].
  cbn [bwd_loop]. rewrite forallb_app, Hb, IH by lia. reflexivity.
Qed.

Lemma bwd_loop_incl (body : Z -> list bwd_op) (n : nat) :
  forall i k, (k < n)%nat ->
    incl (body (i + Z.of_nat k)) (bwd_loop body i n).
Proof.
  induction n as [|n IH]; intros i k Hk; [lia|].
  cbn [bwd_loop]. destruct k as [|k].
  - replace (i + Z.of_nat 0) with i by lia. apply incl_appl, incl_refl.
  - replace (i + Z.of_nat (S k)) with (i + 1 + Z.of_nat k) by lia.
    apply incl_appr, IH. lia.
Qed.

Lemma bwd_bodies_in_bounds (a : bwd_args) (i : Z) :
  0 < bw_NUM_BUFFERS_KV a -> 0 < bw_NUM_BUFFERS_Q a ->
  0 < bw_NUM_BUFFERS_DO a -> 0 < bw_NUM_BUFFERS_TMEM a ->
  bw_NUM_BUFFERS_TMEM a <= bw_NUM_BUFFERS_DS a ->
  0 <= i ->
  forallb (bwd_in_bounds a) (bwd_mma_body a i) = true
  /\ forallb (bwd_in_bounds a) (bwd_load_body a i) = true
  /\ forallb (bwd_in_bounds a) (bwd_reduction_body a i) = true
  /\ forallb (bwd_in_bounds a) (bwd_act_body a i) = true.
Proof.
  intros HKV HQ HDO HT HDS Hi.
  unfold bwd_mma_body, bwd_load_body, bwd_reduction_body, bwd_act_body,
    _get_bufidx_phase, bwd_in_bounds.
  cbn [forallb bwd_op_views bwd_op_barriers opd_view fst snd
       bwd_buf_slots bwd_bar_slots Z.add].
  rewrite !bwd_slot_ok by lia. repeat split.
Qed.

(** X25.  Every buffer and barrier of a backward program is taken at an
    index inside its array when the numbers of buffers are positive and
    [NUM_BUFFERS_DS] is at least [NUM_BUFFERS_TMEM]: the dS buffers and
    their barriers, allocated with [NUM_BUFFERS_DS] slots, are indexed
    with the slot computed from [NUM_BUFFERS_TMEM].  With fewer dS slots
    than that, a program that makes more than [NUM_BUFFERS_DS] steps
    indexes the dS buffers outside their array, in the gemm task and in
    the activation task. *)
Theorem bwd_views_in_bounds (a : bwd_args) :
  0 < bw_NUM_BUFFERS_KV a -> 0 < bw_NUM_BUFFERS_Q a ->
  0 < bw_NUM_BUFFERS_DO a -> 0 < bw_NUM_BUFFERS_TMEM a ->
  (bw_NUM_BUFFERS_TMEM a <= bw_NUM_BUFFERS_DS a ->
   forallb (bwd_in_bounds a)
     (bwd_act_task a ++ bwd_reduction_task a
      ++ bwd_mma_task a ++ bwd_load_task a) = true)
  /\ (0 <= bw_NUM_BUFFERS_DS a < bw_NUM_BUFFERS_TMEM a ->
      bwd_active a = true ->
      bw_NUM_BUFFERS_DS a < bwd_num_steps a ->
      forallb (bwd_in_bounds a) (bwd_mma_task a) = false
      /\ forallb (bwd_in_bounds a) (bwd_act_task a) = false).
Proof.
  intros HKV HQ HDO HT. split.
  - intros HDS.
    assert (Hb : forall j, 0 <= j ->
               forallb (bwd_in_bounds a) (bwd_mma_body a j) = true
               /\ forallb (bwd_in_bounds a) (bwd_load_body a j) = true
               /\ forallb (bwd_in_bounds a) (bwd_reduction_body a j) = true
               /\ forallb (bwd_in_bounds a) (bwd_act_body a j) = true)
      by (intros j Hj; apply bwd_bodies_in_bounds; assumption).
    unfold bwd_act_task, bwd_reduction_task, bwd_mma_task, bwd_load_task.
    destruct (bwd_active a); [|reflexivity].
    unfold _get_bufidx_phase. rewrite !forallb_app.
    rewrite !bwd_loop_forallb by (try lia; intros j Hj; apply Hb; lia).
    unfold bwd_in_bounds.
    cbn [forallb bwd_op_views bwd_op_barriers opd_view fst snd
         bwd_buf_slots bwd_bar_slots].
    rewrite !bwd_slot_ok by lia. reflexivity.
  - intros HDS Hact Hn.
    set (d := bw_NUM_BUFFERS_DS a) in *.
    assert (Hk : (Z.to_nat d < range_count 0 (bwd_num_steps a) 1)%nat).
    { unfold range_count.
      replace (bwd_num_steps a - 0 + 1 - 1) with (bwd_num_steps a) by lia.
      rewrite Z.div_1_r. lia. }
    assert (Hrem : Z.rem (0 + Z.of_nat (Z.to_nat d)) (bw_NUM_BUFFERS_TMEM a)
                   = d)
      by (rewrite Z.add_0_l, Z2Nat.id by lia; apply Z.rem_small; lia).
    split.
    + destruct (forallb (bwd_in_bounds a) (bwd_mma_task a)) eqn:E;
        [|reflexivity].
      rewrite forallb_forall in E.
      specialize (E (bwd_barrier_wait (dsT_fulls, d)
                       (Z.land (Z.quot (0 + Z.of_nat (Z.to_nat d))
                                  (bw_NUM_BUFFERS_TMEM a)) 1))).
      unfold bwd_in_bounds in E.
      cbn [forallb bwd_op_views bwd_op_barriers fst snd bwd_bar_slots andb]
        in E.
      fold d in E. rewrite Z.ltb_irrefl, !andb_false_r in E.
      exfalso. enough (Hf : false = true) by discriminate.
      apply E. unfold bwd_mma_task. rewrite Hact.
      unfold _get_bufidx_phase at 1 2.
      apply in_or_app. right. apply in_or_app. left.
      apply (bwd_loop_incl _ _ 0 (Z.to_nat d) Hk).
      unfold bwd_mma_body, _get_bufidx_phase. rewrite Hrem.
      cbn [In]. tauto.
    + destruct (forallb (bwd_in_bounds a) (bwd_act_task a)) eqn:E;
        [|reflexivity].
      rewrite forallb_forall in E.
      specialize (E (bwd_local_store (dsT_tiles, d))).
      unfold bwd_in_bounds in E.
      cbn [forallb bwd_op_views bwd_op_barriers fst snd bwd_buf_slots andb]
        in E.
      fold d in E. rewrite Z.ltb_irrefl, !andb_false_r in E.
      exfalso. enough (Hf : false = true) by discriminate.
      apply E. unfold bwd_act_task. rewrite Hact.
      unfold _get_bufidx_phase at 1.
      apply in_or_app. left.
      apply (bwd_loop_incl _ _ 0 (Z.to_nat d) Hk).
      unfold bwd_act_body, _get_bufidx_phase.
      replace (0 + (0 + Z.of_nat (Z.to_nat d)))
        with (0 + Z.of_nat (Z.to_nat d)) by lia.
      rewrite Hrem. cbn [In]. tauto.
Qed.

Lemma bwd_views_in_bounds_witness :
  forallb (bwd_in_bounds example_bwd_args)
    (bwd_act_task example_bwd_args ++ bwd_reduction_task example_bwd_args
     ++ bwd_mma_task example_bwd_args ++ bwd_load_task example_bwd_args)
  = true
  /\ forallb (bwd_in_bounds example_bwd_short_ds)
       (bwd_mma_task example_bwd_short_ds) = false.
Proof.
  destruct (bwd_views_in_bounds example_bwd_args) as [H1 _];
    try (cbn; lia).
  destruct (bwd_views_in_bounds example_bwd_short_ds) as [_ H2];
    try (cbn; lia).
  destruct H2 as [H2 _]; [cbn; lia | reflexivity | vm_compute; reflexivity |].
  exact (conj (H1 ltac:(cbn; lia)) H2).
Defined.
(** *** The indices of the buffers and barriers of the forward kernel *)

Section ForwardBounds.

Variable a : kernel_args.
Hypothesis HQ : NUM_BUFFERS_Q a = 1.
Hypothesis HQK : NUM_BUFFERS_QK a = 1.
Hypothesis HO : NUM_BUFFERS_O a = 1.
Hypothesis HKV : 0 < NUM_BUFFERS_KV a.

Lemma kv_slot_ok (cnt : Z) :
  0 <= cnt ->
  (0 <=? Z.rem cnt (NUM_BUFFERS_KV a))
  && (Z.rem cnt (NUM_BUFFERS_KV a) <? NUM_BUFFERS_KV a) = true.
Proof. intros H. apply bwd_slot_ok; lia. Qed.

Ltac bounds :=
  unfold in_bounds, view_in_bounds, barrier_in_bounds, _get_bufidx_phase;
  cbn [forallb op_views op_barriers fst snd buf_slots bar_slots app];
  rewrite ?HQ, ?HQK, ?HO, ?Z.rem_1_r;
  rewrite ?kv_slot_ok by lia;
  reflexivity.

Lemma run_tiles_bounds {St : Type} (body : Z -> St -> list op * St)
    (I : St -> Prop) :
  (forall t st, I st ->
     forallb (in_bounds a) (fst (body t st)) = true /\ I (snd (body t st))) ->
  forall tiles st, I st ->
    forallb (in_bounds a) (fst (run_tiles body tiles st)) = true.
Proof.
  intros Hb tiles. induction tiles as [|t ts IH]; intros st Hst;
    [reflexivity|].
  rewrite run_tiles_cons. cbn [fst]. rewrite forallb_app.
  destruct (Hb t st Hst) as [-> Hst']. now rewrite IH.
Qed.

Lemma load_kv_bounds (t : tensor) (cnt row kvo : Z) :
  0 <= cnt -> forallb (in_bounds a) (load_kv a t cnt row kvo) = true.
Proof. intros H. unfold load_kv. bounds. Qed.

Lemma load_loop_bounds (bk kvo : Z) (k : nat) :
  forall sn cnt, 0 <= cnt ->
    forallb (in_bounds a) (fst (load_loop a bk kvo k sn cnt)) = true.
Proof.
  induction k as [|k IH]; intros sn cnt H; [reflexivity|].
  rewrite load_loop_S. cbn [fst]. unfold load_loop_body.
  rewrite !forallb_app, !load_kv_bounds, IH by lia. reflexivity.
Qed.

Lemma load_partition_bounds (u : Z) :
  forallb (in_bounds a) (load_partition a u) = true.
Proof.
  unfold load_partition.
  apply (run_tiles_bounds (load_tile a) (fun st => 0 <= ld_accum_cnt_kv st));
    [|cbn; lia].
  intros t st Hst. unfold load_tile.
  destruct (tile_active a t); [|split; [reflexivity|assumption]].
  destruct (load_tile_body_eq a t st) as [-> ->]. cbn [ld_accum_cnt_kv].
  rewrite load_loop_cnt. split; [|lia].
  rewrite !forallb_app, !load_kv_bounds, load_loop_bounds by lia.
  unfold load_q. bounds.
Qed.

Lemma act_loop_bounds (second : bool) (k : nat) :
  forall cnt, forallb (in_bounds a) (fst (act_loop a second k cnt)) = true.
Proof.
  induction k as [|k IH]; intros cnt; [reflexivity|].
  rewrite act_loop_S. cbn [fst]. rewrite forallb_app, IH.
  unfold act_loop_body.
  destruct second, (PINGPONG a), (NAME_BARRIER a); bounds.
Qed.

Lemma act_partition_bounds (second : bool) (u : Z) :
  forallb (in_bounds a) (act_partition a second u) = true.
Proof.
  unfold act_partition. rewrite forallb_app.
  rewrite (run_tiles_bounds (act_tile a second) (fun _ => True));
    [destruct (second && PINGPONG a && NAME_BARRIER a); reflexivity
    | | exact I].
  intros t st _. split; [|exact I]. rewrite act_tile_eq.
  destruct (tile_active a t); [|reflexivity].
  cbn [fst]. rewrite forallb_app, act_loop_bounds.
  unfold act_epilogue. destruct second, (MERGE_EPI a); bounds.
Qed.

Lemma epilogue_partition_bounds (u : Z) :
  forallb (in_bounds a) (epilogue_partition a u) = true.
Proof.
  unfold epilogue_partition.
  apply (run_tiles_bounds (epilogue_tile a) (fun _ => True)); [|exact I].
  intros t st _. split; [|exact I]. unfold epilogue_tile.
  destruct (tile_active a t); reflexivity.
Qed.

Lemma mma_loop_body_bounds (st : mma_state) (s : mma_loop_state) :
  mma_loop_ok a s ->
  forallb (in_bounds a) (fst (mma_loop_body a (mma_env a st) s)) = true
  /\ mma_loop_ok a (snd (mma_loop_body a (mma_env a st) s)).
Proof.
  intros [Hc Hv]. split.
  - unfold mma_loop_body, mma_env, mma_prologue.
    unfold in_bounds, _get_bufidx_phase.
    cbn [forallb op_views op_barriers fst snd q0_view q1_view
         producer_o1_view phase_o_outer].
    rewrite Hv. unfold view_in_bounds, barrier_in_bounds.
    cbn [fst snd buf_slots bar_slots].
    rewrite ?HQ, ?HQK, ?HO, ?Z.rem_1_r.
    rewrite ?kv_slot_ok by lia. reflexivity.
  - unfold mma_loop_body, mma_loop_ok, _get_bufidx_phase.
    cbn [snd l_accum_cnt_kv v_view]. split; [lia|].
    unfold view_in_bounds. cbn [fst snd buf_slots].
    apply kv_slot_ok. lia.
Qed.

Lemma mma_loop_bounds (st : mma_state) (k : nat) :
  forall s, mma_loop_ok a s ->
    forallb (in_bounds a) (fst (mma_loop a (mma_env a st) k s)) = true
    /\ mma_loop_ok a (snd (mma_loop a (mma_env a st) k s)).
Proof.
  induction k as [|k IH]; intros s Hs; [split; [reflexivity|assumption]|].
  rewrite mma_loop_S. cbn [fst snd]. rewrite forallb_app.
  destruct (mma_loop_body_bounds st s Hs) as [-> Hs'].
  destruct (IH _ Hs') as [-> Hs'']. split; [reflexivity|assumption].
Qed.

Lemma mma_partition_bounds (u : Z) :
  forallb (in_bounds a) (mma_partition a u) = true.
Proof.
  unfold mma_partition.
  apply (run_tiles_bounds (mma_tile a) (fun st => 0 <= accum_cnt_kv st));
    [|cbn; lia].
  intros t st Hst. unfold mma_tile.
  destruct (tile_active a t); [|split; [reflexivity|assumption]].
  destruct (mma_tile_body_eq a (klen (_compute_qlen a t)) st) as [-> ->].
  set (n := range_count _ _ _).
  assert (H0 : mma_loop_ok a (mma_loop_init a st)).
  { unfold mma_loop_ok, mma_loop_init, mma_prologue, _get_bufidx_phase.
    cbn [snd l_accum_cnt_kv v_view]. split; [lia|].
    unfold view_in_bounds. cbn [fst snd buf_slots].
    apply kv_slot_ok. lia. }
  destruct (mma_loop_bounds st n _ H0) as [Hl [Hc Hv]].
  set (s1 := snd (mma_loop a (mma_env a st) n (mma_loop_init a st))) in *.
  split.
  - rewrite !forallb_app, Hl.
    replace (forallb (in_bounds a) (fst (fst (mma_prologue a st))))
      with true by (symmetry; unfold mma_prologue; bounds).
    unfold mma_epilogue, mma_env, mma_prologue.
    unfold in_bounds, _get_bufidx_phase.
    cbn [forallb op_views op_barriers fst snd q0_view q1_view
         producer_o1_view phase_o_outer].
    rewrite Hv. unfold view_in_bounds, barrier_in_bounds.
    cbn [fst snd buf_slots bar_slots].
    rewrite ?HQ, ?HQK, ?HO, ?Z.rem_1_r.
    rewrite ?kv_slot_ok by lia. reflexivity.
  - unfold mma_epilogue, _get_bufidx_phase. cbn [snd accum_cnt_kv]. lia.
Qed.

Lemma kernel_tasks_bounds (u : Z) :
  Forall (fun P => forallb (in_bounds a) P = true) (kernel_tasks a u).
Proof.
  unfold kernel_tasks. repeat constructor.
  - apply act_partition_bounds.
  - apply act_partition_bounds.
  - apply mma_partition_bounds.
  - apply load_partition_bounds.
  - apply epilogue_partition_bounds.
Qed.

End ForwardBounds.

(** X26.  With one slot for Q, for the score regions and for the
    accumulators, and a positive number of K/V slots, every buffer and
    every barrier that the five partitions of a forward program name is
    taken at an index inside its array; the three arrivals made before the
    partitions start are inside the array of K/V release barriers exactly
    when there are at least three K/V slots. *)
Theorem fwd_views_in_bounds (a : kernel_args) (u : Z) :
  NUM_BUFFERS_Q a = 1 -> NUM_BUFFERS_QK a = 1 -> NUM_BUFFERS_O a = 1 ->
  0 < NUM_BUFFERS_KV a ->
  Forall (fun P => forallb (in_bounds a) P = true) (kernel_tasks a u)
  /\ (forallb (barrier_in_bounds a) init_arrivals = true
      <-> 3 <= NUM_BUFFERS_KV a)
  /\ init_bars = fold_left (fun bs b => arrive b bs) init_arrivals (fun _ => 0).
Proof.
  intros HQ HQK HO HKV. split; [|split].
  - apply kernel_tasks_bounds; assumption.
  - unfold init_arrivals, barrier_in_bounds.
    cbn [forallb fst snd bar_slots]. rewrite !andb_true_r.
    cbn [Z.leb Z.compare andb]. rewrite !andb_true_iff, !Z.ltb_lt. lia.
  - reflexivity.
Qed.

Lemma fwd_views_in_bounds_witness :
  Forall (fun P => forallb (in_bounds example_args) P = true)
         (kernel_tasks example_args 0)
  /\ (forallb (barrier_in_bounds example_args) init_arrivals = true
      <-> 3 <= NUM_BUFFERS_KV example_args)
  /\ init_bars = fold_left (fun bs b => arrive b bs) init_arrivals (fun _ => 0).
Proof.
  apply (fwd_views_in_bounds example_args 0);
    first [reflexivity | cbn; lia].
Defined.

(** X27.  The Q buffers are allocated with a single slot but indexed
    with [accum_cnt_q % NUM_BUFFERS_Q]: with more than one slot of Q
    barriers, a program whose first two tiles are both processed loads the
    Q tile of the second one at index 1, outside the buffer array. *)
Theorem fwd_q_buffer_overrun (a : kernel_args) (u t1 t2 : Z)
    (rest : list Z) :
  1 < NUM_BUFFERS_Q a ->
  prog_tiles a u = t1 :: t2 :: rest ->
  tile_active a t1 = true -> tile_active a t2 = true ->
  forallb (in_bounds a) (load_partition a u) = false
  /\ exists row col,
       In (async_descriptor_load tQ (q0_buf, 1) row col (consumer_q0, 1))
          (load_partition a u)
       /\ buf_slots a q0_buf = 1.
Proof.
  intros HQ Hts Ha1 Ha2.
  set (st1 := snd (load_tile a t1 load_init)).
  assert (Hc : accum_count_q st1 = 1).
  { unfold st1, load_tile. rewrite Ha1.
    destruct (load_tile_body_eq a t1 load_init) as [_ ->]. reflexivity. }
  assert (Hin : In (async_descriptor_load tQ (q0_buf, 1)
                      (to_int32 (begin_q (_compute_qlen a t2)
                                 + start_m_of a t2 * BLOCK_M a))
                      (to_int32 (off_h_of a t2 * stride_qh a))
                      (consumer_q0, 1))
                   (load_partition a u)).
  { unfold load_partition. rewrite Hts, !run_tiles_cons. cbn [fst snd].
    apply in_or_app. right. apply in_or_app. left. fold st1.
    unfold load_tile. rewrite Ha2.
    destruct (load_tile_body_eq a t2 st1) as [-> _].
    apply in_or_app. left. unfold load_q. rewrite Hc.
    rewrite Z.rem_small by lia. cbn [In]. tauto. }
  split.
  - destruct (forallb (in_bounds a) (load_partition a u)) eqn:E;
      [|reflexivity].
    rewrite forallb_forall in E. specialize (E _ Hin). discriminate.
  - eexists _, _. split; [exact Hin|reflexivity].
Qed.

Lemma fwd_q_buffer_overrun_witness :
  forallb (in_bounds example_two_q) (load_partition example_two_q 0) = false
  /\ exists row col,
       In (async_descriptor_load tQ (q0_buf, 1) row col (consumer_q0, 1))
          (load_partition example_two_q 0)
       /\ buf_slots example_two_q q0_buf = 1.
Proof.
  apply (fwd_q_buffer_overrun example_two_q 0 0 1 [2; 3]).
  - cbn. lia.
  - vm_compute. reflexivity.
  - vm_compute. reflexivity.
  - vm_compute. reflexivity.
Defined.
(** *** The gradient factor of the backward activation *)

Lemma cosh2_sinh2 (x : R) : (cosh x * cosh x - sinh x * sinh x = 1)%R.
Proof.
  assert (H : (exp x * exp (- x) = 1)%R)
    by (rewrite <- exp_plus, Rplus_opp_r; apply exp_0).
  unfold cosh, sinh. lra.
Qed.

Lemma derivable_pt_lim_tanh (x : R) :
  derivable_pt_lim tanh x (1 - tanh x * tanh x)%R.
Proof.
  pose proof (cosh_pos x) as Hp.
  assert (Hc : cosh x <> 0%R) by lra.
  apply (derivable_pt_lim_ext (sinh / cosh)%F); [reflexivity|].
  replace (1 - tanh x * tanh x)%R
    with ((cosh x * cosh x - sinh x * sinh x) / Rsqr (cosh x))%R.
  - apply derivable_pt_lim_div;
      [apply derivable_pt_lim_sinh | apply derivable_pt_lim_cosh | exact Hc].
  - rewrite cosh2_sinh2. unfold tanh, Rsqr.
    pose proof (cosh2_sinh2 x). field_simplify_eq; [lra|exact Hc].
Qed.

(** The derivative of the activation that selector 2 stores. *)
Lemma bwd_ppT_derivative (gelu : R -> R) (x : R) :
  derivable_pt_lim (bwd_ppT gelu 2) x
    (0.5 * (1 + bwd_tanh_out x)
     + 0.5 * x * (1 - bwd_tanh_out x * bwd_tanh_out x)
       * (0.7978845608 * (1 + 3 * 0.044715 * x * x)))%R.
Proof.
  set (u := ((fct_cte 0.7978845608 * id)
             * (fct_cte 1 + (fct_cte 0.044715 * id) * id))%F).
  assert (Hu : derivable_pt_lim u x
                 (0.7978845608 * (1 + 3 * 0.044715 * x * x))%R).
  { assert (E : exists l, derivable_pt_lim u x l
                  /\ l = (0.7978845608 * (1 + 3 * 0.044715 * x * x))%R).
    { eexists. split.
      - unfold u.
        apply derivable_pt_lim_mult;
          [ apply derivable_pt_lim_mult;
              [apply derivable_pt_lim_const | apply derivable_pt_lim_id]
          | apply derivable_pt_lim_plus;
              [ apply derivable_pt_lim_const
              | apply derivable_pt_lim_mult;
                  [ apply derivable_pt_lim_mult;
                      [apply derivable_pt_lim_const
                      | apply derivable_pt_lim_id]
                  | apply derivable_pt_lim_id ] ] ].
      - unfold mult_fct, plus_fct, fct_cte, id. ring. }
    destruct E as (l & Hl & ->). exact Hl. }
  assert (Ht : derivable_pt_lim (comp tanh u) x
                 ((1 - tanh (u x) * tanh (u x))
                  * (0.7978845608 * (1 + 3 * 0.044715 * x * x)))%R).
  { apply derivable_pt_lim_comp; [exact Hu | apply derivable_pt_lim_tanh]. }
  assert (Eu : u x = (0.7978845608 * x * (1 + 0.044715 * x * x))%R)
    by reflexivity.
  apply (derivable_pt_lim_ext
           ((fct_cte 0.5 * id) * (fct_cte 1 + comp tanh u))%F);
    [reflexivity|].
  assert (E : exists l,
             derivable_pt_lim
               ((fct_cte 0.5 * id) * (fct_cte 1 + comp tanh u))%F x l
             /\ l = (0.5 * (1 + bwd_tanh_out x)
                     + 0.5 * x * (1 - bwd_tanh_out x * bwd_tanh_out x)
                       * (0.7978845608 * (1 + 3 * 0.044715 * x * x)))%R).
  { eexists. split.
    - apply derivable_pt_lim_mult;
        [ apply derivable_pt_lim_mult;
            [apply derivable_pt_lim_const | apply derivable_pt_lim_id]
        | apply derivable_pt_lim_plus;
            [apply derivable_pt_lim_const | exact Ht] ].
    - unfold bwd_tanh_out, tanh_approx_fp32, mult_fct, plus_fct, fct_cte,
        id, comp. rewrite Eu. ring. }
  destruct E as (l & Hl & ->). exact Hl.
Qed.

(** X28.  The factor by which the backward activation multiplies [dpT]
    is the derivative of the activation it stores.  For selector 0, and
    for any selector other than 1 and 2, the activation is the identity
    and the factor is 1.  For selector 2 the activation is the tanh
    approximation of GELU and the factor differs from its derivative only
    by the rounding of the coefficient 0.1070322243, by at most
    [5.5e-11 * |x|^3] at a score [x]. *)
Theorem bwd_grad_is_derivative (gelu gelu_grad : R -> R) (sel : Z) (x : R) :
  (sel <> 1 -> sel <> 2 ->
   bwd_ppT gelu sel x = x
   /\ derivable_pt_lim (bwd_ppT gelu sel) x (bwd_grad gelu_grad sel x))
  /\ exists D,
       derivable_pt_lim (bwd_ppT gelu 2) x D
       /\ (Rabs (bwd_grad gelu_grad 2 x - D) <= 5.5e-11 * Rabs x ^ 3)%R.
Proof.
  split.
  - intros H1 H2.
    assert (Ep : forall y, bwd_ppT gelu sel y = y).
    { intros y. unfold bwd_ppT, to_dtype.
      destruct (sel =? 0); [reflexivity|].
      destruct (Z.eqb_spec sel 1); [contradiction|].
      destruct (Z.eqb_spec sel 2); [contradiction|reflexivity]. }
    assert (Eg : bwd_grad gelu_grad sel x = 1%R).
    { unfold bwd_grad.
      destruct (sel =? 0); [reflexivity|].
      destruct (Z.eqb_spec sel 1); [contradiction|].
      destruct (Z.eqb_spec sel 2); [contradiction|reflexivity]. }
    split; [apply Ep|]. rewrite Eg.
    apply (derivable_pt_lim_ext id); [intros y; symmetry; apply Ep|].
    apply derivable_pt_lim_id.
  - eexists. split; [apply bwd_ppT_derivative|].
    unfold bwd_grad. cbn [Z.eqb Pos.eqb].
    set (t := bwd_tanh_out x).
    assert (Ht : (-1 < t < 1)%R)
      by (unfold t, bwd_tanh_out, tanh_approx_fp32;
          split; [apply tanh_gt_m1 | apply tanh_lt_1]).
    set (s := (1 - t * t)%R).
    assert (Hs : (0 <= s <= 1)%R) by (unfold s; nra).
    replace (0.5 * x * s * (0.7978845608 + 0.1070322243 * x * x)
             + 0.5 * (1 + t)
             - (0.5 * (1 + t)
                + 0.5 * x * s
                  * (0.7978845608 * (1 + 3 * 0.044715 * x * x))))%R
      with (- (5.4258e-11 * s * (x * x * x)))%R by (unfold s; lra).
    rewrite Rabs_Ropp, !Rabs_mult.
    rewrite (Rabs_right 5.4258e-11) by lra.
    rewrite (Rabs_right s) by lra.
    replace (Rabs x ^ 3)%R with (Rabs x * Rabs x * Rabs x)%R by ring.
    pose proof (Rabs_pos x) as Hx.
    assert (0 <= Rabs x * Rabs x * Rabs x)%R
      by (apply Rmult_le_pos; [apply Rmult_le_pos|]; assumption).
    nra.
Qed.
